(* ===== verification/_CoqProject ===== *)
-Q . S2P
Prelude.v
Utf8.v
Text.v
Bind.v
Bootstrap.v
Grid.v
Protocol.v
Crypto.v
Codec.v
CodecFacts.v
WireFormat.v
Delivery.v
CodecProps.v
TermState.v
Pty.v
ServerSession.v
ServerFacts.v
ServerProps.v
Escape.v
Float32.v
Frame.v
Echo.v
Terminal.v
Render.v
MirrorSession.v
MirrorFacts.v
MirrorProps.v
ServerLog.v
ServerNetwork.v
ServerNetworkProps.v
ServerStream.v
Repair.v
Readers.v
Lifecycle.v
ClientNetwork.v
Display.v
ClientLog.v
ClientNetworkProps.v
Handshake.v
ClientRefs.v
Yields.v
ServerRefs.v
Acks.v
Keyboard.v
UnitTests.v
SessionTests.v
System.v
SystemProps.v
Convergence.v
Reliability.v
