(* ===== verification/Prelude.v ===== *)
(** * rumsh: a shell over UDP, modelled and verified

    rumsh keeps a remote shell on the user's screen over UDP. The server runs the shell in a
    pseudo-terminal, feeds its output to a terminal emulator and sends the client updates that turn a
    screen the client has into the present one; the client shows them, draws what is typed before the
    server confirms it, and numbers, keeps and repeats what it sends. Datagrams are encrypted, and may
    be lost, repeated or reordered.

    ** How the code is modelled

    A function of the program is a function here, with the program's name where Rocq allows it. A fallible
    one returns an [outcome]: [Ok], [Err] for an error the caller sees, [Panic] for a panic (indexing and
    slicing out of range, [unwrap], [unreachable!]). A method on [&mut self] is a function of [M S],
    from a state to a state and an outcome; its changes stay when it fails. Integers are [Z]; an arithmetic
    operation of the code on [u16] or [u64] wraps here as in a release build ([+₆₄] and the like),
    and the theorems that need it assume or prove that it does not. Bytes and characters are [Z] too;
    [Instant] is a number of nanoseconds and an argument; hash maps and B-tree maps are [gmap], and an
    order in which a hash map is walked is an argument. Recursion is on the data; the loops that are not
    structural take as fuel a bound on their rounds: [recover] and [prune_superseded] the size of the map
    they empty, [chunks] the length of the list, [digits] one more than the binary logarithm. The
    renderer's column loop ([paint_columns]) is the one that need not end: the number of columns is
    enough when it does ([paint_draws_flagged_rows]), and on a frame of 65535 columns ending in a
    wide cell it does not ([paint_row_hangs]).

    Third-party code is a class of operations with a class of laws that state what it documents:
    [Bincode] (bincode), [Lz4] (lz4_flex), [Aead] (chacha20poly1305), [Vt] (libghostty_vt), [PtyOs]
    and [Tty] (the operating system and crossterm), [Stdout] (where the renderer writes).
    [WireFormat], [Toy], [Printer] and the fakes are instances at which the laws are proved and the witnesses
    evaluated.

    ** The parts

    This file: the monads and their reasoning principles ([runs], [safe], [always], [establishes]),
    machine integers, lists, the tactic [mstep] and the hint database [safe].
    - Standard library: [Utf8], [Text] (strings, integer parsing), [Float32] ([f32]).
    - [Grid] is src/src/protocol/grid.rs, [Protocol] is src/src/protocol.rs, [Crypto] is
      src/src/crypto.rs, [Codec] is src/src/protocol/codec.rs. [CodecFacts], [Delivery] (a
      frame whose datagrams arrive in order, for any codec) and [CodecProps] are about them; [PacketCodecLaws] in [CodecProps] is the interface the sessions are proved
      against, which both codecs discharge.
    - Server: [TermState] is src/src/server/state.rs, [Pty] src/src/server/pty.rs, [ServerSession]
      src/src/server/session.rs ([AuthoritativeSession]; its lemmas in [ServerFacts], its theorems in
      [ServerProps]), [Bind] and [ServerNetwork] src/src/server/network.rs. [ServerLog] keeps the log of
      what the session seals; [ServerNetworkProps], [ServerStream] and [Repair] are about the loop.
      [Yields] is a logic of the session's methods and the loop around them, whose uses are
      [ServerRefs] and [Acks].
    - Client: [Escape] is src/src/client/escape.rs, [Frame], [Terminal] and [Render] are
      src/src/client/terminal.rs (lines 1-171, 172-340, 341-562), [Echo] is src/src/client/echo.rs,
      [MirrorSession] src/src/client/session.rs (lemmas in [MirrorFacts], theorems in [MirrorProps];
      [Keyboard] is about what is typed),
      [Lifecycle] src/src/client/lifecycle.rs, [ClientNetwork] src/src/client/network.rs (theorems in
      [ClientNetworkProps]); [ClientLog] keeps the log of what the session seals. [Display] joins the mirror,
      the renderer and the loop's repaints.
    - [ServerRefs] and [ClientRefs] are the two sides of a frame's reference: what the server may name,
      and what the client still remembers. [Acks] is what the server acknowledges: only what it has taken.
    - [Readers] are the threads that forward the shell's output (src/src/server/pty.rs) and what is
      typed (src/src/client/network.rs) to the loops.
    - [Bootstrap] is src/src/client/bootstrap.rs and src/src/main.rs: how a session starts.
    - [Handshake] joins the two ends of the handshake, [System] the two loops after it, and
      [SystemProps], [Convergence] (the screen) and [Reliability] (the keyboard) have the theorems on the whole.
    - [UnitTests] and [SessionTests] are the tests beside the code (the modules [tests] of its files),
      as programs over the model.

    The network loops are [async] programs: their model takes what the operating system delivers, and
    which spawned task goes on next, as a sequence of events, and the theorems hold for all
    sequences. [serve] is one event of the server's loop ([select!] and the task pool), [loop_round] one of
    the client's. A session answers an event with actions, which [execute_action] and
    [perform_action] carry out.

    ** The theorems

    - The whole: the client shows the server's screens ([client_shows_server]), what is typed reaches the
      shell once and in order, and what it prints the emulator ([typed_reaches_shell]); what is numbered above the
      client's handshake is applied or kept ([nothing_lost]), and a round of retransmission that gets through
      brings all of it to the server ([everything_arrives]); what has the handshake's number or a lower one is
      dropped as a duplicate; no frame that arrives lacks its reference ([no_frame_refused]), the next frame that gets through brings the client up to date, whatever was lost
      before it ([screen_converges]), everything stays within its type ([run_well_typed]), by an
      invariant of [System] ([system_ok]) that holds along every run.
    - Synchronisation: an update turns its reference into the present screen ([diff_patch_roundtrip]);
      the server picks a reference the client has and when to send ([queued_frame_carries_screen],
      [frame_scheduling]); the grid is the emulator's snapshot ([update_renders_snapshot]); the
      client's history holds the server's screens ([client_screen_genuine]).
    - Transport: sealing, fragmentation and reassembly (of one frame in [fragments_delivered], of any mix
      of frames in [opened_payloads_genuine]; [chacha_buffer_bounded]), authenticity and nonces, retransmission
      ([kept_until_acknowledged], [retransmission_exact]), repair of lost fragments
      ([nack_repairs_frame]), one frame in flight ([one_frame_at_a_time]), the reordering buffer as a
      refinement of an abstract pty and emulator ([reliable_stream_in_order]).
    - The client's screen: predictions and what taking them off leaves
      ([abort_reveals_server_screen]), what is flagged for painting ([repaint_complete]), what painting
      draws ([paint_draws_flagged_rows]), and the two together: after a repaint the terminal shows the mirror
      ([display_shows_mirror]).
    - The client's loop implements a machine over its session ([loop_follows_session]); the escape
      sequences are those of a reader with one character of lookahead ([interpreter_transparent]).
    - The ends of the pipes: the readers forward their input ([readers_forward]).
    - Starting and ending: the token ([bootstrap_agrees]), the handshake ([handshake_agrees]), the
      terminal given back ([terminal_restored]).
    - Defects are theorems too: a reply that is lost is lost for good ([lost_reply_unusable]), a late
      handshake stalls its client ([stale_handshake_stalls]), a handshake inside a session panics
      ([in_session_handshake_panics]), nonces are shared ([nonces_shared_across_directions]).

    - The model agrees with the program where the program says what it expects: its own unit tests
      but one, with their screens, delays and losses, pass ([unit_tests_pass]).

    ** Bounds

    The theorems on the whole are about fewer than 2^62 events, which keeps the sequence numbers below
    2^63, the mark of transient packets, and about frames the protocol can carry ([carried]): at most
    65536 cells and fewer than 2^16 fragments. Beyond them the code wraps ([diff_from_wraps]).

    ** Not modelled

    The setting up of sockets beyond the choice of an address, logging, the printed help, the
    parsing of options by clap, daemonize and the process's exit code; a panic inside a blocking task. A
    send on a socket is taken to succeed. The module lists,
    src/src/bin/test_integration.rs and the python drivers are no part of the program; of the unit
    tests, [test_fragmentation_roundtrip] is left to [fragments_delivered]. Time is not related to the order of events: theorems on timing hold for any instants given. *)

From stdpp Require Export base gmap strings list fin_maps sorting.
From Stdlib Require Export ZArith Lia.
#[global] Set Default Goal Selector "!".
#[global] Set Warnings "-clear-no-such-hyp".

#[global] Open Scope Z_scope.

(** ** Errors and outcomes *)

(** The errors the modelled code returns ([anyhow::Error] values), one constructor per cause. *)
Inductive Error : Type :=
  | EncodeError
  | DecodeError
  | EncryptionError
  | DecryptionError
  | DecompressError
  | EmptyPayload
  | UnknownCompressionFlag (flag : Z)
  | SessionIdMismatch (expected got : Z)
  | RowOutOfBounds (y rows : Z)
  | CellOutOfBounds (x cols : Z)
  | BackendError
  | Msg (text : string).

#[export] Instance Error_eq_dec : EqDecision Error.
Proof. solve_decision. Defined.

(** What a fallible computation does: [Ok], an [Err] the caller sees, or a panic. *)
Inductive outcome (A : Type) : Type :=
  | Ok (a : A)
  | Err (e : Error)
  | Panic.
Arguments Ok {A} a.
Arguments Err {A} e.
Arguments Panic {A}.

#[export] Instance outcome_eq_dec `{EqDecision A} : EqDecision (outcome A).
Proof. solve_decision. Defined.

#[export] Instance outcome_ret : MRet outcome := λ A, Ok.
#[export] Instance outcome_bind : MBind outcome := λ A B f o,
  match o with Ok a => f a | Err e => Err e | Panic => Panic end.
#[export] Instance outcome_fmap : FMap outcome := λ A B f o,
  match o with Ok a => Ok (f a) | Err e => Err e | Panic => Panic end.

Definition ok {A} (o : outcome A) : option A :=
  match o with Ok a => Some a | _ => None end.

Definition is_ok {A} (o : outcome A) : bool :=
  match o with Ok _ => true | _ => false end.

Definition ok_or {A} (e : Error) (o : option A) : outcome A :=
  match o with Some a => Ok a | None => Err e end.

(** ** The state-and-error monad of a [&mut self] method returning [Result]

    The state reached so far survives an error, as the mutations made through [&mut self] before a
    [?] do. *)
Definition M (S A : Type) : Type := S → S * outcome A.

#[export] Instance M_ret S : MRet (M S) := λ A a s, (s, Ok a).
#[export] Instance M_bind S : MBind (M S) := λ A B f m s,
  match m s with
  | (s', Ok a) => f a s'
  | (s', Err e) => (s', Err e)
  | (s', Panic) => (s', Panic)
  end.

Definition get {S} : M S S := λ s, (s, Ok s).
Definition gets {S A} (f : S → A) : M S A := λ s, (s, Ok (f s)).
Definition modify {S} (f : S → S) : M S unit := λ s, (f s, Ok tt).
Definition lift {S A} (o : outcome A) : M S A := λ s, (s, o).
Definition fail {S A} (e : Error) : M S A := λ s, (s, Err e).

(** [if let Ok(a) = ...]: an error is observed and dropped, a panic is not. *)
Definition try {A} (o : outcome A) : outcome (option A) :=
  match o with Ok a => Ok (Some a) | Err _ => Ok None | Panic => Panic end.
Definition attempt {S A} (m : M S A) : M S (option A) := λ s,
  let '(s', o) := m s in (s', try o).

(** [for x in l { acc = f(acc, x)?; }] *)
Fixpoint for_each {A B} (l : list A) (f : B → A → outcome B) (acc : B) : outcome B :=
  match l with
  | [] => Ok acc
  | x :: l' => acc' ← f acc x; for_each l' f acc'
  end.

(** [for x in l { self.step(x)?; }] *)
Fixpoint for_each_m {S A} (l : list A) (f : A → M S unit) : M S unit :=
  match l with
  | [] => mret tt
  | x :: l' => f x ;; for_each_m l' f
  end.

(** ** Machine integers

    A [uN] is a [Z] in [0 .. 2^N - 1]. The program is built with [cargo build --release], whose
    profile leaves overflow checks off: [+], [-] and [*] wrap, and an [as] cast truncates. [usize]
    is 64 bits wide. *)
Definition fits (w x : Z) : Prop := 0 ≤ x < 2 ^ w.
Definition wrap (w x : Z) : Z := x mod 2 ^ w.

#[export] Instance fits_dec w x : Decision (fits w x).
Proof. unfold fits. apply _. Defined.

Abbreviation u8 := (fits 8) (only parsing).
Abbreviation u16 := (fits 16) (only parsing).
Abbreviation u32 := (fits 32) (only parsing).
Abbreviation u64 := (fits 64) (only parsing).

Declare Scope word_scope.
Delimit Scope word_scope with word.
Notation "x +₁₆ y" := (wrap 16 (x + y)) (at level 50, left associativity) : word_scope.
Notation "x -₁₆ y" := (wrap 16 (x - y)) (at level 50, left associativity) : word_scope.
Notation "x *₁₆ y" := (wrap 16 (x * y)) (at level 40, left associativity) : word_scope.
Notation "x +₃₂ y" := (wrap 32 (x + y)) (at level 50, left associativity) : word_scope.
Notation "x +₆₄ y" := (wrap 64 (x + y)) (at level 50, left associativity) : word_scope.
Notation "x -₆₄ y" := (wrap 64 (x - y)) (at level 50, left associativity) : word_scope.
Notation "x *₆₄ y" := (wrap 64 (x * y)) (at level 40, left associativity) : word_scope.
#[global] Open Scope word_scope.

Definition saturating_sub (x y : Z) : Z := Z.max 0 (x - y).
Definition saturating_add64 (x y : Z) : Z := Z.min (2 ^ 64 - 1) (x + y).

(** ** Instants and durations, in nanoseconds *)
Abbreviation Instant := Z (only parsing).
Abbreviation Duration := Z (only parsing).
Definition from_millis (n : Z) : Duration := n * 1000000.
Definition from_secs (n : Z) : Duration := n * 1000000000.
Definition as_millis (d : Duration) : Z := d / 1000000.
(** [Instant::duration_since] saturates at zero. *)
Definition duration_since (now earlier : Instant) : Duration := Z.max 0 (now - earlier).

(** ** Socket addresses, compared as the standard library does *)
Inductive SocketAddr : Type :=
  | SocketAddrV4 (ip port : Z)
  | SocketAddrV6 (ip port flowinfo scope_id : Z).
#[export] Instance SocketAddr_eq_dec : EqDecision SocketAddr.
Proof. solve_decision. Defined.

(** ** Vectors

    Indexing out of range panics. The index is a [usize], hence not negative. *)
Definition vec {A} (a : A) (n : Z) : list A := replicate (Z.to_nat n) a.
Definition len {A} (l : list A) : Z := Z.of_nat (length l).
Definition vec_get {A} (l : list A) (i : Z) : outcome A :=
  match l !! Z.to_nat i with Some a => Ok a | None => Panic end.
Definition vec_set {A} (l : list A) (i : Z) (a : A) : outcome (list A) :=
  if decide (Z.to_nat i < length l)%nat then Ok (<[Z.to_nat i := a]> l) else Panic.

(** ** Record update: [r <| field := v |>] and [r <| field ::= f |>]

    A record type lists its constructor applied to its projections once, as an [Eta] instance; the
    update of a field is found by abstracting that field in the list. *)
Class Eta (R : Type) := eta : R → R.
Class Upd {R T : Type} (proj : R → T) := upd : (T → T) → R → R.
Arguments upd {R T} proj {_} _ _ /.
Arguments eta {R} {_} _ /.

Ltac find_upd :=
  match goal with
  | |- @Upd ?R ?T ?proj =>
    let g := constr:(λ (f : T → T) (r : R), ltac:(
      let e := eval cbv [eta] in (@eta R _ r) in
      let e := eval hnf in e in
      let e := eval cbv beta in e in
      let e' := eval pattern (proj r) in e in
      match e' with
      | ?h _ => let b := eval cbv beta in (h (f (proj r))) in exact b
      end)) in
    exact g
  end.
#[export] Hint Extern 1 (Upd _) => find_upd : typeclass_instances.

Notation "r <| proj ::= f |>" := (upd proj f r)
  (at level 1, left associativity, f at level 200) : word_scope.
Notation "r <| proj := v |>" := (upd proj (λ _, v) r)
  (at level 1, left associativity, v at level 200) : word_scope.

(** ** Ordered maps

    A [BTreeMap<u64, V>] is a [gmap Z V] read in increasing key order. *)
Module BTree.
Section btree.
Context {V : Type}.
Implicit Types m : gmap Z V.

Definition keys m : list Z := merge_sort Z.le (map_to_list m).*1.
Definition iter m : list (Z * V) := omap (λ k, pair k <$> m !! k) (keys m).
Definition first_key m : option Z := head (keys m).
Definition remove (k : Z) m : option V * gmap Z V := (m !! k, delete k m).
End btree.
End BTree.

(** ** Ranges [0..n] *)
Definition range (n : Z) : list Z := seqZ 0 n.

(** * Generic lemmas *)

Lemma wrap_fits w x : 0 ≤ w → fits w (wrap w x).
Proof. intros. unfold fits, wrap. apply Z.mod_pos_bound. lia. Qed.

Lemma wrap_small w x : fits w x → wrap w x = x.
Proof. unfold fits, wrap. intros. by apply Z.mod_small. Qed.

Lemma fits_lor w a b : 0 ≤ w → fits w a → fits w b → fits w (Z.lor a b).
Proof.
  intros Hw [Ha Ha'] [Hb Hb']. split; [by apply Z.lor_nonneg|].
  assert (Z.lor a b = Z.lor a b mod 2 ^ w) as ->; [|by apply Z.mod_pos_bound, Z.pow_pos_nonneg].
  apply Z.bits_inj'. intros n Hn. destruct (Z.lt_ge_cases n w) as [Hlt|Hge].
  - by rewrite Z.mod_pow2_bits_low.
  - rewrite Z.mod_pow2_bits_high by lia. rewrite Z.lor_spec.
    rewrite <-(Z.mod_small a (2 ^ w)), <-(Z.mod_small b (2 ^ w)) by done.
    by rewrite !Z.mod_pow2_bits_high by lia.
Qed.

Lemma fits_mono w w' x : 0 ≤ w ≤ w' → fits w x → fits w' x.
Proof.
  unfold fits. intros [? ?] [? ?]. split; [done|].
  eapply Z.lt_le_trans; [done|]. apply Z.pow_le_mono_r; lia.
Qed.

Lemma duration_since_nonneg now t : 0 ≤ duration_since now t.
Proof. unfold duration_since. lia. Qed.

Lemma duration_since_after now t : t ≤ now → duration_since now t = now - t.
Proof. unfold duration_since. lia. Qed.

Section vec_lemmas.
Context {A : Type}.
Implicit Types (l : list A) (a b : A).

Lemma len_nonneg l : 0 ≤ len l.
Proof. unfold len. lia. Qed.

Lemma len_app l1 l2 : len (l1 ++ l2) = len l1 + len l2.
Proof. unfold len. rewrite length_app. lia. Qed.

Lemma len_vec a n : 0 ≤ n → len (vec a n) = n.
Proof. intros. unfold len, vec. rewrite length_replicate. lia. Qed.

Lemma vec_get_ok l i a : l !! Z.to_nat i = Some a → vec_get l i = Ok a.
Proof. unfold vec_get. by intros ->. Qed.

Lemma vec_get_Some l i : 0 ≤ i < len l → ∃ a, l !! Z.to_nat i = Some a ∧ vec_get l i = Ok a.
Proof.
  unfold len. intros. destruct (lookup_lt_is_Some_2 l (Z.to_nat i)) as [a Ha]; [lia|].
  exists a. split; [done|]. by apply vec_get_ok.
Qed.

Lemma vec_set_ok l i a : 0 ≤ i < len l → vec_set l i a = Ok (<[Z.to_nat i := a]> l).
Proof. unfold len, vec_set. intros. rewrite decide_True; [done|lia]. Qed.

Lemma vec_set_panic l i a : len l ≤ i → vec_set l i a = Panic.
Proof. unfold len, vec_set. intros. rewrite decide_False; [done|lia]. Qed.

Lemma lookup_vec a n i : 0 ≤ i < n → vec a n !! Z.to_nat i = Some a.
Proof. intros. unfold vec. apply lookup_replicate_2. lia. Qed.
End vec_lemmas.

Lemma list_eq_Z {A} (l k : list A) :
  len l = len k → (∀ i, 0 ≤ i < len l → l !! Z.to_nat i = k !! Z.to_nat i) → l = k.
Proof.
  unfold len. intros Hlen Heq. apply list_eq_same_length with (length k); [lia|lia|].
  intros i x y Hi Hx Hy. specialize (Heq (Z.of_nat i)).
  rewrite Nat2Z.id in Heq. rewrite Heq in Hx by lia. congruence.
Qed.

(** *** Loops *)
Lemma for_each_app {A B} (l1 l2 : list A) (f : B → A → outcome B) acc :
  for_each (l1 ++ l2) f acc = acc' ← for_each l1 f acc; for_each l2 f acc'.
Proof.
  revert acc. induction l1 as [|x l1 IH]; intros acc; simpl; [done|].
  destruct (f acc x); simpl; auto.
Qed.

(** A loop that pushes at most one element per round collects them in order. *)
Lemma for_each_push {A B} (l : list A) (g : A → option B) (f : list B → A → outcome (list B)) acc :
  (∀ x acc, x ∈ l → f acc x = Ok (acc ++ option_list (g x))) →
  for_each l f acc = Ok (acc ++ omap g l).
Proof.
  revert acc. induction l as [|x l IH]; intros acc Hf; simpl.
  { by rewrite app_nil_r. }
  rewrite (Hf x acc) by left. simpl. rewrite IH by (intros; apply Hf; by right).
  rewrite <-(assoc_L (++)). f_equal. f_equal. csimpl. by destruct (g x).
Qed.

(** A loop establishes an invariant that every round preserves and in which no round fails. *)
Lemma for_each_inv {A B} (P : list A → B → Prop) (l : list A) (f : B → A → outcome B) acc :
  P [] acc →
  (∀ done x todo acc, l = done ++ x :: todo → P done acc →
     ∃ acc', f acc x = Ok acc' ∧ P (done ++ [x]) acc') →
  ∃ acc', for_each l f acc = Ok acc' ∧ P l acc'.
Proof.
  intros H0 Hstep.
  enough (∀ todo done acc, l = done ++ todo → P done acc →
    ∃ acc', for_each todo f acc = Ok acc' ∧ P l acc') as H.
  { apply (H l []); auto. }
  induction todo as [|x todo IH]; intros done acc' Hl HP; simpl.
  { exists acc'. rewrite app_nil_r in Hl. by subst. }
  destruct (Hstep done x todo acc' Hl HP) as (acc'' & -> & HP').
  simpl. apply (IH (done ++ [x])); [|done]. by rewrite <-(assoc_L (++)).
Qed.

Lemma for_each_m_app {S A} (l1 l2 : list A) (f : A → M S unit) s :
  for_each_m (l1 ++ l2) f s = (for_each_m l1 f ;; for_each_m l2 f) s.
Proof.
  revert s. induction l1 as [|x l1 IH]; intros s; simpl; [done|].
  unfold mbind, M_bind. by destruct (f x s) as [s' [| |]].
Qed.

Lemma elem_of_range n i : i ∈ range n ↔ 0 ≤ i < n.
Proof. unfold range. rewrite elem_of_seqZ. lia. Qed.

Lemma for_each_m_omap {S A B} (g : A → option B) (l : list A) (f : B → M S unit) s :
  for_each_m (omap g l) f s =
  for_each_m l (λ x, match g x with Some y => f y | None => mret tt end) s.
Proof.
  revert s. induction l as [|x l IH]; intros s; csimpl; [done|].
  destruct (g x) as [y|]; csimpl; [|by apply IH].
  unfold mbind, M_bind. destruct (f y s) as [s' [[]| |]]; [by apply IH|done|done].
Qed.

(** A counted loop establishes an invariant indexed by the counter. *)
Lemma for_each_m_range {S} (P : Z → S → Prop) n (f : Z → M S unit) s :
  0 ≤ n → P 0 s →
  (∀ k s, 0 ≤ k < n → P k s → ∃ s', f k s = (s', Ok tt) ∧ P (k + 1) s') →
  ∃ s', for_each_m (range n) f s = (s', Ok tt) ∧ P n s'.
Proof.
  intros Hn H0 Hstep. unfold range.
  enough (∀ d m s, 0 ≤ d → 0 ≤ m → m + d = n → P m s →
    ∃ s', for_each_m (seqZ m d) f s = (s', Ok tt) ∧ P n s') as H by (apply H; lia || done).
  intros d m s' Hd. revert m s'. pattern d. apply natlike_ind; [| |done]; clear d Hd.
  - intros m s' Hm Hmn HP. exists s'. assert (m = n) as -> by lia. done.
  - intros d Hd IH m s' Hm Hmn HP. rewrite seqZ_cons, Z.pred_succ by lia. simpl.
    destruct (Hstep m s') as (s'' & Hf & HP'); [lia|done|].
    unfold mbind, M_bind. rewrite Hf. apply IH; [lia|lia|by rewrite <-Z.add_1_r].
Qed.

(** *** Runs of the state monad *)

(** [m] started in [s] returns [a] and leaves [s']. *)
Definition runs {S A} (m : M S A) (s s' : S) (a : A) : Prop := m s = (s', Ok a).

Lemma runs_bind {S A B} (m : M S A) (f : A → M S B) s s1 s2 a b :
  runs m s s1 a → runs (f a) s1 s2 b → runs (m ≫= f) s s2 b.
Proof. unfold runs, mbind, M_bind. by intros ->. Qed.
Lemma runs_bind_inv {S A B} (m : M S A) (f : A → M S B) s s2 b :
  runs (m ≫= f) s s2 b → ∃ s1 a, runs m s s1 a ∧ runs (f a) s1 s2 b.
Proof. unfold runs, mbind, M_bind. destruct (m s) as [s1 [a|e|]]; [|done..]. intros E. by exists s1, a. Qed.
Lemma runs_ret {S A} (a : A) (s : S) : runs (mret a) s s a.
Proof. done. Qed.
Lemma runs_get {S} (s : S) : runs get s s s.
Proof. done. Qed.
Lemma runs_gets {S A} (f : S → A) s : runs (gets f) s s (f s).
Proof. done. Qed.
Lemma runs_modify {S} (f : S → S) s : runs (modify f) s (f s) tt.
Proof. done. Qed.
Lemma runs_lift {S A} (a : A) (s : S) o : o = Ok a → runs (lift o) s s a.
Proof. by intros ->. Qed.

(** One step of a run whose first action is elementary. *)
Ltac mstep :=
  eapply runs_bind;
  [first [apply runs_get | apply runs_gets | apply runs_modify | apply runs_ret
         | apply runs_lift; eassumption | eassumption]|];
  cbn beta iota.

(** *** Invariants of the state monad

    [safe I m]: [m] keeps [I] whatever its outcome, and does not panic. *)
Definition safe {S A} (I : S → Prop) (m : M S A) : Prop := ∀ s, I s → I (m s).1 ∧ (m s).2 ≠ Panic.

(** [establishes P m Q]: when [m], started where [P] holds, returns [a], [Q a] holds. *)
Definition establishes {S A} (P : S → Prop) (m : M S A) (Q : A → S → Prop) : Prop :=
  ∀ s s' a, P s → runs m s s' a → Q a s'.

Create HintDb safe.

Section safe.
Context {S : Type} (I : S → Prop).

Lemma safe_bind {A B} (m : M S A) (f : A → M S B) : safe I m → (∀ a, safe I (f a)) → safe I (m ≫= f).
Proof.
  intros Hm Hf s Hs. destruct (Hm s Hs) as [Hi Hp]. unfold mbind, M_bind.
  destruct (m s) as [s1 [a| |]]; [by apply Hf|done|done].
Qed.
Lemma safe_ret {A} (a : A) : safe I (mret a).
Proof. by intros s. Qed.
Lemma safe_get : safe I get.
Proof. by intros s. Qed.
Lemma safe_gets {A} (f : S → A) : safe I (gets f).
Proof. by intros s. Qed.
Lemma safe_modify (f : S → S) : (∀ s, I s → I (f s)) → safe I (modify f).
Proof. intros Hf s Hs. split; [by apply Hf|done]. Qed.
Lemma safe_lift {A} (o : outcome A) : o ≠ Panic → safe I (lift o).
Proof. by intros Ho s. Qed.
Lemma safe_attempt {A} (m : M S A) : safe I m → safe I (attempt m).
Proof.
  intros Hm s Hs. destruct (Hm s Hs) as [Hi Hp]. unfold attempt. by destruct (m s) as [s1 [a| |]].
Qed.
Lemma safe_if {A} (b : bool) (m1 m2 : M S A) : safe I m1 → safe I m2 → safe I (if b then m1 else m2).
Proof. by destruct b. Qed.
Lemma safe_decide {A} (Q : Prop) `{Decision Q} (m1 m2 : M S A) :
  safe I m1 → safe I m2 → safe I (if decide Q then m1 else m2).
Proof. by case_decide. Qed.
Lemma safe_for_each_m {A} (l : list A) (f : A → M S unit) : (∀ x, safe I (f x)) → safe I (for_each_m l f).
Proof. intros Hf. induction l as [|x l IH]; [apply safe_ret|]. apply safe_bind; [done|]. by intros _. Qed.
End safe.
#[export] Hint Resolve safe_bind safe_ret safe_get safe_gets safe_attempt safe_if safe_decide safe_for_each_m : safe.

(** [always I m]: [m] keeps [I] whatever its outcome. *)
Definition always {S A} (I : S → Prop) (m : M S A) : Prop := ∀ s, I s → I (m s).1.

Section always.
Context {S : Type} (I : S → Prop).

Lemma always_bind {A B} (m : M S A) (f : A → M S B) :
  always I m → (∀ a, always I (f a)) → always I (m ≫= f).
Proof.
  intros Hm Hf s Hs. specialize (Hm s Hs). unfold mbind, M_bind. destruct (m s) as [s1 [a| |]]; [by apply Hf|done..].
Qed.
Lemma always_ret {A} (a : A) : always I (mret a).
Proof. by intros s. Qed.
Lemma always_get : always I get.
Proof. by intros s. Qed.
(** A bind on the state itself. *)
Lemma always_get_bind {A} (f : S → M S A) : (∀ s, I s → I (f s s).1) → always I (get ≫= f).
Proof. intros Hf s Hs. by apply Hf. Qed.
Lemma always_modify (f : S → S) : (∀ s, I s → I (f s)) → always I (modify f).
Proof. intros Hf s Hs. by apply Hf. Qed.
Lemma always_attempt {A} (m : M S A) : always I m → always I (attempt m).
Proof. intros Hm s Hs. specialize (Hm s Hs). unfold attempt. by destruct (m s). Qed.
Lemma always_if {A} (b : bool) (m1 m2 : M S A) : always I m1 → always I m2 → always I (if b then m1 else m2).
Proof. by destruct b. Qed.
Lemma always_for_each_m {A} (l : list A) (f : A → M S unit) : (∀ x, always I (f x)) → always I (for_each_m l f).
Proof. intros Hf. induction l as [|x l IH]; [apply always_ret|]. apply always_bind; [done|]. by intros _. Qed.
End always.
#[export] Hint Resolve always_ret always_get always_attempt always_if always_for_each_m : safe.

Section establishes.
Context {S : Type}.
Implicit Types P : S → Prop.

Lemma est_bind {A B} P (R : A → S → Prop) (m : M S A) (f : A → M S B) Q :
  establishes P m R → (∀ a, establishes (R a) (f a) Q) → establishes P (m ≫= f) Q.
Proof.
  intros Hm Hf s s' b Hs. unfold runs, mbind, M_bind. destruct (m s) as [s1 [a| |]] eqn:E; [|done|done].
  intros Hr. eapply (Hf a); [by eapply Hm|exact Hr].
Qed.
Lemma est_ret {A} P (a : A) (Q : A → S → Prop) : (∀ s, P s → Q a s) → establishes P (mret a) Q.
Proof. intros HQ s s' b Hs [= <- <-]. by apply HQ. Qed.
Lemma est_modify P (f : S → S) (Q : unit → S → Prop) : (∀ s, P s → Q tt (f s)) → establishes P (modify f) Q.
Proof. intros HQ s s' [] Hs [= <-]. by apply HQ. Qed.
Lemma est_get P (Q : S → S → Prop) : (∀ s, P s → Q s s) → establishes P get Q.
Proof. intros HQ s s' a Hs [= <- <-]. by apply HQ. Qed.
Lemma est_gets {A} P (f : S → A) (Q : A → S → Prop) : (∀ s, P s → Q (f s) s) → establishes P (gets f) Q.
Proof. intros HQ s s' a Hs [= <- <-]. by apply HQ. Qed.
Lemma est_lift {A} P (o : outcome A) (Q : A → S → Prop) :
  (∀ s a, P s → o = Ok a → Q a s) → establishes P (lift o) Q.
Proof. intros HQ s s' a Hs [= <- Ho]. by apply HQ. Qed.
Lemma est_weaken {A} P P' (m : M S A) (Q Q' : A → S → Prop) :
  establishes P' m Q' → (∀ s, P s → P' s) → (∀ a s, Q' a s → Q a s) → establishes P m Q.
Proof. intros Hm HP HQ s s' a Hs Hr. apply HQ. eapply Hm; [by apply HP|done]. Qed.
Lemma est_for_each_m {A} P (l : list A) (f : A → M S unit) :
  (∀ x, establishes P (f x) (λ _, P)) → establishes P (for_each_m l f) (λ _, P).
Proof.
  intros Hf. induction l as [|x l IH]; cbn; [by apply est_ret|]. by eapply est_bind.
Qed.
End establishes.

(** *** Ordered maps *)
Module BTreeFacts.
Section facts.
Context {V : Type}.
Implicit Types m : gmap Z V.

Lemma elem_of_keys m k : k ∈ BTree.keys m ↔ is_Some (m !! k).
Proof.
  unfold BTree.keys. rewrite merge_sort_Permutation, list_elem_of_fmap. split.
  - intros ([k' v] & -> & Hin). apply elem_of_map_to_list in Hin. by eexists.
  - intros [v Hv]. exists (k, v). split; [done|]. by apply elem_of_map_to_list.
Qed.

Lemma keys_sorted m : StronglySorted Z.le (BTree.keys m).
Proof. apply StronglySorted_merge_sort; [apply _|]. intros x y. lia. Qed.

Lemma keys_nodup m : NoDup (BTree.keys m).
Proof. unfold BTree.keys. rewrite merge_sort_Permutation. apply NoDup_fst_map_to_list. Qed.

Lemma length_keys m : length (BTree.keys m) = size m.
Proof.
  unfold BTree.keys. rewrite merge_sort_Permutation, length_fmap. apply length_map_to_list.
Qed.

Lemma first_key_Some m k :
  BTree.first_key m = Some k → is_Some (m !! k) ∧ ∀ k', is_Some (m !! k') → k ≤ k'.
Proof.
  unfold BTree.first_key. pose proof (keys_sorted m) as Hs.
  destruct (BTree.keys m) as [|x l] eqn:E; [done|]. intros [= ->].
  split; [apply elem_of_keys; rewrite E; set_solver|].
  intros k' Hk'. apply elem_of_keys in Hk'. rewrite E in Hk'.
  apply elem_of_cons in Hk' as [->|Hk']; [lia|].
  apply StronglySorted_inv in Hs as [_ Hs]. rewrite Forall_forall in Hs. by apply Hs.
Qed.

Lemma first_key_None m : BTree.first_key m = None ↔ m = ∅.
Proof.
  unfold BTree.first_key. split.
  - intros H. apply head_None in H. apply map_size_empty_inv.
    by rewrite <-length_keys, H.
  - intros ->. reflexivity.
Qed.
End facts.
End BTreeFacts.
