(* ===== verification/Utf8.v ===== *)
(** * UTF-8 strings

    What the program uses of the standard library's [char] and [str]: a [char] is a Unicode scalar
    value (a [Z]), a [&str] is its bytes. [encode_utf8] is [char::encode_utf8], [is_char_boundary]
    is [str::is_char_boundary], [first_char] is [s.chars().next()], [is_control] is
    [char::is_control]. *)

From S2P Require Import Prelude.

Abbreviation char := Z (only parsing).
Abbreviation str := (list Z) (only parsing).

(** A Unicode scalar value. *)
Definition scalar (c : char) : Prop := 0 ≤ c < 55296 ∨ 57344 ≤ c ≤ 1114111.

Definition encode_utf8 (c : char) : str :=
  if decide (c < 128) then [c]
  else if decide (c < 2048) then [192 + c / 64; 128 + c mod 64]
  else if decide (c < 65536) then [224 + c / 4096; 128 + c / 64 mod 64; 128 + c mod 64]
  else [240 + c / 262144; 128 + c / 4096 mod 64; 128 + c / 64 mod 64; 128 + c mod 64].

(** The string with the given characters. *)
Definition of_chars (cs : list char) : str := cs ≫= encode_utf8.

(** A continuation byte, [0b10xxxxxx]. *)
Definition is_cont (b : Z) : bool := (128 <=? b) && (b <? 192).

Definition is_char_boundary (s : str) (i : nat) : bool :=
  if decide (i = 0%nat) then true
  else match s !! i with
       | Some b => negb (is_cont b)
       | None => bool_decide (i = length s)
       end.

Definition first_char (s : str) : option char :=
  match s with
  | [] => None
  | x :: s1 =>
    if decide (x < 128) then Some x
    else match s1 with
    | [] => None
    | y :: s2 =>
      if decide (x < 224) then Some (x mod 32 * 64 + y mod 64)
      else match s2 with
      | [] => None
      | z :: s3 =>
        if decide (x < 240) then Some (x mod 32 * 4096 + y mod 64 * 64 + z mod 64)
        else match s3 with
        | [] => None
        | w :: _ => Some (x mod 8 * 262144 + y mod 64 * 4096 + z mod 64 * 64 + w mod 64)
        end
      end
    end
  end.

(** [char::is_control]: the Unicode category Cc. *)
Definition is_control (c : char) : bool := (c <? 32) || ((127 <=? c) && (c <? 160)).

(** ** Facts *)

Lemma encode_utf8_shape c :
  0 ≤ c → ∃ b t, encode_utf8 c = b :: t ∧ is_cont b = false ∧ Forall (λ b, is_cont b = true) t.
Proof.
  intros Hc. unfold encode_utf8.
  assert (Hcont : ∀ x, is_cont (128 + x mod 64) = true).
  { intros x. unfold is_cont. pose proof (Z.mod_pos_bound x 64). lia. }
  repeat case_decide; eexists _, _; (split; [reflexivity|]); (split;
    [|repeat constructor; apply Hcont]); unfold is_cont;
    Z.to_euclidean_division_equations; lia.
Qed.

Lemma length_encode_utf8 c : (1 ≤ length (encode_utf8 c) ≤ 4)%nat.
Proof. unfold encode_utf8. repeat case_decide; simpl; lia. Qed.

Lemma of_chars_cons c cs : of_chars (c :: cs) = encode_utf8 c ++ of_chars cs.
Proof. reflexivity. Qed.

Lemma of_chars_app cs cs' : of_chars (cs ++ cs') = of_chars cs ++ of_chars cs'.
Proof. unfold of_chars. by rewrite bind_app. Qed.

(** Decoding the first character of an encoding gives that character back. *)
Lemma first_char_encode c s : scalar c → first_char (encode_utf8 c ++ s) = Some c.
Proof.
  unfold scalar. intros Hc. unfold encode_utf8.
  repeat case_decide; simpl; repeat case_decide; simpl; try f_equal; try lia;
    Z.to_euclidean_division_equations; lia.
Qed.

(** The boundaries of a valid string are the ends of its prefixes. *)
Lemma char_boundary_prefix cs i :
  Forall (λ c, 0 ≤ c) cs → (i ≤ length (of_chars cs))%nat →
  is_char_boundary (of_chars cs) i = true → ∃ k, i = length (of_chars (take k cs)).
Proof.
  revert i. induction cs as [|c cs IH]; intros i Hcs Hi Hb.
  { exists 0%nat. simpl in *. lia. }
  apply Forall_cons in Hcs as [Hc Hcs].
  destruct (encode_utf8_shape c Hc) as (b & t & E & Hb0 & Ht).
  rewrite of_chars_cons in Hi, Hb. rewrite E in Hi, Hb.
  destruct (decide (i = 0%nat)) as [->|Hi0]; [by exists 0%nat|].
  destruct (decide (i < length (b :: t))%nat) as [Hlt|Hge].
  - exfalso. unfold is_char_boundary in Hb. rewrite decide_False in Hb by done.
    rewrite lookup_app_l in Hb by done.
    destruct i as [|i]; [done|]. simpl in Hb, Hlt.
    destruct (lookup_lt_is_Some_2 t i) as [x Hx]; [lia|]. rewrite Hx in Hb.
    eapply Forall_lookup_1 in Ht; [|done]. simpl in Ht. by rewrite Ht in Hb.
  - rewrite length_app in Hi.
    destruct (IH (i - length (b :: t))%nat) as [k Hk]; [done|lia| |]; last first.
    + exists (S k). rewrite firstn_cons, of_chars_cons, E, length_app, <-Hk. lia.
    + clear IH. unfold is_char_boundary in *. rewrite decide_False in Hb by done.
      rewrite lookup_app_r in Hb by lia. destruct (decide (_ = 0%nat)) as [_|Hd]; [done|].
      destruct (_ !! _) as [x|]; [done|]. apply bool_decide_eq_true in Hb.
      apply bool_decide_eq_true. rewrite length_app in Hb. lia.
Qed.

Lemma prefix_char_boundary cs k :
  Forall (λ c, 0 ≤ c) cs → is_char_boundary (of_chars cs) (length (of_chars (take k cs))) = true.
Proof.
  intros Hcs. unfold is_char_boundary. case_decide as H0; [done|].
  assert (of_chars cs = of_chars (take k cs) ++ of_chars (drop k cs)) as ->.
  { by rewrite <-of_chars_app, take_drop. }
  rewrite lookup_app_r, Nat.sub_diag by lia.
  destruct (drop k cs) as [|c cs'] eqn:E.
  - simpl. apply bool_decide_eq_true. by rewrite app_nil_r.
  - rewrite of_chars_cons. destruct (encode_utf8_shape c) as (b & t & -> & Hb & _).
    + eapply Forall_forall; [exact Hcs|]. rewrite <-(take_drop k cs), E. set_solver.
    + simpl. by rewrite Hb.
Qed.
