(* ===== verification/Text.v ===== *)
(** * Text

    What the program uses of the standard library's [str] and integer parsing and formatting, on
    lists of characters: [trim], [split], [split_whitespace], [starts_with], [u16::from_str] and
    [u8::from_str_radix], [format!] of integers. An ASCII text is the same list as its bytes. *)

From S2P Require Import Prelude Utf8.

(** ** Splitting *)

Definition chars_of (s : string) : list char := (λ a, Z.of_N (Ascii.N_of_ascii a)) <$> String.list_ascii_of_string s.

(** Unicode [White_Space]. *)
Definition is_whitespace (c : char) : bool :=
  ((9 <=? c) && (c <=? 13)) || (c =? 32) || (c =? 133) || (c =? 160) || (c =? 5760) ||
  ((8192 <=? c) && (c <=? 8202)) || (c =? 8232) || (c =? 8233) || (c =? 8239) || (c =? 8287) ||
  (c =? 12288).

Fixpoint trim_start (cs : list char) : list char :=
  match cs with
  | [] => []
  | c :: cs' => if is_whitespace c then trim_start cs' else cs
  end.
Definition trim (cs : list char) : list char := reverse (trim_start (reverse (trim_start cs))).

Fixpoint split_whitespace_from (word cs : list char) : list (list char) :=
  match cs with
  | [] => if decide (word = []) then [] else [word]
  | c :: cs =>
    if is_whitespace c
    then (if decide (word = []) then [] else [word]) ++ split_whitespace_from [] cs
    else split_whitespace_from (word ++ [c]) cs
  end.
Definition split_whitespace (cs : list char) : list (list char) := split_whitespace_from [] cs.

(** [str::split] on a character. *)
Fixpoint split_from (c : char) (word cs : list char) : list (list char) :=
  match cs with
  | [] => [word]
  | d :: cs => if d =? c then word :: split_from c [] cs else split_from c (word ++ [d]) cs
  end.
Definition split (c : char) (cs : list char) : list (list char) := split_from c [] cs.

(** [str::starts_with] *)
Definition starts_with (prefix cs : list char) : bool := bool_decide (take (length prefix) cs = prefix).

(** ** Integers *)

(** [char::to_digit] *)
Definition to_digit (radix : Z) (c : char) : option Z :=
  let d := if (48 <=? c) && (c <=? 57) then c - 48
           else if (97 <=? c) && (c <=? 122) then c - 87
           else if (65 <=? c) && (c <=? 90) then c - 55 else radix in
  if d <? radix then Some d else None.

(** The value of a digit string, [None] on another character and on overflow of [w] bits. *)
Fixpoint digits_value (w radix acc : Z) (cs : list char) : option Z :=
  match cs with
  | [] => Some acc
  | c :: cs =>
    d ← to_digit radix c;
    let acc := acc * radix + d in
    if decide (acc < 2 ^ w) then digits_value w radix acc cs else None
  end.

(** [from_str_radix] of an unsigned type: one leading plus sign is accepted before a digit. *)
Definition from_str_radix (w radix : Z) (cs : list char) : option Z :=
  match cs with
  | [] => None
  | [c] => if (c =? 43) || (c =? 45) then None else digits_value w radix 0 [c]
  | c :: ds => if c =? 43 then digits_value w radix 0 ds else digits_value w radix 0 cs
  end.
(** [str::parse::<u16>] *)
Definition parse_u16 (cs : list char) : option Z := from_str_radix 16 10 cs.

(** [{}] of an unsigned integer *)
Fixpoint digits_fuel (fuel : nat) (n : Z) : list char :=
  match fuel with
  | O => []
  | S fuel => (if n <? 10 then [] else digits_fuel fuel (n / 10)) ++ [48 + n mod 10]
  end.
Definition digits (n : Z) : list char := digits_fuel (S (Z.to_nat (Z.log2 n))) n.

(** A lower-case hexadecimal digit. *)
Definition hex_digit (d : Z) : char := if d <? 10 then 48 + d else 87 + d.
(** [{:02x}] of a byte *)
Definition hex_byte (b : Z) : list char := [hex_digit (b / 16); hex_digit (b mod 16)].

(** ** Facts *)

Lemma digits_value_app w radix acc cs ds :
  digits_value w radix acc (cs ++ ds) = v ← digits_value w radix acc cs; digits_value w radix v ds.
Proof.
  revert acc. induction cs as [|c cs IH]; intros acc; [done|]. cbn.
  destruct (to_digit radix c); cbn; [|done]. case_decide; [apply IH|done].
Qed.

Lemma to_digit_decimal d : 0 ≤ d < 10 → to_digit 10 (48 + d) = Some d.
Proof.
  intros Hd. unfold to_digit. rewrite (proj2 (Z.leb_le 48 (48 + d))), (proj2 (Z.leb_le (48 + d) 57)) by lia.
  cbn [andb]. rewrite (proj2 (Z.ltb_lt _ _)) by lia. f_equal. lia.
Qed.

Lemma to_digit_hex d : 0 ≤ d < 16 → to_digit 16 (hex_digit d) = Some d.
Proof.
  assert (Forall (λ d, to_digit 16 (hex_digit d) = Some d) (seqZ 0 16)) as Hall
    by (apply (bool_decide_unpack _); vm_compute; exact I).
  intros Hd. rewrite Forall_forall in Hall. apply Hall, elem_of_seqZ. lia.
Qed.

Lemma digits_fuel_value w fuel n :
  0 ≤ n < 2 ^ w → n < 10 ^ Z.of_nat fuel → (0 < fuel)%nat →
  digits_value w 10 0 (digits_fuel fuel n) = Some n ∧ digits_fuel fuel n ≠ [] ∧
  Forall (λ c, 48 ≤ c ≤ 57) (digits_fuel fuel n).
Proof.
  revert n. induction fuel as [|fuel IH]; intros n Hn Hf Hpos; [lia|]. cbn [digits_fuel].
  pose proof (Z.mod_pos_bound n 10 ltac:(lia)) as Hm.
  assert (0 ≤ n / 10 ∧ n = 10 * (n / 10) + n mod 10 ∧ n / 10 ≤ n) as (Hq & Hdm & Hle)
    by (Z.to_euclidean_division_equations; lia).
  destruct (Z.ltb_spec n 10) as [Hlt|Hge].
  - cbn [app]. rewrite Z.mod_small by lia. split; [|split; [done|constructor; [lia|constructor]]].
    cbn [digits_value]. rewrite to_digit_decimal by lia. cbn. by rewrite decide_True by lia.
  - destruct (IH (n / 10)) as (Hv & Hne & Hall); [lia| |destruct fuel; [cbn in Hf; lia|lia]|].
    { rewrite Nat2Z.inj_succ, Z.pow_succ_r in Hf by lia. apply Z.div_lt_upper_bound; lia. }
    split; [|split].
    + rewrite digits_value_app, Hv. cbn. rewrite to_digit_decimal by lia. cbn.
      rewrite decide_True by lia. f_equal. lia.
    + by destruct (digits_fuel fuel (n / 10)).
    + apply Forall_app. split; [done|]. constructor; [lia|constructor].
Qed.

(** Formatting and parsing. *)
Lemma digits_spec w n : 0 ≤ n < 2 ^ w →
  digits_value w 10 0 (digits n) = Some n ∧ digits n ≠ [] ∧ Forall (λ c, 48 ≤ c ≤ 57) (digits n).
Proof.
  intros Hn. unfold digits. apply digits_fuel_value; [done| |lia].
  rewrite Nat2Z.inj_succ, Z2Nat.id by apply Z.log2_nonneg.
  destruct (decide (n = 0)) as [->|]; [done|].
  destruct (Z.log2_spec n) as [_ Hl]; [lia|]. eapply Z.lt_le_trans; [exact Hl|].
  apply Z.pow_le_mono_l. pose proof (Z.log2_nonneg n). lia.
Qed.

Lemma parse_digits n : u16 n → parse_u16 (digits n) = Some n.
Proof.
  intros Hn. destruct (digits_spec 16 n) as (Hv & Hne & Hall); [done|].
  unfold parse_u16, from_str_radix. destruct (digits n) as [|c [|d ds]]; [done|..];
    apply Forall_cons in Hall as [Hc _]; rewrite (proj2 (Z.eqb_neq c 43)) by lia; [|done].
  by rewrite (proj2 (Z.eqb_neq c 45)) by lia.
Qed.

Lemma parse_hex_byte b : u8 b → from_str_radix 8 16 (hex_byte b) = Some b.
Proof.
  intros Hb. unfold fits in Hb. unfold hex_byte, from_str_radix.
  assert (0 ≤ b / 16 < 16 ∧ 0 ≤ b mod 16 < 16 ∧ b = b / 16 * 16 + b mod 16) as (Hq & Hm & E)
    by (Z.to_euclidean_division_equations; lia).
  rewrite (proj2 (Z.eqb_neq (hex_digit (b / 16)) 43)) by (unfold hex_digit; case_match; lia).
  cbn [digits_value]. rewrite !to_digit_hex by lia. cbn. rewrite decide_True by lia. cbn.
  rewrite decide_True by lia. f_equal. lia.
Qed.
