(* ===== verification/Bind.v ===== *)
(** * Binding the server's socket: [src/src/server/network.rs], lines 31-109

    The address the server binds to, the port range it scans, and the scan. The operating system's
    [bind] and the environment are arguments; the standard library's address parser is modelled. *)

From S2P Require Import Prelude Utf8 Text.

Inductive IpAddr : Type := V4 (ip : Z) | V6 (ip : Z).
#[export] Instance IpAddr_eq_dec : EqDecision IpAddr.
Proof. solve_decision. Defined.

(** [SocketAddr::new] *)
Definition SocketAddr_of (ip : IpAddr) (port : Z) : SocketAddr :=
  match ip with V4 ip => SocketAddrV4 ip port | V6 ip => SocketAddrV6 ip port 0 0 end.

(** ** [IpAddr::from_str]

    A reader takes what it reads off the text and gives back the rest. *)
Module IpParser.

(** The digits a text starts with. *)
Fixpoint take_digits (radix : Z) (cs : list char) : list Z * list char :=
  match cs with
  | [] => ([], [])
  | c :: rest =>
    match to_digit radix c with
    | Some d => let '(ds, rest) := take_digits radix rest in (d :: ds, rest)
    | None => ([], cs)
    end
  end.

Definition value (radix : Z) (ds : list Z) : Z := foldl (λ acc d, acc * radix + d) 0 ds.

(** [read_number]: at most [max_digits] digits, a value below [bound]. *)
Definition read_number (radix : Z) (max_digits : nat) (zero_prefix : bool) (bound : Z) (cs : list char)
    : option (Z * list char) :=
  let '(ds, rest) := take_digits radix cs in
  if decide (ds = [] ∨ (max_digits < length ds)%nat ∨
             (zero_prefix = false ∧ head ds = Some 0 ∧ (1 < length ds)%nat) ∨ bound ≤ value radix ds)
  then None else Some (value radix ds, rest).

Definition read_char (c : char) (cs : list char) : option (list char) :=
  match cs with d :: rest => if d =? c then Some rest else None | [] => None end.

(** [read_separator]: the separator before every element but the first. *)
Definition read_separator {A} (sep : char) (i : nat) (read : list char → option (A * list char))
    (cs : list char) : option (A * list char) :=
  match i with O => read cs | S _ => rest ← read_char sep cs; read rest end.

(** [n] numbers from the [i]-th on. *)
Fixpoint read_octets (i n : nat) (acc : Z) (cs : list char) : option (Z * list char) :=
  match n with
  | O => Some (acc, cs)
  | S n =>
    '(o, rest) ← read_separator 46 i (read_number 10 3 false 256) cs;
    read_octets (S i) n (acc * 256 + o) rest
  end.
Definition read_ipv4 (cs : list char) : option (Z * list char) := read_octets 0 4 0 cs.

(** [read_groups]: up to [limit] groups of 16 bits from the [i]-th on, the last two possibly an
    embedded IPv4 address; the groups, and whether one was embedded. *)
Fixpoint read_groups (i limit : nat) (cs : list char) : list Z * bool * list char :=
  match limit with
  | O => ([], false, cs)
  | S limit' =>
    match (if decide (limit' = 0)%nat then None else read_separator 58 i read_ipv4 cs) with
    | Some (v4, rest) => ([v4 / 65536; v4 mod 65536], true, rest)
    | None =>
      match read_separator 58 i (read_number 16 4 true 65536) cs with
      | Some (g, rest) =>
        let '(gs, v4, rest) := read_groups (S i) limit' rest in (g :: gs, v4, rest)
      | None => ([], false, cs)
      end
    end
  end.

Definition of_groups (gs : list Z) : Z := foldl (λ acc g, acc * 65536 + g) 0 gs.

Definition read_ipv6 (cs : list char) : option (Z * list char) :=
  let '(head, v4, rest) := read_groups 0 8 cs in
  if decide (length head = 8)%nat then Some (of_groups head, rest)
  else if v4 then None
  else
    rest ← read_char 58 rest;
    rest ← read_char 58 rest;
    let '(tail, _, rest) := read_groups 0 (8 - (length head + 1)) rest in
    Some (of_groups (head ++ replicate (8 - length head - length tail) 0 ++ tail), rest).
End IpParser.

(** [str::parse::<IpAddr>]: the whole text is read. *)
Definition parse_ip (cs : list char) : option IpAddr :=
  '(ip, rest) ←
    match IpParser.read_ipv4 cs with
    | Some (ip, rest) => Some (V4 ip, rest)
    | None => '(ip, rest) ← IpParser.read_ipv6 cs; Some (V6 ip, rest)
    end;
  match rest with [] => Some ip | _ => None end.

(** ** [determine_bind_address] *)

Definition unspecified : IpAddr := V4 0.

(** [ssh_connection] is the environment variable [SSH_CONNECTION]. *)
Definition determine_bind_address (bind_ip_override : option IpAddr) (bind_any : bool)
    (ssh_connection : option (list char)) : IpAddr :=
  match bind_ip_override with
  | Some ip => ip
  | None =>
    if bind_any then unspecified
    else
      match ssh_connection with
      | Some ssh_conn =>
        let parts := split_whitespace ssh_conn in
        match (if decide (3 ≤ length parts)%nat then parts !! 2%nat ≫= parse_ip else None) with
        | Some server_ip => server_ip
        | None => unspecified
        end
      | None => unspecified
      end
  end.

(** ** [parse_port_range] *)

Definition invalid_range : Error := Msg "Invalid port range format. Use start:end or start-end".

Definition parse_port_range (range_str : list char) : outcome (Z * Z) :=
  parts ← (if decide (58 ∈ range_str) then Ok (split 58 range_str)
           else if decide (45 ∈ range_str) then Ok (split 45 range_str)
           else Err invalid_range);
  match parts with
  | [first; second] =>
    start ← ok_or (Msg "ParseIntError") (parse_u16 first);
    end_ ← ok_or (Msg "ParseIntError") (parse_u16 second);
    if decide (end_ < start) then Err (Msg "Start port cannot be greater than end port")
    else Ok (start, end_)
  | _ => Err invalid_range
  end.

(** ** [bind_to_available_port_sync] *)
Section bind.
Context {Socket : Type} (bind : SocketAddr → option Socket).

(** The ports of the inclusive range in order; the first that can be bound. *)
Definition bind_to_available_port_sync (bind_ip : IpAddr) (port_range : Z * Z) : outcome (Socket * Z) :=
  let ports := seqZ port_range.1 (port_range.2 - port_range.1 + 1) in
  match head (omap (λ port, (λ s, (s, port)) <$> bind (SocketAddr_of bind_ip port)) ports) with
  | Some found => Ok found
  | None => Err (Msg "Failed to bind to any port in the specified range")
  end.

Lemma bind_first bind_ip lo hi :
  match bind_to_available_port_sync bind_ip (lo, hi) with
  | Ok (s, port) => lo ≤ port ≤ hi ∧ bind (SocketAddr_of bind_ip port) = Some s ∧
      ∀ p, lo ≤ p < port → bind (SocketAddr_of bind_ip p) = None
  | Err _ => ∀ p, lo ≤ p ≤ hi → bind (SocketAddr_of bind_ip p) = None
  | Panic => False
  end.
Proof.
  unfold bind_to_available_port_sync. cbn [fst snd].
  set (f := λ port, (λ s, (s, port)) <$> bind (SocketAddr_of bind_ip port)).
  assert (∀ n lo, match head (omap f (seqZ lo (Z.of_nat n))) with
    | Some (s, port) => lo ≤ port < lo + Z.of_nat n ∧ bind (SocketAddr_of bind_ip port) = Some s ∧
        ∀ p, lo ≤ p < port → bind (SocketAddr_of bind_ip p) = None
    | None => ∀ p, lo ≤ p < lo + Z.of_nat n → bind (SocketAddr_of bind_ip p) = None
    end) as Hall.
  { clear lo hi. induction n as [|n IH]; intros lo; [rewrite seqZ_nil by lia; cbn [omap list_omap head]; intros p ?; lia|].
    rewrite seqZ_cons by lia. replace (Z.pred (Z.of_nat (S n))) with (Z.of_nat n) by lia.
    cbn [omap list_omap]. unfold f at 1. destruct (bind (SocketAddr_of bind_ip lo)) as [s|] eqn:E; cbn.
    { split; [lia|]. split; [done|]. intros p ?; lia. }
    specialize (IH (Z.succ lo)). destruct (head _) as [[s port]|].
    - destruct IH as (? & ? & Hp). split; [lia|]. split; [done|]. intros p Hlo.
      destruct (decide (p = lo)) as [->|]; [done|]. apply Hp. lia.
    - intros p Hlo. destruct (decide (p = lo)) as [->|]; [done|]. apply IH. lia. }
  destruct (Z.le_gt_cases lo (hi + 1)) as [Hle|Hgt].
  - specialize (Hall (Z.to_nat (hi - lo + 1)) lo). rewrite Z2Nat.id in Hall by lia.
    destruct (head _) as [[s port]|]; [|intros p ?; apply Hall; lia].
    destruct Hall as (? & ? & ?). split; [lia|done].
  - rewrite seqZ_nil by lia. cbn [omap list_omap head]. intros p ?. lia.
Qed.
End bind.

(** ** The option [--port-range] *)

Lemma split_from_app c word front rest :
  c ∉ front → split_from c word (front ++ c :: rest) = (word ++ front) :: split c rest.
Proof.
  revert word. induction front as [|d front IH]; intros word Hc; cbn.
  { by rewrite Z.eqb_refl, app_nil_r. }
  apply not_elem_of_cons in Hc as [Hd Hc]. rewrite (proj2 (Z.eqb_neq d c)) by congruence.
  rewrite IH by done. by rewrite <-(assoc_L (++)).
Qed.
Lemma split_from_none c word front : c ∉ front → split_from c word front = [word ++ front].
Proof.
  revert word. induction front as [|d front IH]; intros word Hc; cbn; [by rewrite app_nil_r|].
  apply not_elem_of_cons in Hc as [Hd Hc]. rewrite (proj2 (Z.eqb_neq d c)) by congruence.
  rewrite IH by done. by rewrite <-(assoc_L (++)).
Qed.

(** Two numbers with either separator. *)
Lemma parse_port_range_digits sep a b :
  sep = 58 ∨ sep = 45 → u16 a → u16 b →
  parse_port_range (digits a ++ sep :: digits b) =
    if decide (b < a) then Err (Msg "Start port cannot be greater than end port") else Ok (a, b).
Proof.
  intros Hsep Ha Hb. destruct (digits_spec 16 a Ha) as (_ & _ & Da), (digits_spec 16 b Hb) as (_ & _ & Db).
  assert (∀ c n, (c = 58 ∨ c = 45) → Forall (λ c, 48 ≤ c ≤ 57) (digits n) → c ∉ digits n) as Hno.
  { intros c n Hc Hall Hin. rewrite Forall_forall in Hall. apply Hall in Hin. lia. }
  assert (split sep (digits a ++ sep :: digits b) = [digits a; digits b]) as Esp.
  { unfold split. rewrite split_from_app by auto. unfold split. by rewrite split_from_none by auto. }
  unfold parse_port_range.
  assert ((if decide (58 ∈ digits a ++ sep :: digits b) then Ok (split 58 (digits a ++ sep :: digits b))
           else if decide (45 ∈ digits a ++ sep :: digits b) then Ok (split 45 (digits a ++ sep :: digits b))
           else Err invalid_range) = Ok [digits a; digits b]) as ->.
  { destruct Hsep as [-> | ->].
    - rewrite decide_True by (apply elem_of_app; right; by left). by rewrite Esp.
    - rewrite decide_False, decide_True; [by rewrite Esp|apply elem_of_app; right; by left|].
      intros [Hin|[?|Hin]%elem_of_cons]%elem_of_app; [|done|]; (eapply Hno; [by left| |exact Hin]); done. }
  unfold mbind, outcome_bind, ok_or. by rewrite (parse_digits a Ha), (parse_digits b Hb).
Qed.
