(* ===== verification/Bootstrap.v ===== *)
(** * Starting a session: [src/src/client/bootstrap.rs] and [src/src/main.rs]

    The command line's two modes. The server picks its key and socket and prints a token; the client,
    given an SSH target, starts the server there and reads the token, or is given address and key.
    The operating system, SSH, name resolution, the random key and the environment are arguments. *)

From S2P Require Import Prelude Utf8 Text Bind.

Notation "'txt' s" := (chars_of s%string) (at level 10, s constr at level 9, only parsing).

(** ** [parse_hex_key] *)

(** [&s[i..j]]: panics off a character boundary. *)
Definition slice (s : str) (i j : nat) : outcome str :=
  if is_char_boundary s i && is_char_boundary s j then Ok (take (j - i) (drop i s)) else Panic.

Fixpoint parse_hex_bytes (n i : nat) (s : str) : outcome (list Z) :=
  match n with
  | O => Ok []
  | S n =>
    byte_str ← slice s (i * 2) (i * 2 + 2);
    b ← ok_or (Msg "ParseIntError") (from_str_radix 8 16 byte_str);
    key ← parse_hex_bytes n (S i) s;
    Ok (b :: key)
  end.

Definition parse_hex_key (s : list char) : outcome (list Z) :=
  let s := of_chars s in
  if decide (len s ≠ 64) then Err (Msg "Key must be exactly 64 hex characters (32 bytes)")
  else parse_hex_bytes 32 0 s.

(** ** [SessionBootstrapper] *)

Record SessionBootstrapper := mkBootstrapper {
  sb_remote_binary : list char;
  sb_port_range : list char;
  sb_remote_bind : option (list char);
  sb_remote_log_file : option (list char);
}.

(** A line of the stream, or the error of reading it. *)
Abbreviation Line := (option (list char)) (only parsing).

Fixpoint parse_token (lines : list Line) : outcome (Z * list char) :=
  match lines with
  | [] => Err (Msg "Failed to parse token from bootstrap stream")
  | None :: _ => Err (Msg "io::Error")
  | Some line :: lines =>
    if starts_with (txt "RUMSH CONNECT ") line then
      match split_whitespace line with
      | [_; _; port; key] =>
        port ← ok_or (Msg "ParseIntError") (parse_u16 port);
        Ok (port, key)
      | _ => parse_token lines
      end
    else parse_token lines
  end.

(** [target.find('@')] *)
Fixpoint after_at (target : list char) : option (list char) :=
  match target with
  | [] => None
  | c :: target => if c =? 64 then Some target else after_at target
  end.
Definition extract_host_from_ssh_target (target : list char) : list char :=
  default target (after_at target).

Definition option_arg (name : list char) (value : option (list char)) : list char :=
  match value with Some v => name ++ v | None => [] end.

Definition remote_cmd (self : SessionBootstrapper) : list char :=
  sb_remote_binary self ++ txt " server --port-range " ++ sb_port_range self ++
  option_arg (txt " --bind ") (sb_remote_bind self) ++
  option_arg (txt " --log-file ") (sb_remote_log_file self).

(** [ssh] runs a command line: the lines it prints and whether it exits with success, or none when it
    cannot be started. [resolve] is [to_socket_addrs]. *)
Definition bootstrap (ssh : list (list char) → option (list Line * bool))
    (resolve : list char → outcome (list SocketAddr)) (self : SessionBootstrapper) (target_str : list char)
    : outcome (SocketAddr * list Z) :=
  let host := extract_host_from_ssh_target target_str in
  '(stdout, success) ← ok_or (Msg "io::Error")
    (ssh [txt "ssh"; txt "-o"; txt "ExitOnForwardFailure=yes"; target_str; remote_cmd self]);
  '(port, key_str) ← parse_token stdout;
  key_bytes ← parse_hex_key key_str;
  if negb success then Err (Msg "SSH bootstrap process exited with error status")
  else
    let connect_host := default host (sb_remote_bind self) in
    addrs ← resolve (connect_host ++ txt ":" ++ digits port);
    resolved_addr ← ok_or (Msg "Failed to resolve remote host") (head addrs);
    Ok (resolved_addr, key_bytes).

(** ** The command line *)

Record ServerCommand := mkServerCommand {
  sc_bind : option (list char);
  sc_port : option Z;
  sc_port_range : list char;
  sc_bind_any : bool;
  sc_no_daemonize : bool;
  sc_shell : option (list char);
}.

Record Cli := mkCli {
  cli_log_file : option (list char);
  cli_debug : bool;
  cli_target : option (list char);
  cli_key : option (list char);
  cli_port_range : list char;
  cli_remote_bind : option (list char);
  cli_remote_binary : list char;
  cli_remote_log_file : option (list char);
  cli_overlay : bool;
  cli_command : option ServerCommand;
}.

(** The environment: [std::env::var]. *)
Record Env := mkEnv {
  env_rumsh_key : option (list char);
  env_ssh_connection : option (list char);
  env_shell : option (list char);
  env_current_dir : option (list char);
}.

(** *** [run_server_subcommand], up to the call of [run_server] *)

Definition key_hex (key : list Z) : list char := key ≫= hex_byte.

(** The lines printed. *)
Definition connect_token (bound_port : Z) (key : list Z) : list (list char) :=
  [txt "RUMSH CONNECT " ++ digits bound_port ++ txt " " ++ key_hex key;
   txt "RUMSH_PORT=" ++ digits bound_port;
   txt "RUMSH_KEY=" ++ key_hex key].

Record ServerSetup (Socket : Type) := mkServerSetup {
  ss_socket : Socket;
  ss_key : list Z;
  ss_stdout : list (list char);
  ss_daemonize : bool;
  ss_shell_path : list char;
}.
Arguments mkServerSetup {Socket}.
Arguments ss_socket {Socket}.
Arguments ss_key {Socket}.
Arguments ss_stdout {Socket}.
Arguments ss_daemonize {Socket}.
Arguments ss_shell_path {Socket}.

(** [random] is the key drawn when the environment gives none. *)
Definition run_server_subcommand {Socket : Type} (env : Env) (random : list Z)
    (bind : SocketAddr → option Socket) (cmd : ServerCommand) : outcome (ServerSetup Socket) :=
  key ← match env_rumsh_key env with Some key_hex => parse_hex_key key_hex | None => Ok random end;
  bind_ip_override ← match sc_bind cmd with
    | Some ip_str => Some <$> ok_or (Msg "AddrParseError") (parse_ip ip_str)
    | None => Ok None
    end;
  let bind_ip := determine_bind_address bind_ip_override (sc_bind_any cmd) (env_ssh_connection env) in
  range ← match sc_port cmd with Some p => Ok (p, p) | None => parse_port_range (sc_port_range cmd) end;
  '(socket, bound_port) ← bind_to_available_port_sync bind bind_ip range;
  Ok {| ss_socket := socket; ss_key := key; ss_stdout := connect_token bound_port key;
        ss_daemonize := negb (sc_no_daemonize cmd);
        ss_shell_path := default (default (txt "/bin/bash") (env_shell env)) (sc_shell cmd) |}.

(** *** [run_client_mode], up to the call of [run_client] *)

Definition run_client_mode (ssh : list (list char) → option (list Line * bool))
    (resolve : list char → outcome (list SocketAddr)) (cli : Cli) : outcome (SocketAddr * list Z * bool) :=
  target_str ← ok_or (Msg "Error: Positional argument <TARGET> or a subcommand (like 'server') is required.")
    (cli_target cli);
  '(addr, key_bytes) ←
    match cli_key cli with
    | Some key_str =>
      addrs ← resolve target_str;
      addr ← ok_or (Msg "Invalid server address") (head addrs);
      key_bytes ← parse_hex_key key_str;
      Ok (addr, key_bytes)
    | None =>
      let remote_log :=
        match cli_remote_log_file cli with
        | Some path => Some path
        | None => if cli_debug cli then Some (txt "/tmp/rumsh-server.log") else None
        end in
      bootstrap ssh resolve
        {| sb_remote_binary := cli_remote_binary cli; sb_port_range := cli_port_range cli;
           sb_remote_bind := cli_remote_bind cli; sb_remote_log_file := remote_log |} target_str
    end;
  Ok (addr, key_bytes, cli_overlay cli).

(** *** [main] *)

(** [Path::join] of a relative file name. *)
Definition path_join (dir file : list char) : list char :=
  if decide (dir = [] ∨ last dir = Some 47) then dir ++ file else dir ++ 47 :: file.

Definition log_path (env : Env) (cli : Cli) : option (list char) :=
  match cli_log_file cli with
  | Some path => Some path
  | None =>
    if cli_debug cli then
      match cli_command cli with
      | Some _ => Some (txt "/tmp/rumsh-server.log")
      | None => Some (path_join (default (txt ".") (env_current_dir env)) (txt "rumsh-client.log"))
      end
    else None
  end.

Inductive Mode (Socket : Type) : Type :=
  | ServerMode (setup : ServerSetup Socket)
  | ClientMode (addr : SocketAddr) (key_bytes : list Z) (overlay : bool).
Arguments ServerMode {Socket}.
Arguments ClientMode {Socket}.

Definition main {Socket : Type} (env : Env) (random : list Z) (bind : SocketAddr → option Socket)
    (ssh : list (list char) → option (list Line * bool)) (resolve : list char → outcome (list SocketAddr))
    (cli : Cli) : outcome (Mode Socket) :=
  match cli_command cli with
  | Some cmd => ServerMode <$> run_server_subcommand env random bind cmd
  | None => (λ '(addr, key_bytes, overlay), ClientMode addr key_bytes overlay) <$> run_client_mode ssh resolve cli
  end.

(** ** Facts *)

Lemma hex_byte_ascii b : u8 b → Forall (λ c, 48 ≤ c < 128) (hex_byte b).
Proof.
  intros Hb. unfold fits in Hb. unfold hex_byte, hex_digit.
  repeat constructor; case_match; Z.to_euclidean_division_equations; lia.
Qed.

Lemma key_hex_ascii key : Forall u8 key → Forall (λ c, 48 ≤ c < 128) (key_hex key).
Proof.
  unfold key_hex. induction 1 as [|b key Hb _ IH]; cbn [mbind list_bind]; [constructor|].
  apply Forall_app. split; [by apply hex_byte_ascii|done].
Qed.

Lemma length_key_hex key : length (key_hex key) = (2 * length key)%nat.
Proof. unfold key_hex. induction key as [|b key IH]; [done|]. cbn [mbind list_bind]. rewrite length_app, IH. cbn. lia. Qed.

Lemma of_chars_ascii cs : Forall (λ c, c < 128) cs → of_chars cs = cs.
Proof.
  unfold of_chars. induction 1 as [|c cs Hc _ IH]; [done|]. cbn [mbind list_bind].
  unfold encode_utf8 at 1. rewrite decide_True by done. cbn. by f_equal.
Qed.

Lemma ascii_boundary s i : Forall (λ c, c < 128) s → (i ≤ length s)%nat → is_char_boundary s i = true.
Proof.
  intros Hs Hi. unfold is_char_boundary. case_decide; [done|]. destruct (s !! i) as [b|] eqn:E.
  - apply (Forall_lookup_1 _ _ _ _ Hs) in E. cbn in E. unfold is_cont. by rewrite (proj2 (Z.leb_gt 128 b)).
  - apply lookup_ge_None in E. apply bool_decide_eq_true. lia.
Qed.

Lemma parse_hex_bytes_ok pre key :
  Forall u8 (pre ++ key) →
  parse_hex_bytes (length key) (length pre) (key_hex (pre ++ key)) = Ok key.
Proof.
  revert pre. induction key as [|b key IH]; intros pre Hall; [done|]. cbn [length parse_hex_bytes].
  assert (Forall (λ c, c < 128) (key_hex (pre ++ b :: key))) as Hasc.
  { eapply Forall_impl; [by apply key_hex_ascii|]. cbn. lia. }
  pose proof (length_key_hex (pre ++ b :: key)) as Hlen. rewrite length_app in Hlen. cbn [length] in Hlen.
  unfold slice. rewrite !ascii_boundary by (done || lia). cbn [andb].
  assert (take (length pre * 2 + 2 - length pre * 2) (drop (length pre * 2) (key_hex (pre ++ b :: key))) = hex_byte b)
    as ->.
  { unfold key_hex. rewrite bind_app. change (pre ≫= hex_byte) with (key_hex pre).
    rewrite drop_app_ge by (rewrite length_key_hex; lia). rewrite length_key_hex.
    replace (length pre * 2 - 2 * length pre)%nat with 0%nat by lia.
    replace (length pre * 2 + 2 - length pre * 2)%nat with 2%nat by lia. done. }
  unfold mbind, outcome_bind. apply Forall_app in Hall as [Hpre [Hb Hkey]%Forall_cons].
  rewrite (parse_hex_byte b Hb). cbn [ok_or].
  specialize (IH (pre ++ [b])). rewrite <-(assoc_L (++)), length_app in IH. cbn [app length] in IH.
  rewrite Nat.add_1_r in IH. rewrite IH; [done|]. apply Forall_app. split; [done|by constructor].
Qed.

(** The key printed is the key read. *)
Lemma parse_key_hex key : Forall u8 key → length key = 32%nat → parse_hex_key (key_hex key) = Ok key.
Proof.
  intros Hk Hl. unfold parse_hex_key.
  rewrite of_chars_ascii by (eapply Forall_impl; [by apply key_hex_ascii|cbn; lia]).
  rewrite decide_False by (unfold len; rewrite length_key_hex; lia).
  rewrite <-Hl at 1. by apply (parse_hex_bytes_ok []).
Qed.

Lemma to_digit_bound radix c d : to_digit radix c = Some d → 0 ≤ d.
Proof.
  unfold to_digit. cbv zeta. assert (∀ v, (if v <? radix then Some v else None) = Some d → v = d ∧ v < radix) as Hv.
  { intros v. destruct (Z.ltb_spec v radix); [|done]. by intros [= <-]. }
  intros [<- Hlt]%Hv. destruct ((48 <=? c) && (c <=? 57)) eqn:E1; [lia|].
  destruct ((97 <=? c) && (c <=? 122)) eqn:E2; [lia|]. destruct ((65 <=? c) && (c <=? 90)) eqn:E3; lia.
Qed.

Lemma digits_value_bound w radix acc cs v :
  0 ≤ radix → 0 ≤ acc < 2 ^ w → digits_value w radix acc cs = Some v → fits w v.
Proof.
  intros Hr. revert acc. induction cs as [|c cs IH]; intros acc Ha; cbn.
  { intros [= <-]. done. }
  destruct (to_digit radix c) as [d|] eqn:E; cbn; [|done]. apply to_digit_bound in E.
  case_decide; [|done]. apply IH. nia.
Qed.

Lemma from_str_radix_bound w radix cs v : 0 ≤ w → 0 ≤ radix → from_str_radix w radix cs = Some v → fits w v.
Proof.
  intros Hw Hr. assert (0 ≤ 0 < 2 ^ w) by (split; [done|by apply Z.pow_pos_nonneg]). unfold from_str_radix.
  destruct cs as [|c [|d ds]]; [done|..]; (case_match; [|by apply digits_value_bound]); [done|by apply digits_value_bound].
Qed.

Lemma parse_hex_key_bytes s key : parse_hex_key s = Ok key → Forall u8 key ∧ length key = 32%nat.
Proof.
  unfold parse_hex_key. case_decide; [done|]. generalize (of_chars s) as bs. intros bs.
  assert (∀ n i key, parse_hex_bytes n i bs = Ok key → Forall u8 key ∧ length key = n) as Hall; [|apply Hall].
  induction n as [|n IH]; intros i k; cbn; [by intros [= <-]|].
  destruct (slice bs (i * 2) (i * 2 + 2)) as [b| |]; cbn; [|done..].
  destruct (from_str_radix 8 16 b) as [v|] eqn:E; cbn; [|done].
  destruct (parse_hex_bytes n (S i) bs) as [k'| |] eqn:E'; cbn; [|done..]. intros [= <-].
  destruct (IH _ _ E') as [Hk Hl]. split; [|cbn; by rewrite Hl]. constructor; [|done].
  by eapply from_str_radix_bound; [| |exact E].
Qed.

(** *** Words *)

Definition word_of (w : list char) : Prop := w ≠ [] ∧ Forall (λ c, is_whitespace c = false) w.

Lemma split_whitespace_word w rest :
  word_of w → split_whitespace (w ++ 32 :: rest) = w :: split_whitespace rest ∧ split_whitespace w = [w].
Proof.
  intros [Hne Hw]. unfold split_whitespace.
  assert (∀ acc, split_whitespace_from acc (w ++ 32 :: rest) =
      (if decide (acc ++ w = []) then [] else [acc ++ w]) ++ split_whitespace_from [] rest ∧
    split_whitespace_from acc w = if decide (acc ++ w = []) then [] else [acc ++ w]) as Hall.
  { clear Hne. induction Hw as [|c w Hc _ IH]; intros acc; cbn; [by rewrite app_nil_r|].
    rewrite Hc. destruct (IH (acc ++ [c])) as [-> ->]. by rewrite <-(assoc_L (++)). }
  destruct (Hall []) as [-> ->]. cbn [app]. by rewrite !decide_False.
Qed.

Lemma split_first w rest : word_of w → split_whitespace (w ++ 32 :: rest) = w :: split_whitespace rest.
Proof. intros Hw. apply (split_whitespace_word w rest Hw). Qed.
Lemma split_last w : word_of w → split_whitespace w = [w].
Proof. intros Hw. apply (split_whitespace_word w [] Hw). Qed.

Lemma plain_word w : w ≠ [] → Forall (λ c, 48 ≤ c < 128) w → word_of w.
Proof.
  intros Hne Hw. split; [done|]. eapply Forall_impl; [exact Hw|]. cbn. intros c Hc. unfold is_whitespace.
  rewrite (proj2 (Z.leb_gt c 13)), (proj2 (Z.eqb_neq c 32)), (proj2 (Z.eqb_neq c 133)), (proj2 (Z.eqb_neq c 160)),
    (proj2 (Z.eqb_neq c 5760)), (proj2 (Z.leb_gt 8192 c)), (proj2 (Z.eqb_neq c 8232)), (proj2 (Z.eqb_neq c 8233)),
    (proj2 (Z.eqb_neq c 8239)), (proj2 (Z.eqb_neq c 8287)), (proj2 (Z.eqb_neq c 12288)) by lia.
  by rewrite andb_false_r.
Qed.

(** A line that cannot be taken for the token. *)
Definition noise (line : list char) : Prop :=
  starts_with (txt "RUMSH CONNECT ") line = false ∨ length (split_whitespace line) ≠ 4%nat.

Lemma parse_token_noise lines more :
  Forall noise lines → parse_token ((Some <$> lines) ++ more) = parse_token more.
Proof.
  induction 1 as [|line lines Hn _ IH]; [done|]. cbn [fmap list_fmap app parse_token].
  destruct (starts_with _ line) eqn:E; [|done]. destruct Hn as [|Hn]; [congruence|].
  destruct (split_whitespace line) as [|? [|? [|? [|? [|]]]]]; done.
Qed.

Lemma parse_token_line port key more :
  u16 port → Forall u8 key → key ≠ [] →
  parse_token (Some (txt "RUMSH CONNECT " ++ digits port ++ txt " " ++ key_hex key) :: more) = Ok (port, key_hex key).
Proof.
  intros Hp Hk Hne. cbn [parse_token].
  assert (starts_with (txt "RUMSH CONNECT ") (txt "RUMSH CONNECT " ++ digits port ++ txt " " ++ key_hex key) = true) as ->.
  { unfold starts_with. apply bool_decide_eq_true. by rewrite take_app_length. }
  change (txt "RUMSH CONNECT ") with (txt "RUMSH" ++ 32 :: txt "CONNECT" ++ [32]).
  change (txt " ") with [32]. do 2 (rewrite <-!(assoc_L (++)); cbn [app]).
  destruct (digits_spec 16 port Hp) as (_ & Hd & Hall).
  assert (∀ w, w ∈ [txt "RUMSH"; txt "CONNECT"; digits port; key_hex key] → word_of w) as Hw.
  { intros w Hw. apply plain_word; revert w Hw; apply Forall_forall; repeat constructor; try done.
    - intros E. apply (f_equal length) in E. rewrite length_key_hex in E. by destruct key.
    - eapply Forall_impl; [exact Hall|]. cbn. lia.
    - by apply key_hex_ascii. }
  rewrite !split_first by (apply Hw; repeat first [by left|right]).
  rewrite split_last by (apply Hw; repeat first [by left|right]).
  by rewrite (parse_digits port Hp).
Qed.

Lemma parse_port_range_u16 s lo hi : parse_port_range s = Ok (lo, hi) → u16 lo ∧ u16 hi.
Proof.
  unfold parse_port_range. generalize (if decide (58 ∈ s) then Ok (split 58 s)
    else if decide (45 ∈ s) then Ok (split 45 s) else Err invalid_range) as parts.
  intros [[|a [|b [|]]]| |]; try done. unfold mbind, outcome_bind, ok_or.
  destruct (parse_u16 a) as [x|] eqn:Ea; [|done]. destruct (parse_u16 b) as [y|] eqn:Eb; [|done].
  case_decide; [done|]. intros [= <- <-]. split; (eapply from_str_radix_bound; [| |eassumption]); lia.
Qed.

(** ** Theorems *)

(** C23. The token carries port and key from the server to the client. When the server's start succeeds,
    it has bound a port of the requested range, the first one free, and the client that starts it over
    SSH, whatever else the remote shell prints before and after, comes back with exactly that port, on
    the address its host (or the bind option) resolves to, and exactly the server's 32-byte key. *)
Theorem bootstrap_agrees {Socket : Type} env random (bind : SocketAddr → option Socket) cmd setup :
  Forall u8 random → length random = 32%nat → from_option u16 True (sc_port cmd) →
  run_server_subcommand env random bind cmd = Ok setup →
  ∃ ip lo hi port,
    (match sc_port cmd with Some p => lo = p ∧ hi = p | None => parse_port_range (sc_port_range cmd) = Ok (lo, hi) end) ∧
    lo ≤ port ≤ hi ∧ bind (SocketAddr_of ip port) = Some (ss_socket setup) ∧
    (∀ p, lo ≤ p < port → bind (SocketAddr_of ip p) = None) ∧
    length (ss_key setup) = 32%nat ∧
    ∀ before after ssh resolve self target, Forall noise before →
      ssh [txt "ssh"; txt "-o"; txt "ExitOnForwardFailure=yes"; target; remote_cmd self] =
        Some ((Some <$> before) ++ (Some <$> ss_stdout setup) ++ after, true) →
      bootstrap ssh resolve self target =
        addrs ← resolve (default (extract_host_from_ssh_target target) (sb_remote_bind self) ++ txt ":" ++ digits port);
        addr ← ok_or (Msg "Failed to resolve remote host") (head addrs);
        Ok (addr, ss_key setup).
Proof.
  intros Hr Hrl Hport. unfold run_server_subcommand.
  assert (∀ key, match env_rumsh_key env with Some key_hex => parse_hex_key key_hex | None => Ok random end = Ok key →
    Forall u8 key ∧ length key = 32%nat) as Hkey.
  { intros key. destruct (env_rumsh_key env); [apply parse_hex_key_bytes|by intros [= <-]]. }
  destruct (match env_rumsh_key env with Some _ => _ | None => _ end) as [key| |]; cbn [mbind outcome_bind]; [|done..].
  destruct (Hkey key eq_refl) as [Hk Hkl].
  destruct (match sc_bind cmd with Some _ => _ | None => _ end) as [override| |]; cbn [mbind outcome_bind]; [|done..].
  set (ip := determine_bind_address override (sc_bind_any cmd) (env_ssh_connection env)).
  destruct (match sc_port cmd with Some p => Ok (p, p) | None => parse_port_range (sc_port_range cmd) end)
    as [[lo hi]| |] eqn:Erange; cbn [mbind outcome_bind]; [|done..].
  assert (u16 lo ∧ u16 hi) as [Hlo Hhi].
  { destruct (sc_port cmd); [by injection Erange as <- <-|by apply (parse_port_range_u16 _ _ _ Erange)]. }
  pose proof (bind_first bind ip lo hi) as Hb.
  destruct (bind_to_available_port_sync bind ip (lo, hi)) as [[socket port]| |]; cbn [mbind outcome_bind]; [|done..].
  intros [= <-]. destruct Hb as (Hin & Hbind & Hfirst). exists ip, lo, hi, port.
  split. { destruct (sc_port cmd); [by injection Erange as <- <-|done]. }
  split; [done|]. split; [done|]. split; [done|]. split; [done|].
  intros before after ssh resolve self target Hn Hssh. unfold bootstrap. rewrite Hssh.
  cbn [ok_or mbind outcome_bind ss_stdout ss_key]. rewrite parse_token_noise by done.
  unfold connect_token. cbn [fmap list_fmap app].
  rewrite parse_token_line; [|unfold fits in *; lia|done|by intros ->].
  cbn [mbind outcome_bind]. by rewrite parse_key_hex.
Qed.

(** What [parse_hex_key] takes beyond hexadecimal. A text of 64 bytes that are all below 128 gives a
    key or an error, never a panic; but signs are taken for digits, and a text of 64 bytes with a
    wider character astride two pairs panics. *)
Theorem parse_hex_key_lax :
  (∀ s, Forall (λ c, 0 ≤ c < 128) s → parse_hex_key s ≠ Panic) ∧
  parse_hex_key (concat (replicate 32 (txt "+f"))) = Ok (replicate 32 15) ∧
  parse_hex_key (txt "0" ++ [233] ++ replicate 61 48) = Panic.
Proof.
  split; [|split; [vm_compute; reflexivity|vm_compute; reflexivity]].
  intros s Hs. unfold parse_hex_key. rewrite of_chars_ascii by (eapply Forall_impl; [exact Hs|cbn; lia]).
  case_decide as Hl; [done|]. assert (length s = 64%nat) as Hl' by (unfold len in Hl; lia).
  assert (∀ n i, (i + n = 32)%nat → parse_hex_bytes n i s ≠ Panic) as Hall; [|by apply Hall].
  induction n as [|n IH]; intros i Hi; [done|]. cbn [parse_hex_bytes]. unfold slice.
  rewrite !ascii_boundary by (lia || (eapply Forall_impl; [exact Hs|cbn; lia])). cbn [andb mbind outcome_bind].
  destruct (from_str_radix 8 16 _); cbn; [|done]. specialize (IH (S i)).
  destruct (parse_hex_bytes n (S i) s); [done..|]. intros _. by apply IH; [lia|].
Qed.

(** *** A start on a machine whose port 60000 is taken *)

Definition demo_env : Env := mkEnv None None (Some (txt "/bin/zsh")) None.
Definition demo_bind (a : SocketAddr) : option unit := if decide (a = SocketAddrV4 0 60000) then None else Some tt.
Definition demo_server_cmd : ServerCommand := mkServerCommand None None (txt "60000:60002") false false None.
Definition demo_setup : ServerSetup unit :=
  {| ss_socket := tt; ss_key := replicate 32 7; ss_stdout := connect_token 60001 (replicate 32 7);
     ss_daemonize := true; ss_shell_path := txt "/bin/zsh" |}.
Definition demo_ssh (args : list (list char)) : option (list Line * bool) :=
  Some (Some (txt "Last login: today") :: (Some <$> ss_stdout demo_setup) ++ [None], true).
Definition demo_resolve (name : list char) : outcome (list SocketAddr) :=
  if decide (name = txt "example.org:60001") then Ok [SocketAddrV4 16909060 60001] else Err (Msg "io::Error").

Lemma bootstrap_agrees_witness :
  ∃ ip port, demo_bind (SocketAddr_of ip port) = Some tt ∧
    bootstrap demo_ssh demo_resolve (mkBootstrapper (txt "rumsh") (txt "60000:61000") None None)
      (txt "me@example.org") =
      (addrs ← demo_resolve (txt "example.org" ++ txt ":" ++ digits port);
       addr ← ok_or (Msg "Failed to resolve remote host") (head addrs); Ok (addr, replicate 32 7)).
Proof.
  destruct (bootstrap_agrees demo_env (replicate 32 7) demo_bind demo_server_cmd demo_setup)
    as (ip & lo & hi & port & _ & _ & Hb & _ & _ & Hboot).
  - apply (bool_decide_unpack _). vm_compute. exact I.
  - reflexivity.
  - exact I.
  - vm_compute. reflexivity.
  - exists ip, port. split; [exact Hb|].
    apply (Hboot [txt "Last login: today"] [None] demo_ssh demo_resolve
      (mkBootstrapper (txt "rumsh") (txt "60000:61000") None None) (txt "me@example.org")).
    + constructor; [left; vm_compute; reflexivity|constructor].
    + reflexivity.
Defined.
