(* ===== verification/Grid.v ===== *)
(** * The terminal grid: [src/src/protocol/grid.rs]

    The data of a screen ([CompactGrapheme], [LocalCellData], [GridState]) and of a frame update
    ([CellUpdate], [RowUpdate], [FrameUpdate]), and the two operations of the synchronisation
    protocol: [diff_from] compiles the update that turns a reference grid into the current one,
    [patch] applies an update to a grid. *)

From S2P Require Import Prelude Utf8.

Definition STYLE_BOLD : Z := Z.shiftl 1 0.
Definition STYLE_ITALIC : Z := Z.shiftl 1 1.
Definition STYLE_UNDERLINE : Z := Z.shiftl 1 2.
Definition STYLE_INVERSE : Z := Z.shiftl 1 3.

Record RgbColorUpdate := mkRgb { rgb_r : Z; rgb_g : Z; rgb_b : Z }.
#[export] Instance RgbColorUpdate_eq_dec : EqDecision RgbColorUpdate.
Proof. solve_decision. Defined.

(** At most 15 bytes of UTF-8 in a fixed buffer [cg_bytes] of 15 bytes, [cg_len] of them used. *)
Record CompactGrapheme := mkGrapheme { cg_bytes : list Z; cg_len : Z }.
#[export] Instance CompactGrapheme_eq_dec : EqDecision CompactGrapheme.
Proof. solve_decision. Defined.

(** The loop [while !s.is_char_boundary(len) { len -= 1 }]. *)
Fixpoint floor_boundary (s : str) (n : nat) : nat :=
  if is_char_boundary s n then n
  else match n with O => O | S n' => floor_boundary s n' end.

Definition CompactGrapheme_new (s : str) : CompactGrapheme :=
  let n := if decide (15 < length s)%nat then floor_boundary s 15 else length s in
  {| cg_bytes := take n s ++ replicate (15 - n) 0; cg_len := Z.of_nat n |}.

(** [as_str]: slicing past the 15-byte buffer panics. *)
Definition as_str (g : CompactGrapheme) : outcome str :=
  if decide (cg_len g ≤ len (cg_bytes g)) then Ok (take (Z.to_nat (cg_len g)) (cg_bytes g))
  else Panic.

Record LocalCellData := mkCell {
  graphemes : CompactGrapheme;
  fg : option RgbColorUpdate;
  bg : option RgbColorUpdate;
  style_flags : Z;
}.
#[export] Instance LocalCellData_eta : Eta LocalCellData := λ c,
  mkCell (graphemes c) (fg c) (bg c) (style_flags c).
#[export] Instance LocalCellData_eq_dec : EqDecision LocalCellData.
Proof. solve_decision. Defined.

Record CellUpdate := mkCellUpdate { cu_x : Z; cu_cell : LocalCellData }.
#[export] Instance CellUpdate_eq_dec : EqDecision CellUpdate.
Proof. solve_decision. Defined.

Record RowUpdate := mkRowUpdate { ru_y : Z; ru_cells : list CellUpdate; ru_is_wrapped : bool }.
#[export] Instance RowUpdate_eq_dec : EqDecision RowUpdate.
Proof. solve_decision. Defined.

Record FrameUpdate := mkFrameUpdate {
  fu_ref_seq : Z;
  fu_cols : Z;
  fu_rows : Z;
  fu_cursor_x : Z;
  fu_cursor_y : Z;
  fu_cursor_visible : bool;
  fu_row_updates : list RowUpdate;
  fu_is_echo_enabled : bool;
}.
#[export] Instance FrameUpdate_eta : Eta FrameUpdate := λ f,
  mkFrameUpdate (fu_ref_seq f) (fu_cols f) (fu_rows f) (fu_cursor_x f) (fu_cursor_y f)
    (fu_cursor_visible f) (fu_row_updates f) (fu_is_echo_enabled f).
#[export] Instance FrameUpdate_eq_dec : EqDecision FrameUpdate.
Proof. solve_decision. Defined.

Record GridState := mkGridState {
  gs_cols : Z;
  gs_rows : Z;
  gs_cursor_x : Z;
  gs_cursor_y : Z;
  gs_cursor_visible : bool;
  gs_cells : list LocalCellData;
  gs_row_wrapped : list bool;
}.
#[export] Instance GridState_eq_dec : EqDecision GridState.
Proof. solve_decision. Defined.
#[export] Instance GridState_eta : Eta GridState := λ g,
  mkGridState (gs_cols g) (gs_rows g) (gs_cursor_x g) (gs_cursor_y g) (gs_cursor_visible g)
    (gs_cells g) (gs_row_wrapped g).

(** The cell written wherever the code clears the screen: one space, no colour, no style. *)
Definition blank_cell : LocalCellData :=
  {| graphemes := CompactGrapheme_new [32]; fg := None; bg := None; style_flags := 0 |}.

(** ** [GridState::diff_from] *)

(** The reference state is used only when its dimensions are those of the current state. *)
Definition usable_ref (self : GridState) (ref_state : option GridState) : option GridState :=
  match ref_state with
  | Some r =>
    if decide (gs_cols r = gs_cols self ∧ gs_rows r = gs_rows self) then Some r else None
  | None => None
  end.

(** The inner loop over the columns of row [y]. The index is computed in [u16]. *)
Definition diff_cells (self : GridState) (use_ref : option GridState) (y : Z)
    : outcome (list CellUpdate) :=
  for_each (range (gs_cols self)) (λ cells x,
    let idx := y *₁₆ gs_cols self +₁₆ x in
    to_cell ← vec_get (gs_cells self) idx;
    from_cell ← match use_ref with
                | Some r => vec_get (gs_cells r) idx
                | None => Ok blank_cell
                end;
    if decide (to_cell ≠ from_cell)
    then Ok (cells ++ [{| cu_x := x; cu_cell := to_cell |}])
    else Ok cells) [].

Definition diff_from (self : GridState) (ref_state : option GridState) (ref_seq : Z)
    (is_echo_enabled : bool) : outcome FrameUpdate :=
  let use_ref := usable_ref self ref_state in
  row_updates ← for_each (range (gs_rows self)) (λ row_updates y,
    cells ← diff_cells self use_ref y;
    self_wrapped ← vec_get (gs_row_wrapped self) y;
    wrapping_changed ← match use_ref with
                       | Some r =>
                         ref_wrapped ← vec_get (gs_row_wrapped r) y;
                         Ok (negb (eqb self_wrapped ref_wrapped))
                       | None => Ok self_wrapped
                       end;
    if negb (bool_decide (cells = [])) || wrapping_changed
    then Ok (row_updates ++
               [{| ru_y := y; ru_cells := cells; ru_is_wrapped := self_wrapped |}])
    else Ok row_updates) [];
  Ok {| fu_ref_seq := ref_seq;
        fu_cols := gs_cols self;
        fu_rows := gs_rows self;
        fu_cursor_x := gs_cursor_x self;
        fu_cursor_y := gs_cursor_y self;
        fu_cursor_visible := gs_cursor_visible self;
        fu_row_updates := row_updates;
        fu_is_echo_enabled := is_echo_enabled |}.

(** ** [GridState::patch] *)

Definition patch_cell (y : Z) (cell_update : CellUpdate) : M GridState unit :=
  self ← get;
  let x := cu_x cell_update in
  if decide (gs_cols self ≤ x) then fail (CellOutOfBounds x (gs_cols self))
  else
    cells ← lift (vec_set (gs_cells self) (y * gs_cols self + x) (cu_cell cell_update));
    modify (λ self, self <| gs_cells := cells |>).

Definition patch_row (row_update : RowUpdate) : M GridState unit :=
  self ← get;
  let y := ru_y row_update in
  if decide (gs_rows self ≤ y) then fail (RowOutOfBounds y (gs_rows self))
  else
    row_wrapped ← lift (vec_set (gs_row_wrapped self) y (ru_is_wrapped row_update));
    modify (λ self, self <| gs_row_wrapped := row_wrapped |>) ;;
    for_each_m (ru_cells row_update) (patch_cell y).

(** A grid of other dimensions is replaced by a blank one of the update's dimensions. *)
Definition patch_resize (diff : FrameUpdate) (self : GridState) : GridState :=
  if decide (gs_cols self ≠ fu_cols diff ∨ gs_rows self ≠ fu_rows diff) then
    self <| gs_cols := fu_cols diff |>
         <| gs_rows := fu_rows diff |>
         <| gs_cells := vec blank_cell (fu_cols diff * fu_rows diff) |>
         <| gs_row_wrapped := vec false (fu_rows diff) |>
  else self.

Definition patch (diff : FrameUpdate) : M GridState unit :=
  modify (patch_resize diff) ;;
  for_each_m (fu_row_updates diff) patch_row ;;
  modify (λ self, self <| gs_cursor_x := fu_cursor_x diff |>
                       <| gs_cursor_y := fu_cursor_y diff |>
                       <| gs_cursor_visible := fu_cursor_visible diff |>).

Definition apply_diff (diff : FrameUpdate) : M GridState unit := patch diff.

(** The grid the client starts from when an update names no reference. *)
Definition blank_grid (cols rows : Z) : GridState :=
  {| gs_cols := cols; gs_rows := rows; gs_cursor_x := 0; gs_cursor_y := 0;
     gs_cursor_visible := false; gs_cells := vec blank_cell (cols * rows);
     gs_row_wrapped := vec false rows |}.

(** ** Well-formedness *)

Definition grid_wf (g : GridState) : Prop :=
  u16 (gs_cols g) ∧ u16 (gs_rows g) ∧
  len (gs_cells g) = gs_cols g * gs_rows g ∧ len (gs_row_wrapped g) = gs_rows g.

#[export] Instance grid_wf_dec g : Decision (grid_wf g).
Proof. unfold grid_wf. apply _. Defined.

(** Every cell index of the grid fits the [u16] arithmetic of [diff_from]. *)
Definition addressable (g : GridState) : Prop := gs_cols g * gs_rows g ≤ 2 ^ 16.

Definition same_dims (g h : GridState) : Prop := gs_cols g = gs_cols h ∧ gs_rows g = gs_rows h.

(** ** Specification of an update

    [frame_of base self] is the update that rewrites [base] into [self]: the cells that differ, in
    row-major order, grouped by row; a row is listed when a cell or its wrap flag changed. *)
Definition cell_diff (base self : GridState) (y x : Z) : option CellUpdate :=
  let i := Z.to_nat (y * gs_cols self + x) in
  to_cell ← gs_cells self !! i;
  from_cell ← gs_cells base !! i;
  if decide (to_cell ≠ from_cell) then Some {| cu_x := x; cu_cell := to_cell |} else None.

Definition row_diff (base self : GridState) (y : Z) : option RowUpdate :=
  let cells := omap (cell_diff base self y) (range (gs_cols self)) in
  self_wrapped ← gs_row_wrapped self !! Z.to_nat y;
  base_wrapped ← gs_row_wrapped base !! Z.to_nat y;
  if decide (cells ≠ [] ∨ self_wrapped ≠ base_wrapped)
  then Some {| ru_y := y; ru_cells := cells; ru_is_wrapped := self_wrapped |} else None.

Definition frame_of (base self : GridState) (ref_seq : Z) (is_echo_enabled : bool) : FrameUpdate :=
  {| fu_ref_seq := ref_seq;
     fu_cols := gs_cols self;
     fu_rows := gs_rows self;
     fu_cursor_x := gs_cursor_x self;
     fu_cursor_y := gs_cursor_y self;
     fu_cursor_visible := gs_cursor_visible self;
     fu_row_updates := omap (row_diff base self) (range (gs_rows self));
     fu_is_echo_enabled := is_echo_enabled |}.

(** What [diff_from] compares with. *)
Definition base_of (self : GridState) (ref_state : option GridState) : GridState :=
  default (blank_grid (gs_cols self) (gs_rows self)) (usable_ref self ref_state).

(** ** Lemmas *)

Lemma blank_grid_wf cols rows : u16 cols → u16 rows → grid_wf (blank_grid cols rows).
Proof.
  unfold grid_wf, fits. intros. simpl. rewrite !len_vec by lia. lia.
Qed.

Lemma base_of_wf self ref :
  grid_wf self → (∀ r, ref = Some r → grid_wf r) → grid_wf (base_of self ref).
Proof.
  intros Hwf Href. unfold base_of, usable_ref. destruct ref as [r|]; [case_decide|]; simpl.
  - by apply Href.
  - destruct Hwf as (?&?&_). by apply blank_grid_wf.
  - destruct Hwf as (?&?&_). by apply blank_grid_wf.
Qed.

Lemma base_of_dims self ref : same_dims (base_of self ref) self.
Proof.
  unfold base_of, usable_ref, same_dims. destruct ref as [r|]; [case_decide|]; done.
Qed.

Lemma cell_index_bound cols rows y x :
  0 ≤ x < cols → 0 ≤ y < rows → 0 ≤ y * cols + x < cols * rows.
Proof. nia. Qed.

Lemma cell_index_wrap cols rows y x :
  0 ≤ x < cols → 0 ≤ y < rows → cols * rows ≤ 2 ^ 16 → y *₁₆ cols +₁₆ x = y * cols + x.
Proof.
  intros Hx Hy Hle. pose proof (cell_index_bound cols rows y x Hx Hy).
  rewrite (wrap_small 16 (y * cols)) by (unfold fits; nia).
  apply wrap_small. unfold fits. lia.
Qed.

Lemma diff_cells_ok self ref y :
  grid_wf self → (∀ r, ref = Some r → grid_wf r) → addressable self → 0 ≤ y < gs_rows self →
  diff_cells self (usable_ref self ref) y =
  Ok (omap (cell_diff (base_of self ref) self y) (range (gs_cols self))).
Proof.
  intros Hwf Href Hadr Hy. unfold diff_cells.
  rewrite (for_each_push _ (cell_diff (base_of self ref) self y)); [done|].
  intros x acc Hx. apply elem_of_range in Hx.
  pose proof (base_of_wf self ref Hwf Href) as Hbwf.
  destruct (base_of_dims self ref) as [Hc Hr].
  destruct Hwf as (_ & _ & Hlen & _), Hbwf as (_ & _ & Hblen & _).
  rewrite (cell_index_wrap _ _ _ _ Hx Hy Hadr).
  pose proof (cell_index_bound _ _ _ _ Hx Hy) as Hi. unfold cell_diff.
  set (i := y * gs_cols self + x) in *.
  destruct (vec_get_Some (gs_cells self) i) as (a & Ha & ->); [lia|].
  destruct (vec_get_Some (gs_cells (base_of self ref)) i) as (b & Hb & Hb'); [congruence|].
  rewrite Ha, Hb. simpl.
  assert (match usable_ref self ref with
          | Some r => vec_get (gs_cells r) i
          | None => Ok blank_cell
          end = Ok b) as ->.
  { unfold base_of in Hb, Hb'. destruct (usable_ref self ref) as [r|]; [done|]. simpl in Hb.
    rewrite lookup_vec in Hb by lia. congruence. }
  simpl. case_decide; simpl; [done|]. by rewrite app_nil_r.
Qed.

Lemma diff_from_ok self ref ref_seq echo :
  grid_wf self → (∀ r, ref = Some r → grid_wf r) → addressable self →
  diff_from self ref ref_seq echo = Ok (frame_of (base_of self ref) self ref_seq echo).
Proof.
  intros Hwf Href Hadr. unfold diff_from.
  rewrite (for_each_push _ (row_diff (base_of self ref) self)); [done|].
  intros y acc Hy. apply elem_of_range in Hy.
  rewrite diff_cells_ok by done. simpl.
  pose proof (base_of_wf self ref Hwf Href) as (_ & _ & _ & Hbw).
  destruct (base_of_dims self ref) as [Hc Hr]. destruct Hwf as (_ & _ & _ & Hw).
  unfold row_diff.
  destruct (vec_get_Some (gs_row_wrapped self) y) as (a & Ha & ->); [lia|].
  destruct (vec_get_Some (gs_row_wrapped (base_of self ref)) y) as (b & Hb & Hb'); [lia|].
  rewrite Ha, Hb. simpl.
  assert (match usable_ref self ref with
          | Some r => w ← vec_get (gs_row_wrapped r) y; Ok (negb (eqb a w))
          | None => Ok a
          end = Ok (negb (eqb a b))) as ->.
  { unfold base_of in Hb, Hb'. destruct (usable_ref self ref) as [r|]; simpl in *.
    - by rewrite Hb'.
    - rewrite lookup_vec in Hb by lia. simplify_eq. by destruct a. }
  simpl. case_decide as Hd; case_bool_decide as Hn; destruct a, b; simpl;
    rewrite ?app_nil_r;
    first [done | by destruct Hd | exfalso; apply Hd; auto].
Qed.

(** The state of [patch] while it turns [base] into [self]: the first [k] cells and the first [j]
    wrap flags are those of [self], the others still those of [base]. *)
Record patched (base self : GridState) (k j : Z) (g : GridState) : Prop := {
  patched_dims : same_dims g self;
  patched_cells_len : len (gs_cells g) = len (gs_cells self);
  patched_wrapped_len : len (gs_row_wrapped g) = len (gs_row_wrapped self);
  patched_cell i : 0 ≤ i < len (gs_cells self) →
    gs_cells g !! Z.to_nat i = (if decide (i < k) then gs_cells self else gs_cells base) !! Z.to_nat i;
  patched_wrapped i : 0 ≤ i < len (gs_row_wrapped self) →
    gs_row_wrapped g !! Z.to_nat i =
    (if decide (i < j) then gs_row_wrapped self else gs_row_wrapped base) !! Z.to_nat i;
}.

Section patching.
Context (base self : GridState).
Hypothesis Hbase : grid_wf base.
Hypothesis Hself : grid_wf self.
Hypothesis Hdims : same_dims base self.

Let cols := gs_cols self.
Let rows := gs_rows self.

Lemma patched_start : patched base self 0 0 base.
Proof.
  destruct Hbase as (_ & _ & Hc & Hr), Hself as (_ & _ & Hc' & Hr'), Hdims as [Hd1 Hd2].
  split; [done|congruence|congruence|..]; intros i Hi; rewrite decide_False by lia; done.
Qed.

Lemma patched_done g :
  patched base self (cols * rows) rows g →
  gs_cols g = cols ∧ gs_rows g = rows ∧
  gs_cells g = gs_cells self ∧ gs_row_wrapped g = gs_row_wrapped self.
Proof.
  destruct Hself as (_ & _ & Hc & Hr). intros [[Hd1 Hd2] Hlc Hlr Hcell Hwr].
  split_and!; [done|done|..]; apply list_eq_Z; try done; intros i Hi.
  - rewrite Hcell by congruence. rewrite decide_True; [done|unfold cols, rows; lia].
  - rewrite Hwr by congruence. rewrite decide_True; [done|unfold rows; lia].
Qed.

(** An element that does not differ may be skipped, or overwritten. *)
Lemma patched_cell_step k j g :
  0 ≤ k < cols * rows → patched base self k j g →
  gs_cells g !! Z.to_nat k = gs_cells self !! Z.to_nat k →
  patched base self (k + 1) j g.
Proof.
  intros Hk [Hd Hlc Hlr Hcell Hwr] Heq. split; [done..| |done].
  intros i Hi. destruct (decide (i = k)) as [->|Hne].
  - by rewrite decide_True by lia.
  - rewrite Hcell by done. repeat case_decide; done || lia.
Qed.

Lemma patched_cell_write k j g c :
  0 ≤ k < cols * rows → patched base self k j g → gs_cells self !! Z.to_nat k = Some c →
  patched base self (k + 1) j (g <| gs_cells := <[Z.to_nat k := c]> (gs_cells g) |>).
Proof.
  destruct Hself as (_ & _ & Hc & Hr).
  intros Hk [Hd Hlc Hlr Hcell Hwr] Heq. unfold len in *.
  split; simpl; [done|unfold len; rewrite length_insert; lia|done| |done].
  intros i Hi. destruct (decide (i = k)) as [->|Hne].
  - rewrite decide_True, list_lookup_insert_eq by (unfold cols, rows in *; lia). done.
  - rewrite list_lookup_insert_ne by (unfold len in *; lia).
    rewrite Hcell by done. repeat case_decide; done || lia.
Qed.

Lemma patch_cell_step y k j g x :
  0 ≤ y < rows → 0 ≤ x < cols → k = y * cols + x → patched base self k j g →
  ∃ g', (match cell_diff base self y x with Some u => patch_cell y u | None => mret tt end) g =
        (g', Ok tt) ∧ patched base self (k + 1) j g'.
Proof.
  intros Hy Hx -> Hp.
  pose proof (cell_index_bound cols rows y x Hx Hy) as Hi.
  destruct Hself as (_ & _ & Hc & _), Hbase as (_ & _ & Hb & _), Hdims as [Hd1 Hd2].
  pose proof Hp as [[Hg1 Hg2] Hlc _ Hcell _].
  unfold cell_diff. fold cols. set (i := y * cols + x) in *.
  destruct (vec_get_Some (gs_cells self) i) as (a & Ha & _); [unfold cols, rows in *; lia|].
  destruct (vec_get_Some (gs_cells base) i) as (b & Hb' & _); [unfold cols, rows in *; lia|].
  rewrite Ha, Hb'. simpl. case_decide as Hab; simpl.
  - unfold patch_cell, mbind, M_bind, get. simpl.
    rewrite decide_False by (unfold cols in *; lia).
    rewrite Hg1. fold cols. fold i. rewrite vec_set_ok by (unfold cols, rows in *; lia). simpl.
    eexists. split; [reflexivity|]. by apply (patched_cell_write i j g a).
  - assert (a = b) as -> by (by destruct (decide (a = b))).
    exists g. split; [done|]. apply patched_cell_step; [done..|].
    rewrite Hcell by (unfold cols, rows in *; lia). rewrite decide_False by lia. congruence.
Qed.

Lemma patch_cells_step y j g :
  0 ≤ y < rows → patched base self (y * cols) j g →
  ∃ g', for_each_m (omap (cell_diff base self y) (range cols)) (patch_cell y) g = (g', Ok tt) ∧
        patched base self ((y + 1) * cols) j g'.
Proof.
  intros Hy Hp. rewrite for_each_m_omap.
  assert (0 ≤ cols) as Hcols by (destruct Hself as ([? _] & _); unfold cols; lia).
  destruct (for_each_m_range (λ x g, patched base self (y * cols + x) j g) cols
    (λ x, match cell_diff base self y x with Some u => patch_cell y u | None => mret tt end) g)
    as (g' & Hg' & Hp'); [done|by rewrite Z.add_0_r| |].
  - intros x g' Hx Hp'. rewrite Z.add_assoc. by apply patch_cell_step.
  - exists g'. split; [done|]. by replace ((y + 1) * cols) with (y * cols + cols) by lia.
Qed.

Lemma patched_wrap_write k j g w :
  0 ≤ j < rows → patched base self k j g → gs_row_wrapped self !! Z.to_nat j = Some w →
  patched base self k (j + 1) (g <| gs_row_wrapped := <[Z.to_nat j := w]> (gs_row_wrapped g) |>).
Proof.
  destruct Hself as (_ & _ & _ & Hr).
  intros Hj [Hd Hlc Hlr Hcell Hwr] Heq. unfold len in *.
  split; simpl; [done|done|unfold len; rewrite length_insert; lia|done|].
  intros i Hi. destruct (decide (i = j)) as [->|Hne].
  - rewrite decide_True, list_lookup_insert_eq by (unfold rows in *; lia). done.
  - rewrite list_lookup_insert_ne by (unfold len in *; lia).
    rewrite Hwr by done. repeat case_decide; done || lia.
Qed.

Lemma patched_wrap_step k j g :
  0 ≤ j < rows → patched base self k j g →
  gs_row_wrapped self !! Z.to_nat j = gs_row_wrapped base !! Z.to_nat j →
  patched base self k (j + 1) g.
Proof.
  destruct Hself as (_ & _ & _ & Hr).
  intros Hj [Hd Hlc Hlr Hcell Hwr] Heq. split; [done..|].
  intros i Hi. rewrite Hwr by done. destruct (decide (i = j)) as [->|Hne].
  - by rewrite decide_False, decide_True by lia.
  - repeat case_decide; done || lia.
Qed.

Lemma patch_row_step y g :
  0 ≤ y < rows → patched base self (y * cols) y g →
  ∃ g', (match row_diff base self y with Some u => patch_row u | None => mret tt end) g =
        (g', Ok tt) ∧ patched base self ((y + 1) * cols) (y + 1) g'.
Proof.
  intros Hy Hp.
  destruct Hself as (_ & _ & _ & Hr), Hbase as (_ & _ & _ & Hr'), Hdims as [Hd1 Hd2].
  pose proof Hp as [[_ Hg2] _ Hlr _ _].
  unfold row_diff. fold cols.
  destruct (vec_get_Some (gs_row_wrapped self) y) as (a & Ha & _); [unfold rows in *; lia|].
  destruct (vec_get_Some (gs_row_wrapped base) y) as (b & Hb & _); [unfold rows in *; lia|].
  rewrite Ha, Hb. simpl. case_decide as Hab; simpl.
  - unfold patch_row, mbind, M_bind, get. simpl.
    rewrite decide_False by (unfold rows in *; lia).
    rewrite vec_set_ok by (unfold rows in *; lia). simpl.
    apply patch_cells_step; [done|]. by apply patched_wrap_write.
  - destruct (patch_cells_step y y g Hy Hp) as (g' & Hg' & Hp').
    destruct (decide (omap (cell_diff base self y) (range cols) = [])) as [E|E]; [|tauto].
    rewrite E in Hg'. injection Hg' as <-.
    exists g. split; [done|]. apply patched_wrap_step; [done..|].
    destruct (decide (a = b)); [congruence|tauto].
Qed.

Lemma patch_rows :
  ∃ g', for_each_m (omap (row_diff base self) (range rows)) patch_row base = (g', Ok tt) ∧
        patched base self (rows * cols) rows g'.
Proof.
  rewrite for_each_m_omap.
  assert (0 ≤ rows) as Hrows by (destruct Hself as (_ & [? _] & _); unfold rows; lia).
  apply (for_each_m_range (λ y g, patched base self (y * cols) y g) rows
    (λ y, match row_diff base self y with Some u => patch_row u | None => mret tt end)).
  - done.
  - apply patched_start.
  - intros y g. apply patch_row_step.
Qed.
End patching.

(** Patching any grid whose resized form is [base] with the update from [base] to [self] yields
    [self]. *)
Lemma patch_frame_of base self ref_seq echo g :
  grid_wf base → grid_wf self → same_dims base self →
  patch_resize (frame_of base self ref_seq echo) g = base →
  patch (frame_of base self ref_seq echo) g = (self, Ok tt).
Proof.
  intros Hbase Hself Hdims Hg. unfold patch, mbind, M_bind, modify.
  rewrite Hg. cbn [fu_row_updates frame_of].
  destruct (patch_rows base self Hbase Hself Hdims) as (g' & -> & Hp).
  rewrite Z.mul_comm in Hp. apply patched_done in Hp as (H1 & H2 & H3 & H4); [|done].
  destruct self, g'. simpl in *. by subst.
Qed.

Lemma patch_resize_same d g :
  gs_cols g = fu_cols d → gs_rows g = fu_rows d → patch_resize d g = g.
Proof. intros. unfold patch_resize. rewrite decide_False; [done|tauto]. Qed.

Lemma frame_of_cursor base base' self ref_seq echo :
  gs_cells base = gs_cells base' → gs_row_wrapped base = gs_row_wrapped base' →
  frame_of base self ref_seq echo = frame_of base' self ref_seq echo.
Proof. unfold frame_of, row_diff, cell_diff. by intros -> ->. Qed.

(** ** Compact graphemes *)

Lemma floor_boundary_spec s n :
  (floor_boundary s n ≤ n)%nat ∧ is_char_boundary s (floor_boundary s n) = true ∧
  ∀ m, (floor_boundary s n < m ≤ n)%nat → is_char_boundary s m = false.
Proof.
  induction n as [|n IH]; simpl.
  - destruct (is_char_boundary s 0) eqn:E; (split_and!; [lia|done|lia]).
  - destruct (is_char_boundary s (S n)) eqn:E; [split_and!; [lia|done|lia]|].
    destruct IH as (H1 & H2 & H3). split_and!; [lia|done|].
    intros m Hm. destruct (decide (m = S n)) as [->|]; [done|]. apply H3. lia.
Qed.

Lemma as_str_new_take s n :
  (n ≤ 15)%nat → (n ≤ length s)%nat →
  as_str {| cg_bytes := take n s ++ replicate (15 - n) 0; cg_len := Z.of_nat n |} = Ok (take n s).
Proof.
  intros Hn Hs. unfold as_str, len. simpl.
  rewrite length_app, length_take, length_replicate, decide_True by lia.
  rewrite Nat2Z.id, take_app_le by (rewrite length_take; lia). by rewrite take_take, Nat.min_id.
Qed.

Lemma CompactGrapheme_new_fits s :
  length (cg_bytes (CompactGrapheme_new s)) = 15%nat ∧ 0 ≤ cg_len (CompactGrapheme_new s) ≤ 15.
Proof.
  unfold CompactGrapheme_new. cbn [cg_bytes cg_len].
  pose proof (floor_boundary_spec s 15) as (H & _).
  rewrite length_app, length_take, length_replicate. case_decide; lia.
Qed.

(** ** Robustness of [patch] *)

Definition row_update_fits (r : RowUpdate) : Prop :=
  u16 (ru_y r) ∧ Forall (λ c, u16 (cu_x c)) (ru_cells r).
Definition update_fits (d : FrameUpdate) : Prop :=
  u16 (fu_cols d) ∧ u16 (fu_rows d) ∧ Forall row_update_fits (fu_row_updates d).

#[export] Instance row_update_fits_dec r : Decision (row_update_fits r).
Proof. unfold row_update_fits. apply _. Defined.
#[export] Instance update_fits_dec d : Decision (update_fits d).
Proof. unfold update_fits. apply _. Defined.

Lemma patch_resize_wf d g : update_fits d → grid_wf g → grid_wf (patch_resize d g).
Proof.
  intros (Hc & Hr & _) Hwf. unfold patch_resize. case_decide; [|done].
  unfold grid_wf, fits in *. simpl. rewrite !len_vec by lia. lia.
Qed.

Lemma for_each_m_safe {S A} (P : S → Prop) (l : list A) (f : A → M S unit) s :
  P s → (∀ x s, x ∈ l → P s → P (f x s).1 ∧ (f x s).2 ≠ Panic) →
  P (for_each_m l f s).1 ∧ (for_each_m l f s).2 ≠ Panic.
Proof.
  revert s. induction l as [|x l IH]; intros s Hs Hf; simpl; [done|].
  destruct (Hf x s) as [H1 H2]; [by left|done|].
  unfold mbind, M_bind. destruct (f x s) as [s' [a| |]]; simpl in *; [|done|done].
  apply IH; [done|]. intros y s'' Hy. apply Hf. by right.
Qed.

Lemma patch_cell_safe y c g :
  u16 y → u16 (cu_x c) → y < gs_rows g → grid_wf g →
  grid_wf (patch_cell y c g).1 ∧ gs_rows (patch_cell y c g).1 = gs_rows g ∧
  (patch_cell y c g).2 ≠ Panic.
Proof.
  intros [Hy0 _] [Hx0 _] Hy Hwf. unfold patch_cell, mbind, M_bind, get, fail, lift, modify.
  case_decide as Hx; [done|].
  pose proof (cell_index_bound (gs_cols g) (gs_rows g) y (cu_x c)) as Hi.
  pose proof Hwf as (_ & _ & Hl & _). rewrite vec_set_ok by lia. simpl.
  split_and!; [|done|done]. unfold grid_wf, len in *. simpl. by rewrite length_insert.
Qed.

Lemma patch_row_safe r g :
  row_update_fits r → grid_wf g → grid_wf (patch_row r g).1 ∧ (patch_row r g).2 ≠ Panic.
Proof.
  intros [Hy Hcells] Hwf. unfold patch_row, mbind, M_bind, get, fail, lift, modify.
  case_decide as Hd; [done|].
  pose proof Hwf as (? & ? & ? & Hl). rewrite vec_set_ok by (unfold fits in *; lia). simpl.
  set (g1 := mkGridState _ _ _ _ _ _ _).
  assert (grid_wf g1) as Hg1.
  { unfold grid_wf, len in *. simpl. by rewrite length_insert. }
  destruct (for_each_m_safe (λ g, grid_wf g ∧ ru_y r < gs_rows g) (ru_cells r)
    (patch_cell (ru_y r)) g1) as [[? _] ?]; [split; [done|simpl; lia]| |done].
  intros c g' Hc [Hwf' Hlt]. rewrite Forall_forall in Hcells.
  destruct (patch_cell_safe (ru_y r) c g') as (? & Hrows & ?); auto.
  split; [split; [done|by rewrite Hrows]|done].
Qed.

Lemma cell_diff_Some base self y x u :
  cell_diff base self y x = Some u →
  ∃ c, u = {| cu_x := x; cu_cell := c |} ∧
    gs_cells self !! Z.to_nat (y * gs_cols self + x) = Some c ∧
    gs_cells base !! Z.to_nat (y * gs_cols self + x) ≠ Some c.
Proof.
  unfold cell_diff. destruct (gs_cells self !! _) as [c|]; [|done].
  destruct (gs_cells base !! _) as [b|]; [|done]. simpl. case_decide; [|done].
  intros [= <-]. exists c. split_and!; [done|done|congruence].
Qed.

Lemma row_diff_Some base self y r :
  row_diff base self y = Some r →
  ru_y r = y ∧ ru_cells r = omap (cell_diff base self y) (range (gs_cols self)).
Proof.
  unfold row_diff. destruct (gs_row_wrapped self !! _); [|done].
  destruct (gs_row_wrapped base !! _); [|done]. simpl. case_decide; [|done]. by intros [= <-].
Qed.

Lemma diff_from_dims self ref ref_seq echo d :
  diff_from self ref ref_seq echo = Ok d → fu_cols d = gs_cols self ∧ fu_rows d = gs_rows self.
Proof. unfold diff_from. destruct (for_each _ _ _); simpl; [|done|done]. by intros [= <-]. Qed.

(** A grid that is blank except at one index the wrapped arithmetic never reaches. *)
Definition far_cell : LocalCellData := blank_cell <| style_flags := STYLE_BOLD |>.
Definition far_grid (cols rows : Z) : GridState :=
  (blank_grid cols rows) <| gs_cells := <[Z.to_nat (2 ^ 16) := far_cell]> (vec blank_cell (cols * rows)) |>.

Lemma far_grid_wf cols rows : u16 cols → u16 rows → grid_wf (far_grid cols rows).
Proof.
  intros Hc Hr. destruct (blank_grid_wf cols rows Hc Hr) as (? & ? & Hl & ?).
  split_and!; [done|done| |done]. unfold len in *. cbn. by rewrite length_insert.
Qed.

Lemma far_grid_lookup cols rows i :
  2 ^ 16 < cols * rows → u16 i → gs_cells (far_grid cols rows) !! Z.to_nat i = Some blank_cell.
Proof.
  unfold fits. intros Hn Hi. cbn [far_grid upd gs_cells].
  rewrite list_lookup_insert_ne by lia. apply lookup_vec. lia.
Qed.

Lemma diff_cells_far cols rows y :
  2 ^ 16 < cols * rows → diff_cells (far_grid cols rows) None y = Ok [].
Proof.
  intros Hn. unfold diff_cells. rewrite (for_each_push _ (λ _, None)).
  - simpl. f_equal. by induction (range _).
  - intros x acc _. set (idx := _ +₁₆ x).
    rewrite (vec_get_ok _ idx blank_cell) by (apply far_grid_lookup; [done|by apply wrap_fits]).
    cbn -[far_grid]. rewrite app_nil_r. by case_decide.
Qed.

Lemma diff_from_far cols rows echo :
  u16 cols → u16 rows → 2 ^ 16 < cols * rows →
  ∃ d, diff_from (far_grid cols rows) None 0 echo = Ok d ∧ fu_row_updates d = [].
Proof.
  intros Hc Hr Hn. unfold diff_from.
  rewrite (for_each_push _ (λ _, None)).
  - eexists. split; [reflexivity|]. cbn [fu_row_updates]. by induction (range _).
  - intros y acc Hy. apply elem_of_range in Hy. cbn [usable_ref].
    rewrite diff_cells_far by done. cbn [mbind outcome_bind].
    rewrite (vec_get_ok _ y false); [by rewrite app_nil_r|].
    apply (lookup_vec false rows y). done.
Qed.

Lemma diff_patch self ref ref_seq echo base :
  grid_wf self → addressable self → grid_wf base →
  ref = Some base ∨
  ref = None ∧ (base = blank_grid (gs_cols self) (gs_rows self) ∨ ¬ same_dims base self) →
  ∃ d, diff_from self ref ref_seq echo = Ok d ∧ patch d base = (self, Ok tt).
Proof.
  intros Hwf Hadr Hb Href.
  exists (frame_of (base_of self ref) self ref_seq echo). split.
  { apply diff_from_ok; [done| |done]. intros r Hr. destruct Href as [->|[-> _]]; congruence. }
  destruct (decide (gs_cols base = gs_cols self ∧ gs_rows base = gs_rows self)) as [Hd|Hd].
  - assert (base_of self ref = base) as ->.
    { unfold base_of, usable_ref. destruct Href as [->|(-> & [->|Hn])]; [|done|done].
      by rewrite decide_True. }
    apply patch_frame_of; [done..|]. by apply patch_resize_same; destruct Hd.
  - assert (base_of self ref = blank_grid (gs_cols self) (gs_rows self)) as ->.
    { unfold base_of, usable_ref. destruct Href as [->|(-> & _)]; [|done].
      by rewrite decide_False. }
    set (d := frame_of _ _ _ _).
    assert (grid_wf (patch_resize d base)) as Hwf'.
    { unfold patch_resize. rewrite decide_True by (cbn; lia).
      destruct Hwf as (H1 & H2 & _). pose proof (blank_grid_wf _ _ H1 H2). done. }
    assert (patch_resize d base = base <| gs_cols := gs_cols self |> <| gs_rows := gs_rows self |>
       <| gs_cells := vec blank_cell (gs_cols self * gs_rows self) |>
       <| gs_row_wrapped := vec false (gs_rows self) |>) as E.
    { unfold patch_resize. by rewrite decide_True by (cbn; lia). }
    unfold d. rewrite (frame_of_cursor _ (patch_resize d base)) by (by rewrite E).
    apply patch_frame_of; [done|done|by rewrite E|]. done.
Qed.

(** * Properties *)

(** C7. Synchronisation by diffs is lossless: for a well-formed grid of at most 65536 cells, the
    update that [diff_from] compiles, applied by [patch] to the grid it was compiled against (the
    reference, a blank grid of the same size, or any grid of another size when there is no
    reference), yields exactly the current grid, cursor and wrap flags included. *)
Theorem diff_patch_roundtrip self ref ref_seq echo base :
  grid_wf self → addressable self → grid_wf base →
  ref = Some base ∨
  ref = None ∧ (base = blank_grid (gs_cols self) (gs_rows self) ∨ ¬ same_dims base self) →
  ∃ d, diff_from self ref ref_seq echo = Ok d ∧ patch d base = (self, Ok tt).
Proof. apply diff_patch. Qed.

(** Above 65536 cells the [u16] index arithmetic of [diff_from] wraps and the protocol loses
    cells: for all dimensions with more than 2^16 cells there is a well-formed grid whose full
    update, applied to a blank grid, does not reproduce it. *)
Theorem diff_from_wraps cols rows echo :
  u16 cols → u16 rows → 2 ^ 16 < cols * rows →
  ∃ self d, grid_wf self ∧ gs_cols self = cols ∧ gs_rows self = rows ∧
    diff_from self None 0 echo = Ok d ∧ fu_row_updates d = [] ∧
    (patch d (blank_grid cols rows)).1 ≠ self.
Proof.
  intros Hc Hr Hn. destruct (diff_from_far cols rows echo Hc Hr Hn) as (d & Hd & Hrows).
  exists (far_grid cols rows), d. split_and!; [by apply far_grid_wf|done|done|done|done|].
  intros Heq. apply (f_equal (λ g, gs_cells g !! Z.to_nat (2 ^ 16))) in Heq. revert Heq.
  unfold patch, mbind, M_bind, modify. rewrite Hrows, patch_resize_same by
    (symmetry; apply (diff_from_dims _ _ _ _ _ Hd)).
  cbn [for_each_m mret M_ret fst upd gs_cells blank_grid far_grid].
  rewrite lookup_vec by lia. rewrite list_lookup_insert_eq; [by intros [=]|].
  pose proof (len_vec blank_cell (cols * rows)) as Hl. unfold len in Hl. lia.
Qed.

(** The update is minimal and complete: it carries a cell at row [y] and column [x] exactly
    when that cell lies on the screen and differs from the reference, with its current value. *)
Theorem diff_from_exact self base ref_seq echo d y x c :
  grid_wf self → addressable self → grid_wf base → same_dims base self →
  diff_from self (Some base) ref_seq echo = Ok d →
  (∃ r, r ∈ fu_row_updates d ∧ ru_y r = y ∧ {| cu_x := x; cu_cell := c |} ∈ ru_cells r) ↔
  0 ≤ y < gs_rows self ∧ 0 ≤ x < gs_cols self ∧
  gs_cells self !! Z.to_nat (y * gs_cols self + x) = Some c ∧
  gs_cells base !! Z.to_nat (y * gs_cols self + x) ≠ Some c.
Proof.
  intros Hwf Hadr Hb Hd Hdiff.
  rewrite diff_from_ok in Hdiff; [|done|by intros ? [= <-]|done]. injection Hdiff as <-.
  assert (base_of self (Some base) = base) as ->.
  { unfold base_of, usable_ref. by rewrite decide_True. }
  cbn [frame_of fu_row_updates]. split.
  - intros (r & Hr & <- & Hc). apply list_elem_of_omap in Hr as (y & Hy & Hrow).
    apply row_diff_Some in Hrow as (-> & Hcells). cbn. rewrite Hcells in Hc.
    apply list_elem_of_omap in Hc as (x' & Hx & Hcell).
    apply elem_of_range in Hy, Hx. apply cell_diff_Some in Hcell as (c' & [= -> ->] & Hc1 & Hc2).
    split_and!; lia || done.
  - intros (Hy & Hx & Hc & Hne).
    pose proof (cell_index_bound _ _ _ _ Hx Hy) as Hi.
    destruct Hb as (_ & _ & Hbl & Hbw), Hwf as (_ & _ & _ & Hw), Hd as [Hd1 Hd2].
    destruct (vec_get_Some (gs_cells base) (y * gs_cols self + x)) as (b & Hb & _); [congruence|].
    destruct (vec_get_Some (gs_row_wrapped self) y) as (w & Hw' & _); [lia|].
    destruct (vec_get_Some (gs_row_wrapped base) y) as (w' & Hw'' & _); [lia|].
    set (cells := omap (cell_diff base self y) (range (gs_cols self))).
    assert ({| cu_x := x; cu_cell := c |} ∈ cells) as Hin.
    { apply list_elem_of_omap. exists x. split; [by apply elem_of_range|].
      unfold cell_diff. rewrite Hc, Hb. simpl. rewrite decide_True; [done|congruence]. }
    exists {| ru_y := y; ru_cells := cells; ru_is_wrapped := w |}. split_and!; [|done|done].
    apply list_elem_of_omap. exists y. split; [by apply elem_of_range|].
    unfold row_diff. fold cells. rewrite Hw', Hw''. simpl. rewrite decide_True; [done|].
    left. intros E. rewrite E in Hin. by apply not_elem_of_nil in Hin.
Qed.

(** C37. [patch] is safe on every update a peer can send, malformed ones included: on a well-formed
    grid it returns (success or an out-of-bounds error), it never panics, and the grid it leaves is
    well-formed in both cases. *)
Theorem patch_safe d g :
  update_fits d → grid_wf g → grid_wf (patch d g).1 ∧ (patch d g).2 ≠ Panic.
Proof.
  intros Hd Hg. unfold patch, mbind, M_bind, modify.
  destruct (for_each_m_safe grid_wf (fu_row_updates d) patch_row (patch_resize d g)) as [H1 H2].
  - by apply patch_resize_wf.
  - intros r s Hr. apply patch_row_safe. destruct Hd as (_ & _ & Hd).
    rewrite Forall_forall in Hd. by apply Hd.
  - by destruct (for_each_m _ _ _) as [s [[]| |]].
Qed.

(** [CompactGrapheme::new] keeps the longest prefix of whole characters that fits 15 bytes:
    [as_str] gives it back, and one more character would not fit. *)
Theorem grapheme_longest_prefix cs :
  Forall scalar cs →
  ∃ k, as_str (CompactGrapheme_new (of_chars cs)) = Ok (of_chars (take k cs)) ∧
    len (of_chars (take k cs)) ≤ 15 ∧
    (of_chars (take k cs) = of_chars cs ∨ 15 < len (of_chars (take (S k) cs))).
Proof.
  intros Hcs. assert (Forall (λ c, 0 ≤ c) cs) as Hpos.
  { eapply Forall_impl; [exact Hcs|]. unfold scalar. lia. }
  unfold CompactGrapheme_new, len. case_decide as Hlen.
  - destruct (floor_boundary_spec (of_chars cs) 15) as (H1 & H2 & H3).
    set (n := floor_boundary (of_chars cs) 15) in *.
    destruct (char_boundary_prefix cs n) as [k Hk]; [done|lia|done|].
    exists k. rewrite as_str_new_take by lia. split_and!; [|lia|].
    + f_equal. rewrite Hk. rewrite <-(take_drop k cs) at 2.
      by rewrite of_chars_app, take_app_length.
    + right. destruct (decide (length (of_chars (take (S k) cs)) ≤ 15)%nat) as [Hle|]; [|lia].
      exfalso. pose proof (prefix_char_boundary cs (S k) Hpos) as Hb.
      destruct (cs !! k) as [c|] eqn:Ek.
      * rewrite (take_S_r _ _ _ Ek), of_chars_app, length_app in Hb, Hle.
        rewrite H3 in Hb; [done|]. rewrite Hk. rewrite of_chars_cons, length_app in *.
        pose proof (length_encode_utf8 c). lia.
      * apply lookup_ge_None in Ek. rewrite take_ge in Hle by lia. lia.
  - exists (length cs). rewrite as_str_new_take, take_ge, firstn_all by lia.
    split_and!; [done|lia|by left].
Qed.

Definition demo_cell (ch : Z) : LocalCellData :=
  blank_cell <| graphemes := CompactGrapheme_new [ch] |>.
Definition demo_base : GridState :=
  {| gs_cols := 2; gs_rows := 2; gs_cursor_x := 0; gs_cursor_y := 0; gs_cursor_visible := true;
     gs_cells := vec (demo_cell 97) 4; gs_row_wrapped := [false; false] |}.
Definition demo_self : GridState :=
  {| gs_cols := 2; gs_rows := 2; gs_cursor_x := 1; gs_cursor_y := 1; gs_cursor_visible := true;
     gs_cells := [demo_cell 97; demo_cell 98; demo_cell 97; demo_cell 97];
     gs_row_wrapped := [false; true] |}.

Lemma diff_patch_roundtrip_witness :
  ∃ d, diff_from demo_self (Some demo_base) 7 true = Ok d ∧ patch d demo_base = (demo_self, Ok tt).
Proof.
  apply (diff_patch_roundtrip demo_self (Some demo_base) 7 true demo_base).
  - apply (bool_decide_unpack _). vm_compute. exact I.
  - unfold addressable. simpl. lia.
  - apply (bool_decide_unpack _). vm_compute. exact I.
  - by left.
Defined.

Lemma diff_from_wraps_witness :
  ∃ self d, grid_wf self ∧ gs_cols self = 300 ∧ gs_rows self = 220 ∧
    diff_from self None 0 true = Ok d ∧ fu_row_updates d = [] ∧
    (patch d (blank_grid 300 220)).1 ≠ self.
Proof. apply (diff_from_wraps 300 220 true); unfold fits; lia. Defined.

Lemma diff_from_exact_witness :
  (∃ r, r ∈ fu_row_updates (frame_of demo_base demo_self 7 true) ∧ ru_y r = 0 ∧
    {| cu_x := 1; cu_cell := demo_cell 98 |} ∈ ru_cells r).
Proof.
  apply (diff_from_exact demo_self demo_base 7 true _ 0 1 (demo_cell 98)).
  - apply (bool_decide_unpack _). vm_compute. exact I.
  - unfold addressable. simpl. lia.
  - apply (bool_decide_unpack _). vm_compute. exact I.
  - by split.
  - vm_compute. reflexivity.
  - simpl. split_and!; [lia..| |]; vm_compute; congruence.
Defined.

Lemma patch_safe_witness :
  let d := (frame_of demo_base demo_self 7 true) <| fu_row_updates :=
    [{| ru_y := 50; ru_cells := []; ru_is_wrapped := false |}] |> in
  grid_wf (patch d demo_base).1 ∧ (patch d demo_base).2 = Err (RowOutOfBounds 50 2).
Proof.
  intros d. split; [|vm_compute; reflexivity].
  apply (patch_safe d demo_base); apply (bool_decide_unpack _); vm_compute; exact I.
Defined.

Lemma grapheme_longest_prefix_witness :
  ∃ k, as_str (CompactGrapheme_new (of_chars (replicate 6 8364))) =
       Ok (of_chars (take k (replicate 6 8364))) ∧
    len (of_chars (take k (replicate 6 8364))) ≤ 15 ∧
    (of_chars (take k (replicate 6 8364)) = of_chars (replicate 6 8364) ∨
     15 < len (of_chars (take (S k) (replicate 6 8364)))).
Proof. apply grapheme_longest_prefix. repeat constructor; unfold scalar; lia. Defined.
