(* ===== verification/Protocol.v ===== *)
(** * The wire envelope: [src/src/protocol.rs]

    Payloads and packets of both directions and their serialization. The serializer ([bincode]) and
    the compressor ([lz4_flex]) are third-party code: the classes [Bincode] and [Lz4] give their
    operations, [BincodeLaws] and [Lz4Laws] what the program relies on. *)

From S2P Require Import Prelude Utf8 Grid.

Abbreviation bytes := (list Z) (only parsing).

(** ** Payloads and packets *)

Module ClientPayload.
Inductive t : Type :=
  | Handshake (client_version cols rows : Z)
  | Keystrokes (keys : list Z)
  | Resize (cols rows : Z)
  | KeepAlive
  | Ack
  | FragmentNack (frame_seq : Z) (received_mask : list Z).
#[global] Instance eq_dec : EqDecision t.
Proof. solve_decision. Defined.
End ClientPayload.

Module ServerPayload.
Inductive t : Type :=
  | HandshakeAck (session_id : Z)
  | Frame (update : FrameUpdate)
  | KeepAlive
  | Shutdown.
#[global] Instance eq_dec : EqDecision t.
Proof. solve_decision. Defined.
End ServerPayload.

Abbreviation ClientPayload := ClientPayload.t.
Abbreviation ServerPayload := ServerPayload.t.

Record ClientPacket := mkClientPacket {
  cp_session_id : Z; cp_seq_num : Z; cp_ack_seq_num : Z; cp_payload : ClientPayload }.
Record ServerPacket := mkServerPacket {
  sp_seq_num : Z; sp_ack_seq_num : Z; sp_payload : ServerPayload }.

Definition TARGET_MTU : Z := 1200.
Definition FRAGMENT_PAYLOAD_SIZE : Z := 1024.

Record EncryptedClientPacket := mkEncClient {
  ec_session_id : Z; ec_seq_num : Z; ec_ack_seq_num : Z; ec_ciphertext : bytes }.
#[export] Instance EncryptedClientPacket_eta : Eta EncryptedClientPacket := λ p,
  mkEncClient (ec_session_id p) (ec_seq_num p) (ec_ack_seq_num p) (ec_ciphertext p).
#[export] Instance EncryptedClientPacket_eq_dec : EqDecision EncryptedClientPacket.
Proof. solve_decision. Defined.

Record EncryptedServerPacket := mkEncServer {
  es_seq_num : Z; es_ack_seq_num : Z; es_frag_idx : Z; es_total_frags : Z; es_ciphertext : bytes }.
#[export] Instance EncryptedServerPacket_eta : Eta EncryptedServerPacket := λ p,
  mkEncServer (es_seq_num p) (es_ack_seq_num p) (es_frag_idx p) (es_total_frags p)
    (es_ciphertext p).
#[export] Instance EncryptedServerPacket_eq_dec : EqDecision EncryptedServerPacket.
Proof. solve_decision. Defined.

(** ** The values of the Rust types: every integer within its width *)

Class Wf (T : Type) := wf : T → Prop.

Definition color_wf (c : RgbColorUpdate) : Prop := u8 (rgb_r c) ∧ u8 (rgb_g c) ∧ u8 (rgb_b c).
Definition grapheme_wf (g : CompactGrapheme) : Prop :=
  length (cg_bytes g) = 15%nat ∧ Forall u8 (cg_bytes g) ∧ u8 (cg_len g).
Definition cell_wf (c : LocalCellData) : Prop :=
  grapheme_wf (graphemes c) ∧ from_option color_wf True (fg c) ∧ from_option color_wf True (bg c) ∧
  u8 (style_flags c).
Definition cell_update_wf (c : CellUpdate) : Prop := u16 (cu_x c) ∧ cell_wf (cu_cell c).
Definition row_update_wf (r : RowUpdate) : Prop := u16 (ru_y r) ∧ Forall cell_update_wf (ru_cells r).
Definition frame_update_wf (f : FrameUpdate) : Prop :=
  u64 (fu_ref_seq f) ∧ u16 (fu_cols f) ∧ u16 (fu_rows f) ∧ u16 (fu_cursor_x f) ∧
  u16 (fu_cursor_y f) ∧ Forall row_update_wf (fu_row_updates f).

#[export] Instance client_payload_wf : Wf ClientPayload := λ p,
  match p with
  | ClientPayload.Handshake v cols rows => u32 v ∧ u16 cols ∧ u16 rows
  | ClientPayload.Keystrokes keys => Forall u8 keys
  | ClientPayload.Resize cols rows => u16 cols ∧ u16 rows
  | ClientPayload.KeepAlive | ClientPayload.Ack => True
  | ClientPayload.FragmentNack seq mask => u64 seq ∧ Forall u64 mask
  end.
#[export] Instance server_payload_wf : Wf ServerPayload := λ p,
  match p with
  | ServerPayload.HandshakeAck sid => u64 sid
  | ServerPayload.Frame f => frame_update_wf f
  | ServerPayload.KeepAlive | ServerPayload.Shutdown => True
  end.
#[export] Instance enc_client_wf : Wf EncryptedClientPacket := λ p,
  u64 (ec_session_id p) ∧ u64 (ec_seq_num p) ∧ u64 (ec_ack_seq_num p) ∧ Forall u8 (ec_ciphertext p).
#[export] Instance enc_server_wf : Wf EncryptedServerPacket := λ p,
  u64 (es_seq_num p) ∧ u64 (es_ack_seq_num p) ∧ u16 (es_frag_idx p) ∧ u16 (es_total_frags p) ∧
  Forall u8 (es_ciphertext p).

#[export] Instance from_option_dec {A} (P : A → Prop) (o : option A) :
  (∀ a, Decision (P a)) → Decision (from_option P True o).
Proof. intros. destruct o; simpl; apply _. Defined.
#[export] Instance color_wf_dec c : Decision (color_wf c).
Proof. unfold color_wf. apply _. Defined.
#[export] Instance grapheme_wf_dec g : Decision (grapheme_wf g).
Proof. unfold grapheme_wf. apply _. Defined.
#[export] Instance cell_wf_dec c : Decision (cell_wf c).
Proof. unfold cell_wf. apply _. Defined.
#[export] Instance cell_update_wf_dec c : Decision (cell_update_wf c).
Proof. unfold cell_update_wf. apply _. Defined.
#[export] Instance row_update_wf_dec r : Decision (row_update_wf r).
Proof. unfold row_update_wf. apply _. Defined.
#[export] Instance frame_update_wf_dec f : Decision (frame_update_wf f).
Proof. unfold frame_update_wf. apply _. Defined.
#[export] Instance client_payload_wf_dec (p : ClientPayload) : Decision (wf p).
Proof. destruct p; simpl; apply _. Defined.
#[export] Instance server_payload_wf_dec (p : ServerPayload) : Decision (wf p).
Proof. destruct p; simpl; apply _. Defined.
#[export] Instance enc_client_wf_dec (p : EncryptedClientPacket) : Decision (wf p).
Proof. unfold wf, enc_client_wf. apply _. Defined.
#[export] Instance enc_server_wf_dec (p : EncryptedServerPacket) : Decision (wf p).
Proof. unfold wf, enc_server_wf. apply _. Defined.

(** ** Serialization

    [encode_to_vec] and [borrow_decode_from_slice] with the variable-int configuration; decoding
    returns the value and the number of bytes it read, and leaves what follows unread. *)
Class Bincode (T : Type) := {
  encode_to_vec : T → option bytes;
  borrow_decode_from_slice : bytes → option (T * Z);
}.

(** A well-formed value whose encoding exists is read back from any slice it starts. *)
Class BincodeLaws (T : Type) `{Bincode T, Wf T} := {
  bincode_total v : wf v → is_Some (encode_to_vec v);
  bincode_bytes v bs : wf v → encode_to_vec v = Some bs → Forall u8 bs;
  bincode_roundtrip v bs rest :
    wf v → encode_to_vec v = Some bs → borrow_decode_from_slice (bs ++ rest) = Some (v, len bs);
}.

Class Lz4 := {
  compress_prepend_size : bytes → bytes;
  decompress_size_prepended : bytes → option bytes;
}.
Class Lz4Laws `{Lz4} := {
  lz4_bytes bs : Forall u8 bs → Forall u8 (compress_prepend_size bs);
  lz4_roundtrip bs : Forall u8 bs → decompress_size_prepended (compress_prepend_size bs) = Some bs;
}.

Section serialization.
Context {T : Type} `{Bincode T}.

Definition serialize (value : T) : outcome bytes := ok_or EncodeError (encode_to_vec value).

Definition deserialize (bs : bytes) : outcome T :=
  fst <$> ok_or DecodeError (borrow_decode_from_slice bs).

Context `{Lz4}.

Definition serialize_compressed (value : T) : outcome bytes :=
  plain ← serialize value;
  if decide (len plain < 256) then Ok (0 :: plain)
  else Ok (1 :: compress_prepend_size plain).

Definition deserialize_compressed_get_sizes (bs : bytes) : outcome (T * Z * Z) :=
  match bs with
  | [] => Err EmptyPayload
  | flag :: payload =>
    if decide (flag = 0) then
      let decompressed_len := len payload in
      val ← deserialize payload;
      Ok (val, len bs, decompressed_len)
    else if decide (flag = 1) then
      decompressed ← ok_or DecompressError (decompress_size_prepended payload);
      let decompressed_len := len decompressed in
      val ← deserialize decompressed;
      Ok (val, len bs, decompressed_len)
    else Err (UnknownCompressionFlag flag)
  end.

Definition deserialize_compressed (bs : bytes) : outcome T :=
  (λ '(val, _, _), val) <$> deserialize_compressed_get_sizes bs.

(** ** Lemmas *)

Context `{Wf T, !BincodeLaws T, !Lz4Laws}.

Lemma serialize_total v : wf v → ∃ bs, serialize v = Ok bs.
Proof. intros Hv. destruct (bincode_total v Hv) as [bs E]. exists bs. unfold serialize. by rewrite E. Qed.

Lemma serialize_bytes v bs : wf v → serialize v = Ok bs → Forall u8 bs.
Proof.
  unfold serialize. intros Hv. destruct (encode_to_vec v) as [bs'|] eqn:E; [|done].
  intros [= ->]. by eapply bincode_bytes.
Qed.

Lemma deserialize_serialize v bs rest :
  wf v → serialize v = Ok bs → deserialize (bs ++ rest) = Ok v.
Proof.
  unfold serialize, deserialize. intros Hv. destruct (encode_to_vec v) as [bs'|] eqn:E; [|done].
  intros [= ->]. by rewrite (bincode_roundtrip v bs rest Hv E).
Qed.

Lemma deserialize_serialize_nil v bs : wf v → serialize v = Ok bs → deserialize bs = Ok v.
Proof. intros Hv Hs. rewrite <-(app_nil_r bs). by eapply deserialize_serialize. Qed.

Lemma serialize_compressed_bytes v bs : wf v → serialize_compressed v = Ok bs → Forall u8 bs.
Proof.
  intros Hv. unfold serialize_compressed. destruct (serialize v) as [plain| |] eqn:E; simpl; [|done..].
  pose proof (serialize_bytes v plain Hv E).
  case_decide; intros [= <-]; constructor; try (unfold fits; lia); [done|by apply lz4_bytes].
Qed.

Lemma serialize_compressed_total v : wf v → ∃ bs, serialize_compressed v = Ok bs.
Proof.
  intros Hv. unfold serialize_compressed. destruct (serialize_total v Hv) as [plain ->]. simpl.
  case_decide; eauto.
Qed.

Lemma compressed_roundtrip v bs :
  wf v → serialize_compressed v = Ok bs →
  ∃ plain, serialize v = Ok plain ∧
    deserialize_compressed_get_sizes bs = Ok (v, len bs, len plain).
Proof.
  intros Hv. unfold serialize_compressed. destruct (serialize v) as [plain| |] eqn:E; simpl; [|done..].
  intros Hc. exists plain. split; [done|].
  case_decide; injection Hc as <-; unfold deserialize_compressed_get_sizes.
  - rewrite decide_True by done. by rewrite (deserialize_serialize_nil v plain Hv E).
  - rewrite decide_False, decide_True by done.
    rewrite lz4_roundtrip by (by eapply serialize_bytes). simpl.
    by rewrite (deserialize_serialize_nil v plain Hv E).
Qed.
End serialization.

