(* ===== verification/Crypto.v ===== *)
(** * Packet encryption: [src/src/crypto.rs]

    A [CryptoManager] is a key and a salt (the four high bytes of the session id); the nonce of a
    packet is the salt followed by the packet's sequence number. The cipher ([chacha20poly1305]) is
    third-party code: the class [Aead] gives its two operations, [AeadLaws] what is documented of
    them. *)

From S2P Require Import Prelude Utf8 Grid Protocol.

(** [to_be_bytes] of an integer of [n] bytes. *)
Definition to_be_bytes (n : nat) (x : Z) : list Z :=
  (λ i, x / 256 ^ (Z.of_nat n - 1 - i) mod 256) <$> range (Z.of_nat n).

(** [ChaCha20Poly1305::encrypt] and [decrypt] under a key and a 12-byte nonce. *)
Class Aead := {
  aead_encrypt : list Z → list Z → bytes → option bytes;
  aead_decrypt : list Z → list Z → bytes → option bytes;
}.

(** A plaintext length, in bytes, that the cipher accepts (its 32-bit block counter allows about
    2^38). *)
Definition aead_max : Z := 2 ^ 36.

(** Encryption is deterministic and adds a 16-byte tag; decryption succeeds exactly on the
    ciphertexts encryption produces under the same key and nonce. *)
Class AeadLaws `{Aead} := {
  aead_total key nonce p : Forall u8 p → len p ≤ aead_max → is_Some (aead_encrypt key nonce p);
  aead_length key nonce p c : aead_encrypt key nonce p = Some c → len c = len p + 16;
  aead_bytes key nonce p c : aead_encrypt key nonce p = Some c → Forall u8 c;
  aead_correct key nonce p c :
    aead_encrypt key nonce p = Some c → aead_decrypt key nonce c = Some p;
  aead_authentic key nonce p c :
    aead_decrypt key nonce c = Some p → aead_encrypt key nonce p = Some c;
}.

Record CryptoManager := mkCrypto { cm_key : list Z; cm_salt : list Z }.

(** The first four bytes of the big-endian session id. *)
Definition CryptoManager_new (key_bytes : list Z) (session_id : Z) : CryptoManager :=
  let session_bytes := to_be_bytes 8 session_id in
  {| cm_key := key_bytes; cm_salt := take 4 session_bytes |}.

Definition make_nonce (self : CryptoManager) (seq_num : Z) : list Z :=
  cm_salt self ++ to_be_bytes 8 seq_num.

Section crypto.
Context `{Aead}.

Definition encrypt (self : CryptoManager) (seq_num : Z) (plaintext : bytes) : outcome bytes :=
  ok_or EncryptionError (aead_encrypt (cm_key self) (make_nonce self seq_num) plaintext).

Definition decrypt (self : CryptoManager) (seq_num : Z) (ciphertext : bytes) : outcome bytes :=
  ok_or DecryptionError (aead_decrypt (cm_key self) (make_nonce self seq_num) ciphertext).

(** ** Lemmas *)

Context `{!AeadLaws}.

Lemma decrypt_encrypt cm seq p c : encrypt cm seq p = Ok c → decrypt cm seq c = Ok p.
Proof.
  unfold encrypt, decrypt. destruct (aead_encrypt _ _ _) eqn:E; [|done].
  intros [= ->]. by rewrite (aead_correct _ _ _ _ E).
Qed.

Lemma decrypt_authentic cm seq p c : decrypt cm seq c = Ok p → encrypt cm seq p = Ok c.
Proof.
  unfold encrypt, decrypt. destruct (aead_decrypt _ _ _) eqn:E; [|done].
  intros [= ->]. by rewrite (aead_authentic _ _ _ _ E).
Qed.

Lemma encrypt_length cm seq p c : encrypt cm seq p = Ok c → len c = len p + 16.
Proof.
  unfold encrypt. destruct (aead_encrypt _ _ _) eqn:E; [|done].
  intros [= ->]. by eapply aead_length.
Qed.

Lemma encrypt_bytes cm seq p c : encrypt cm seq p = Ok c → Forall u8 c.
Proof.
  unfold encrypt. destruct (aead_encrypt _ _ _) eqn:E; [|done].
  intros [= ->]. by eapply aead_bytes.
Qed.

Lemma encrypt_total cm seq p : Forall u8 p → len p ≤ aead_max → ∃ c, encrypt cm seq p = Ok c.
Proof.
  intros Hp Hl. destruct (aead_total (cm_key cm) (make_nonce cm seq) p Hp Hl) as [c E].
  exists c. unfold encrypt. by rewrite E.
Qed.
End crypto.

Lemma length_to_be_bytes n x : length (to_be_bytes n x) = n.
Proof. unfold to_be_bytes, range. rewrite length_fmap, length_seqZ. lia. Qed.

Lemma to_be_bytes_u8 n x : Forall u8 (to_be_bytes n x).
Proof.
  unfold to_be_bytes. apply Forall_fmap, Forall_forall. intros i _.
  unfold compose, fits. apply Z.mod_pos_bound. lia.
Qed.

Lemma to_be_bytes_8 x :
  to_be_bytes 8 x =
  [x / 256 ^ 7 mod 256; x / 256 ^ 6 mod 256; x / 256 ^ 5 mod 256; x / 256 ^ 4 mod 256;
   x / 256 ^ 3 mod 256; x / 256 ^ 2 mod 256; x / 256 ^ 1 mod 256; x / 256 ^ 0 mod 256].
Proof. reflexivity. Qed.

(** The integer a big-endian byte list denotes. *)
Definition of_be_bytes (l : list Z) : Z := foldl (λ acc b, acc * 256 + b) 0 l.

Lemma of_to_be_bytes_8 x : u64 x → of_be_bytes (to_be_bytes 8 x) = x.
Proof.
  unfold fits. intros Hx. rewrite to_be_bytes_8. unfold of_be_bytes. simpl foldl.
  change (256 ^ 7) with (2 ^ 56). change (256 ^ 6) with (2 ^ 48). change (256 ^ 5) with (2 ^ 40).
  change (256 ^ 4) with (2 ^ 32). change (256 ^ 3) with (2 ^ 24). change (256 ^ 2) with (2 ^ 16).
  change (256 ^ 1) with (2 ^ 8). change (256 ^ 0) with 1.
  Z.to_euclidean_division_equations. lia.
Qed.

Lemma to_be_bytes_8_inj x y : u64 x → u64 y → to_be_bytes 8 x = to_be_bytes 8 y → x = y.
Proof. intros Hx Hy E. by rewrite <-(of_to_be_bytes_8 x), <-(of_to_be_bytes_8 y), E. Qed.

Lemma make_nonce_inj cm cm' seq seq' :
  length (cm_salt cm) = length (cm_salt cm') → u64 seq → u64 seq' →
  make_nonce cm seq = make_nonce cm' seq' → cm_salt cm = cm_salt cm' ∧ seq = seq'.
Proof.
  intros Hl Hs Hs' E. apply app_inj_1 in E as [? ?]; [|done]. split; [done|].
  by apply to_be_bytes_8_inj.
Qed.
