(* ===== verification/Codec.v ===== *)
(** * Sealing and opening packets: [src/src/protocol/codec.rs]

    [FragmentBuffer] reassembles fragmented server packets, [ChaChaCodec] and [NullCodec] implement
    the [PacketCodec] trait. The fragment buffer, which the code shares behind a mutex, is part of
    the codec's state: the two methods that lock it read or step that state. *)

From S2P Require Import Prelude Utf8 Grid Protocol Crypto.

Record CodecStats := mkStats { wire_len : Z; comp_len : Z; decomp_len : Z }.

(** The trait [PacketCodec]. [open_server] mutates the fragment buffer. *)
Class PacketCodec (C : Type) := {
  seal_client : C → Z → Z → Z → ClientPayload → outcome bytes;
  open_client : C → bytes → outcome (EncryptedClientPacket * ClientPayload * CodecStats);
  seal_server : C → Z → Z → ServerPayload → outcome (list bytes);
  open_server : bytes → M C (option (EncryptedServerPacket * ServerPayload * CodecStats));
  get_incomplete_frames : C → list (Z * list Z);
}.

(** ** [FragmentBuffer] *)

(** [(total_frags, wire_len_acc, fragments_by_index)] *)
Abbreviation FrameFragments := (Z * Z * gmap Z (list Z))%type (only parsing).

Record FragmentBuffer := mkFragmentBuffer { frames : gmap Z FrameFragments }.

Definition FragmentBuffer_default : FragmentBuffer := {| frames := ∅ |}.

(** [for idx in 0..total_frags]: the pieces present are appended in index order. *)
Definition reassemble (total_frags : Z) (frags : gmap Z bytes) : bytes :=
  range total_frags ≫= λ idx, default [] (frags !! idx).

(** The loop that drops the incomplete frames older than [seq]. The fuel is the number of frames:
    every round but the last removes one. *)
Fixpoint prune_superseded (fuel : nat) (seq : Z) (fs : gmap Z FrameFragments)
    : gmap Z FrameFragments :=
  match fuel with
  | O => fs
  | S fuel =>
    match BTree.first_key fs with
    | Some old_seq =>
      if decide (old_seq < seq) then prune_superseded fuel seq (delete old_seq fs) else fs
    | None => fs
    end
  end.

Definition FragmentBuffer_insert (packet : EncryptedServerPacket) (wire_len : Z)
    : M FragmentBuffer (option (EncryptedServerPacket * bytes * Z)) :=
  self ← get;
  if decide (es_total_frags packet ≤ 1) then
    mret (Some (packet, es_ciphertext packet, wire_len))
  else
    let seq := es_seq_num packet in
    let '(total_frags, acc, frags) :=
      default (es_total_frags packet, 0, ∅) (frames self !! seq) in
    let acc := acc +₆₄ wire_len in
    let frags := <[es_frag_idx packet := es_ciphertext packet]> frags in
    let fs := <[seq := (total_frags, acc, frags)]> (frames self) in
    if decide (Z.of_nat (size frags) = total_frags) then
      let full_ciphertext := reassemble total_frags frags in
      let fs := delete seq fs in
      let fs := prune_superseded (size fs) seq fs in
      modify (λ _, {| frames := fs |}) ;;
      let completed_packet :=
        {| es_seq_num := es_seq_num packet; es_ack_seq_num := es_ack_seq_num packet;
           es_frag_idx := 0; es_total_frags := 1; es_ciphertext := [] |} in
      mret (Some (completed_packet, full_ciphertext, acc))
    else if decide (32 < size fs)%nat then
      min_seq ← lift (match BTree.first_key fs with Some k => Ok k | None => Panic end);
      modify (λ _, {| frames := delete min_seq fs |}) ;;
      mret None
    else
      modify (λ _, {| frames := fs |}) ;;
      mret None.

(** [mask[idx / 64] |= 1 << (idx % 64)] for every received index, out-of-range words skipped. The
    code walks the keys in the hash map's order; the bits set do not depend on the order
    ([mask_of_spec]). *)
Definition set_mask_bit (mask : list Z) (idx : Z) : list Z :=
  let word_idx := Z.to_nat (idx / 64) in
  let bit_idx := idx mod 64 in
  match mask !! word_idx with
  | Some w => <[word_idx := Z.lor w (Z.shiftl 1 bit_idx)]> mask
  | None => mask
  end.

Definition mask_of (total_frags : Z) (keys : list Z) : list Z :=
  foldl set_mask_bit (vec 0 ((total_frags + 63) / 64)) keys.

Definition FragmentBuffer_get_incomplete_frames (self : FragmentBuffer) : list (Z * list Z) :=
  omap (λ '(seq, (total_frags, _, frags)),
    if decide (total_frags = 0 ∨ total_frags ≤ Z.of_nat (size frags)) then None
    else Some (seq, mask_of total_frags (map_to_list (frags : gmap Z bytes)).*1))
    (BTree.iter (frames self)).

(** ** Fragmenting *)

(** [slice::chunks]; a slice of [n] bytes has at most [n] chunks. *)
Fixpoint chunks_fuel (fuel n : nat) (l : bytes) : list bytes :=
  match fuel, l with
  | S fuel, _ :: _ => take n l :: chunks_fuel fuel n (drop n l)
  | _, _ => []
  end.
Definition chunks (n : nat) (l : bytes) : list bytes := chunks_fuel (length l) n l.

(** The packets of one ciphertext: itself when it fits a fragment, else its numbered chunks. The
    counts are cast to [u16]. *)
Definition packets_of (seq ack : Z) (ciphertext : bytes) : list EncryptedServerPacket :=
  if decide (len ciphertext ≤ FRAGMENT_PAYLOAD_SIZE) then
    [{| es_seq_num := seq; es_ack_seq_num := ack; es_frag_idx := 0; es_total_frags := 1;
        es_ciphertext := ciphertext |}]
  else
    let cs := chunks (Z.to_nat FRAGMENT_PAYLOAD_SIZE) ciphertext in
    let total_frags := wrap 16 (len cs) in
    imap (λ idx chunk,
      {| es_seq_num := seq; es_ack_seq_num := ack; es_frag_idx := wrap 16 (Z.of_nat idx);
         es_total_frags := total_frags; es_ciphertext := chunk |}) cs.

Section codecs.
Context `{Bincode ClientPayload, Bincode ServerPayload,
          Bincode EncryptedClientPacket, Bincode EncryptedServerPacket}.

Fixpoint serialize_all (packets : list EncryptedServerPacket) : outcome (list bytes) :=
  match packets with
  | [] => Ok []
  | p :: packets =>
    b ← serialize p; bs ← serialize_all packets; Ok (b :: bs)
  end.

(** ** [ChaChaCodec] *)

Record ChaChaCodec := mkChaCha {
  cc_crypto : CryptoManager;
  cc_handshake_crypto : CryptoManager;
  cc_session_id : Z;
  cc_fragment_buffer : FragmentBuffer;
}.
#[export] Instance ChaChaCodec_eta : Eta ChaChaCodec := λ c,
  mkChaCha (cc_crypto c) (cc_handshake_crypto c) (cc_session_id c) (cc_fragment_buffer c).

Definition ChaChaCodec_new (key : list Z) (session_id : Z) : ChaChaCodec :=
  {| cc_crypto := CryptoManager_new key session_id;
     cc_handshake_crypto := CryptoManager_new key 0;
     cc_session_id := session_id;
     cc_fragment_buffer := FragmentBuffer_default |}.

(** Locking the buffer and inserting. *)
Definition ChaCha_insert (packet : EncryptedServerPacket) (wire_len : Z)
    : M ChaChaCodec (option (EncryptedServerPacket * bytes * Z)) := λ self,
  let '(buf, r) := FragmentBuffer_insert packet wire_len (cc_fragment_buffer self) in
  (self <| cc_fragment_buffer := buf |>, r).

Context `{Aead, Lz4}.

Definition ChaCha_seal_client (self : ChaChaCodec) (session_id seq ack : Z)
    (payload : ClientPayload) : outcome bytes :=
  payload_bytes ← serialize payload;
  let crypto_to_use :=
    if decide (session_id = 0) then cc_handshake_crypto self else cc_crypto self in
  ciphertext ← encrypt crypto_to_use seq payload_bytes;
  serialize {| ec_session_id := session_id; ec_seq_num := seq; ec_ack_seq_num := ack;
               ec_ciphertext := ciphertext |}.

Definition ChaCha_open_client (self : ChaChaCodec) (bs : bytes)
    : outcome (EncryptedClientPacket * ClientPayload * CodecStats) :=
  let wire_len := len bs in
  wire_packet ← deserialize (T:=EncryptedClientPacket) bs;
  crypto_to_use ←
    (if decide (ec_session_id wire_packet = 0) then Ok (cc_handshake_crypto self)
     else if decide (ec_session_id wire_packet = cc_session_id self) then Ok (cc_crypto self)
     else Err (SessionIdMismatch (cc_session_id self) (ec_session_id wire_packet)));
  payload_bytes ← decrypt crypto_to_use (ec_seq_num wire_packet) (ec_ciphertext wire_packet);
  let comp_len := len payload_bytes in
  payload ← deserialize (T:=ClientPayload) payload_bytes;
  let decomp_len := comp_len in
  Ok (wire_packet, payload,
      {| wire_len := wire_len; comp_len := comp_len; decomp_len := decomp_len |}).

Definition ChaCha_seal_server (self : ChaChaCodec) (seq ack : Z) (payload : ServerPayload)
    : outcome (list bytes) :=
  payload_bytes ← serialize_compressed payload;
  ciphertext ← encrypt (cc_crypto self) seq payload_bytes;
  serialize_all (packets_of seq ack ciphertext).

Definition ChaCha_open_server (bs : bytes)
    : M ChaChaCodec (option (EncryptedServerPacket * ServerPayload * CodecStats)) :=
  let wire_len := len bs in
  wire_packet ← lift (deserialize (T:=EncryptedServerPacket) bs);
  inserted ← ChaCha_insert wire_packet wire_len;
  match inserted with
  | None => mret None
  | Some (completed_packet, full_ciphertext, total_wire_len) =>
    self ← get;
    payload_bytes ← lift (decrypt (cc_crypto self) (es_seq_num completed_packet) full_ciphertext);
    '(payload, comp_len, decomp_len) ←
      lift (deserialize_compressed_get_sizes (T:=ServerPayload) payload_bytes);
    mret (Some (completed_packet, payload,
      {| wire_len := total_wire_len; comp_len := comp_len; decomp_len := decomp_len |}))
  end.

#[export] Instance ChaCha_PacketCodec : PacketCodec ChaChaCodec := {
  seal_client := ChaCha_seal_client;
  open_client := ChaCha_open_client;
  seal_server := ChaCha_seal_server;
  open_server := ChaCha_open_server;
  get_incomplete_frames c := FragmentBuffer_get_incomplete_frames (cc_fragment_buffer c);
}.

(** ** [NullCodec] *)

Record NullCodec := mkNull { nc_session_id : Z; nc_fragment_buffer : FragmentBuffer }.
#[export] Instance NullCodec_eta : Eta NullCodec := λ c,
  mkNull (nc_session_id c) (nc_fragment_buffer c).

Definition NullCodec_new (session_id : Z) : NullCodec :=
  {| nc_session_id := session_id; nc_fragment_buffer := FragmentBuffer_default |}.

Definition Null_seal_client (self : NullCodec) (session_id seq ack : Z)
    (payload : ClientPayload) : outcome bytes :=
  payload_bytes ← serialize payload;
  serialize {| ec_session_id := session_id; ec_seq_num := seq; ec_ack_seq_num := ack;
               ec_ciphertext := payload_bytes |}.

Definition Null_open_client (self : NullCodec) (bs : bytes)
    : outcome (EncryptedClientPacket * ClientPayload * CodecStats) :=
  let wire_len := len bs in
  wire_packet ← deserialize (T:=EncryptedClientPacket) bs;
  if decide (ec_session_id wire_packet ≠ 0 ∧ ec_session_id wire_packet ≠ nc_session_id self)
  then Err (Msg "Session ID mismatch")
  else
    let comp_len := len (ec_ciphertext wire_packet) in
    payload ← deserialize (T:=ClientPayload) (ec_ciphertext wire_packet);
    let decomp_len := comp_len in
    Ok (wire_packet, payload,
        {| wire_len := wire_len; comp_len := comp_len; decomp_len := decomp_len |}).

Definition Null_seal_server (self : NullCodec) (seq ack : Z) (payload : ServerPayload)
    : outcome (list bytes) :=
  payload_bytes ← serialize payload;
  serialize_all (packets_of seq ack payload_bytes).

Definition Null_insert (packet : EncryptedServerPacket) (wire_len : Z)
    : M NullCodec (option (EncryptedServerPacket * bytes * Z)) := λ self,
  let '(buf, r) := FragmentBuffer_insert packet wire_len (nc_fragment_buffer self) in
  (self <| nc_fragment_buffer := buf |>, r).

Definition Null_open_server (bs : bytes)
    : M NullCodec (option (EncryptedServerPacket * ServerPayload * CodecStats)) :=
  let wire_len := len bs in
  wire_packet ← lift (deserialize (T:=EncryptedServerPacket) bs);
  inserted ← Null_insert wire_packet wire_len;
  match inserted with
  | None => mret None
  | Some (completed_packet, full_ciphertext, total_wire_len) =>
    let comp_len := len full_ciphertext in
    payload ← lift (deserialize (T:=ServerPayload) full_ciphertext);
    let decomp_len := comp_len in
    mret (Some (completed_packet, payload,
      {| wire_len := total_wire_len; comp_len := comp_len; decomp_len := decomp_len |}))
  end.

#[export] Instance Null_PacketCodec : PacketCodec NullCodec := {
  seal_client := Null_seal_client;
  open_client := Null_open_client;
  seal_server := Null_seal_server;
  open_server := Null_open_server;
  get_incomplete_frames c := FragmentBuffer_get_incomplete_frames (nc_fragment_buffer c);
}.
End codecs.
