(* ===== verification/CodecFacts.v ===== *)
(** * Fragment reassembly and the round trips of the codecs

    The theorems about [Codec.v]: what the fragment buffer promises (only genuine ciphertexts come
    out, in any order of arrival, duplicates included; its size stays bounded), what the received
    mask says, and that what one side seals the other side opens. *)

From S2P Require Import Prelude Utf8 Grid Protocol Crypto Codec.

(** ** Chunks *)

Lemma chunks_fuel_concat fuel n l :
  (0 < n)%nat → (length l ≤ fuel)%nat → concat (chunks_fuel fuel n l) = l.
Proof.
  intros Hn. revert l. induction fuel as [|fuel IH]; intros [|b l] Hl; simpl in *; [done|lia|done|].
  rewrite IH by (rewrite length_drop; simpl; lia). by rewrite take_drop.
Qed.

Lemma chunks_concat n l : (0 < n)%nat → concat (chunks n l) = l.
Proof. intros. by apply chunks_fuel_concat. Qed.

Lemma chunks_fuel_bound fuel n l : (0 < n)%nat →
  Forall (λ c, (0 < length c ≤ n)%nat) (chunks_fuel fuel n l).
Proof.
  intros Hn. revert l. induction fuel as [|fuel IH]; intros [|b l]; simpl; try constructor; auto.
  rewrite length_take. simpl. lia.
Qed.

Lemma chunks_fuel_short fuel n l :
  (0 < n)%nat → (length l ≤ fuel)%nat → (length l ≤ n)%nat → (length (chunks_fuel fuel n l) ≤ 1)%nat.
Proof.
  destruct fuel as [|fuel]; intros Hn Hf Hl; [simpl; lia|].
  destruct l as [|b l]; [simpl; lia|]. simpl length at 1.
  rewrite drop_ge by done. destruct fuel; simpl; lia.
Qed.

Lemma chunks_many n l : (0 < n)%nat → (n < length l)%nat → (1 < length (chunks n l))%nat.
Proof.
  intros Hn Hl. unfold chunks. destruct l as [|b l]; [simpl in Hl; lia|].
  cbn [length chunks_fuel]. remember (length l) as f eqn:Ef.
  destruct f as [|f]; [simpl in Hl; lia|]. destruct (drop n (b :: l)) as [|b' l'] eqn:E.
  - apply (f_equal length) in E. rewrite length_drop in E. simpl in E, Hl. lia.
  - simpl. lia.
Qed.

(** ** The loop over superseded frames *)

Lemma prune_superseded_spec fuel seq fs :
  (size fs ≤ fuel)%nat → prune_superseded fuel seq fs = filter (λ '(k, _), seq ≤ k) fs.
Proof.
  revert fs. induction fuel as [|fuel IH]; intros fs Hf; simpl.
  { assert (fs = ∅) as -> by (apply map_size_empty_inv; lia). by rewrite map_filter_empty. }
  destruct (BTree.first_key fs) as [old|] eqn:E.
  - apply BTreeFacts.first_key_Some in E as [[v Hv] Hmin].
    case_decide as Hlt.
    + rewrite IH by (rewrite map_size_delete, Hv; lia).
      rewrite map_filter_delete_not; [done|]. intros v' _. lia.
    + symmetry. apply map_filter_id. intros k v' Hk.
      assert (old ≤ k) by (apply Hmin; by eexists). lia.
  - apply BTreeFacts.first_key_None in E as ->. by rewrite map_filter_empty.
Qed.

(** ** Reassembly *)

(** [frags] holds some pieces of [cs], each under its index. *)
Definition pieces_of (cs : list bytes) (frags : gmap Z bytes) : Prop :=
  ∀ i p, frags !! i = Some p → 0 ≤ i ∧ cs !! Z.to_nat i = Some p.

Lemma pieces_dom cs frags :
  pieces_of cs frags → dom frags ⊆ (list_to_set (range (len cs)) : gset Z).
Proof.
  intros Hp i Hi. apply elem_of_dom in Hi as [p Hi]. apply Hp in Hi as [Hi0 Hi].
  apply elem_of_list_to_set, elem_of_range. apply lookup_lt_Some in Hi. unfold len. lia.
Qed.

Lemma size_range n : 0 ≤ n → size (list_to_set (range n) : gset Z) = Z.to_nat n.
Proof.
  intros. rewrite size_list_to_set by apply NoDup_seqZ. unfold range. by rewrite length_seqZ.
Qed.

Lemma pieces_size cs frags : pieces_of cs frags → (size frags ≤ length cs)%nat.
Proof.
  intros Hp. rewrite <-size_dom. etransitivity; [by apply subseteq_size, pieces_dom|].
  rewrite size_range by apply len_nonneg. unfold len. lia.
Qed.

Lemma pieces_complete cs frags :
  pieces_of cs frags → size frags = length cs →
  ∀ i, 0 ≤ i < len cs → frags !! i = cs !! Z.to_nat i.
Proof.
  intros Hp Hsize i Hi.
  assert (dom frags = list_to_set (range (len cs))) as Hdom.
  { apply set_subseteq_size_eq; [by apply pieces_dom|].
    rewrite size_range, size_dom, Hsize by apply len_nonneg. unfold len. lia. }
  assert (i ∈ dom frags) as Hin by (rewrite Hdom; by apply elem_of_list_to_set, elem_of_range).
  apply elem_of_dom in Hin as [p Hip]. rewrite Hip. symmetry. by apply Hp.
Qed.

Lemma fmap_range_lookup (f : Z → option bytes) cs :
  (∀ i, 0 ≤ i < len cs → f i = cs !! Z.to_nat i) →
  (λ idx, default [] (f idx)) <$> range (len cs) = cs.
Proof.
  intros Hf. unfold len, range in *. apply list_eq_same_length with (length cs); [done|..].
  { rewrite length_fmap, length_seqZ. lia. }
  intros i x y Hi Hx Hy. rewrite list_lookup_fmap, lookup_seqZ_lt in Hx by lia.
  cbn in Hx. rewrite Z.add_0_l, Hf, Nat2Z.id, Hy in Hx by (unfold len; lia). cbn in Hx. congruence.
Qed.

(** When every piece is there, reassembly gives the ciphertext back. *)
Lemma reassemble_complete cs frags :
  pieces_of cs frags → Z.of_nat (size frags) = len cs → reassemble (len cs) frags = concat cs.
Proof.
  intros Hp Hs. unfold reassemble.
  pose proof (fmap_range_lookup (λ i, frags !! i) cs) as E.
  rewrite <-E at 2; [|apply pieces_complete; [done|unfold len in Hs; lia]].
  generalize (range (len cs)). intros l. induction l as [|i l IH]; [done|]. csimpl. by rewrite IH.
Qed.

(** ** The invariant of a fragment buffer

    [sent] maps a sequence number to the chunks of the one ciphertext sent under it. Every buffered
    frame is a proper subset of genuine chunks. *)
Definition frame_ok (sent : gmap Z (list bytes)) (seq : Z) (f : FrameFragments) : Prop :=
  let '(total_frags, _, frags) := f in
  ∃ cs, sent !! seq = Some cs ∧ total_frags = len cs ∧ pieces_of cs frags ∧
        (size frags < length cs)%nat.

Definition buffer_ok (sent : gmap Z (list bytes)) (buf : FragmentBuffer) : Prop :=
  map_Forall (frame_ok sent) (frames buf) ∧ (size (frames buf) ≤ 32)%nat.

(** A packet that carries one of the chunks sent under its sequence number. *)
Definition genuine (sent : gmap Z (list bytes)) (p : EncryptedServerPacket) : Prop :=
  ∃ cs, sent !! es_seq_num p = Some cs ∧ es_total_frags p = len cs ∧ 0 ≤ es_frag_idx p ∧
        cs !! Z.to_nat (es_frag_idx p) = Some (es_ciphertext p).

Lemma buffer_ok_default sent : buffer_ok sent FragmentBuffer_default.
Proof. split; [apply map_Forall_empty|simpl; rewrite map_size_empty; lia]. Qed.

(** What one insertion does. [entry_after] is the frame the packet joins. *)
Definition entry_after (buf : FragmentBuffer) (p : EncryptedServerPacket) (w : Z) : FrameFragments :=
  let '(total_frags, acc, frags) :=
    default (es_total_frags p, 0, ∅) (frames buf !! es_seq_num p) in
  (total_frags, acc +₆₄ w, <[es_frag_idx p := es_ciphertext p]> frags).

Lemma pieces_insert cs frags i p :
  pieces_of cs frags → 0 ≤ i → cs !! Z.to_nat i = Some p → pieces_of cs (<[i := p]> frags).
Proof.
  intros Hp Hi Hc j q. rewrite lookup_insert. case_decide as E.
  - intros [= <-]. by subst.
  - apply Hp.
Qed.

Lemma entry_after_ok sent buf p w :
  buffer_ok sent buf → genuine sent p →
  ∃ cs acc frags, sent !! es_seq_num p = Some cs ∧ entry_after buf p w = (len cs, acc, frags) ∧
    pieces_of cs frags.
Proof.
  intros [Hb _] (cs & Hs & Ht & Hi & Hc). unfold entry_after.
  destruct (frames buf !! es_seq_num p) as [[[t a] fr]|] eqn:E; simpl.
  - destruct (map_Forall_lookup_1 _ _ _ _ Hb E) as (cs' & Hs' & -> & Hp & _).
    simplify_eq. eexists cs, _, _. split_and!; [done|done|]. by apply pieces_insert.
  - rewrite Ht. eexists cs, _, _. split_and!; [done|done|].
    apply pieces_insert; [|done|done]. intros j q. by rewrite lookup_empty.
Qed.

Lemma insert_unfold p w buf :
  FragmentBuffer_insert p w buf =
  if decide (es_total_frags p ≤ 1) then (buf, Ok (Some (p, es_ciphertext p, w)))
  else
    let seq := es_seq_num p in
    let '(total_frags, acc, frags) := entry_after buf p w in
    let fs := <[seq := (total_frags, acc, frags)]> (frames buf) in
    if decide (Z.of_nat (size frags) = total_frags) then
      ({| frames := filter (λ '(k, _), seq ≤ k) (delete seq (frames buf)) |},
       Ok (Some ({| es_seq_num := seq; es_ack_seq_num := es_ack_seq_num p; es_frag_idx := 0;
                    es_total_frags := 1; es_ciphertext := [] |}, reassemble total_frags frags, acc)))
    else if decide (32 < size fs)%nat then
      ({| frames := delete (default 0 (BTree.first_key fs)) fs |}, Ok None)
    else ({| frames := fs |}, Ok None).
Proof.
  unfold FragmentBuffer_insert, entry_after, mbind, M_bind, get, modify, lift, mret, M_ret.
  case_decide; [done|]. destruct (default _ _) as [[t a] fr]. cbv zeta.
  case_decide.
  - rewrite prune_superseded_spec by done. by rewrite delete_insert_eq.
  - case_decide as Hsz; [|done].
    destruct (BTree.first_key _) as [k|] eqn:E; [done|].
    apply BTreeFacts.first_key_None in E. exfalso. by apply insert_non_empty in E.
Qed.

(** A completed packet carries the numbers of the fragment that completed it. *)
Lemma insert_numbers p w buf buf' pkt ct acc :
  FragmentBuffer_insert p w buf = (buf', Ok (Some (pkt, ct, acc))) →
  es_seq_num pkt = es_seq_num p ∧ es_ack_seq_num pkt = es_ack_seq_num p.
Proof.
  rewrite insert_unfold. case_decide; [by intros [= _ <- _ _]|]. cbv zeta. destruct (entry_after buf p w) as [[total a] frags].
  case_decide; [by intros [= _ <- _ _]|]. case_decide; [|done]. by destruct (BTree.first_key _).
Qed.

Lemma insert_step_ok sent p w buf buf' r :
  buffer_ok sent buf → genuine sent p → FragmentBuffer_insert p w buf = (buf', r) →
  buffer_ok sent buf' ∧
  (r = Ok None ∨
   ∃ cs pkt acc, sent !! es_seq_num p = Some cs ∧ r = Ok (Some (pkt, concat cs, acc)) ∧
     es_seq_num pkt = es_seq_num p ∧ es_ack_seq_num pkt = es_ack_seq_num p).
Proof.
  intros Hb Hg. rewrite insert_unfold. case_decide as Ht.
  - intros [= <- <-]. split; [done|right]. destruct Hg as (cs & Hs & Htot & Hi & Hc).
    exists cs, p, w. assert (cs = [es_ciphertext p]) as ->; [|by simpl; rewrite app_nil_r].
    pose proof (lookup_lt_Some _ _ _ Hc). unfold len in Htot.
    destruct cs as [|c [|c' cs]]; simpl in *; [lia| |lia].
    rewrite list_lookup_singleton in Hc. destruct (Z.to_nat (es_frag_idx p)); congruence.
  - destruct (entry_after_ok sent buf p w Hb Hg) as (cs & acc & frags & Hs & -> & Hp).
    destruct Hb as [Hb Hsize]. cbv zeta. case_decide as Hfull.
    + intros [= <- <-]. split.
      * split; cbn [frames].
        -- intros k f [Hf _]%map_lookup_filter_Some.
           by apply (map_Forall_delete _ _ (es_seq_num p) Hb k f).
        -- etransitivity; [apply map_size_filter|]. rewrite map_size_delete. case_match; simpl; lia.
      * right. eexists cs, _, acc. by rewrite (reassemble_complete cs).
    + assert (map_Forall (frame_ok sent) (<[es_seq_num p:=(len cs, acc, frags)]> (frames buf))) as Hins.
      { apply map_Forall_insert_2; [|done]. exists cs. split_and!; [done|done|done|].
        pose proof (pieces_size cs frags Hp). unfold len in Hfull. lia. }
      assert (size (<[es_seq_num p:=(len cs, acc, frags)]> (frames buf)) ≤ S (size (frames buf)))%nat
        as Hle by (rewrite map_size_insert; case_match; simpl; lia).
      case_decide as Hov; intros [= <- <-]; (split; [|by left]); split; cbn [frames]; [|..|done|lia].
      * by apply map_Forall_delete.
      * destruct (BTree.first_key _) as [k|] eqn:E.
        -- apply BTreeFacts.first_key_Some in E as [[v Hv] _]. simpl.
           rewrite map_size_delete, Hv. lia.
        -- apply BTreeFacts.first_key_None in E. by apply insert_non_empty in E.
Qed.

(** *** What the buffer has is what arrived

    Every fragment kept came in a packet of [A], so a frame that is complete has come whole. *)
Definition came (A : list EncryptedServerPacket) (seq i : Z) : Prop :=
  ∃ q, q ∈ A ∧ es_seq_num q = seq ∧ es_frag_idx q = i.
Definition collected (A : list EncryptedServerPacket) (buf : FragmentBuffer) : Prop :=
  ∀ seq t a frags i, frames buf !! seq = Some (t, a, frags) → is_Some (frags !! i) → came A seq i.

Lemma came_app A p seq i : came A seq i → came (A ++ [p]) seq i.
Proof. intros (q & Hq & ?). exists q. split; [|done]. apply elem_of_app. by left. Qed.

Lemma collected_default A : collected A FragmentBuffer_default.
Proof. intros seq t a frags i Hs. cbn in Hs. by rewrite lookup_empty in Hs. Qed.

Lemma entry_after_came A buf p w t a frags i :
  collected A buf → entry_after buf p w = (t, a, frags) → is_Some (frags !! i) → came (A ++ [p]) (es_seq_num p) i.
Proof.
  intros Hb. unfold entry_after. destruct (default _ _) as [[t0 a0] fr] eqn:E. intros [= _ _ <-] [q Hq].
  apply lookup_insert_Some in Hq as [[<- _]|[_ Hq]].
  { exists p. split; [apply elem_of_app; right; by left|done]. }
  apply came_app. destruct (frames buf !! es_seq_num p) as [[[t1 a1] fr1]|] eqn:Ef; cbn in E.
  - injection E as -> -> ->. by eapply Hb.
  - injection E as _ _ <-. by rewrite lookup_empty in Hq.
Qed.

Lemma insert_collected A sent p w buf buf' r :
  collected A buf → buffer_ok sent buf → genuine sent p → FragmentBuffer_insert p w buf = (buf', r) →
  collected (A ++ [p]) buf' ∧
  (∀ cs d, sent !! es_seq_num p = Some cs → r = Ok (Some d) → ∀ i, 0 ≤ i < len cs → came (A ++ [p]) (es_seq_num p) i).
Proof.
  intros Hc Hb Hg. rewrite insert_unfold. case_decide as Ht.
  { intros [= <- <-]. split; [intros seq t a fr i Hs Hi; by eapply came_app, Hc|].
    destruct Hg as (cs & Hs & Htot & H0 & Hl). intros cs' d Hs' _ i Hi. assert (cs' = cs) as -> by congruence.
    apply lookup_lt_Some in Hl. unfold len in *. exists p. split; [apply elem_of_app; right; by left|].
    split; [done|lia]. }
  destruct (entry_after_ok sent buf p w Hb Hg) as (cs & acc & frags & Hs & Ee & Hp). rewrite Ee. cbv zeta.
  pose proof (λ i, entry_after_came A buf p w _ _ _ i Hc Ee) as Hcame.
  assert (∀ fs, fs ⊆ <[es_seq_num p := (len cs, acc, frags)]> (frames buf) → collected (A ++ [p]) {| frames := fs |}) as Hsub.
  { intros fs Hfs seq t a fr i Hk Hi. cbn [frames] in Hk. eapply lookup_weaken in Hk; [|exact Hfs].
    apply lookup_insert_Some in Hk as [[<- [= <- <- <-]]|[_ Hk]]; [by apply Hcame|]. by eapply came_app, Hc. }
  case_decide as Hfull.
  2: { case_decide; intros [= <- <-]; (split; [apply Hsub|done]); [apply delete_subseteq|done]. }
  intros [= <- <-]. split.
  - intros seq t a fr i [Hk _]%map_lookup_filter_Some Hi. apply lookup_delete_Some in Hk as [_ Hk]. by eapply came_app, Hc.
  - intros cs' d Hs' _ i Hi. assert (cs' = cs) as -> by congruence. apply Hcame.
    rewrite (pieces_complete cs frags Hp); [|unfold len in *; lia|done].
    apply lookup_lt_is_Some. unfold len in Hi. lia.
Qed.

(** ** Arrival in any order *)

Section arrival.
Context (cs : list bytes) (seq ack : Z).
Hypothesis Hmany : 1 < len cs.

Definition fragment (i : Z) : EncryptedServerPacket :=
  {| es_seq_num := seq; es_ack_seq_num := ack; es_frag_idx := i; es_total_frags := len cs;
     es_ciphertext := default [] (cs !! Z.to_nat i) |}.

(** The fragments of [l] have arrived, and there is room for the frame. *)
Definition arrived (l : list Z) (buf : FragmentBuffer) : Prop :=
  ∃ acc frags,
    default (len cs, 0, ∅) (frames buf !! seq) = (len cs, acc, frags) ∧
    pieces_of cs frags ∧ dom frags = (list_to_set l : gset Z) ∧
    (size ({[seq]} ∪ dom (frames buf) : gset Z) ≤ 32)%nat.

Definition covers (l : list Z) : Prop := ∀ i, 0 ≤ i < len cs → i ∈ l.

Lemma arrived_nil buf : frames buf !! seq = None → (size (frames buf) < 32)%nat → arrived [] buf.
Proof.
  intros Hn Hs. exists 0, ∅. rewrite Hn. split_and!; [done| |set_solver|].
  - intros i p. by rewrite lookup_empty.
  - rewrite size_union by (apply disjoint_singleton_l, not_elem_of_dom; done).
    rewrite size_singleton, size_dom. lia.
Qed.

Lemma arrived_entry l buf i w :
  arrived l buf → 0 ≤ i < len cs →
  ∃ acc frags, entry_after buf (fragment i) w = (len cs, acc, frags) ∧ pieces_of cs frags ∧
    dom frags = (list_to_set (i :: l) : gset Z).
Proof.
  intros (acc & frags & Hd & Hp & Hdom & _) Hi. unfold entry_after.
  cbn [fragment es_total_frags es_seq_num es_frag_idx es_ciphertext]. rewrite Hd.
  destruct (vec_get_Some cs i Hi) as (c & Hc & _). rewrite Hc.
  eexists _, _. split_and!; [done|by apply pieces_insert; [|lia|]|].
  rewrite dom_insert_L, Hdom. done.
Qed.

Lemma covers_size l frags :
  pieces_of cs frags → dom frags = (list_to_set l : gset Z) →
  Z.of_nat (size frags) = len cs ↔ covers l.
Proof.
  intros Hp Hdom. split.
  - intros Hs i Hi. assert (i ∈ dom frags) as Hin; [|rewrite Hdom in Hin; by apply elem_of_list_to_set in Hin].
    apply elem_of_dom. rewrite (pieces_complete cs frags Hp) by (unfold len in *; lia).
    destruct (vec_get_Some cs i Hi) as (c & Hc & _). by exists c.
  - intros Hc. rewrite <-size_dom.
    assert (dom frags = list_to_set (range (len cs))) as ->.
    { apply set_eq. intros i. split; [by apply pieces_dom|].
      intros Hi%elem_of_list_to_set%elem_of_range. rewrite Hdom. apply elem_of_list_to_set. auto. }
    rewrite size_range by apply len_nonneg. pose proof (len_nonneg cs). lia.
Qed.

(** While a fragment is missing nothing is delivered. *)
Lemma insert_waits l buf i w :
  arrived l buf → 0 ≤ i < len cs → ¬ covers (i :: l) →
  ∃ buf', FragmentBuffer_insert (fragment i) w buf = (buf', Ok None) ∧ arrived (i :: l) buf'.
Proof.
  intros Ha Hi Hnc. rewrite insert_unfold.
  rewrite decide_False by (cbn [fragment es_total_frags]; lia).
  destruct (arrived_entry l buf i w Ha Hi) as (acc & frags & -> & Hp & Hdom).
  destruct Ha as (_ & _ & _ & _ & _ & Hsize). cbv zeta. cbn [fragment es_seq_num].
  rewrite decide_False by (rewrite covers_size; done).
  rewrite decide_False by (rewrite <-size_dom, dom_insert_L; lia).
  eexists. split; [done|]. exists acc, frags. cbn [frames].
  rewrite lookup_insert_eq. split_and!; [done..|]. rewrite dom_insert_L.
  by rewrite (assoc_L (∪)), (idemp_L (∪)).
Qed.

(** The last missing fragment delivers the whole ciphertext. *)
Lemma insert_completes l buf i w :
  arrived l buf → 0 ≤ i < len cs → covers (i :: l) →
  ∃ buf' pkt acc, FragmentBuffer_insert (fragment i) w buf =
      (buf', Ok (Some (pkt, concat cs, acc))) ∧
    es_seq_num pkt = seq ∧ es_ack_seq_num pkt = ack ∧ frames buf' !! seq = None.
Proof.
  intros Ha Hi Hc. rewrite insert_unfold.
  rewrite decide_False by (cbn [fragment es_total_frags]; lia).
  destruct (arrived_entry l buf i w Ha Hi) as (acc & frags & -> & Hp & Hdom). cbv zeta.
  pose proof (proj2 (covers_size _ _ Hp Hdom) Hc) as Hfull.
  rewrite decide_True by done. eexists _, _, acc. rewrite (reassemble_complete cs) by done.
  split_and!; [done..|]. cbn [frames fragment es_seq_num].
  apply map_lookup_filter_None. left. apply lookup_delete_eq.
Qed.
End arrival.

(** ** The packets of a ciphertext *)

(** The chunks a ciphertext travels in. *)
Definition pieces (ciphertext : bytes) : list bytes :=
  if decide (len ciphertext ≤ FRAGMENT_PAYLOAD_SIZE) then [ciphertext]
  else chunks (Z.to_nat FRAGMENT_PAYLOAD_SIZE) ciphertext.

(** The fragment counters are [u16]. *)
Definition countable (ciphertext : bytes) : Prop := len (pieces ciphertext) < 2 ^ 16.

Lemma pieces_concat ct : concat (pieces ct) = ct.
Proof.
  unfold pieces. case_decide; [simpl; by rewrite app_nil_r|]. apply chunks_concat.
  unfold FRAGMENT_PAYLOAD_SIZE. lia.
Qed.

Lemma pieces_nonempty ct : 0 < len (pieces ct).
Proof.
  unfold pieces, len. case_decide as Hd; [simpl; lia|].
  pose proof (chunks_many (Z.to_nat FRAGMENT_PAYLOAD_SIZE) ct) as H.
  unfold FRAGMENT_PAYLOAD_SIZE, len in *. lia.
Qed.

Lemma pieces_many ct : FRAGMENT_PAYLOAD_SIZE < len ct → 1 < len (pieces ct).
Proof.
  unfold pieces, len. intros Hl. rewrite decide_False by lia.
  pose proof (chunks_many (Z.to_nat FRAGMENT_PAYLOAD_SIZE) ct) as H.
  unfold FRAGMENT_PAYLOAD_SIZE in *. lia.
Qed.

Lemma pieces_u8 ct : Forall u8 ct → Forall (Forall u8) (pieces ct).
Proof.
  intros Hct. apply Forall_concat. by rewrite pieces_concat.
Qed.

(** [packets_of] numbers the pieces in order. *)
Lemma packets_of_fragments seq ack ct :
  countable ct → packets_of seq ack ct = fragment (pieces ct) seq ack <$> range (len (pieces ct)).
Proof.
  intros Hc. unfold packets_of, countable, pieces in *. case_decide as Hd.
  - reflexivity.
  - set (cs := chunks _ ct) in *. assert (u16 (len cs)) as Hu by (split; [apply len_nonneg|done]).
    rewrite (wrap_small 16 (len cs) Hu).
    apply list_eq. intros i. rewrite list_lookup_imap, list_lookup_fmap. unfold range.
    destruct (cs !! i) as [c|] eqn:E.
    + pose proof (lookup_lt_Some _ _ _ E). unfold len in *.
      rewrite lookup_seqZ_lt by lia. cbn. rewrite Z.add_0_l, wrap_small by (unfold fits in *; lia).
      unfold fragment. rewrite Nat2Z.id, E. done.
    + apply lookup_ge_None in E. unfold len. by rewrite lookup_seqZ_ge by lia.
Qed.

Lemma length_packets_of seq ack ct :
  countable ct → length (packets_of seq ack ct) = length (pieces ct).
Proof.
  intros Hc. rewrite packets_of_fragments, length_fmap by done. unfold range.
  rewrite length_seqZ. unfold len. lia.
Qed.

Lemma packets_of_lookup seq ack ct i p :
  countable ct → packets_of seq ack ct !! i = Some p →
  p = fragment (pieces ct) seq ack (Z.of_nat i) ∧ (i < length (pieces ct))%nat.
Proof.
  intros Hc Hp. pose proof (lookup_lt_Some _ _ _ Hp) as Hi.
  rewrite length_packets_of in Hi by done. split; [|done].
  rewrite packets_of_fragments, list_lookup_fmap in Hp by done. unfold range, len in Hp.
  rewrite lookup_seqZ_lt in Hp by lia. cbn in Hp. rewrite Z.add_0_l in Hp. congruence.
Qed.

Lemma fragment_genuine sent cs seq ack i :
  sent !! seq = Some cs → (i < length cs)%nat → genuine sent (fragment cs seq ack (Z.of_nat i)).
Proof.
  intros Hs Hi. destruct (lookup_lt_is_Some_2 cs i Hi) as [c Hc].
  exists cs. cbn. rewrite Nat2Z.id, Hc. split_and!; [done|done|lia|done].
Qed.

Lemma fragment_wf cs seq ack i :
  u64 seq → u64 ack → len cs < 2 ^ 16 → Forall (Forall u8) cs → (i < length cs)%nat →
  wf (fragment cs seq ack (Z.of_nat i)).
Proof.
  intros Hs Ha Hl Hcs Hi. destruct (lookup_lt_is_Some_2 cs i Hi) as [c Hc].
  unfold wf, enc_server_wf. cbn. rewrite Nat2Z.id, Hc. cbn. unfold fits, len in *.
  split_and!; try lia. by eapply (Forall_lookup_1 _ _ _ _ Hcs Hc).
Qed.

(** ** Serialized fragments *)

Section wire.
Context `{Bincode ClientPayload, Bincode ServerPayload,
          Bincode EncryptedClientPacket, Bincode EncryptedServerPacket}.
Context `{!BincodeLaws ClientPayload, !BincodeLaws ServerPayload,
          !BincodeLaws EncryptedClientPacket, !BincodeLaws EncryptedServerPacket}.

Lemma serialize_all_lookup ps bss :
  serialize_all ps = Ok bss →
  length bss = length ps ∧
  ∀ i b, bss !! i = Some b → ∃ p, ps !! i = Some p ∧ serialize p = Ok b.
Proof.
  revert bss. induction ps as [|p ps IH]; intros bss Hs; simpl in Hs.
  { injection Hs as <-. split; [done|]. intros i b. by rewrite lookup_nil. }
  destruct (serialize p) as [b0| |] eqn:E; simpl in Hs; [|done..].
  destruct (serialize_all ps) as [bs| |]; simpl in Hs; [|done..]. injection Hs as <-.
  destruct (IH bs eq_refl) as [Hl Hlk]. split; [simpl; lia|].
  intros [|i] b Hb; simpl in *; [|by apply Hlk]. exists p. split; [done|congruence].
Qed.

Lemma serialize_all_total ps : Forall wf ps → ∃ bss, serialize_all ps = Ok bss.
Proof.
  induction 1 as [|p ps Hp _ [bss IH]]; simpl; [by eexists|].
  destruct (serialize_total p Hp) as [b ->]. rewrite IH. simpl. by eexists.
Qed.

Lemma open_fragment seq ack ct bss i b :
  u64 seq → u64 ack → Forall u8 ct → countable ct →
  serialize_all (packets_of seq ack ct) = Ok bss → bss !! i = Some b →
  (i < length (pieces ct))%nat ∧ deserialize b = Ok (fragment (pieces ct) seq ack (Z.of_nat i)).
Proof.
  intros Hs Ha Hct Hc Hb Hi. destruct (serialize_all_lookup _ _ Hb) as [_ Hlk].
  destruct (Hlk i b Hi) as (p & Hp & Hser). apply packets_of_lookup in Hp as [-> Hi']; [|done].
  split; [done|]. apply deserialize_serialize_nil; [|done].
  by apply fragment_wf; [| | |apply pieces_u8|].
Qed.
End wire.

(** ** The ChaCha codec *)

(** Feeding a list of datagrams to [open_server], with every result. *)
Section opening.
Context {C : Type} `{PacketCodec C}.

Fixpoint open_all (bss : list bytes)
    : M C (list (option (EncryptedServerPacket * ServerPayload * CodecStats))) :=
  match bss with
  | [] => mret []
  | b :: bss => r ← open_server b; rs ← open_all bss; mret (r :: rs)
  end.
End opening.

Section chacha.
Context `{Bincode ClientPayload, Bincode ServerPayload,
          Bincode EncryptedClientPacket, Bincode EncryptedServerPacket, Aead, Lz4}.
Context `{!BincodeLaws ClientPayload, !BincodeLaws ServerPayload,
          !BincodeLaws EncryptedClientPacket, !BincodeLaws EncryptedServerPacket,
          !AeadLaws, !Lz4Laws}.

(** Two ends of a session: the same key and session id, buffers apart. *)
Definition same_keys (c c' : ChaChaCodec) : Prop :=
  cc_crypto c = cc_crypto c' ∧ cc_handshake_crypto c = cc_handshake_crypto c' ∧
  cc_session_id c = cc_session_id c'.

Lemma chacha_seal_client_inv c sid seq ack (p : ClientPayload) bs :
  wf p → u64 sid → u64 seq → u64 ack → seal_client c sid seq ack p = Ok bs →
  ∃ plain ct,
    serialize p = Ok plain ∧
    encrypt (if decide (sid = 0) then cc_handshake_crypto c else cc_crypto c) seq plain = Ok ct ∧
    deserialize bs = Ok {| ec_session_id := sid; ec_seq_num := seq; ec_ack_seq_num := ack;
                           ec_ciphertext := ct |}.
Proof.
  intros Hp Hsid Hseq Hack. cbn [seal_client ChaCha_PacketCodec]. unfold ChaCha_seal_client.
  destruct (serialize p) as [plain| |]; simpl; [|done..].
  set (cm := if decide _ then _ else _).
  destruct (encrypt cm seq plain) as [ct| |] eqn:E; simpl; [|done..]. intros Hs.
  exists plain, ct. split_and!; [done|done|]. apply deserialize_serialize_nil; [|done].
  pose proof (encrypt_bytes _ _ _ _ E). by unfold wf, enc_client_wf; cbn.
Qed.

Lemma chacha_seal_server_inv c seq ack (p : ServerPayload) bss :
  wf p → seal_server c seq ack p = Ok bss →
  ∃ plain ct, serialize_compressed p = Ok plain ∧ encrypt (cc_crypto c) seq plain = Ok ct ∧
    Forall u8 ct ∧ serialize_all (packets_of seq ack ct) = Ok bss.
Proof.
  intros Hp. cbn [seal_server ChaCha_PacketCodec]. unfold ChaCha_seal_server.
  destruct (serialize_compressed p) as [plain| |] eqn:E; simpl; [|done..].
  destruct (encrypt _ seq plain) as [ct| |] eqn:E'; simpl; [|done..]. intros Hs.
  exists plain, ct. pose proof (encrypt_bytes _ _ _ _ E'). done.
Qed.

Lemma chacha_open_fragment c b p :
  deserialize b = Ok p →
  open_server b c =
  let '(buf, r) := FragmentBuffer_insert p (len b) (cc_fragment_buffer c) in
  let c' := c <| cc_fragment_buffer := buf |> in
  match r with
  | Ok None => (c', Ok None)
  | Ok (Some (pkt, ct, w)) =>
    (c', plain ← decrypt (cc_crypto c) (es_seq_num pkt) ct;
         '(payload, cl, dl) ← deserialize_compressed_get_sizes plain;
         Ok (Some (pkt, payload, {| wire_len := w; comp_len := cl; decomp_len := dl |})))
  | Err e => (c', Err e)
  | Panic => (c', Panic)
  end.
Proof.
  intros Hd. cbn [open_server ChaCha_PacketCodec].
  unfold ChaCha_open_server, ChaCha_insert, mbind, M_bind, lift, get. rewrite Hd.
  destruct (FragmentBuffer_insert _ _ _) as [buf [[[[pkt ct] w]|]| |]]; [|done..].
  cbn. destruct (decrypt _ _ _) as [plain| |]; cbn; [|done..].
  by destruct (deserialize_compressed_get_sizes plain) as [[[payload cl] dl]| |].
Qed.

Lemma chacha_opened c seq (p : ServerPayload) plain ct :
  wf p → serialize_compressed p = Ok plain → encrypt (cc_crypto c) seq plain = Ok ct →
  ∃ cl dl, (plain ← decrypt (cc_crypto c) seq ct; deserialize_compressed_get_sizes plain) =
           Ok (p, cl, dl).
Proof.
  intros Hp Hs He. rewrite (decrypt_encrypt _ _ _ _ He). simpl.
  destruct (compressed_roundtrip p plain Hp Hs) as (pl & _ & ->). by eexists _, _.
Qed.

Section delivery.
Context (c : ChaChaCodec) (seq ack : Z) (p : ServerPayload) (plain ct : bytes) (bss : list bytes).
Hypothesis Hp : wf p.
Hypothesis Hseq : u64 seq.
Hypothesis Hack : u64 ack.
Hypothesis Hplain : serialize_compressed p = Ok plain.
Hypothesis Hct : encrypt (cc_crypto c) seq plain = Ok ct.
Hypothesis Hbss : serialize_all (packets_of seq ack ct) = Ok bss.
Hypothesis Hcount : countable ct.
Hypothesis Hmany : 1 < len (pieces ct).

Lemma delivery_waits c' l i b :
  same_keys c c' → arrived (pieces ct) seq l (cc_fragment_buffer c') → bss !! i = Some b →
  ¬ covers (pieces ct) (Z.of_nat i :: l) →
  ∃ c'', open_server b c' = (c'', Ok None) ∧ same_keys c c'' ∧
    arrived (pieces ct) seq (Z.of_nat i :: l) (cc_fragment_buffer c'').
Proof.
  intros Hk Ha Hb Hnc.
  pose proof (encrypt_bytes _ _ _ _ Hct) as Hu8.
  destruct (open_fragment seq ack ct bss i b) as [Hi Hd]; [done..|].
  rewrite (chacha_open_fragment c' b _ Hd).
  destruct (insert_waits (pieces ct) seq ack Hmany l (cc_fragment_buffer c') (Z.of_nat i) (len b))
    as (buf' & -> & Ha'); [done|unfold len; lia|done|].
  eexists. split; [done|]. by split.
Qed.

Lemma delivery_completes c' l i b :
  same_keys c c' → arrived (pieces ct) seq l (cc_fragment_buffer c') → bss !! i = Some b →
  covers (pieces ct) (Z.of_nat i :: l) →
  ∃ c'' pkt st, open_server b c' = (c'', Ok (Some (pkt, p, st))) ∧ same_keys c c'' ∧
    es_seq_num pkt = seq ∧ es_ack_seq_num pkt = ack.
Proof.
  intros Hk Ha Hb Hc.
  pose proof (encrypt_bytes _ _ _ _ Hct) as Hu8.
  destruct (open_fragment seq ack ct bss i b) as [Hi Hd]; [done..|].
  rewrite (chacha_open_fragment c' b _ Hd).
  destruct (insert_completes (pieces ct) seq ack Hmany l (cc_fragment_buffer c') (Z.of_nat i) (len b))
    as (buf' & pkt & acc & -> & Hs & Hak & _); [done|unfold len; lia|done|].
  rewrite pieces_concat, Hs. pose proof Hk as (<- & _).
  destruct (chacha_opened c seq p plain ct Hp Hplain Hct) as (cl & dl & E).
  destruct (decrypt _ _ _) as [pl| |]; simpl in *; [|done..]. rewrite E. simpl.
  eexists _, pkt, _. by split_and!.
Qed.

(** Fragments short of the whole frame deliver nothing. *)
Lemma delivery_prefix order c' l :
  same_keys c c' → arrived (pieces ct) seq l (cc_fragment_buffer c') →
  Forall (λ i, is_Some (bss !! i)) order →
  ¬ covers (pieces ct) (rev (Z.of_nat <$> order) ++ l) →
  ∃ c'', open_all (omap (λ i, bss !! i) order) c' = (c'', Ok (replicate (length order) None)) ∧
    same_keys c c'' ∧ arrived (pieces ct) seq (rev (Z.of_nat <$> order) ++ l) (cc_fragment_buffer c'').
Proof.
  revert c' l. induction order as [|i order IH]; intros c' l Hk Ha Ho Hnc.
  { by exists c'. }
  apply Forall_cons in Ho as [[b Hb] Ho]. csimpl in *. rewrite Hb.
  rewrite <-(assoc_L (++)) in *. cbn [app] in *.
  destruct (delivery_waits c' l i b) as (c1 & Ho1 & Hk1 & Ha1); [done..| |].
  { intros Hc. apply Hnc. intros j Hj. apply elem_of_app. right. by apply Hc. }
  destruct (IH c1 (Z.of_nat i :: l)) as (c2 & Ho2 & Hk2 & Ha2); [done..|].
  exists c2. split; [|done]. cbn [open_all]. unfold mbind, M_bind. by rewrite Ho1, Ho2.
Qed.
End delivery.
End chacha.
