(* ===== verification/WireFormat.v ===== *)
(** * A concrete wire format

    Instances of the classes that stand for third-party code, at which the theorems about sealing
    and opening are evaluated: the variable-int encoding documented for bincode 2 (derived field by
    field in declaration order, enums by variant number), an identity compressor, and a toy cipher
    whose tag is a checksum that binds key, nonce and plaintext. The laws are proved, so the laws
    the theorems assume can hold. *)

From S2P Require Import Prelude Utf8 Grid Protocol Crypto.

(** ** Formats *)

(** An encoder and a decoder that returns the unread bytes. *)
Record format (T : Type) := mkFormat {
  fenc : T → bytes;
  fdec : bytes → option (T * bytes);
}.
Arguments mkFormat {T} fenc fdec.
Arguments fenc {T} f v.
Arguments fdec {T} f bs.

(** The values in [P] are encoded in bytes and read back. *)
Definition good {T} (P : T → Prop) (f : format T) : Prop :=
  ∀ v, P v → Forall u8 (fenc f v) ∧ ∀ rest, fdec f (fenc f v ++ rest) = Some (v, rest).

Definition f_byte : format Z := mkFormat (λ b, [b])
  (λ bs : bytes, match bs with b :: rest => Some (b, rest) | [] => None end).

(** Little-endian integers of [n] bytes. *)
Fixpoint le_bytes (n : nat) (x : Z) : bytes :=
  match n with O => [] | S n => x mod 256 :: le_bytes n (x / 256) end.
Fixpoint of_le_bytes (n : nat) (bs : bytes) : option (Z * bytes) :=
  match n, bs with
  | O, _ => Some (0, bs)
  | S n, b :: bs => '(x, rest) ← of_le_bytes n bs; Some (b + 256 * x, rest)
  | S n, [] => None
  end.

(** Unsigned integers: one byte below 251, else a width byte and 2, 4 or 8 bytes. *)
Definition f_uint : format Z := mkFormat
  (λ x : Z, if x <? 251 then [x]
        else if x <? 2 ^ 16 then 251 :: le_bytes 2 x
        else if x <? 2 ^ 32 then 252 :: le_bytes 4 x
        else 253 :: le_bytes 8 x)
  (λ bs : bytes, match bs with
         | [] => None
         | b :: rest =>
           if b <? 251 then Some (b, rest)
           else if b =? 251 then of_le_bytes 2 rest
           else if b =? 252 then of_le_bytes 4 rest
           else if b =? 253 then of_le_bytes 8 rest
           else None
         end).

Definition f_bool : format bool := mkFormat
  (λ b : bool, [if b then 1 else 0])
  (λ bs : bytes, match bs with
         | b :: rest => if b =? 0 then Some (false, rest)
                        else if b =? 1 then Some (true, rest) else None
         | [] => None
         end).

Definition f_pair {A B} (fa : format A) (fb : format B) : format (A * B) := mkFormat
  (λ '(a, b), fenc fa a ++ fenc fb b)
  (λ bs, '(a, bs) ← fdec fa bs; '(b, bs) ← fdec fb bs; Some ((a, b), bs)).

Definition f_map {A B} (to : A → B) (from : B → A) (f : format A) : format B := mkFormat
  (λ b, fenc f (from b))
  (λ bs, '(a, bs) ← fdec f bs; Some (to a, bs)).

Definition f_option {A} (f : format A) : format (option A) := mkFormat
  (λ o, match o with None => [0] | Some a => 1 :: fenc f a end)
  (λ bs : bytes, match bs with
         | b :: rest => if b =? 0 then Some (None, rest)
                        else if b =? 1 then '(a, rest) ← fdec f rest; Some (Some a, rest)
                        else None
         | [] => None
         end).

Fixpoint dec_many {A} (f : format A) (n : nat) (bs : bytes) : option (list A * bytes) :=
  match n with
  | O => Some ([], bs)
  | S n => '(a, bs) ← fdec f bs; '(l, bs) ← dec_many f n bs; Some (a :: l, bs)
  end.

Definition f_array {A} (n : nat) (f : format A) : format (list A) := mkFormat
  (λ l, l ≫= fenc f) (dec_many f n).

(** A length: a [u64]; lengths no machine has are written in unary, to keep the encoder total. *)
Fixpoint unary (bs : bytes) : option (nat * bytes) :=
  match bs with
  | [] => None
  | b :: bs => if b =? 0 then '(n, rest) ← unary bs; Some (S n, rest) else Some (O, bs)
  end.
Definition f_len : format nat := mkFormat
  (λ n, if Z.of_nat n <? 2 ^ 64 then fenc f_uint (Z.of_nat n) else 254 :: replicate n 0 ++ [1])
  (λ bs, match bs with
         | b :: rest => if b =? 254 then unary rest
                        else '(n, rest) ← fdec f_uint bs; Some (Z.to_nat n, rest)
         | [] => None
         end).

(** Vectors prefixed by their length. *)
Definition f_vec {A} (f : format A) : format (list A) := mkFormat
  (λ l, fenc f_len (length l) ++ (l ≫= fenc f))
  (λ bs, '(n, bs) ← fdec f_len bs; dec_many f n bs).

(** ** Correctness of the combinators *)

Lemma good_mono {T} (P Q : T → Prop) f : good P f → (∀ v, Q v → P v) → good Q f.
Proof. intros Hf HQ v Hv. by apply Hf, HQ. Qed.

Lemma good_byte : good u8 f_byte.
Proof. intros b Hb. simpl. split; [by constructor|done]. Qed.

Lemma le_bytes_u8 n x : Forall u8 (le_bytes n x).
Proof.
  revert x. induction n as [|n IH]; intros x; simpl; constructor; [|done].
  unfold fits. apply Z.mod_pos_bound. lia.
Qed.

Lemma of_le_bytes_le n x rest :
  0 ≤ x < 2 ^ (8 * Z.of_nat n) → of_le_bytes n (le_bytes n x ++ rest) = Some (x, rest).
Proof.
  revert x. induction n as [|n IH]; intros x Hx.
  { simpl. simpl in Hx. do 2 f_equal. lia. }
  cbn [le_bytes of_le_bytes app]. rewrite IH; simpl.
  { do 2 f_equal. pose proof (Z_div_mod_eq_full x 256). lia. }
  rewrite Nat2Z.inj_succ in Hx. replace (8 * Z.succ (Z.of_nat n)) with (8 + 8 * Z.of_nat n) in Hx by lia.
  rewrite Z.pow_add_r in Hx by lia. change (2 ^ 8) with 256 in Hx.
  split; [apply Z.div_pos; lia|]. apply Z.div_lt_upper_bound; lia.
Qed.

Lemma good_uint : good u64 f_uint.
Proof.
  intros x Hx. unfold fits in Hx. simpl.
  destruct (Z.ltb_spec x 251) as [H1|H1].
  { split; [constructor; [unfold fits; lia|done]|]. intros rest. simpl.
    by destruct (Z.ltb_spec x 251); [|lia]. }
  assert (∀ b, 251 ≤ b ≤ 253 → u8 b) as Hb by (unfold fits; lia).
  destruct (Z.ltb_spec x (2 ^ 16)) as [H2|H2].
  { split; [constructor; [apply Hb; lia|apply (le_bytes_u8 2)]|].
    intros rest. simpl. apply (of_le_bytes_le 2). lia. }
  destruct (Z.ltb_spec x (2 ^ 32)) as [H3|H3].
  { split; [constructor; [apply Hb; lia|apply (le_bytes_u8 4)]|].
    intros rest. simpl. apply (of_le_bytes_le 4). lia. }
  split; [constructor; [apply Hb; lia|apply (le_bytes_u8 8)]|].
  intros rest. simpl. apply (of_le_bytes_le 8). lia.
Qed.

Lemma good_bool : good (λ _, True) f_bool.
Proof. intros [] _; (split; [by repeat constructor|done]). Qed.

Lemma good_pair {A B} (P : A → Prop) (Q : B → Prop) fa fb :
  good P fa → good Q fb → good (λ '(a, b), P a ∧ Q b) (f_pair fa fb).
Proof.
  intros Ha Hb [a b] [Pa Qb]. destruct (Ha a Pa) as [Ua Ra], (Hb b Qb) as [Ub Rb]. simpl.
  split; [by apply Forall_app|]. intros rest. by rewrite <-(assoc_L (++)), Ra; simpl; rewrite Rb.
Qed.

Lemma good_map {A B} (P : A → Prop) (to : A → B) (from : B → A) f :
  good P f → (∀ b, to (from b) = b) → good (λ b, P (from b)) (f_map to from f).
Proof.
  intros Hf Hb b Pb. destruct (Hf _ Pb) as [U R]. simpl. split; [done|].
  intros rest. by rewrite R; simpl; rewrite Hb.
Qed.

Lemma good_option {A} (P : A → Prop) f : good P f → good (from_option P True) (f_option f).
Proof.
  intros Hf [a|] Pa; simpl in *.
  - destruct (Hf a Pa) as [U R]. split; [by constructor|]. intros rest. by rewrite R.
  - split; [by repeat constructor|done].
Qed.

Lemma dec_many_enc {A} (P : A → Prop) f l rest :
  good P f → Forall P l → dec_many f (length l) ((l ≫= fenc f) ++ rest) = Some (l, rest).
Proof.
  intros Hf. induction 1 as [|a l Pa Pl IH]; csimpl; [done|].
  rewrite <-(assoc_L (++)). rewrite (proj2 (Hf a Pa)). simpl. by rewrite IH.
Qed.

Lemma enc_many_u8 {A} (P : A → Prop) f l : good P f → Forall P l → Forall u8 (l ≫= fenc f).
Proof.
  intros Hf. induction 1 as [|a l Pa Pl IH]; csimpl; [done|].
  apply Forall_app. split; [by apply Hf|done].
Qed.

Lemma good_array {A} (P : A → Prop) n f :
  good P f → good (λ l, length l = n ∧ Forall P l) (f_array n f).
Proof.
  intros Hf l [<- Pl]. split; [by eapply enc_many_u8|]. intros rest. by eapply dec_many_enc.
Qed.

Lemma unary_replicate n rest : unary (replicate n 0 ++ 1 :: rest) = Some (n, rest).
Proof. induction n as [|n IH]; simpl; [done|]. by rewrite IH. Qed.

Lemma uint_not_254 x : u64 x → ∃ b bs, fenc f_uint x = b :: bs ∧ b ≠ 254.
Proof.
  intros Hx. simpl. repeat case_match; eexists _, _; (split; [done|]); try done.
  destruct (Z.ltb_spec x 251); [lia|done].
Qed.

Lemma good_len : good (λ _, True) f_len.
Proof.
  intros n _. assert (fenc f_len n = if Z.of_nat n <? 2 ^ 64 then fenc f_uint (Z.of_nat n)
                                     else 254 :: replicate n 0 ++ [1]) as -> by done.
  destruct (Z.ltb_spec (Z.of_nat n) (2 ^ 64)) as [Hn|Hn].
  - assert (u64 (Z.of_nat n)) as Hu by (unfold fits; lia).
    destruct (good_uint _ Hu) as [U R]. split; [done|]. intros rest. specialize (R rest).
    destruct (uint_not_254 _ Hu) as (b & bs & E & Hb). rewrite E in *. cbn [app] in *.
    unfold f_len, fdec at 1. destruct (Z.eqb_spec b 254); [done|]. rewrite R. simpl. by rewrite Nat2Z.id.
  - split.
    + constructor; [unfold fits; lia|]. apply Forall_app.
      split; [apply Forall_replicate; unfold fits; lia|repeat constructor; unfold fits; lia].
    + intros rest. cbn. rewrite <-(assoc_L (++)). apply unary_replicate.
Qed.

Lemma good_vec {A} (P : A → Prop) f : good P f → good (Forall P) (f_vec f).
Proof.
  intros Hf l Pl. destruct (good_len (length l) I) as [U R]. split.
  - apply Forall_app. split; [done|by eapply enc_many_u8].
  - intros rest. change (fenc (f_vec f) l) with (fenc f_len (length l) ++ (l ≫= fenc f)).
    unfold f_vec, fdec at 1. rewrite <-(assoc_L (++)), R. by eapply dec_many_enc.
Qed.

(** ** The formats of the program's types *)

Definition f_color : format RgbColorUpdate :=
  f_map (λ '(r, (g, b)), mkRgb r g b) (λ c, (rgb_r c, (rgb_g c, rgb_b c)))
    (f_pair f_byte (f_pair f_byte f_byte)).
Definition f_grapheme : format CompactGrapheme :=
  f_map (λ '(bs, l), mkGrapheme bs l) (λ g, (cg_bytes g, cg_len g)) (f_pair (f_array 15 f_byte) f_byte).
Definition f_cell : format LocalCellData :=
  f_map (λ '(g, (f, (b, s))), mkCell g f b s)
    (λ c, (graphemes c, (fg c, (bg c, style_flags c))))
    (f_pair f_grapheme (f_pair (f_option f_color) (f_pair (f_option f_color) f_byte))).
Definition f_cell_update : format CellUpdate :=
  f_map (λ '(x, c), mkCellUpdate x c) (λ u, (cu_x u, cu_cell u)) (f_pair f_uint f_cell).
Definition f_row_update : format RowUpdate :=
  f_map (λ '(y, (cs, w)), mkRowUpdate y cs w) (λ r, (ru_y r, (ru_cells r, ru_is_wrapped r)))
    (f_pair f_uint (f_pair (f_vec f_cell_update) f_bool)).
Definition f_frame : format FrameUpdate :=
  f_map (λ '(a, (b, (c, (d, (e, (f, (g, h))))))), mkFrameUpdate a b c d e f g h)
    (λ f, (fu_ref_seq f, (fu_cols f, (fu_rows f, (fu_cursor_x f, (fu_cursor_y f,
       (fu_cursor_visible f, (fu_row_updates f, fu_is_echo_enabled f))))))))
    (f_pair f_uint (f_pair f_uint (f_pair f_uint (f_pair f_uint (f_pair f_uint
      (f_pair f_bool (f_pair (f_vec f_row_update) f_bool))))))).

(** Enums: the variant's number, then its fields. *)
Definition f_client : format ClientPayload := mkFormat
  (λ p, match p with
        | ClientPayload.Handshake v c r => 0 :: fenc (f_pair f_uint (f_pair f_uint f_uint)) (v, (c, r))
        | ClientPayload.Keystrokes ks => 1 :: fenc (f_vec f_byte) ks
        | ClientPayload.Resize c r => 2 :: fenc (f_pair f_uint f_uint) (c, r)
        | ClientPayload.KeepAlive => [3]
        | ClientPayload.Ack => [4]
        | ClientPayload.FragmentNack s m => 5 :: fenc (f_pair f_uint (f_vec f_uint)) (s, m)
        end)
  (λ bs, match bs with
         | [] => None
         | tag :: bs =>
           if tag =? 0 then '((v, (c, r)), bs) ← fdec (f_pair f_uint (f_pair f_uint f_uint)) bs;
                            Some (ClientPayload.Handshake v c r, bs)
           else if tag =? 1 then '(ks, bs) ← fdec (f_vec f_byte) bs;
                                 Some (ClientPayload.Keystrokes ks, bs)
           else if tag =? 2 then '((c, r), bs) ← fdec (f_pair f_uint f_uint) bs;
                                 Some (ClientPayload.Resize c r, bs)
           else if tag =? 3 then Some (ClientPayload.KeepAlive, bs)
           else if tag =? 4 then Some (ClientPayload.Ack, bs)
           else if tag =? 5 then '((s, m), bs) ← fdec (f_pair f_uint (f_vec f_uint)) bs;
                                 Some (ClientPayload.FragmentNack s m, bs)
           else None
         end).
Definition f_server : format ServerPayload := mkFormat
  (λ p, match p with
        | ServerPayload.HandshakeAck sid => 0 :: fenc f_uint sid
        | ServerPayload.Frame f => 1 :: fenc f_frame f
        | ServerPayload.KeepAlive => [2]
        | ServerPayload.Shutdown => [3]
        end)
  (λ bs, match bs with
         | [] => None
         | tag :: bs =>
           if tag =? 0 then '(sid, bs) ← fdec f_uint bs; Some (ServerPayload.HandshakeAck sid, bs)
           else if tag =? 1 then '(f, bs) ← fdec f_frame bs; Some (ServerPayload.Frame f, bs)
           else if tag =? 2 then Some (ServerPayload.KeepAlive, bs)
           else if tag =? 3 then Some (ServerPayload.Shutdown, bs)
           else None
         end).
Definition f_enc_client : format EncryptedClientPacket :=
  f_map (λ '(a, (b, (c, d))), mkEncClient a b c d)
    (λ p, (ec_session_id p, (ec_seq_num p, (ec_ack_seq_num p, ec_ciphertext p))))
    (f_pair f_uint (f_pair f_uint (f_pair f_uint (f_vec f_byte)))).
Definition f_enc_server : format EncryptedServerPacket :=
  f_map (λ '(a, (b, (c, (d, e)))), mkEncServer a b c d e)
    (λ p, (es_seq_num p, (es_ack_seq_num p, (es_frag_idx p, (es_total_frags p, es_ciphertext p)))))
    (f_pair f_uint (f_pair f_uint (f_pair f_uint (f_pair f_uint (f_vec f_byte))))).

Create HintDb wire.
#[export] Hint Resolve good_byte good_uint good_bool good_pair good_option good_array good_vec : wire.

Lemma good_uint_narrow w : 0 ≤ w ≤ 64 → good (fits w) f_uint.
Proof. intros Hw. eapply good_mono; [apply good_uint|]. intros v. by apply fits_mono. Qed.
Lemma good_u16 : good u16 f_uint.
Proof. by apply good_uint_narrow. Qed.
Lemma good_u32 : good u32 f_uint.
Proof. by apply good_uint_narrow. Qed.

(** A format mapped through an isomorphism, the property stated of the result. *)
Lemma good_iso {A B} (P : A → Prop) (Q : B → Prop) (to : A → B) (from : B → A) f :
  good P f → (∀ b, to (from b) = b) → (∀ b, Q b → P (from b)) → good Q (f_map to from f).
Proof. intros Hf Hb HQ. eapply good_mono; [by apply (good_map P)|]. done. Qed.

Lemma good_color : good color_wf f_color.
Proof. eapply good_iso; [eauto with wire|by intros []|by intros [] (? & ? & ?)]. Qed.
#[export] Hint Resolve good_color : wire.

Lemma good_grapheme : good grapheme_wf f_grapheme.
Proof. eapply good_iso; [eauto with wire|by intros []|by intros [] (? & ? & ?)]. Qed.
#[export] Hint Resolve good_grapheme : wire.

Lemma good_cell : good cell_wf f_cell.
Proof. eapply good_iso; [eauto 8 with wire|by intros []|by intros [] (? & ? & ? & ?)]. Qed.
#[export] Hint Resolve good_cell : wire.

Lemma good_cell_update : good cell_update_wf f_cell_update.
Proof.
  eapply good_iso; [apply good_pair; [apply good_u16|eauto with wire]|by intros []|].
  by intros [] (? & ?).
Qed.
#[export] Hint Resolve good_cell_update : wire.

Lemma good_row_update : good row_update_wf f_row_update.
Proof.
  eapply good_iso; [apply good_pair; [apply good_u16|eauto with wire]|by intros []|].
  by intros [] (? & ?).
Qed.
#[export] Hint Resolve good_row_update : wire.

Lemma good_frame : good frame_update_wf f_frame.
Proof.
  eapply good_iso; [|by intros []|].
  - apply good_pair; [apply good_uint|]. do 4 (apply good_pair; [apply good_u16|]).
    eauto with wire.
  - by intros [] (? & ? & ? & ? & ? & ?).
Qed.
#[export] Hint Resolve good_frame : wire.

(** Each variant starts with its own number and is followed by its fields. *)
Lemma good_tagged {A B} (P : A → Prop) (f : format A) (mk : A → B) (g : format B) tag v :
  good P f → P v → u8 tag → fenc g (mk v) = tag :: fenc f v →
  (∀ bs, fdec g (tag :: bs) = '(a, rest) ← fdec f bs; Some (mk a, rest)) →
  Forall u8 (fenc g (mk v)) ∧ ∀ rest, fdec g (fenc g (mk v) ++ rest) = Some (mk v, rest).
Proof.
  intros Hf Pv Ht He Hd. destruct (Hf v Pv) as [U R]. rewrite He.
  split; [by constructor|]. intros rest. cbn [app]. rewrite Hd, R. done.
Qed.

Lemma good_client : good wf f_client.
Proof.
  intros p Hp. destruct p as [v c r|ks|c r| | |s m]; simpl in Hp.
  - eapply (good_tagged _ (f_pair f_uint (f_pair f_uint f_uint))
      (λ '(v, (c, r)), ClientPayload.Handshake v c r) _ 0 (v, (c, r))).
    + apply good_pair; [apply good_u32|apply good_pair; apply good_u16].
    + done.
    + unfold fits; lia.
    + done.
    + intros bs. cbn -[f_pair]. by destruct (fdec _ bs) as [[[? []] ]|].
  - apply (good_tagged (Forall u8) (f_vec f_byte) ClientPayload.Keystrokes f_client 1 ks);
      [eauto with wire|done| |done|done]. unfold fits; lia.
  - eapply (good_tagged _ (f_pair f_uint f_uint) (λ '(c, r), ClientPayload.Resize c r) _ 2 (c, r)).
    + apply good_pair; apply good_u16.
    + done.
    + unfold fits; lia.
    + done.
    + intros bs. cbn -[f_pair]. by destruct (fdec _ bs) as [[[]]|].
  - simpl. split; [|done]. repeat constructor; unfold fits; lia.
  - simpl. split; [|done]. repeat constructor; unfold fits; lia.
  - eapply (good_tagged _ (f_pair f_uint (f_vec f_uint)) (λ '(s, m), ClientPayload.FragmentNack s m) _ 5 (s, m)).
    + apply good_pair; [apply good_uint|eauto with wire].
    + done.
    + unfold fits; lia.
    + done.
    + intros bs. cbn -[f_pair f_vec]. by destruct (fdec _ bs) as [[[]]|].
Qed.

Lemma good_server : good wf f_server.
Proof.
  intros p Hp. destruct p as [sid|f| |]; simpl in Hp.
  - eapply (good_tagged _ f_uint ServerPayload.HandshakeAck _ 0 sid); [apply good_uint|done| |done|by intros].
    unfold fits; lia.
  - eapply (good_tagged _ f_frame ServerPayload.Frame _ 1 f); [apply good_frame|done| |done|by intros].
    unfold fits; lia.
  - simpl. split; [|done]. repeat constructor; unfold fits; lia.
  - simpl. split; [|done]. repeat constructor; unfold fits; lia.
Qed.

Lemma good_enc_client : good wf f_enc_client.
Proof.
  eapply good_iso; [|by intros []|].
  - do 3 (apply good_pair; [apply good_uint|]). eauto with wire.
  - by intros [] (? & ? & ? & ?).
Qed.

Lemma good_enc_server : good wf f_enc_server.
Proof.
  eapply good_iso; [|by intros []|].
  - do 2 (apply good_pair; [apply good_uint|]). do 2 (apply good_pair; [apply good_u16|]).
    eauto with wire.
  - by intros [] (? & ? & ? & ? & ?).
Qed.

(** ** Lengths *)

(** The wire forms of a handshake and of an answer are short. *)
Lemma handshake_length v cols rows : len (fenc f_client (ClientPayload.Handshake v cols rows)) ≤ 28.
Proof. unfold len. cbn. repeat case_match; cbn; lia. Qed.
Lemma answer_length (p : ServerPayload) :
  (∀ u, p ≠ ServerPayload.Frame u) → len (fenc f_server p) ≤ 10.
Proof. destruct p as [sid|u| |]; intros Hp; [|by destruct (Hp u)|done..]. unfold len. cbn. repeat case_match; cbn; lia. Qed.

(** ** The instances *)

Definition bincode_of {T} (f : format T) : Bincode T := {|
  encode_to_vec v := Some (fenc f v);
  borrow_decode_from_slice bs := '(v, rest) ← fdec f bs; Some (v, len bs - len rest) |}.

Lemma bincode_of_laws {T} `{Wf T} (f : format T) :
  good wf f → @BincodeLaws T (bincode_of f) _.
Proof.
  intros Hf. split.
  - intros v _. by eexists.
  - intros v bs Hv [= <-]. by apply Hf.
  - intros v bs rest Hv [= <-]. cbn. rewrite (proj2 (Hf v Hv)). cbn. rewrite len_app.
    do 2 f_equal. lia.
Qed.

#[export] Instance bincode_client : Bincode ClientPayload := bincode_of f_client.
#[export] Instance bincode_server : Bincode ServerPayload := bincode_of f_server.
#[export] Instance bincode_enc_client : Bincode EncryptedClientPacket := bincode_of f_enc_client.
#[export] Instance bincode_enc_server : Bincode EncryptedServerPacket := bincode_of f_enc_server.
#[export] Instance bincode_client_laws : BincodeLaws ClientPayload :=
  bincode_of_laws _ good_client.
#[export] Instance bincode_server_laws : BincodeLaws ServerPayload :=
  bincode_of_laws _ good_server.
#[export] Instance bincode_enc_client_laws : BincodeLaws EncryptedClientPacket :=
  bincode_of_laws _ good_enc_client.
#[export] Instance bincode_enc_server_laws : BincodeLaws EncryptedServerPacket :=
  bincode_of_laws _ good_enc_server.

#[export] Instance stored : Lz4 := {|
  compress_prepend_size bs := bs;
  decompress_size_prepended bs := Some bs |}.
#[export] Instance stored_laws : Lz4Laws.
Proof. split; done. Qed.

Definition toy_tag (key nonce p : list Z) : bytes :=
  to_be_bytes 16 (foldl (λ acc b, (acc * 257 + b + 1) mod 2 ^ 61) 1 (key ++ nonce ++ p)).
Definition toy_ok (p : bytes) : bool := bool_decide (Forall u8 p ∧ len p ≤ aead_max).
#[export] Instance toy : Aead := {|
  aead_encrypt key nonce p := if toy_ok p then Some (p ++ toy_tag key nonce p) else None;
  aead_decrypt key nonce c :=
    let p := take (length c - 16) c in
    if toy_ok p && bool_decide (c = p ++ toy_tag key nonce p) then Some p else None |}.
#[export] Instance toy_laws : AeadLaws.
Proof.
  assert (∀ key nonce p, length (toy_tag key nonce p) = 16%nat) as Ht
    by (intros; apply length_to_be_bytes).
  split; simpl; intros key nonce p.
  - intros Hp Hl. unfold toy_ok. rewrite bool_decide_true by done. by eexists.
  - intros c. destruct (toy_ok p); [|done]. intros [= <-]. rewrite len_app. unfold len at 2.
    by rewrite Ht.
  - intros c. unfold toy_ok. case_bool_decide as Hp; [|done]. intros [= <-].
    apply Forall_app. split; [by apply Hp|apply to_be_bytes_u8].
  - intros c. destruct (toy_ok p) eqn:Hp; [|done]. intros [= <-].
    rewrite length_app, Ht, Nat.add_sub, take_app_length, Hp.
    by rewrite bool_decide_true.
  - intros c. destruct (toy_ok _) eqn:Hp; [|done]. simpl. case_bool_decide as Hc; [|done].
    intros [= <-]. rewrite Hp. by f_equal.
Qed.
