(* ===== verification/Delivery.v ===== *)
(** * A frame that arrives in order

    The datagrams of a frame newer than all before, delivered one after the other: whatever the fragment
    buffer holds, also when it is full, the last one completes the frame. For any codec that
    keeps a [FragmentBuffer]. *)

From S2P Require Import Prelude Utf8 Protocol Crypto Codec CodecFacts.

Abbreviation bytes := (list Z) (only parsing).

(** The frames waiting are older than [seq]. *)
Definition older (seq : Z) (buf : FragmentBuffer) : Prop := map_Forall (λ k _, k < seq) (frames buf).

Lemma one_covers cs i : 1 < len cs → ¬ covers cs [i].
Proof.
  intros Hmany Hc. assert (0 ∈ [i]) as H0 by (apply Hc; lia). assert (1 ∈ [i]) as H1 by (apply Hc; lia).
  apply list_elem_of_singleton in H0, H1. lia.
Qed.

(** The first fragment makes room for itself. *)
Lemma insert_first cs seq ack buf i w :
  1 < len cs → older seq buf → (size (frames buf) ≤ 32)%nat → 0 ≤ i < len cs →
  ∃ buf', FragmentBuffer_insert (fragment cs seq ack i) w buf = (buf', Ok None) ∧ arrived cs seq [i] buf'.
Proof.
  intros Hmany Hold Hsz Hi. assert (frames buf !! seq = None) as Hn.
  { destruct (frames buf !! seq) eqn:E; [|done]. pose proof (map_Forall_lookup_1 _ _ _ _ Hold E). cbn in *. lia. }
  destruct (decide (size (frames buf) < 32)%nat) as [Hlt|Hge].
  { apply insert_waits; [done|by apply arrived_nil|done|by apply one_covers]. }
  assert (size (frames buf) = 32%nat) as H32 by lia.
  rewrite insert_unfold. rewrite decide_False by (cbn [fragment es_total_frags]; lia).
  unfold entry_after. cbn [fragment es_seq_num es_total_frags es_frag_idx es_ciphertext]. rewrite Hn. cbn [default]. cbv zeta.
  set (c := default [] (cs !! Z.to_nat i)).
  rewrite decide_False by (rewrite insert_empty, map_size_singleton; lia).
  set (fs := <[seq := (len cs, 0 +₆₄ w, <[i := c]> ∅)]> (frames buf)).
  assert (size fs = 33%nat) as H33 by (unfold fs; rewrite map_size_insert_None by done; lia).
  rewrite decide_True by lia. eexists. split; [done|].
  destruct (BTree.first_key fs) as [k|] eqn:Ek; cbn [default id].
  2: { apply BTreeFacts.first_key_None in Ek. unfold fs in Ek. by apply insert_non_empty in Ek. }
  apply BTreeFacts.first_key_Some in Ek as [Hk Hmin].
  assert (k < seq) as Hlt.
  { destruct (map_choose (frames buf)) as (k0 & e & He); [intros E; rewrite E, map_size_empty in H32; lia|].
    pose proof (map_Forall_lookup_1 _ _ _ _ Hold He) as Hk0. cbn in Hk0.
    assert (k ≤ k0); [|lia]. apply Hmin. unfold fs. rewrite lookup_insert_ne by lia. by eexists. }
  exists (0 +₆₄ w), (<[i := c]> ∅). cbn [frames]. rewrite (lookup_delete_ne fs k seq) by lia. unfold fs at 1. rewrite lookup_insert_eq.
  split; [done|]. split; [|split].
  - destruct (vec_get_Some cs i Hi) as (x & Hx & _). apply pieces_insert; [|lia|unfold c; by rewrite Hx].
    intros j q. by rewrite lookup_empty.
  - rewrite dom_insert_L, dom_empty_L. set_solver.
  - cbn [id]. assert ({[seq]} ∪ dom (delete k fs) = (dom (delete k fs) : gset Z)) as ->.
    { apply subseteq_union_1_L. apply singleton_subseteq_l, elem_of_dom. rewrite (lookup_delete_ne fs k seq) by lia.
      unfold fs. rewrite lookup_insert_eq. by eexists. }
    rewrite size_dom, map_size_delete. destruct Hk as [e ->]. lia.
Qed.

Section delivery.
Context {C : Type} `{PacketCodec C} (buffer : C → FragmentBuffer) (keys : C → Prop).
Context (seq ack : Z) (p : ServerPayload) (cs : list bytes) (bss : list bytes).

(** How the codec opens the fragments of [p]. *)
Definition opens_fragments : Prop := ∀ c i b, keys c → bss !! i = Some b →
  let '(buf, o) := FragmentBuffer_insert (fragment cs seq ack (Z.of_nat i)) (len b) (buffer c) in
  match o with
  | Ok None => ∃ c', open_server b c = (c', Ok None) ∧ keys c' ∧ buffer c' = buf
  | Ok (Some (pkt, ct, _)) => es_seq_num pkt = seq → ct = concat cs →
      ∃ c' st, open_server b c = (c', Ok (Some (pkt, p, st)))
  | _ => True
  end.

Lemma delivered_in_order c :
  opens_fragments → keys c → older seq (buffer c) → (size (frames (buffer c)) ≤ 32)%nat →
  length bss = length cs → 0 < len cs →
  ∃ c' pkt st, open_all bss c = (c', Ok (replicate (pred (length bss)) None ++ [Some (pkt, p, st)])) ∧
    es_seq_num pkt = seq ∧ es_ack_seq_num pkt = ack.
Proof.
  intros Hopen Hc Hold Hsz Hlen Hpos.
  assert (∃ b todo, bss = b :: todo) as (b & todo & Eb).
  { destruct bss as [|b todo]; [cbn in Hlen; unfold len in *; lia|by exists b, todo]. }
  assert (bss !! 0%nat = Some b) as Hb0 by by rewrite Eb.
  destruct (decide (len cs = 1)) as [Hone|Hmany].
  { specialize (Hopen c 0%nat b Hc Hb0). rewrite insert_unfold in Hopen.
    rewrite decide_True in Hopen by (cbn [fragment es_total_frags]; lia).
    rewrite Eb in *. unfold len in *. destruct cs as [|x [|]]; cbn in Hlen, Hone; [lia| |lia].
    destruct todo; [|cbn in Hlen; lia]. destruct Hopen as (c' & st & E); [done|cbn; by rewrite app_nil_r|].
    eexists c', _, st. split; [cbn; unfold mbind, M_bind; by rewrite E|done]. }
  assert (1 < len cs) as Hmany' by lia.
  assert (∀ todo l c, (∃ done, bss = done ++ todo ∧ (∀ i, i ∈ l ↔ 0 ≤ i < len done)) → todo ≠ [] → keys c →
    arrived cs seq l (buffer c) →
    ∃ c' pkt st, open_all todo c = (c', Ok (replicate (pred (length todo)) None ++ [Some (pkt, p, st)])) ∧
      es_seq_num pkt = seq ∧ es_ack_seq_num pkt = ack) as Hrest.
  { clear b todo Eb Hb0. induction todo as [|b todo IH]; intros l c1 (done & Eb & Hl) Hne Hc1 Ha; [by destruct Hne|].
    assert (bss !! length done = Some b) as Hb by (rewrite Eb; by apply list_lookup_middle).
    assert (0 ≤ Z.of_nat (length done) < len cs) as Hi.
    { apply lookup_lt_Some in Hb. unfold len. lia. }
    pose proof (Hopen c1 (length done) b Hc1 Hb) as Ho.
    destruct (decide (todo = [])) as [->|Hmore].
    - destruct (insert_completes cs seq ack Hmany' l (buffer c1) (Z.of_nat (length done)) (len b) Ha Hi)
        as (buf' & pkt & acc & E & Hs & Hk & _).
      { intros j Hj. rewrite elem_of_cons, Hl. rewrite Eb, length_app in Hlen. cbn in Hlen. unfold len in *. lia. }
      rewrite E in Ho. destruct (Ho Hs eq_refl) as (c' & st & E'). exists c', pkt, st.
      cbn. unfold mbind, M_bind. by rewrite E'.
    - destruct (insert_waits cs seq ack Hmany' l (buffer c1) (Z.of_nat (length done)) (len b) Ha Hi) as (buf' & E & Ha').
      { intros Hcov. assert (len cs - 1 ∈ Z.of_nat (length done) :: l) as Hin by (apply Hcov; lia).
        rewrite elem_of_cons, Hl in Hin. rewrite Eb, length_app in Hlen. destruct todo; [done|]. cbn in Hlen. unfold len in *. lia. }
      rewrite E in Ho. destruct Ho as (c2 & E' & Hc2 & <-).
      destruct (IH (Z.of_nat (length done) :: l) c2) as (c' & pkt & st & Eall & Hp); [|done..|].
      { exists (done ++ [b]). rewrite <-(assoc_L (++)). split; [done|]. intros i. rewrite elem_of_cons, Hl.
        unfold len. rewrite length_app. cbn. lia. }
      exists c', pkt, st. split; [|done]. cbn. unfold mbind, M_bind. rewrite E', Eall.
      by destruct todo. }
  destruct (insert_first cs seq ack (buffer c) 0 (len b)) as (buf' & E & Ha); [done..|lia|].
  pose proof (Hopen c 0%nat b Hc Hb0) as Ho. change (Z.of_nat 0) with 0 in Ho. rewrite E in Ho.
  destruct Ho as (c1 & E' & Hc1 & <-).
  assert (todo ≠ []) as Hne. { intros ->. rewrite Eb in Hlen. cbn in Hlen. unfold len in *. lia. }
  destruct (Hrest todo [0] c1) as (c' & pkt & st & Eall & Hp); [|done..|].
  { exists [b]. split; [exact Eb|]. intros i. rewrite list_elem_of_singleton. unfold len. cbn. lia. }
  exists c', pkt, st. split; [|done]. rewrite Eb. cbn. unfold mbind, M_bind. rewrite E', Eall. by destruct todo.
Qed.
End delivery.
