(* ===== verification/CodecProps.v ===== *)
(** * What the codecs promise: [src/src/protocol/codec.rs]

    The interface [PacketCodecLaws], which the protocol is built on, discharged by both codecs, and
    the theorems on sealing, fragmentation and reassembly. *)

From S2P Require Import Prelude Utf8 Grid Protocol Crypto Codec CodecFacts Delivery WireFormat.

(** ** The interface *)

Section interface.
Context {C : Type} `{PacketCodec C}.

(** A datagram of some server packet sealed by [c]; [L] logs the payload sealed under each sequence
    number. The fragment counters are [u16]. *)
Definition sealed_by (c : C) (L : gmap Z ServerPayload) (b : bytes) : Prop :=
  ∃ seq ack p bss, L !! seq = Some p ∧ wf p ∧ u64 seq ∧ u64 ack ∧
    seal_server c seq ack p = Ok bss ∧ len bss < 2 ^ 16 ∧ b ∈ bss.

Lemma sealed_by_mono c L L' b : L ⊆ L' → sealed_by c L b → sealed_by c L' b.
Proof.
  intros HL (seq & ack & p & bss & Hp & ?). exists seq, ack, p, bss.
  split; [by eapply lookup_weaken|done].
Qed.
End interface.

(** [peers]: two ends of one session. [holds c L c']: [c'] is the codec of a receiver that has been
    given nothing but datagrams sealed by its peer [c] under the log [L]; the frames it reports as
    incomplete are of that log, and it is complete: the datagrams of a newer payload deliver it,
    with the acknowledgement they were sealed with. *)
Class PacketCodecLaws (C : Type) `{PacketCodec C} := {
  session_of : C → Z;
  peers : C → C → Prop;
  holds : C → gmap Z ServerPayload → C → Prop;
  client_opened c c' sid seq ack p bs :
    peers c c' → wf p → u64 sid → u64 seq → u64 ack → sid = 0 ∨ sid = session_of c' →
    seal_client c sid seq ack p = Ok bs →
    ∃ wire st, open_client c' bs = Ok (wire, p, st) ∧ ec_session_id wire = sid ∧
      ec_seq_num wire = seq ∧ ec_ack_seq_num wire = ack;
  holds_mono c L L' c' : L ⊆ L' → holds c L c' → holds c L' c';
  holds_peers c L c' : holds c L c' → peers c' c;
  incomplete_logged c L c' seq mask : holds c L c' → (seq, mask) ∈ get_incomplete_frames c' →
    is_Some (L !! seq) ∧ Forall u64 mask;
  server_opened c L c' c'' b r :
    holds c L c' → sealed_by c L b → open_server b c' = (c'', r) →
    holds c L c'' ∧
    (r = Ok None ∨ ∃ pkt p st, r = Ok (Some (pkt, p, st)) ∧ L !! es_seq_num pkt = Some p);
  delivered c L c' seq ack p bss :
    holds c L c' → (∀ k, is_Some (L !! k) → k < seq) → wf p → u64 seq → u64 ack →
    seal_server c seq ack p = Ok bss → len bss < 2 ^ 16 →
    ∃ c'' pkt st, open_all bss c' = (c'', Ok (replicate (pred (length bss)) None ++ [Some (pkt, p, st)])) ∧
      es_seq_num pkt = seq ∧ es_ack_seq_num pkt = ack;
  opened_ack c c' c'' seq ack p bss b pkt p' st :
    wf p → u64 seq → u64 ack → seal_server c seq ack p = Ok bss → len bss < 2 ^ 16 → b ∈ bss →
    open_server b c' = (c'', Ok (Some (pkt, p', st))) → es_ack_seq_num pkt = ack;
}.

(** ** Helpers *)

Lemma length_packets seq ack ct : length (packets_of seq ack ct) = length (pieces ct).
Proof. unfold packets_of, pieces. case_decide; [done|]. apply length_imap. Qed.

(** The chunks sent under each sequence number, for an encryption [f] of payloads. *)
Definition sent_of (f : Z → ServerPayload → outcome bytes) (L : gmap Z ServerPayload)
    : gmap Z (list bytes) :=
  map_imap (λ seq p, pieces <$> ok (f seq p)) L.

Lemma sent_of_lookup f L seq p ct :
  L !! seq = Some p → f seq p = Ok ct → sent_of f L !! seq = Some (pieces ct).
Proof. intros Hp Hf. unfold sent_of. rewrite map_lookup_imap, Hp. simpl. by rewrite Hf. Qed.

Lemma sent_of_mono f L L' : L ⊆ L' → sent_of f L ⊆ sent_of f L'.
Proof.
  intros HL. apply map_subseteq_spec. intros seq cs. unfold sent_of. rewrite !map_lookup_imap.
  destruct (L !! seq) as [p|] eqn:E; simpl; [|done]. by rewrite (lookup_weaken _ _ _ _ E HL).
Qed.

Lemma buffer_ok_mono sent sent' buf : sent ⊆ sent' → buffer_ok sent buf → buffer_ok sent' buf.
Proof.
  intros Hs [Hb Hsz]. split; [|done]. eapply map_Forall_impl; [exact Hb|].
  intros seq [[t a] fr] (cs & Hc & ?). exists cs. split; [by eapply lookup_weaken|done].
Qed.

(** Every word of a report is one. *)
Lemma set_mask_bit_u64 mask idx : Forall u64 mask → Forall u64 (set_mask_bit mask idx).
Proof.
  intros Hm. unfold set_mask_bit. cbv zeta. destruct (mask !! Z.to_nat (idx / 64)) as [w|] eqn:E; [|done].
  apply Forall_insert; [done|]. apply fits_lor; [lia|by eapply Forall_lookup_1|]. rewrite Z.shiftl_1_l.
  pose proof (Z.mod_pos_bound idx 64). split; [by apply Z.pow_nonneg|]. apply Z.pow_lt_mono_r; lia.
Qed.

Lemma mask_of_u64 total keys : Forall u64 (mask_of total keys).
Proof.
  unfold mask_of. assert (Forall u64 (vec 0 ((total + 63) / 64))) as H0 by (by apply Forall_replicate).
  revert H0. generalize (vec 0 ((total + 63) / 64)). induction keys as [|k keys IH]; intros mask Hm; cbn; [done|].
  by apply IH, set_mask_bit_u64.
Qed.

Lemma buffer_incomplete f L buf seq mask :
  buffer_ok (sent_of f L) buf → (seq, mask) ∈ FragmentBuffer_get_incomplete_frames buf →
  is_Some (L !! seq) ∧ Forall u64 mask.
Proof.
  intros [Hb _] ([s [[t a] fr]] & Hin & Hm)%list_elem_of_omap. case_decide; [done|]. injection Hm as -> <-.
  split; [|apply mask_of_u64]. unfold BTree.iter in Hin. apply list_elem_of_omap in Hin as (k & _ & E).
  destruct (frames buf !! k) as [e|] eqn:Ek; [|done]. injection E as -> ->.
  destruct (map_Forall_lookup_1 _ _ _ _ Hb Ek) as (cs & Hcs & _). unfold sent_of in Hcs.
  rewrite map_lookup_imap in Hcs. by destruct (L !! seq).
Qed.

Section laws.
Context `{Bincode ClientPayload, Bincode ServerPayload,
          Bincode EncryptedClientPacket, Bincode EncryptedServerPacket, Aead, Lz4}.
Context `{!BincodeLaws ClientPayload, !BincodeLaws ServerPayload,
          !BincodeLaws EncryptedClientPacket, !BincodeLaws EncryptedServerPacket,
          !AeadLaws, !Lz4Laws}.

(** One datagram of a genuine ciphertext, decoded. *)
Lemma genuine_datagram f L seq ack (p : ServerPayload) ct bss b :
  L !! seq = Some p → f seq p = Ok ct → u64 seq → u64 ack → Forall u8 ct →
  serialize_all (packets_of seq ack ct) = Ok bss → len bss < 2 ^ 16 → b ∈ bss →
  ∃ i, deserialize b = Ok (fragment (pieces ct) seq ack i) ∧
       genuine (sent_of f L) (fragment (pieces ct) seq ack i).
Proof.
  intros Hp Hf Hs Ha Hu Hser Hl [i Hb]%list_elem_of_lookup.
  assert (countable ct) as Hc.
  { destruct (serialize_all_lookup _ _ Hser) as [E _]. unfold countable, len in *.
    rewrite E, length_packets in Hl. lia. }
  destruct (open_fragment seq ack ct bss i b) as [Hi Hd]; [done..|].
  exists (Z.of_nat i). split; [done|]. apply fragment_genuine; [|done]. by eapply sent_of_lookup.
Qed.

(** ** [ChaChaCodec] *)

Definition chacha_ciphertext (c : ChaChaCodec) (seq : Z) (p : ServerPayload) : outcome bytes :=
  plain ← serialize_compressed p; encrypt (cc_crypto c) seq plain.

Definition chacha_holds (c : ChaChaCodec) (L : gmap Z ServerPayload) (c' : ChaChaCodec) : Prop :=
  same_keys c c' ∧ buffer_ok (sent_of (chacha_ciphertext c) L) (cc_fragment_buffer c').

Lemma chacha_client_opened c c' sid seq ack (p : ClientPayload) bs :
  same_keys c c' → wf p → u64 sid → u64 seq → u64 ack → sid = 0 ∨ sid = cc_session_id c' →
  seal_client c sid seq ack p = Ok bs →
  ∃ wire st, open_client c' bs = Ok (wire, p, st) ∧ ec_session_id wire = sid ∧
    ec_seq_num wire = seq ∧ ec_ack_seq_num wire = ack.
Proof.
  intros (Hk1 & Hk2 & Hk3) Hp Hsid Hs Ha Hor Hseal.
  destruct (chacha_seal_client_inv c sid seq ack p bs) as (plain & ct & Hpl & He & Hd); [done..|].
  cbn [open_client ChaCha_PacketCodec]. unfold ChaCha_open_client. rewrite Hd.
  cbn [mbind outcome_bind ec_session_id ec_seq_num ec_ciphertext].
  assert (∀ cm, cm = (if decide (sid = 0) then cc_handshake_crypto c else cc_crypto c) →
    decrypt cm seq ct = Ok plain) as Hdec by (intros ? ->; by apply decrypt_encrypt).
  destruct (decide (sid = 0)) as [E|E].
  - simpl. rewrite (Hdec _ (eq_sym Hk2)). simpl. rewrite (deserialize_serialize_nil p plain Hp Hpl).
    simpl. by eexists _, _.
  - rewrite decide_True by (by destruct Hor). simpl. rewrite (Hdec _ (eq_sym Hk1)). simpl.
    rewrite (deserialize_serialize_nil p plain Hp Hpl). simpl. by eexists _, _.
Qed.

Lemma chacha_server_opened c L c' c'' b r :
  chacha_holds c L c' → sealed_by c L b → open_server b c' = (c'', r) →
  chacha_holds c L c'' ∧
  (r = Ok None ∨ ∃ pkt p st, r = Ok (Some (pkt, p, st)) ∧ L !! es_seq_num pkt = Some p).
Proof.
  intros [Hk Hb] (seq & ack & p & bss & Hp & Hw & Hs & Ha & Hseal & Hl & Hin) Ho.
  destruct (chacha_seal_server_inv c seq ack p bss Hw Hseal) as (plain & ct & Hpl & He & Hu & Hser).
  assert (chacha_ciphertext c seq p = Ok ct) as Hct by (unfold chacha_ciphertext; by rewrite Hpl).
  destruct (genuine_datagram _ L seq ack p ct bss b Hp Hct) as (i & Hd & Hg); [done..|].
  rewrite (chacha_open_fragment c' b _ Hd) in Ho.
  destruct (FragmentBuffer_insert _ _ _) as [buf o] eqn:Ei.
  destruct (insert_step_ok _ _ _ _ _ _ Hb Hg Ei) as [Hb' [->|(cs & pkt & acc & Hcs & -> & Hsq & _)]].
  { injection Ho as <- <-. split; [|by left]. by split. }
  cbn [fragment es_seq_num] in Hcs, Hsq. rewrite (sent_of_lookup _ _ _ _ _ Hp Hct) in Hcs.
  injection Hcs as <-. rewrite pieces_concat, Hsq in Ho. pose proof Hk as (Hk1 & _).
  rewrite <-Hk1 in Ho. destruct (chacha_opened c seq p plain ct Hw Hpl He) as (cl & dl & E).
  destruct (decrypt _ _ _) as [pl| |]; simpl in E, Ho; [|done..]. rewrite E in Ho.
  injection Ho as <- <-. split; [by split|]. right. eexists pkt, p, _. split; [done|congruence].
Qed.

(** The frames waiting are of the log. *)
Lemma buffer_older f L buf seq :
  buffer_ok (sent_of f L) buf → (∀ k, is_Some (L !! k) → k < seq) → older seq buf.
Proof.
  intros [Hb _] Hnew k [[t a] fr] Hk. apply Hnew. destruct (map_Forall_lookup_1 _ _ _ _ Hb Hk) as (cs & Hcs & _).
  unfold sent_of in Hcs. rewrite map_lookup_imap in Hcs. destruct (L !! k); [by eexists|done].
Qed.

Lemma chacha_delivered c L c' seq ack (p : ServerPayload) bss :
  chacha_holds c L c' → (∀ k, is_Some (L !! k) → k < seq) → wf p → u64 seq → u64 ack →
  seal_server c seq ack p = Ok bss → len bss < 2 ^ 16 →
  ∃ c'' pkt st, open_all bss c' = (c'', Ok (replicate (pred (length bss)) None ++ [Some (pkt, p, st)])) ∧
    es_seq_num pkt = seq ∧ es_ack_seq_num pkt = ack.
Proof.
  intros [Hk Hb] Hnew Hw Hs Ha Hseal Hl.
  destruct (chacha_seal_server_inv c seq ack p bss Hw Hseal) as (plain & ct & Hpl & He & Hu & Hser).
  destruct (serialize_all_lookup _ _ Hser) as [Elen _]. rewrite length_packets in Elen.
  assert (countable ct) as Hc by (unfold countable, len in *; lia).
  apply (delivered_in_order cc_fragment_buffer (same_keys c) seq ack p (pieces ct)).
  - intros c1 i b Hk1 Hbi. destruct (open_fragment seq ack ct bss i b) as [_ Hd]; [done..|].
    pose proof (chacha_open_fragment c1 b _ Hd) as Eo.
    destruct (FragmentBuffer_insert _ _ _) as [buf [[[[pkt ct'] w]|]|e|]]; [..|done|done].
    + intros Hsq ->. rewrite pieces_concat, Hsq in Eo. pose proof Hk1 as (Ek & _). rewrite <-Ek in Eo.
      destruct (chacha_opened c seq p plain ct Hw Hpl He) as (cl & dl & E).
      destruct (decrypt _ _ _) as [pl| |]; simpl in E, Eo; [|done..]. rewrite E in Eo. by eexists _, _.
    + eexists. split; [exact Eo|]. by destruct Hk1 as (? & ? & ?).
  - done.
  - by eapply buffer_older.
  - apply Hb.
  - done.
  - apply pieces_nonempty.
Qed.

Lemma chacha_opened_ack (c c' c'' : ChaChaCodec) seq ack (p : ServerPayload) bss b pkt (p' : ServerPayload) st :
  wf p → u64 seq → u64 ack → seal_server c seq ack p = Ok bss → len bss < 2 ^ 16 → b ∈ bss →
  open_server b c' = (c'', Ok (Some (pkt, p', st))) → es_ack_seq_num pkt = ack.
Proof.
  intros Hw Hs Ha Hseal Hl [i Hb]%list_elem_of_lookup.
  destruct (chacha_seal_server_inv c seq ack p bss Hw Hseal) as (plain & ct & Hpl & He & Hu & Hser).
  destruct (serialize_all_lookup _ _ Hser) as [Elen _]. rewrite length_packets in Elen.
  assert (countable ct) as Hc by (unfold countable, len in *; lia).
  destruct (open_fragment seq ack ct bss i b) as [_ Hd]; [done..|].
  rewrite (chacha_open_fragment c' b _ Hd).
  destruct (FragmentBuffer_insert _ _ _) as [buf [[[[q ct'] w]|]|e|]] eqn:Ei; [|done..].
  apply insert_numbers in Ei as [_ Ei]. destruct (decrypt _ _ _) as [pl| |]; cbn; [|done..].
  destruct (deserialize_compressed_get_sizes pl) as [[[q' cl] dl]| |]; cbn; [|done..]. by intros [= _ <- _ _].
Qed.

#[export] Program Instance ChaCha_laws : PacketCodecLaws ChaChaCodec := {|
  session_of := cc_session_id;
  peers := same_keys;
  holds := chacha_holds;
  client_opened := chacha_client_opened;
  server_opened := chacha_server_opened;
  delivered := chacha_delivered;
  opened_ack := chacha_opened_ack |}.
Next Obligation.
  intros c L L' c' HL [Hk Hb]. split; [done|]. eapply buffer_ok_mono; [|done]. by apply sent_of_mono.
Qed.
Next Obligation. intros c L c' [(? & ? & ?) _]. by split. Qed.
Next Obligation. intros c L c' seq mask [_ Hb]. by eapply buffer_incomplete. Qed.

(** ** [NullCodec] *)

Definition null_holds (c : NullCodec) (L : gmap Z ServerPayload) (c' : NullCodec) : Prop :=
  nc_session_id c = nc_session_id c' ∧ buffer_ok (sent_of (λ _, serialize) L) (nc_fragment_buffer c').

Lemma null_client_opened (c c' : NullCodec) sid seq ack (p : ClientPayload) bs :
  nc_session_id c = nc_session_id c' →
  wf p → u64 sid → u64 seq → u64 ack → sid = 0 ∨ sid = nc_session_id c' →
  seal_client c sid seq ack p = Ok bs →
  ∃ wire st, open_client c' bs = Ok (wire, p, st) ∧ ec_session_id wire = sid ∧
    ec_seq_num wire = seq ∧ ec_ack_seq_num wire = ack.
Proof.
  intros _ Hp Hsid Hs Ha Hor Hseal. cbn [seal_client Null_PacketCodec] in Hseal.
  unfold Null_seal_client in Hseal. destruct (serialize p) as [plain| |] eqn:E; simpl in Hseal; [|done..].
  apply deserialize_serialize_nil in Hseal.
  2: { pose proof (serialize_bytes p plain Hp E). by unfold wf, enc_client_wf; cbn. }
  cbn [open_client Null_PacketCodec]. unfold Null_open_client. rewrite Hseal.
  cbn [mbind outcome_bind ec_session_id ec_ciphertext]. rewrite decide_False by (intros []; by destruct Hor).
  rewrite (deserialize_serialize_nil p plain Hp E). simpl. by eexists _, _.
Qed.

Lemma null_server_opened (c c' c'' : NullCodec) L b r :
  null_holds c L c' → sealed_by c L b → open_server b c' = (c'', r) →
  null_holds c L c'' ∧
  (r = Ok None ∨ ∃ pkt p st, r = Ok (Some (pkt, p, st)) ∧ L !! es_seq_num pkt = Some p).
Proof.
  intros [Hsid Hb] (seq & ack & p & bss & Hp & Hw & Hs & Ha & Hseal & Hl & Hin).
  cbn [seal_server open_server Null_PacketCodec] in *. unfold Null_seal_server in Hseal.
  destruct (serialize p) as [plain| |] eqn:E; simpl in Hseal; [|done..].
  pose proof (serialize_bytes p plain Hw E) as Hu.
  destruct (genuine_datagram (λ _, serialize) L seq ack p plain bss b Hp E) as (i & Hd & Hg);
    [done..|].
  unfold Null_open_server, Null_insert, mbind, M_bind, lift. rewrite Hd.
  destruct (FragmentBuffer_insert _ _ _) as [buf o] eqn:Ei.
  destruct (insert_step_ok _ _ _ _ _ _ Hb Hg Ei) as [Hb' [->|(cs & pkt & acc & Hcs & -> & Hsq & _)]].
  { intros [= <- <-]. split; [by split|by left]. }
  cbn [fragment es_seq_num] in Hcs, Hsq. rewrite (sent_of_lookup (λ _, serialize) _ _ _ _ Hp E) in Hcs.
  injection Hcs as <-. rewrite pieces_concat, (deserialize_serialize_nil p plain Hw E).
  intros [= <- <-]. split; [by split|]. right. eexists pkt, p, _. split; [done|congruence].
Qed.

Lemma null_delivered (c c' : NullCodec) L seq ack (p : ServerPayload) bss :
  null_holds c L c' → (∀ k, is_Some (L !! k) → k < seq) → wf p → u64 seq → u64 ack →
  seal_server c seq ack p = Ok bss → len bss < 2 ^ 16 →
  ∃ c'' pkt st, open_all bss c' = (c'', Ok (replicate (pred (length bss)) None ++ [Some (pkt, p, st)])) ∧
    es_seq_num pkt = seq ∧ es_ack_seq_num pkt = ack.
Proof.
  intros [_ Hb] Hnew Hw Hs Ha Hseal Hl. cbn [seal_server Null_PacketCodec] in Hseal. unfold Null_seal_server in Hseal.
  destruct (serialize p) as [plain| |] eqn:E; simpl in Hseal; [|done..].
  pose proof (serialize_bytes p plain Hw E) as Hu.
  destruct (serialize_all_lookup _ _ Hseal) as [Elen _]. rewrite length_packets in Elen.
  assert (countable plain) as Hc by (unfold countable, len in *; lia).
  apply (delivered_in_order nc_fragment_buffer (λ _, True) seq ack p (pieces plain)); [|done|by eapply buffer_older|apply Hb|done|apply pieces_nonempty].
  intros c1 i b _ Hbi. destruct (open_fragment seq ack plain bss i b) as [_ Hd]; [done..|].
  cbn [open_server Null_PacketCodec]. unfold Null_open_server, Null_insert, mbind, M_bind, lift. rewrite Hd.
  destruct (FragmentBuffer_insert _ _ _) as [buf [[[[pkt ct'] w]|]|e|]]; [..|done|done].
  - intros Hsq ->. rewrite pieces_concat, (deserialize_serialize_nil p plain Hw E). by eexists _, _.
  - by eexists.
Qed.

Lemma null_opened_ack (c c' c'' : NullCodec) seq ack (p : ServerPayload) bss b pkt (p' : ServerPayload) st :
  wf p → u64 seq → u64 ack → seal_server c seq ack p = Ok bss → len bss < 2 ^ 16 → b ∈ bss →
  open_server b c' = (c'', Ok (Some (pkt, p', st))) → es_ack_seq_num pkt = ack.
Proof.
  intros Hw Hs Ha Hseal Hl [i Hb]%list_elem_of_lookup. cbn [seal_server Null_PacketCodec] in Hseal. unfold Null_seal_server in Hseal.
  destruct (serialize p) as [plain| |] eqn:E; simpl in Hseal; [|done..].
  pose proof (serialize_bytes p plain Hw E) as Hu.
  destruct (serialize_all_lookup _ _ Hseal) as [Elen _]. rewrite length_packets in Elen.
  assert (countable plain) as Hc by (unfold countable, len in *; lia).
  destruct (open_fragment seq ack plain bss i b) as [_ Hd]; [done..|].
  cbn [open_server Null_PacketCodec]. unfold Null_open_server, Null_insert, mbind, M_bind, lift. rewrite Hd.
  destruct (FragmentBuffer_insert _ _ _) as [buf [[[[q ct'] w]|]|e|]] eqn:Ei; [|done..].
  apply insert_numbers in Ei as [_ Ei]. destruct (deserialize ct') as [q'| |]; cbn; [|done..]. by intros [= _ <- _ _].
Qed.

#[export] Program Instance Null_laws : PacketCodecLaws NullCodec := {|
  session_of := nc_session_id;
  peers c c' := nc_session_id c = nc_session_id c';
  holds := null_holds;
  client_opened := null_client_opened;
  opened_ack := null_opened_ack |}.
Next Obligation.
  intros c L L' c' HL [? Hb]. split; [done|]. eapply buffer_ok_mono; [by apply sent_of_mono|done].
Qed.
Next Obligation. by intros c L c' [? _]. Qed.
Next Obligation. intros c L c' seq mask [_ Hb]. by eapply buffer_incomplete. Qed.
Next Obligation. intros. by eapply null_server_opened. Qed.
Next Obligation. intros. by eapply null_delivered. Qed.

(** ** Theorems *)

Lemma open_all_snoc (bss : list bytes) b (c c' c'' : ChaChaCodec) rs r :
  open_all bss c = (c', Ok rs) → open_server b c' = (c'', Ok r) →
  open_all (bss ++ [b]) c = (c'', Ok (rs ++ [r])).
Proof.
  revert c rs. induction bss as [|b' bss IH]; intros c rs Ho Hb; cbn [open_all app] in *.
  - injection Ho as <- <-. unfold mbind, M_bind. by rewrite Hb.
  - unfold mbind, M_bind in *. destruct (open_server b' c) as [c1 [r1| |]]; [|done..].
    destruct (open_all bss c1) as [c2 [rs2| |]] eqn:E; [|done..]. injection Ho as -> <-.
    by rewrite (IH c1 rs2 E Hb).
Qed.

Lemma fmap_rev {A B} (f : A → B) l : rev (f <$> l) = f <$> rev l.
Proof. symmetry. apply map_rev. Qed.
Lemma elem_of_rev {A} (x : A) l : x ∈ rev l ↔ x ∈ l.
Proof. by rewrite <-(Permutation_rev l). Qed.

(** A frame that fits one datagram is delivered at once. *)
Lemma single_delivered c c' seq ack (p : ServerPayload) plain ct bss b :
  same_keys c c' → wf p → u64 seq → u64 ack → serialize_compressed p = Ok plain →
  encrypt (cc_crypto c) seq plain = Ok ct → serialize_all (packets_of seq ack ct) = Ok bss →
  len (pieces ct) = 1 → bss !! 0%nat = Some b →
  ∃ c'' pkt st, open_server b c' = (c'', Ok (Some (pkt, p, st))) ∧ same_keys c c'' ∧
    es_seq_num pkt = seq ∧ es_ack_seq_num pkt = ack.
Proof.
  intros Hk Hp Hs Ha Hpl He Hser Hone Hb. pose proof (encrypt_bytes _ _ _ _ He) as Hu.
  assert (countable ct) as Hc by (unfold countable; lia).
  destruct (open_fragment seq ack ct bss 0 b) as [_ Hd]; [done..|].
  rewrite (chacha_open_fragment c' b _ Hd), insert_unfold.
  rewrite decide_True by (cbn [fragment es_total_frags]; lia).
  cbn [fragment es_ciphertext es_seq_num]. pose proof (pieces_concat ct) as Hcc.
  unfold len in Hone. destruct (pieces ct) as [|x [|]]; simpl in Hone; [lia| |lia].
  simpl in Hcc. rewrite app_nil_r in Hcc. subst x. cbn [default lookup list_lookup].
  change (Z.to_nat (Z.of_nat 0)) with 0%nat. cbn.
  pose proof Hk as (<- & _). destruct (chacha_opened c seq p plain ct Hp Hpl He) as (cl & dl & E).
  destruct (decrypt _ _ _) as [pl| |]; simpl in *; [|done..]. rewrite E. simpl.
  eexists _, _, _. split; [done|]. split; [|done]. by destruct Hk as (_ & ? & ?).
Qed.

(** C8. Fragmentation and reassembly over a network that duplicates and reorders: the server seals
    a payload into datagrams; whatever order they arrive in, with repetitions, [open_server] returns
    nothing until the last missing one arrives and then returns exactly that payload, under the
    sequence number and acknowledgement it was sealed with. *)
Theorem fragments_delivered c c' seq ack (p : ServerPayload) bss (order : list nat) i b :
  same_keys c c' → frames (cc_fragment_buffer c') !! seq = None →
  (size (frames (cc_fragment_buffer c')) < 32)%nat →
  wf p → u64 seq → u64 ack → seal_server c seq ack p = Ok bss → len bss < 2 ^ 16 →
  Forall (λ j, (j < length bss)%nat) order → bss !! i = Some b →
  (∃ j, (j < length bss)%nat ∧ j ∉ order) → (∀ j, (j < length bss)%nat → j ∈ i :: order) →
  ∃ c'' pkt st,
    open_all (omap (λ j, bss !! j) order ++ [b]) c' =
      (c'', Ok (replicate (length order) None ++ [Some (pkt, p, st)])) ∧
    es_seq_num pkt = seq ∧ es_ack_seq_num pkt = ack.
Proof.
  intros Hk Hfresh Hroom Hp Hs Ha Hseal Hl Ho Hb (m & Hm & Hmo) Hall.
  destruct (chacha_seal_server_inv c seq ack p bss Hp Hseal) as (plain & ct & Hpl & He & Hu & Hser).
  destruct (serialize_all_lookup _ _ Hser) as [Elen _]. rewrite length_packets in Elen.
  assert (countable ct) as Hc by (unfold countable, len in *; lia).
  pose proof (pieces_nonempty ct) as Hpos.
  destruct (decide (len (pieces ct) = 1)) as [Hone|Hmany].
  - assert (order = []) as ->.
    { destruct order as [|j order]; [done|]. apply Forall_cons in Ho as [Hj _].
      exfalso. apply Hmo. unfold len in Hone. assert (m = j) as -> by lia. by left. }
    apply lookup_lt_Some in Hb as Hi. unfold len in Hone. assert (i = 0%nat) as -> by lia.
    destruct (single_delivered c c' seq ack p plain ct bss b) as (c'' & pkt & st & E & _ & ? & ?);
      [done..|].
    exists c'', pkt, st. split; [|done]. by eapply (open_all_snoc []).
  - assert (1 < len (pieces ct)) as Hmany' by lia.
    assert (∀ l : list nat, covers (pieces ct) (Z.of_nat <$> l) ↔ ∀ j, (j < length bss)%nat → j ∈ l)
      as Hcov.
    { intros l. unfold covers, len. rewrite <-Elen. split.
      - intros H' j Hj. specialize (H' (Z.of_nat j) ltac:(lia)).
        apply list_elem_of_fmap in H' as (j' & Hj' & ?). by replace j with j' by lia.
      - intros H' j Hj. apply list_elem_of_fmap. exists (Z.to_nat j). split; [lia|]. apply H'. lia. }
    destruct (delivery_prefix c seq ack plain ct bss Hs Ha He Hser Hc Hmany' order c' [])
      as (c1 & E1 & Hk1 & Ha1); [done|by apply arrived_nil|..].
    { eapply Forall_impl; [exact Ho|]. intros j Hj. by apply lookup_lt_is_Some. }
    { rewrite app_nil_r, fmap_rev, Hcov. intros H'. apply Hmo, elem_of_rev. by apply H'. }
    destruct (delivery_completes c seq ack p plain ct bss Hp Hs Ha Hpl He Hser Hc Hmany' c1
      (rev (Z.of_nat <$> order) ++ []) i b) as (c2 & pkt & st & E2 & _ & ? & ?); [done..| |].
    { rewrite app_nil_r, fmap_rev, <-fmap_cons. apply Hcov. intros j Hj.
      apply Hall in Hj. rewrite elem_of_cons in *. by rewrite elem_of_rev. }
    exists c2, pkt, st. split; [|done]. by eapply open_all_snoc.
Qed.
(** *** Any mix of datagrams *)

(** A datagram of [sent], which says under which acknowledgement which payload was sealed with each
    number. *)
Definition sealed_once (c : ChaChaCodec) (sent : gmap Z (Z * ServerPayload)) (b : bytes) : Prop :=
  ∃ seq ack p ds, sent !! seq = Some (ack, p) ∧ wf p ∧ u64 seq ∧ u64 ack ∧
    ChaCha_seal_server c seq ack p = Ok ds ∧ len ds < 2 ^ 16 ∧ b ∈ ds.

(** The packets the datagrams carry. *)
Definition carried_by (bss : list bytes) : list EncryptedServerPacket := omap (λ b, ok (deserialize b)) bss.

Lemma carried_by_snoc bss b q : deserialize b = Ok q → carried_by (bss ++ [b]) = carried_by bss ++ [q].
Proof. intros E. unfold carried_by. rewrite omap_app. cbn. by rewrite E. Qed.

(** A datagram of a frame is its fragment, and a fragment of the frame is in no other datagram. *)
Lemma sealed_fragment c seq ack (p : ServerPayload) ds ct i b :
  wf p → u64 seq → u64 ack → chacha_ciphertext c seq p = Ok ct → ChaCha_seal_server c seq ack p = Ok ds →
  len ds < 2 ^ 16 → ds !! i = Some b →
  (i < length (pieces ct))%nat ∧ deserialize b = Ok (fragment (pieces ct) seq ack (Z.of_nat i)).
Proof.
  intros Hw Hs Ha Hct Hseal Hl Hb.
  destruct (chacha_seal_server_inv c seq ack p ds Hw Hseal) as (plain & ct' & Hpl & He & Hu & Hser).
  assert (ct' = ct) as -> by (unfold chacha_ciphertext in Hct; rewrite Hpl in Hct; cbn in Hct; congruence).
  eapply open_fragment; try done. destruct (serialize_all_lookup _ _ Hser) as [E _].
  unfold countable, len in *. by rewrite E, length_packets in Hl.
Qed.

Lemma came_whole c sent seq ack (p : ServerPayload) ds ct bss :
  sent !! seq = Some (ack, p) → wf p → u64 seq → u64 ack → ChaCha_seal_server c seq ack p = Ok ds → len ds < 2 ^ 16 →
  chacha_ciphertext c seq p = Ok ct → Forall (sealed_once c sent) bss →
  (∀ i, 0 ≤ i < len (pieces ct) → came (carried_by bss) seq i) → ds ⊆ bss.
Proof.
  intros Hp Hw Hs Ha Hseal Hl Hct Hbss Hcame d [i Hd]%list_elem_of_lookup.
  destruct (sealed_fragment c seq ack p ds ct i d) as [Hi _]; [done..|].
  destruct (Hcame (Z.of_nat i)) as (q & Hq & Hqs & Hqi); [unfold len; lia|].
  apply list_elem_of_omap in Hq as (b & Hb & Hok). rewrite Forall_forall in Hbss.
  destruct (Hbss b Hb) as (seq' & ack' & p' & ds' & Hp' & Hw' & Hs' & Ha' & Hseal' & Hl' & [i' Hb']%list_elem_of_lookup).
  destruct (chacha_seal_server_inv c seq' ack' p' ds' Hw' Hseal') as (plain' & ct' & Hpl' & He' & _).
  destruct (sealed_fragment c seq' ack' p' ds' ct' i' b) as [_ Ed]; try done.
  { unfold chacha_ciphertext. by rewrite Hpl'. }
  rewrite Ed in Hok. injection Hok as <-. cbn in Hqs, Hqi. subst seq'.
  rewrite Hp in Hp'. injection Hp' as <- <-. rewrite Hseal in Hseal'. injection Hseal' as <-.
  assert (i' = i) as -> by lia. by replace d with b by congruence.
Qed.

(** One datagram, after those of [pre]. *)
Lemma open_sealed c sent pre b c' :
  Forall (sealed_once c sent) pre → sealed_once c sent b →
  chacha_holds c (snd <$> sent) c' → collected (carried_by pre) (cc_fragment_buffer c') →
  ∃ c'' o, open_server b c' = (c'', Ok o) ∧
    chacha_holds c (snd <$> sent) c'' ∧ collected (carried_by (pre ++ [b])) (cc_fragment_buffer c'') ∧
    ∀ pkt p st, o = Some (pkt, p, st) → sent !! es_seq_num pkt = Some (es_ack_seq_num pkt, p) ∧
      ∀ ds, ChaCha_seal_server c (es_seq_num pkt) (es_ack_seq_num pkt) p = Ok ds → ds ⊆ pre ++ [b].
Proof.
  intros Hpre Hb Hh Hcol. pose proof Hb as (seq & ack & p & ds & Hp & Hw & Hs & Ha & Hseal & Hl & Hin).
  assert (((snd <$> sent : gmap Z ServerPayload)) !! seq = Some p) as Hp2 by (by rewrite lookup_fmap, Hp).
  destruct (chacha_seal_server_inv c seq ack p ds Hw Hseal) as (plain & ct & Hpl & He & Hu & Hser).
  assert (chacha_ciphertext c seq p = Ok ct) as Hct by (unfold chacha_ciphertext; by rewrite Hpl).
  destruct (genuine_datagram _ _ seq ack p ct ds b Hp2 Hct) as (i & Hd & Hg); [done..|].
  pose proof (sent_of_lookup _ _ _ _ _ Hp2 Hct) as Hcs. pose proof Hh as [Hk Hbuf].
  pose proof (chacha_open_fragment c' b _ Hd) as Eo.
  destruct (open_server b c') as [c'' r] eqn:Eopen.
  destruct (chacha_server_opened c (snd <$> sent) c' c'' b r Hh) as [Hh'' Hr]; [by exists seq, ack, p, ds|done|].
  destruct (FragmentBuffer_insert _ _ _) as [buf o] eqn:Ei.
  destruct (insert_collected _ _ _ _ _ _ _ Hcol Hbuf Hg Ei) as [Hcol' Hall].
  cbn [fragment es_seq_num] in Hall. rewrite <-(carried_by_snoc pre b _ Hd) in Hcol', Hall.
  assert (cc_fragment_buffer c'' = buf) as Ebuf by (destruct o as [[[[? ?] ?]|]| |]; by injection Eo as -> _).
  destruct Hr as [->|(pkt & q & st & -> & Hq)].
  - exists c'', None. split; [done|]. split; [done|]. by rewrite Ebuf.
  - exists c'', (Some (pkt, q, st)). split; [done|]. split; [done|]. split; [by rewrite Ebuf|].
    intros ? ? ? [= <- <- <-]. destruct o as [[[[pkt' ct'] w]|]| |]; [|done..].
    assert (pkt' = pkt) as ->.
    { injection Eo as _ Eo. destruct (decrypt _ _ _) as [pl| |]; [|done..]. cbn in Eo.
      destruct (deserialize_compressed_get_sizes pl) as [[[? ?] ?]| |]; [|done..]. by injection Eo as ->. }
    apply insert_numbers in Ei as [Es Eack]. cbn in Es, Eack. rewrite Es, Eack in *.
    assert (q = p) as -> by congruence. split; [done|].
    intros ds' Hds'. assert (ds' = ds) as -> by congruence.
    eapply came_whole; try done; [by apply Forall_app; split; [|apply Forall_singleton]|]. by eapply Hall.
Qed.

(** C12. The network may lose, repeat, delay and mix in any way the datagrams a server's codec has sealed
    for any number of frames, each under its own number. A new codec with the same key and session id
    opens any sequence of them without an error; what it delivers on a datagram is the payload that was
    sealed under the number it comes with, with the acknowledgement it was sealed with; and nothing is
    delivered before all of its own datagrams have arrived. *)
Theorem opened_payloads_genuine key sid (sent : gmap Z (Z * ServerPayload)) bss :
  let c := ChaChaCodec_new key sid in
  Forall (sealed_once c sent) bss →
  ∃ c'' rs, open_all bss c = (c'', Ok rs) ∧ length rs = length bss ∧
    ∀ i pkt p st, rs !! i = Some (Some (pkt, p, st)) →
      sent !! es_seq_num pkt = Some (es_ack_seq_num pkt, p) ∧
      ∀ ds, ChaCha_seal_server c (es_seq_num pkt) (es_ack_seq_num pkt) p = Ok ds → ds ⊆ take (S i) bss.
Proof.
  intros c Hs.
  assert (∀ pre c', Forall (sealed_once c sent) pre → chacha_holds c (snd <$> sent) c' →
    collected (carried_by pre) (cc_fragment_buffer c') →
    ∃ c'' rs, open_all bss c' = (c'', Ok rs) ∧ length rs = length bss ∧
      ∀ i pkt p st, rs !! i = Some (Some (pkt, p, st)) →
        sent !! es_seq_num pkt = Some (es_ack_seq_num pkt, p) ∧
        ∀ ds, ChaCha_seal_server c (es_seq_num pkt) (es_ack_seq_num pkt) p = Ok ds → ds ⊆ pre ++ take (S i) bss) as Hall.
  2: { apply (Hall []); [done|split; [split_and!; reflexivity|apply buffer_ok_default]|apply collected_default]. }
  induction Hs as [|b bss Hb Hs IH]; intros pre c' Hpre Hh Hcol.
  { exists c', []. split; [done|]. split; [done|]. intros i pkt p st Hi. by rewrite lookup_nil in Hi. }
  destruct (open_sealed c sent pre b c' Hpre Hb Hh Hcol) as (c1 & o & E1 & Hh1 & Hcol1 & Ho).
  destruct (IH (pre ++ [b]) c1) as (c2 & rs & E2 & Hl & Hrs); [by apply Forall_app; split; [|apply Forall_singleton]|done..|].
  exists c2, (o :: rs). split; [cbn [open_all]; unfold mbind, M_bind; by rewrite E1, E2|]. split; [by cbn; f_equal|].
  intros [|i] pkt p st Hi; cbn in Hi; [injection Hi as ->; by apply (Ho pkt p st)|].
  destruct (Hrs i pkt p st Hi) as [? Hds]. split; [done|]. intros ds Eds. cbn [take].
  rewrite cons_middle, (assoc_L (++)). by apply Hds.
Qed.
End laws.

(** ** Masks of received fragments *)

(** Bit [i] of a mask of 64-bit words. *)
Definition mask_bit (mask : list Z) (i : Z) : bool :=
  Z.testbit (default 0 (mask !! Z.to_nat (i / 64))) (i mod 64).

Lemma length_set_mask_bit mask idx : length (set_mask_bit mask idx) = length mask.
Proof. unfold set_mask_bit. cbv zeta. case_match; [by rewrite length_insert|done]. Qed.

Lemma set_mask_bit_spec mask idx i :
  0 ≤ idx → 0 ≤ i < 64 * len mask →
  mask_bit (set_mask_bit mask idx) i = bool_decide (i = idx) || mask_bit mask i.
Proof.
  intros Hx Hi. unfold set_mask_bit, mask_bit. cbv zeta.
  assert (Z.to_nat (i / 64) < length mask)%nat as Hw.
  { unfold len in Hi. Z.to_euclidean_division_equations. lia. }
  destruct (mask !! Z.to_nat (idx / 64)) as [w|] eqn:E.
  - destruct (decide (i / 64 = idx / 64)) as [Eq|Ne].
    + rewrite Eq in *. rewrite list_lookup_insert_eq by done. rewrite E. simpl.
      rewrite Z.lor_spec, Z.shiftl_1_l, Z.pow2_bits_eqb by (apply Z.mod_pos_bound; lia).
      rewrite orb_comm. f_equal. case_bool_decide as Hd.
      * subst. apply Z.eqb_refl.
      * apply Z.eqb_neq. intros Hm. apply Hd. Z.to_euclidean_division_equations. lia.
    + rewrite list_lookup_insert_ne; [|Z.to_euclidean_division_equations; lia].
      rewrite bool_decide_false; [done|]. intros ->. done.
  - rewrite bool_decide_false; [done|]. intros ->. apply lookup_ge_None in E. lia.
Qed.

Lemma mask_of_spec total keys i :
  Forall (Z.le 0) keys → 0 ≤ total → 0 ≤ i < 64 * ((total + 63) / 64) →
  length (mask_of total keys) = Z.to_nat ((total + 63) / 64) ∧
  mask_bit (mask_of total keys) i = bool_decide (i ∈ keys).
Proof.
  intros Hk Ht Hi. unfold mask_of.
  assert (∀ mask, len mask = (total + 63) / 64 →
    length (foldl set_mask_bit mask keys) = length mask ∧
    mask_bit (foldl set_mask_bit mask keys) i = bool_decide (i ∈ keys) || mask_bit mask i) as H.
  { induction Hk as [|k keys Hk0 Hk IH]; intros mask Hm; cbn [foldl].
    { split; [done|]. rewrite (bool_decide_false (i ∈ [])) by apply not_elem_of_nil. done. }
    destruct (IH (set_mask_bit mask k)) as [H1 H2].
    { unfold len in *. by rewrite length_set_mask_bit. }
    split; [by rewrite H1, length_set_mask_bit|]. rewrite H2, set_mask_bit_spec by lia.
    rewrite orb_assoc. f_equal. apply eq_true_iff_eq.
    rewrite orb_true_iff, !bool_decide_eq_true, elem_of_cons. tauto. }
  destruct (H (vec 0 ((total + 63) / 64))) as [H1 H2].
  { apply len_vec. Z.to_euclidean_division_equations. lia. }
  rewrite H1, H2. split; [apply length_replicate|].
  assert (mask_bit (vec 0 ((total + 63) / 64)) i = false) as ->; [|apply orb_false_r].
  unfold mask_bit. rewrite lookup_vec; [apply Z.testbit_0_l|].
  Z.to_euclidean_division_equations. lia.
Qed.

Lemma elem_of_BTree_iter {V} (m : gmap Z V) k v : (k, v) ∈ BTree.iter m ↔ m !! k = Some v.
Proof.
  unfold BTree.iter. rewrite list_elem_of_omap. split.
  - intros (k' & Hk' & E). destruct (m !! k') as [v'|] eqn:E'; simplify_eq/=. done.
  - intros E. exists k. rewrite E. split; [|done]. apply BTreeFacts.elem_of_keys. by eexists.
Qed.

(** C28. The report of incomplete frames is exact: every buffered frame that misses a fragment is in
    it and nothing else is; the mask of such a frame has one 64-bit word per 64 fragments, and its
    bit [i] is set exactly when fragment [i] has arrived. *)
Theorem incomplete_frames_exact buf seq :
  map_Forall (λ _ '(total, _, frags), 0 ≤ total ∧ Forall (Z.le 0) (map_to_list frags).*1) (frames buf) →
  (∀ total acc frags, frames buf !! seq = Some (total, acc, frags) → Z.of_nat (size frags) < total →
     ∃ mask, (seq, mask) ∈ FragmentBuffer_get_incomplete_frames buf) ∧
  (∀ mask, (seq, mask) ∈ FragmentBuffer_get_incomplete_frames buf →
     ∃ total acc frags, frames buf !! seq = Some (total, acc, frags) ∧
       Z.of_nat (size frags) < total ∧ len mask = (total + 63) / 64 ∧
       ∀ i, 0 ≤ i < 64 * len mask → mask_bit mask i = bool_decide (is_Some (frags !! i))).
Proof.
  intros Hwf. unfold FragmentBuffer_get_incomplete_frames. split.
  - intros total acc frags Hf Hlt. eexists. apply list_elem_of_omap.
    exists (seq, (total, acc, frags)). split; [by apply elem_of_BTree_iter|].
    rewrite decide_False by lia. done.
  - intros mask ([s [[total acc] frags]] & Hin & Hm)%list_elem_of_omap.
    case_decide as Hc; [done|]. injection Hm as -> <-. apply elem_of_BTree_iter in Hin.
    exists total, acc, frags. destruct (map_Forall_lookup_1 _ _ _ _ Hwf Hin) as [Ht Hk].
    assert (∀ i, 0 ≤ i < 64 * ((total + 63) / 64) → _) as H
      by (intros i Hi; exact (mask_of_spec total _ i Hk Ht Hi)).
    assert (len (mask_of total (map_to_list frags).*1) = (total + 63) / 64) as Hl.
    { unfold len. destruct (H 0) as [-> _]; Z.to_euclidean_division_equations; lia. }
    split_and!; [done|lia|done|]. intros i Hi. rewrite Hl in Hi. destruct (H i Hi) as [_ ->].
    apply bool_decide_ext. rewrite list_elem_of_fmap. split.
    + intros ([k v] & -> & Hkv). apply elem_of_map_to_list in Hkv. by eexists.
    + intros [v Hv]. exists (i, v). split; [done|]. by apply elem_of_map_to_list.
Qed.

(** ** Bounded buffering *)

(** Giving a codec a list of datagrams, whatever it answers. *)
Definition feed_all {C : Type} `{PacketCodec C} (bss : list bytes) (c : C) : C :=
  foldl (λ c b, (open_server b c).1) c bss.

Lemma insert_bounded p w buf :
  (size (frames buf) ≤ 32)%nat → (size (frames (FragmentBuffer_insert p w buf).1) ≤ 32)%nat.
Proof.
  intros Hs. rewrite insert_unfold. case_decide; [done|].
  destruct (entry_after buf p w) as [[t a] fr]. cbv zeta.
  case_decide; cbn [fst frames].
  { etransitivity; [apply map_size_filter|]. rewrite map_size_delete. case_match; simpl; lia. }
  case_decide as Hov; cbn [fst frames]; [|lia].
  destruct (BTree.first_key _) as [k|] eqn:E.
  - apply BTreeFacts.first_key_Some in E as [[v Hv] _]. simpl. rewrite map_size_delete, Hv.
    rewrite map_size_insert. case_match; simpl; lia.
  - apply BTreeFacts.first_key_None in E. by apply insert_non_empty in E.
Qed.

Section theorems.
Context `{Bincode ClientPayload, Bincode ServerPayload,
          Bincode EncryptedClientPacket, Bincode EncryptedServerPacket, Aead, Lz4}.

(** C29. However many datagrams of whatever content arrive, forged ones included, the fragment buffer
    never holds more than 32 incomplete frames, and the keys and the session id never change. *)
Theorem chacha_buffer_bounded bss (c : ChaChaCodec) :
  (size (frames (cc_fragment_buffer c)) ≤ 32)%nat →
  (size (frames (cc_fragment_buffer (feed_all bss c))) ≤ 32)%nat ∧ same_keys c (feed_all bss c).
Proof.
  unfold feed_all. revert c. induction bss as [|b bss IH]; intros c Hs; [done|]. cbn [foldl].
  enough ((size (frames (cc_fragment_buffer (open_server b c).1)) ≤ 32)%nat ∧
          same_keys c (open_server b c).1) as [Hs1 (E1 & E2 & E3)].
  { destruct (IH _ Hs1) as [Hs2 (F1 & F2 & F3)]. split; [done|].
    split_and!; congruence. }
  cbn [open_server ChaCha_PacketCodec].
  unfold ChaCha_open_server, ChaCha_insert, mbind, M_bind, lift, get.
  destruct (deserialize b) as [p| |]; [|done..]. pose proof (insert_bounded p (len b) _ Hs) as Hi.
  destruct (FragmentBuffer_insert _ _ _) as [buf [[[[pkt ct] w]|]| |]]; cbn in *; [|done..].
  destruct (decrypt _ _ _) as [plain| |]; cbn; [|done..].
  by destruct (deserialize_compressed_get_sizes plain) as [[[payload cl] dl]| |].
Qed.

(** C26. The acceptance rule of the server: [open_client] accepts a datagram exactly when it is for
    the handshake or for this session, its ciphertext is what the cipher produces from a payload's
    encoding under the key of that session and the nonce of the packet's own sequence number. The
    session id and the sequence number are therefore bound by the tag; the acknowledgement number
    is not: the datagram with any other acknowledgement is accepted with the same payload. *)
Theorem open_client_authentic (c : ChaChaCodec) b
    `{!BincodeLaws EncryptedClientPacket, !AeadLaws} wire (p : ClientPayload) st :
  open_client c b = Ok (wire, p, st) →
  (ec_session_id wire = 0 ∨ ec_session_id wire = cc_session_id c) ∧
  (∃ plain, deserialize plain = Ok p ∧
     encrypt (if decide (ec_session_id wire = 0) then cc_handshake_crypto c else cc_crypto c)
       (ec_seq_num wire) plain = Ok (ec_ciphertext wire)) ∧
  (∀ ack b', wf wire → u64 ack → serialize (wire <| ec_ack_seq_num := ack |>) = Ok b' →
     ∃ st', open_client c b' = Ok (wire <| ec_ack_seq_num := ack |>, p, st')).
Proof.
  cbn [open_client ChaCha_PacketCodec]. unfold ChaCha_open_client.
  destruct (deserialize (T:=EncryptedClientPacket) b) as [w| |]; simpl; [|done..].
  set (sel := if decide (ec_session_id w = 0) then _ else _ : outcome CryptoManager).
  destruct sel as [cm| |] eqn:Es; simpl; [|done..].
  destruct (decrypt cm _ _) as [plain| |] eqn:Ed; simpl; [|done..].
  destruct (deserialize plain) as [q| |] eqn:Ep; simpl; [|done..]. intros [= -> -> <-].
  assert ((ec_session_id wire = 0 ∨ ec_session_id wire = cc_session_id c) ∧
    cm = if decide (ec_session_id wire = 0) then cc_handshake_crypto c else cc_crypto c) as [Hsid ->].
  { unfold sel in Es. repeat case_decide; simplify_eq; auto. }
  split_and!; [done|exists plain; split; [done|by apply decrypt_authentic]|].
  intros ack b' Hw Ha Hb'.
  assert (wf (wire <| ec_ack_seq_num := ack |>)) as Hw' by (by destruct Hw as (? & ? & ? & ?)).
  rewrite (deserialize_serialize_nil _ _ Hw' Hb'). simpl. fold sel. rewrite Es. simpl.
  rewrite Ed. simpl. rewrite Ep. simpl. by eexists.
Qed.

(** C27. Nonces. Within one direction two packets of different sequence numbers never share a nonce
    (for 64-bit sequence numbers, which are never reused). The two directions do: a client packet
    and a server packet of the same session and sequence number are sealed with the same key and the
    same nonce, whatever their payloads. *)
Theorem nonces_shared_across_directions (c : ChaChaCodec) sid seq ack
    (p : ClientPayload) (q : ServerPayload) bs bss
    `{!BincodeLaws ClientPayload, !BincodeLaws ServerPayload, !BincodeLaws EncryptedClientPacket,
      !BincodeLaws EncryptedServerPacket, !AeadLaws} :
  sid ≠ 0 → u64 sid → u64 seq → u64 ack → wf p → wf q →
  seal_client c sid seq ack p = Ok bs → seal_server c seq ack q = Ok bss →
  (∀ seq', u64 seq' → seq' ≠ seq → make_nonce (cc_crypto c) seq' ≠ make_nonce (cc_crypto c) seq) ∧
  ∃ plain plain' ct ct' nonce,
    serialize p = Ok plain ∧ serialize_compressed q = Ok plain' ∧
    nonce = make_nonce (cc_crypto c) seq ∧
    aead_encrypt (cm_key (cc_crypto c)) nonce plain = Some ct ∧
    aead_encrypt (cm_key (cc_crypto c)) nonce plain' = Some ct' ∧
    (∃ wire, deserialize bs = Ok wire ∧ ec_ciphertext wire = ct) ∧
    serialize_all (packets_of seq ack ct') = Ok bss.
Proof.
  intros Hne Hsid Hs Ha Hp Hq Hc Hsv. split.
  { intros seq' Hs' Hn E. by apply make_nonce_inj in E as [_ ->]. }
  destruct (chacha_seal_client_inv c sid seq ack p bs) as (plain & ct & Hpl & He & Hd); [done..|].
  destruct (chacha_seal_server_inv c seq ack q bss) as (plain' & ct' & Hpl' & He' & _ & Hd'); [done..|].
  rewrite decide_False in He by done. unfold encrypt in He, He'.
  destruct (aead_encrypt _ _ plain) as [x|] eqn:E; [|done].
  destruct (aead_encrypt _ _ plain') as [x'|] eqn:E'; [|done].
  simplify_eq/=. eexists plain, plain', _, _, _. split_and!; [done..| |done]. by eexists.
Qed.
End theorems.

(** ** Witnesses *)

Definition demo_key : list Z := vec 7 32.
Definition demo_codec : ChaChaCodec := ChaChaCodec_new demo_key 81985529216486895.
Definition demo_frame : FrameUpdate :=
  {| fu_ref_seq := 0; fu_cols := 120; fu_rows := 1; fu_cursor_x := 0; fu_cursor_y := 0;
     fu_cursor_visible := true;
     fu_row_updates :=
       [{| ru_y := 0; ru_is_wrapped := false;
           ru_cells := (λ x, {| cu_x := x; cu_cell := blank_cell |}) <$> range 110 |}];
     fu_is_echo_enabled := true |}.
(** Three datagrams. *)
Definition demo_datagrams : list bytes :=
  match seal_server demo_codec 9 4 (ServerPayload.Frame demo_frame) with Ok bss => bss | _ => [] end.

(** A decidable claim about concrete values, by evaluation. *)
Ltac evaluate := apply (bool_decide_unpack _); vm_compute; exact I.

Lemma demo_frame_wf : wf (ServerPayload.Frame demo_frame).
Proof. evaluate. Qed.

Lemma demo_sealed : seal_server demo_codec 9 4 (ServerPayload.Frame demo_frame) = Ok demo_datagrams.
Proof. vm_compute. reflexivity. Qed.

(** The datagrams arrive in the order 2, 0, 2, 1. *)
Lemma fragments_delivered_witness :
  length demo_datagrams = 3%nat ∧
  ∃ c'' pkt st,
    open_all (omap (λ j, demo_datagrams !! j) [2%nat; 0%nat; 2%nat] ++
              [default [] (demo_datagrams !! 1%nat)]) demo_codec =
      (c'', Ok (replicate 3 None ++ [Some (pkt, ServerPayload.Frame demo_frame, st)])) ∧
    es_seq_num pkt = 9 ∧ es_ack_seq_num pkt = 4.
Proof.
  split; [vm_compute; reflexivity|].
  assert (length demo_datagrams = 3%nat) as Hl by (vm_compute; reflexivity).
  apply (fragments_delivered demo_codec demo_codec 9 4 (ServerPayload.Frame demo_frame)
    demo_datagrams [2%nat; 0%nat; 2%nat] 1%nat); rewrite ?Hl.
  - split_and!; reflexivity.
  - vm_compute. reflexivity.
  - vm_compute. lia.
  - apply demo_frame_wf.
  - evaluate.
  - evaluate.
  - apply demo_sealed.
  - unfold len. rewrite Hl. reflexivity.
  - evaluate.
  - vm_compute. reflexivity.
  - exists 1%nat. split; [lia|]. evaluate.
  - intros [|[|[|j]]] Hj; [evaluate..|lia].
Defined.

(** The first datagram of [demo_datagrams], buffered. *)
Definition demo_partial : ChaChaCodec := feed_all (take 1 demo_datagrams) demo_codec.

Lemma incomplete_frames_exact_witness :
  FragmentBuffer_get_incomplete_frames (cc_fragment_buffer demo_partial) = [(9, [1])] ∧
  ∃ mask, (9, mask) ∈ FragmentBuffer_get_incomplete_frames (cc_fragment_buffer demo_partial).
Proof.
  split; [vm_compute; reflexivity|].
  destruct (frames (cc_fragment_buffer demo_partial) !! 9) as [[[t a] fr]|] eqn:E.
  - eapply (proj1 (incomplete_frames_exact _ 9 _)); [exact E|].
    vm_compute in E. injection E as <- <- <-. vm_compute. reflexivity.
    Unshelve. evaluate.
  - exfalso. vm_compute in E. discriminate E.
Defined.

Lemma chacha_buffer_bounded_witness :
  (size (frames (cc_fragment_buffer (feed_all (demo_datagrams ++ [[1; 2; 3]]%Z) demo_codec))) ≤ 32)%nat.
Proof. apply chacha_buffer_bounded. vm_compute. lia. Defined.

Definition demo_keys : ClientPayload := ClientPayload.Keystrokes [108; 115; 10].
Definition demo_datagram : bytes :=
  match seal_client demo_codec 81985529216486895 9 4 demo_keys with Ok b => b | _ => [] end.
Definition demo_opened : EncryptedClientPacket * CodecStats :=
  match open_client demo_codec demo_datagram with
  | Ok (wire, _, st) => (wire, st)
  | _ => (mkEncClient 0 0 0 [], mkStats 0 0 0)
  end.
Definition demo_forged : bytes := fenc f_enc_client (demo_opened.1 <| ec_ack_seq_num := 5 |>).

Lemma open_client_authentic_witness :
  ∃ st', open_client demo_codec demo_forged =
         Ok (demo_opened.1 <| ec_ack_seq_num := 5 |>, demo_keys, st').
Proof.
  assert (open_client demo_codec demo_datagram = Ok (demo_opened.1, demo_keys, demo_opened.2)) as E
    by (vm_compute; reflexivity).
  destruct (open_client_authentic demo_codec demo_datagram demo_opened.1 demo_keys demo_opened.2 E)
    as (_ & _ & Hack).
  assert (wf demo_opened.1) as Hw by (vm_compute; repeat constructor; discriminate).
  assert (u64 5) as Hu by evaluate.
  assert (serialize (demo_opened.1 <| ec_ack_seq_num := 5 |>) = Ok demo_forged) as Hs
    by (vm_compute; reflexivity).
  exact (Hack 5 demo_forged Hw Hu Hs).
Defined.

Lemma nonces_shared_across_directions_witness :
  ∃ plain plain' ct ct' nonce,
    serialize demo_keys = Ok plain ∧ serialize_compressed (ServerPayload.Frame demo_frame) = Ok plain' ∧
    nonce = make_nonce (cc_crypto demo_codec) 9 ∧
    aead_encrypt demo_key nonce plain = Some ct ∧ aead_encrypt demo_key nonce plain' = Some ct' ∧
    (∃ wire, deserialize demo_datagram = Ok wire ∧ ec_ciphertext wire = ct) ∧
    serialize_all (packets_of 9 4 ct') = Ok demo_datagrams.
Proof.
  apply (nonces_shared_across_directions demo_codec 81985529216486895 9 4 demo_keys
    (ServerPayload.Frame demo_frame) demo_datagram demo_datagrams);
    [evaluate..|apply demo_frame_wf|vm_compute; reflexivity|apply demo_sealed].
Defined.

(** The three datagrams of a frame and the one of an answer, which comes in between. *)
Definition demo_log : gmap Z (Z * ServerPayload) :=
  {[9 := (4, ServerPayload.Frame demo_frame); 10 := (4, ServerPayload.KeepAlive)]}.
Definition demo_answer_datagrams : list bytes :=
  match seal_server demo_codec 10 4 ServerPayload.KeepAlive with Ok bss => bss | _ => [] end.
Definition demo_mix : list bytes := take 2 demo_datagrams ++ demo_answer_datagrams ++ demo_datagrams.

Lemma demo_answer_sealed : seal_server demo_codec 10 4 ServerPayload.KeepAlive = Ok demo_answer_datagrams.
Proof. vm_compute. reflexivity. Qed.

Lemma opened_payloads_genuine_witness :
  length demo_mix = 6%nat ∧ length demo_datagrams = 3%nat ∧
  ∃ c'' rs pkt p st, open_all demo_mix demo_codec = (c'', Ok rs) ∧ length rs = 6%nat ∧
    rs !! 5%nat = Some (Some (pkt, p, st)) ∧ demo_log !! es_seq_num pkt = Some (es_ack_seq_num pkt, p).
Proof.
  assert (length demo_mix = 6%nat) as Hl by (vm_compute; reflexivity).
  split; [exact Hl|]. split; [vm_compute; reflexivity|].
  destruct (opened_payloads_genuine demo_key 81985529216486895 demo_log demo_mix) as (c'' & rs & Ho & Hlen & Hrs).
  - assert (∀ b, b ∈ demo_datagrams → sealed_once demo_codec demo_log b) as Hframe.
    { intros b Hb. exists 9, 4, (ServerPayload.Frame demo_frame), demo_datagrams.
      split; [vm_compute; reflexivity|]. split; [apply demo_frame_wf|]. split; [evaluate|].
      split; [evaluate|]. split; [apply demo_sealed|]. split; [evaluate|exact Hb]. }
    apply Forall_forall. intros b [Hb|[Hb|Hb]%elem_of_app]%elem_of_app.
    + apply Hframe. apply elem_of_take in Hb as (i & Hb & _). by eapply list_elem_of_lookup_2.
    + exists 10, 4, ServerPayload.KeepAlive, demo_answer_datagrams.
      split; [vm_compute; reflexivity|]. split; [evaluate|]. split; [evaluate|].
      split; [evaluate|]. split; [apply demo_answer_sealed|]. split; [evaluate|exact Hb].
    + by apply Hframe.
  - assert (match (open_all demo_mix demo_codec).2 with
            | Ok rs => match rs !! 5%nat with Some (Some _) => true | _ => false end | _ => false end = true) as Hlast
      by (vm_compute; reflexivity).
    unfold demo_codec in Hlast |- *. rewrite Ho in Hlast. cbn [snd] in Hlast.
    destruct (rs !! 5%nat) as [[[[pkt p] st]|]|] eqn:E5; [|discriminate Hlast..].
    exists c'', rs, pkt, p, st. split; [exact Ho|]. split; [rewrite Hlen; exact Hl|]. split; [exact E5|].
    apply (Hrs 5%nat pkt p st E5).
Defined.
