(* ===== verification/TermState.v ===== *)
(** * The server's terminal: [src/src/server/state.rs]

    The emulator ([libghostty_vt]) is third-party code: the class [Vt] gives the operations the code
    calls, on a type [T] of terminals and a type [R] of render states. What the accessors of a
    snapshot return are the fields of [VtRow] and [VtCell], each of which may be an error.
    [update_and_get_state] copies the dirty rows of the snapshot into a [GridState]. *)

From S2P Require Import Prelude Utf8 Grid.

Abbreviation bytes := (list Z) (only parsing).

(** ** The emulator *)

Record VtStyle := mkVtStyle {
  vs_bold : bool; vs_italic : bool; vs_inverse : bool; vs_underline_none : bool }.

Record VtCell := mkVtCell {
  vc_graphemes_len : outcome Z;
  vc_graphemes_buf : outcome (list char);
  vc_graphemes : outcome (list char);
  vc_fg_color : outcome (option RgbColorUpdate);
  vc_bg_color : outcome (option RgbColorUpdate);
  vc_style : outcome VtStyle;
}.

Record VtRow := mkVtRow {
  vr_dirty : outcome bool;
  vr_is_wrapped : outcome bool;
  vr_cells : outcome (list VtCell);
}.

(** [vt_write] and [vt_resize] also return the bytes the terminal sends to its [on_pty_write]
    callback while they run. *)
Class Vt (T R : Type) := {
  Terminal_new : Z → Z → outcome T;
  RenderState_new : outcome R;
  iterators_new : outcome unit;
  on_pty_write : T → outcome unit;
  vt_write : bytes → T → T * list bytes;
  vt_resize : Z → Z → T → (T * list bytes) * outcome unit;
  render_update : T → M R unit;
  snapshot_cols : R → outcome Z;
  snapshot_rows : R → outcome Z;
  snapshot_cursor_visible : R → outcome bool;
  snapshot_cursor_viewport : R → outcome (option (Z * Z));
  rows_iter_update : R → outcome (list VtRow);
  row_set_clean : Z → M R unit;
  snapshot_set_clean : M R unit;
}.

(** ** The state *)

Record ServerTerminalState (T R : Type) := mkTermState {
  ts_terminal : T;
  ts_render_state : R;
  ts_cols : Z;
  ts_rows : Z;
  ts_grid_state : GridState;
  ts_force_full : bool;
}.
Arguments mkTermState {T R}.
Arguments ts_terminal {T R}.
Arguments ts_render_state {T R}.
Arguments ts_cols {T R}.
Arguments ts_rows {T R}.
Arguments ts_grid_state {T R}.
Arguments ts_force_full {T R}.
#[export] Instance ServerTerminalState_eta T R : Eta (ServerTerminalState T R) := λ s,
  mkTermState (ts_terminal s) (ts_render_state s) (ts_cols s) (ts_rows s) (ts_grid_state s)
    (ts_force_full s).

(** The cell grid of a terminal that has just changed size. *)
Definition resized_grid (cols rows : Z) (g : GridState) : GridState :=
  g <| gs_cols := cols |> <| gs_rows := rows |> <| gs_cells := vec blank_cell (cols * rows) |>
    <| gs_row_wrapped := vec false rows |>.

(** ** Cells *)

(** Characters up to the first NUL, control characters replaced by spaces. *)
Fixpoint clean_prefix (cs : list char) : list char :=
  match cs with
  | [] => []
  | c :: cs => if c =? 0 then [] else (if is_control c then 32 else c) :: clean_prefix cs
  end.

Definition cell_graphemes (cell : VtCell) : outcome CompactGrapheme :=
  len ← vc_graphemes_len cell;
  if decide (len = 0) then Ok (CompactGrapheme_new [32])
  else if decide (len ≤ 16) then
    char_buf ← vc_graphemes_buf cell;
    Ok (CompactGrapheme_new (of_chars (clean_prefix char_buf)))
  else
    chars ← vc_graphemes cell;
    Ok (CompactGrapheme_new (of_chars ((λ c, if is_control c then 32 else c) <$> chars))).

Definition style_bits (style : VtStyle) : Z :=
  let flags := 0 in
  let flags := if vs_bold style then Z.lor flags STYLE_BOLD else flags in
  let flags := if vs_italic style then Z.lor flags STYLE_ITALIC else flags in
  let flags := if vs_inverse style then Z.lor flags STYLE_INVERSE else flags in
  if negb (vs_underline_none style) then Z.lor flags STYLE_UNDERLINE else flags.

Definition cell_data (cell : VtCell) : outcome LocalCellData :=
  g ← cell_graphemes cell;
  fg ← vc_fg_color cell;
  bg ← vc_bg_color cell;
  style ← vc_style cell;
  Ok {| graphemes := g; fg := fg; bg := bg; style_flags := style_bits style |}.

Section state.
Context {T R : Type} `{Vt T R}.
Abbreviation State := (ServerTerminalState T R) (only parsing).

Definition ServerTerminalState_new (cols rows : Z) : outcome State :=
  terminal ← Terminal_new cols rows;
  render_state ← RenderState_new;
  iterators_new ;;
  Ok {| ts_terminal := terminal; ts_render_state := render_state; ts_cols := cols; ts_rows := rows;
        ts_grid_state := blank_grid cols rows; ts_force_full := true |}.

(** The bytes returned go to the callback set by [setup_pty_callback]. *)
Definition TermState_write (data : bytes) (self : State) : State * list bytes :=
  let '(t, out) := vt_write data (ts_terminal self) in (self <| ts_terminal := t |>, out).

Definition TermState_resize (cols rows : Z) (self : State) : (State * list bytes) * outcome unit :=
  let '((t, out), r) := vt_resize cols rows (ts_terminal self) in
  let self := self <| ts_terminal := t |> in
  match r with
  | Ok _ =>
    ((self <| ts_cols := cols |> <| ts_rows := rows |>
           <| ts_grid_state ::= resized_grid cols rows |> <| ts_force_full := true |>, out), Ok tt)
  | Err e => ((self, out), Err e)
  | Panic => ((self, out), Panic)
  end.

(** ** [update_and_get_state] *)

(** A step of the render state. *)
Definition on_render {A} (m : M R A) : M State A := λ self,
  let '(r, o) := m (ts_render_state self) in (self <| ts_render_state := r |>, o).

Definition grid_mod (f : GridState → GridState) : M State unit :=
  modify (λ self, self <| ts_grid_state ::= f |>).

(** One cell of row [y]: a cell past the end of the grid is dropped. *)
Definition update_cell (y x : Z) (cell : VtCell) : M State unit :=
  cell_data ← lift (cell_data cell);
  self ← get;
  let idx := y * ts_cols self + x in
  if decide (idx < len (gs_cells (ts_grid_state self))) then
    grid_mod (λ g, g <| gs_cells := <[Z.to_nat idx := cell_data]> (gs_cells g) |>)
  else mret tt.

Fixpoint update_cells (y x : Z) (cells : list VtCell) : M State unit :=
  match cells with
  | [] => mret tt
  | cell :: cells => update_cell y x cell ;; update_cells y (x + 1) cells
  end.

Definition update_row (y : Z) (row : VtRow) : M State unit :=
  self ← get;
  skip ← (if ts_force_full self then mret false else dirty ← lift (vr_dirty row); mret (negb dirty));
  if (skip : bool) then mret tt
  else
    wrapped ← lift (vr_is_wrapped row);
    self ← get;
    row_wrapped ← lift (vec_set (gs_row_wrapped (ts_grid_state self)) y wrapped);
    grid_mod (λ g, g <| gs_row_wrapped := row_wrapped |>) ;;
    cells ← lift (vr_cells row);
    update_cells y 0 cells ;;
    on_render (row_set_clean y).

Fixpoint update_rows (y : Z) (rows : list VtRow) : M State unit :=
  match rows with
  | [] => mret tt
  | row :: rows => update_row y row ;; update_rows (y + 1) rows
  end.

Definition update_and_get_state : M State GridState :=
  self ← get;
  on_render (render_update (ts_terminal self)) ;;
  snapshot ← gets ts_render_state;
  cols ← lift (snapshot_cols snapshot);
  rows ← lift (snapshot_rows snapshot);
  cursor_visible ← lift (snapshot_cursor_visible snapshot);
  cv ← lift (snapshot_cursor_viewport snapshot);
  let '(cursor_x, cursor_y) := default (0, 0) cv in
  modify (λ self,
    if decide (ts_cols self ≠ cols ∨ ts_rows self ≠ rows) then
      self <| ts_cols := cols |> <| ts_rows := rows |>
           <| ts_grid_state ::= resized_grid cols rows |> <| ts_force_full := true |>
    else self) ;;
  row_iter ← lift (rows_iter_update snapshot);
  update_rows 0 row_iter ;;
  modify (λ self, self <| ts_force_full := false |>) ;;
  on_render snapshot_set_clean ;;
  grid_mod (λ g, g <| gs_cursor_x := cursor_x |> <| gs_cursor_y := cursor_y |>
                   <| gs_cursor_visible := cursor_visible |>) ;;
  gets ts_grid_state.
End state.

(** ** Incremental update against full rendering *)

(** What a row of a snapshot reads as: its cells and its wrap flag. *)
Definition reads (cols : Z) (row : VtRow) (d : list LocalCellData * bool) : Prop :=
  ∃ cells, vr_cells row = Ok cells ∧ vr_is_wrapped row = Ok d.2 ∧
    Forall2 (λ cell data, cell_data cell = Ok data) cells d.1 ∧ len cells = cols.

(** Row [y] of the grid holds [d]. *)
Definition shown (cols y : Z) (d : list LocalCellData * bool) (g : GridState) : Prop :=
  gs_row_wrapped g !! Z.to_nat y = Some d.2 ∧
  ∀ x, 0 ≤ x < cols → gs_cells g !! Z.to_nat (y * cols + x) = d.1 !! Z.to_nat x.

(** The grid that shows all of [ds]. *)
Definition rendered (cols rows : Z) (ds : list (list LocalCellData * bool)) (cursor : Z * Z)
    (visible : bool) : GridState :=
  {| gs_cols := cols; gs_rows := rows; gs_cursor_x := cursor.1; gs_cursor_y := cursor.2;
     gs_cursor_visible := visible; gs_cells := concat ds.*1; gs_row_wrapped := ds.*2 |}.

Section incremental.
Context {T R : Type} `{Vt T R}.
Abbreviation State := (ServerTerminalState T R) (only parsing).

(** [I] is what stays true of the render state while rows are marked clean. *)
Context (I : R → Prop).

(** The states of the row loop: everything but cells, wrap flags and the render state is fixed. *)
Record looping (cols rows : Z) (s0 s : State) : Prop := {
  lp_render : I (ts_render_state s);
  lp_cols : ts_cols s = cols;
  lp_rows : ts_rows s = rows;
  lp_force : ts_force_full s = ts_force_full s0;
  lp_terminal : ts_terminal s = ts_terminal s0;
  lp_cells : len (gs_cells (ts_grid_state s)) = cols * rows;
  lp_wrapped : len (gs_row_wrapped (ts_grid_state s)) = rows;
  lp_gcols : gs_cols (ts_grid_state s) = cols;
  lp_grows : gs_rows (ts_grid_state s) = rows;
}.

Lemma update_cells_run cols rows (s0 : State) y x cells ds (s : State) :
  looping cols rows s0 s → 0 ≤ x → x + len cells ≤ cols → 0 ≤ y < rows →
  Forall2 (λ cell data, cell_data cell = Ok data) cells ds →
  ∃ s', update_cells y x cells s = (s', Ok tt) ∧ looping cols rows s0 s' ∧
    gs_row_wrapped (ts_grid_state s') = gs_row_wrapped (ts_grid_state s) ∧
    gs_cells (ts_grid_state s') =
      list_inserts (Z.to_nat (y * cols + x)) ds (gs_cells (ts_grid_state s)).
Proof.
  intros Hl Hx Hlen Hy Hds. revert x s Hl Hx Hlen.
  induction Hds as [|cell d cells ds Hd Hds IH]; intros x s Hl Hx Hlen.
  { by exists s. }
  unfold len in Hlen. simpl in Hlen.
  cbn [update_cells]. unfold mbind at 1, M_bind at 1. unfold update_cell, mbind at 1, M_bind at 1.
  rewrite Hd. cbn [lift]. unfold mbind, M_bind, get. rewrite (lp_cols _ _ _ _ Hl).
  rewrite decide_True by (rewrite (lp_cells _ _ _ _ Hl); nia). cbn [grid_mod modify].
  edestruct (IH (x + 1)) as (s' & -> & Hl' & Hw & Hc);
    [|lia|unfold len; lia|].
  { destruct Hl. split; cbn; try done. unfold len. by rewrite length_insert. }
  exists s'. split; [done|]. split; [done|]. split; [by rewrite Hw|]. rewrite Hc. cbn.
  replace (Z.to_nat (y * cols + (x + 1))) with (S (Z.to_nat (y * cols + x))) by nia.
  rewrite list_insert_inserts_lt by lia. done.
Qed.

Definition cleanable : Prop := ∀ y r, I r → ∃ r', row_set_clean y r = (r', Ok tt) ∧ I r'.

Lemma shown_other cols rows (s0 s s' : State) y y' ds w d' :
  looping cols rows s0 s → 0 ≤ y < rows → 0 ≤ y' < rows → y ≠ y' → len ds = cols →
  gs_cells (ts_grid_state s') = list_inserts (Z.to_nat (y * cols + 0)) ds (gs_cells (ts_grid_state s)) →
  gs_row_wrapped (ts_grid_state s') = <[Z.to_nat y := w]> (gs_row_wrapped (ts_grid_state s)) →
  shown cols y' d' (ts_grid_state s) → shown cols y' d' (ts_grid_state s').
Proof.
  intros Hl Hy Hy' Hne Hds Hc Hw [Hs1 Hs2]. unfold len in Hds. split.
  - rewrite Hw, list_lookup_insert_ne by lia. done.
  - intros x Hx. rewrite <-(Hs2 x Hx), Hc. destruct (decide (y' < y)) as [Hlt|Hge].
    + apply list_lookup_inserts_lt. nia.
    + apply list_lookup_inserts_ge. nia.
Qed.

Lemma update_row_run cols rows (s0 : State) y row d (s : State) :
  cleanable → looping cols rows s0 s → 0 ≤ y < rows → reads cols row d →
  (ts_force_full s0 = true ∨ ∃ dirty, vr_dirty row = Ok dirty ∧
     (dirty = false → shown cols y d (ts_grid_state s))) →
  ∃ s', update_row y row s = (s', Ok tt) ∧ looping cols rows s0 s' ∧
    shown cols y d (ts_grid_state s') ∧
    ∀ y' d', 0 ≤ y' < rows → y' ≠ y → shown cols y' d' (ts_grid_state s) →
      shown cols y' d' (ts_grid_state s').
Proof.
  intros Hcl Hl Hy (cells & Hcells & Hw & Hds & Hlen) Hdirty.
  unfold update_row, mbind at 1, M_bind at 1, get. rewrite (lp_force _ _ _ _ Hl).
  assert (∃ skip, (if ts_force_full s0 then mret false
    else dirty ← lift (vr_dirty row); mret (negb dirty)) s = (s, Ok skip) ∧
    (skip = true → shown cols y d (ts_grid_state s))) as (skip & E & Hskip).
  { destruct (ts_force_full s0); [by exists false|]. destruct Hdirty as [?|(dirty & -> & Hd)]; [done|].
    exists (negb dirty). split; [done|]. destruct dirty; [done|]. intros _. by apply Hd. }
  unfold mbind at 1, M_bind at 1. rewrite E. destruct skip.
  { exists s. split_and!; [done|done|by apply Hskip|done]. }
  unfold mbind, M_bind, lift, get. rewrite Hw.
  rewrite vec_set_ok by (rewrite (lp_wrapped _ _ _ _ Hl); lia). rewrite Hcells. cbn [grid_mod modify].
  edestruct (update_cells_run cols rows s0 y 0 cells d.1) as (s1 & -> & Hl1 & Hw1 & Hc1);
    [|lia|lia|done|done|].
  { destruct Hl. split; cbn; try done. unfold len. by rewrite length_insert. }
  unfold on_render. destruct (Hcl y (ts_render_state s1) (lp_render _ _ _ _ Hl1)) as (r' & -> & Hr').
  apply Forall2_length in Hds as Hdl. unfold len in Hlen.
  eexists. split; [done|]. split; [by destruct Hl1; split|]. cbn. split.
  - split; cbn.
    + rewrite Hw1. cbn. apply list_lookup_insert_eq. pose proof (lp_wrapped _ _ _ _ Hl).
      unfold len in *. lia.
    + intros x Hx. rewrite Hc1. cbn. pose proof (lp_cells _ _ _ _ Hl) as Hlc. unfold len in Hlc.
      rewrite list_lookup_inserts by nia. f_equal. nia.
  - intros y' d' Hy' Hne Hs'. apply (shown_other cols rows s0 s s1 y y' d.1 d.2 d'); try done.
    unfold len. lia.
Qed.

Lemma update_rows_run cols rows (s0 : State) y rws ds (s : State) :
  cleanable → looping cols rows s0 s → 0 ≤ y → y + len rws = rows →
  Forall2 (reads cols) rws ds →
  (∀ i row d, rws !! i = Some row → ds !! i = Some d → ts_force_full s0 = true ∨
     ∃ dirty, vr_dirty row = Ok dirty ∧
       (dirty = false → shown cols (y + Z.of_nat i) d (ts_grid_state s))) →
  ∃ s', update_rows y rws s = (s', Ok tt) ∧ looping cols rows s0 s' ∧
    (∀ i d, ds !! i = Some d → shown cols (y + Z.of_nat i) d (ts_grid_state s')) ∧
    (∀ y' d', 0 ≤ y' < y → shown cols y' d' (ts_grid_state s) → shown cols y' d' (ts_grid_state s')).
Proof.
  intros Hcl Hl Hy Hlen Hds Hd. revert y s Hl Hy Hlen Hd.
  induction Hds as [|row d rws ds Hr Hds IH]; intros y s Hl Hy Hlen Hd.
  { exists s. split_and!; [done|done| |done]. intros i d. by rewrite lookup_nil. }
  unfold len in Hlen. simpl in Hlen.
  destruct (update_row_run cols rows s0 y row d s) as (s1 & E1 & Hl1 & Hs1 & Ho1);
    [done|done|lia|done| |].
  { specialize (Hd 0%nat row d eq_refl eq_refl). by rewrite Z.add_0_r in Hd. }
  destruct (IH (y + 1) s1) as (s2 & E2 & Hl2 & Hs2 & Ho2); [done|lia|unfold len; lia| |].
  { intros i row' d' Hi Hi'. destruct (Hd (S i) row' d' Hi Hi') as [?|(dirty & ? & Hdd)]; [by left|].
    right. exists dirty. split; [done|]. intros Hf. specialize (Hdd Hf).
    replace (y + 1 + Z.of_nat i) with (y + Z.of_nat (S i)) by lia.
    apply Ho1; [|lia|done]. apply lookup_lt_Some in Hi. lia. }
  exists s2. split_and!.
  - cbn [update_rows]. unfold mbind, M_bind. by rewrite E1.
  - done.
  - intros [|i] d' Hi; simpl in Hi.
    + injection Hi as ->. rewrite Z.add_0_r. apply Ho2; [lia|done].
    + replace (y + Z.of_nat (S i)) with (y + 1 + Z.of_nat i) by lia. by apply Hs2.
  - intros y' d' Hy' Hs'. apply Ho2; [lia|]. apply Ho1; [lia|lia|done].
Qed.

(** The size adjustment at the head of the update. *)
Definition sized (cols rows : Z) (self : State) : State :=
  if decide (ts_cols self ≠ cols ∨ ts_rows self ≠ rows) then
    self <| ts_cols := cols |> <| ts_rows := rows |>
         <| ts_grid_state ::= resized_grid cols rows |> <| ts_force_full := true |>
  else self.

(** The grid's shape agrees with the recorded size. *)
Definition term_wf (s : State) : Prop :=
  u16 (ts_cols s) ∧ u16 (ts_rows s) ∧ gs_cols (ts_grid_state s) = ts_cols s ∧
  gs_rows (ts_grid_state s) = ts_rows s ∧ grid_wf (ts_grid_state s).

Lemma resized_grid_wf cols rows g : u16 cols → u16 rows → grid_wf (resized_grid cols rows g).
Proof.
  intros Hc Hr. unfold fits in *. split_and!; cbn; [done|done|..]; apply len_vec; [nia|lia].
Qed.

Lemma sized_wf cols rows s : u16 cols → u16 rows → term_wf s → term_wf (sized cols rows s).
Proof.
  intros Hc Hr Hw. unfold sized. case_decide; [|done].
  split_and!; cbn; try done. by apply resized_grid_wf.
Qed.

(** A list read in rows of [n] elements is the concatenation of the rows. *)
Lemma concat_rows {A} n (ls : list (list A)) (l : list A) :
  Forall (λ r, length r = n) ls → length l = (length ls * n)%nat →
  (∀ i r x, ls !! i = Some r → (x < n)%nat → l !! (i * n + x)%nat = r !! x) → l = concat ls.
Proof.
  intros Hls. revert l. induction Hls as [|r ls Hr Hls IH]; intros l Hl Hx; simpl in *.
  { by apply nil_length_inv in Hl. }
  rewrite <-(take_drop n l). f_equal.
  - apply list_eq_same_length with n; [done|rewrite length_take; lia|].
    intros i a b Hi Ha Hb. rewrite lookup_take in Ha. case_decide; [|done].
    pose proof (Hx 0%nat r i eq_refl Hi) as E. cbn in E. congruence.
  - apply IH; [rewrite length_drop; lia|]. intros i r' x Hi Hxn.
    rewrite lookup_drop, <-(Hx (S i) r' x Hi Hxn). f_equal. lia.
Qed.

Lemma rendered_unique cols rows ds (g : GridState) :
  0 ≤ cols → Forall (λ d, len d.1 = cols) ds → len ds = rows → gs_cols g = cols → gs_rows g = rows →
  len (gs_cells g) = cols * rows → len (gs_row_wrapped g) = rows →
  (∀ i d, ds !! i = Some d → shown cols (Z.of_nat i) d g) →
  g = rendered cols rows ds (gs_cursor_x g, gs_cursor_y g) (gs_cursor_visible g).
Proof.
  intros Hcols Hds Hlen Hc Hr Hcells Hwrap Hs. destruct g as [gc gr gx gy gv cells wrapped].
  cbn in *. subst gc gr. unfold rendered, len in *. cbn. f_equal.
  - apply (concat_rows (Z.to_nat cols)).
    + apply Forall_fmap. eapply Forall_impl; [exact Hds|]. intros d Hd. cbn in *. lia.
    + rewrite length_fmap. nia.
    + intros i r x Hi Hx. apply list_lookup_fmap_Some in Hi as (d & -> & Hd).
      destruct (Hs i d Hd) as [_ Hsx]. specialize (Hsx (Z.of_nat x) ltac:(lia)). cbn in Hsx.
      rewrite Nat2Z.id in Hsx. rewrite <-Hsx. f_equal. nia.
  - apply list_eq_same_length with (length ds); [by rewrite length_fmap|lia|].
    intros i a b Hi Ha Hb. apply list_lookup_fmap_Some in Hb as (d & -> & Hd).
    destruct (Hs i d Hd) as [Hw _]. cbn in Hw. rewrite Nat2Z.id in Hw. congruence.
Qed.

(** The incremental update of a snapshot, over any invariant [I] of the render state. *)
Lemma update_snapshot_run (self : State) r' cols rows visible cv rws ds :
  term_wf self → u16 cols → u16 rows → cleanable →
  render_update (ts_terminal self) (ts_render_state self) = (r', Ok tt) →
  snapshot_cols r' = Ok cols → snapshot_rows r' = Ok rows →
  snapshot_cursor_visible r' = Ok visible → snapshot_cursor_viewport r' = Ok cv →
  rows_iter_update r' = Ok rws → len rws = rows → Forall2 (reads cols) rws ds →
  I r' → (∀ r, I r → (snapshot_set_clean r).2 = Ok tt ∧ I (snapshot_set_clean r).1) →
  (∀ i row d, rws !! i = Some row → ds !! i = Some d →
     ts_force_full self = true ∨ (ts_cols self ≠ cols ∨ ts_rows self ≠ rows) ∨
     ∃ dirty, vr_dirty row = Ok dirty ∧
       (dirty = false → shown cols (Z.of_nat i) d (ts_grid_state self))) →
  ∃ self', update_and_get_state self =
      (self', Ok (rendered cols rows ds (default (0, 0) cv) visible)) ∧
    ts_grid_state self' = rendered cols rows ds (default (0, 0) cv) visible ∧
    ts_terminal self' = ts_terminal self ∧ ts_force_full self' = false ∧ term_wf self' ∧
    I (ts_render_state self').
Proof.
  intros Hwf Hcols Hrows Hcl Hup Hc Hr Hv Hcv Hrws Hlen Hds HI Hclean Hdirty.
  set (s0 := sized cols rows (self <| ts_render_state := r' |>)).
  assert (term_wf s0) as Hwf0 by (apply sized_wf; done).
  assert (ts_cols s0 = cols ∧ ts_rows s0 = rows) as [Hc0 Hr0].
  { unfold s0, sized. case_decide as Hd; [done|]. cbn in *. split; apply dec_stable; tauto. }
  destruct Hwf0 as (_ & _ & Hgc & Hgr & _ & _ & Hlc & Hlw).
  assert (I (ts_render_state s0)) as HI0 by (unfold s0, sized; by case_decide).
  assert (looping cols rows s0 s0) as Hl0
    by (split; try done; by rewrite ?Hlc, ?Hlw, ?Hgc, ?Hgr, ?Hc0, ?Hr0).
  destruct (update_rows_run cols rows s0 0 rws ds s0) as (s1 & E1 & Hl1 & Hs1 & _);
    [done|done|lia|lia|done| |].
  { intros i row d Hi Hi'. destruct (Hdirty i row d Hi Hi') as [Hf|[Hne|Hd]].
    - left. unfold s0, sized. by case_decide.
    - left. unfold s0, sized. by rewrite decide_True.
    - unfold s0, sized. case_decide; [by left|]. by right. }
  destruct (Hclean _ (lp_render _ _ _ _ Hl1)) as [Ho2 HI2].
  destruct (snapshot_set_clean (ts_render_state s1)) as [r2 o2] eqn:E2. cbn in Ho2, HI2. subst o2.
  set (cur := default (0, 0) cv).
  set (g' := (ts_grid_state s1) <| gs_cursor_x := cur.1 |> <| gs_cursor_y := cur.2 |>
                              <| gs_cursor_visible := visible |>).
  assert (g' = rendered cols rows ds cur visible) as Hg.
  { replace cur with (gs_cursor_x g', gs_cursor_y g') by (by destruct cur).
    apply (rendered_unique cols rows ds g').
    - unfold fits in Hcols. lia.
    - apply Forall_forall. intros d [i Hi]%list_elem_of_lookup.
      destruct (Forall2_lookup_r _ _ _ _ _ Hds Hi) as (row & _ & cells & _ & _ & Hf & <-).
      apply Forall2_length in Hf. unfold len. lia.
    - apply Forall2_length in Hds. unfold len in *. lia.
    - apply Hl1.
    - apply Hl1.
    - apply Hl1.
    - apply Hl1.
    - intros i d Hi. apply (Hs1 i d Hi). }
  exists (s1 <| ts_force_full := false |> <| ts_render_state := r2 |> <| ts_grid_state := g' |>).
  rewrite <-Hg. split; [|split; [done|split; [|split; [done|split; [|done]]]]].
  - unfold update_and_get_state, on_render, grid_mod, mbind, M_bind, get, gets, lift, modify.
    rewrite Hup. cbn [ts_render_state]. cbn. rewrite Hc, Hr, Hv, Hcv. fold cur.
    unfold g'. clear g' Hg. destruct cur as [cx cy]. rewrite Hrws.
    change (if decide _ then _ else _) with s0. rewrite E1. cbn. rewrite E2. done.
  - cbn. rewrite (lp_terminal _ _ _ _ Hl1). unfold s0, sized. by case_decide.
  - destruct Hl1 as [_ Lc Lr _ _ Lcells Lwrapped Lgc Lgr].
    unfold term_wf, grid_wf. cbn. by rewrite Lc, Lr, Lgc, Lgr.
Qed.

(** C17. The incremental update is equivalent to a full rendering. When the emulator's snapshot can
    be read, and every row it reports as clean still reads as the grid already shows it (or the size
    changed, or a full redraw is pending), [update_and_get_state] succeeds and returns exactly the
    grid of the whole snapshot: its size, cursor, every cell of every row and every wrap flag; the
    terminal itself is not touched and no redraw stays pending. *)
Theorem update_renders_snapshot (self : State) r' cols rows visible cv rws ds :
  term_wf self → u16 cols → u16 rows → cleanable →
  render_update (ts_terminal self) (ts_render_state self) = (r', Ok tt) →
  snapshot_cols r' = Ok cols → snapshot_rows r' = Ok rows →
  snapshot_cursor_visible r' = Ok visible → snapshot_cursor_viewport r' = Ok cv →
  rows_iter_update r' = Ok rws → len rws = rows → Forall2 (reads cols) rws ds →
  I r' → (∀ r, I r → (snapshot_set_clean r).2 = Ok tt ∧ I (snapshot_set_clean r).1) →
  (∀ i row d, rws !! i = Some row → ds !! i = Some d →
     ts_force_full self = true ∨ (ts_cols self ≠ cols ∨ ts_rows self ≠ rows) ∨
     ∃ dirty, vr_dirty row = Ok dirty ∧
       (dirty = false → shown cols (Z.of_nat i) d (ts_grid_state self))) →
  ∃ self', update_and_get_state self =
      (self', Ok (rendered cols rows ds (default (0, 0) cv) visible)) ∧
    ts_grid_state self' = rendered cols rows ds (default (0, 0) cv) visible ∧
    ts_terminal self' = ts_terminal self ∧ ts_force_full self' = false ∧ term_wf self' ∧
    I (ts_render_state self').
Proof. apply update_snapshot_run. Qed.
End incremental.

(** ** What the code relies on of the emulator

    A snapshot can be read, has the rows and columns it says, and a row it reports as clean reads as
    it did in the render state before the refresh; marking rows clean changes no contents. *)
Class VtLaws (T R : Type) `{Vt T R} := {
  vt_screen : R → list (list LocalCellData * bool);
  vl_update t r : ∃ r' cols rows visible cv rws,
    render_update t r = (r', Ok tt) ∧ u16 cols ∧ u16 rows ∧
    snapshot_cols r' = Ok cols ∧ snapshot_rows r' = Ok rows ∧
    snapshot_cursor_visible r' = Ok visible ∧ snapshot_cursor_viewport r' = Ok cv ∧
    rows_iter_update r' = Ok rws ∧ len rws = rows ∧ Forall2 (reads cols) rws (vt_screen r') ∧
    ∀ i row, rws !! i = Some row → ∃ dirty, vr_dirty row = Ok dirty ∧
      (dirty = false → vt_screen r !! i = vt_screen r' !! i);
  vl_row_clean y r : ∃ r', row_set_clean y r = (r', Ok tt) ∧ vt_screen r' = vt_screen r;
  vl_clean r : ∃ r', snapshot_set_clean r = (r', Ok tt) ∧ vt_screen r' = vt_screen r;
  vl_resize cols rows t : u16 cols → u16 rows → (vt_resize cols rows t).2 ≠ Panic;
}.

Section mirroring.
Context {T R : Type} `{VtLaws T R}.
Abbreviation State := (ServerTerminalState T R) (only parsing).

(** The grid shows what the render state last held, or a full redraw is pending. *)
Definition mirrors (s : State) : Prop :=
  term_wf s ∧
  (ts_force_full s = true ∨
   ∀ i d, vt_screen (ts_render_state s) !! i = Some d →
     shown (ts_cols s) (Z.of_nat i) d (ts_grid_state s)).

Lemma mirrors_new cols rows s :
  u16 cols → u16 rows → ServerTerminalState_new cols rows = Ok s → mirrors s.
Proof.
  intros Hc Hr. unfold ServerTerminalState_new. destruct (Terminal_new cols rows); simpl; [|done..].
  destruct RenderState_new; simpl; [|done..]. destruct iterators_new; simpl; [|done..].
  intros [= <-]. split; [|by left]. split_and!; try done; by apply blank_grid_wf.
Qed.

Lemma mirrors_write data s : mirrors s → mirrors (TermState_write data s).1.
Proof. unfold TermState_write. destruct (vt_write data _). done. Qed.

Lemma mirrors_resize cols rows s :
  u16 cols → u16 rows → mirrors s →
  mirrors (TermState_resize cols rows s).1.1 ∧ (TermState_resize cols rows s).2 ≠ Panic.
Proof.
  intros Hc Hr Hm. unfold TermState_resize.
  pose proof (vl_resize cols rows (ts_terminal s) Hc Hr) as Hp.
  destruct (vt_resize cols rows (ts_terminal s)) as [[t out] [[]|e|]]; cbn in *; [|done|done].
  split; [|done]. split; [|by left]. split; [done|]. split; [done|].
  split; [done|]. split; [done|]. by apply resized_grid_wf.
Qed.

Lemma screen_rows cols rws (r : R) : Forall2 (reads cols) rws (vt_screen r) →
  ∀ i d, vt_screen r !! i = Some d → (i < length rws)%nat ∧ len d.1 = cols.
Proof.
  intros Hf i d Hi. destruct (Forall2_lookup_r _ _ _ _ _ Hf Hi) as (row & Hrow & cells & _ & _ & Hc & <-).
  apply lookup_lt_Some in Hrow. apply Forall2_length in Hc. split; [done|]. unfold len. lia.
Qed.

Lemma rendered_shown cols ds cursor visible i d :
  0 ≤ cols → Forall (λ d, len d.1 = cols) ds → ds !! i = Some d →
  shown cols (Z.of_nat i) d (rendered cols (len ds) ds cursor visible).
Proof.
  intros Hcols Hds Hi. split; cbn.
  - by rewrite Nat2Z.id, list_lookup_fmap, Hi.
  - intros x Hx. revert i Hi. induction Hds as [|d0 ds Hd0 Hds IH]; intros i Hi; [done|].
    cbn. unfold len in Hd0. destruct i as [|i]; simpl in Hi.
    + injection Hi as ->. rewrite lookup_app_l by lia. f_equal.
    + rewrite lookup_app_r by nia. rewrite <-(IH i Hi). f_equal. nia.
Qed.

Lemma mirrors_update s :
  mirrors s → ∃ s' g, update_and_get_state s = (s', Ok g) ∧ mirrors s' ∧
    ts_grid_state s' = g ∧ ts_terminal s' = ts_terminal s ∧ grid_wf g.
Proof.
  intros [Hwf Hm].
  destruct (vl_update (ts_terminal s) (ts_render_state s))
    as (r' & cols & rows & visible & cv & rws & Hup & Hc & Hr & Hcols & Hrows & Hv & Hcv & Hrws &
        Hlen & Hds & Hd).
  destruct (update_snapshot_run (λ r, vt_screen r = vt_screen r') s r' cols rows visible cv rws
    (vt_screen r')) as (s' & E & Hg & Ht & Hf & Hwf' & HI); try done.
  - intros y r Hy. destruct (vl_row_clean y r) as (r2 & -> & E2). exists r2. by rewrite E2.
  - intros r Hy. destruct (vl_clean r) as (r2 & -> & E2). cbn. by rewrite E2.
  - intros i row d Hi Hi'. destruct Hm as [?|Hm]; [by left|].
    destruct (decide (ts_cols s ≠ cols ∨ ts_rows s ≠ rows)) as [?|Hsame]; [by right; left|].
    assert (ts_cols s = cols) as Hcs by (apply dec_stable; tauto).
    right; right. destruct (Hd i row Hi) as (dirty & Hdirty & Hsc). exists dirty.
    split; [done|]. intros Hf. rewrite <-Hcs. apply Hm. by rewrite (Hsc Hf).
  - exists s', (ts_grid_state s'). rewrite Hg in *. split; [done|]. split; [|split; [done|]].
    + split; [done|]. right. rewrite HI, Hg. intros i d Hi.
      destruct Hwf' as (_ & _ & Hgc & _). rewrite <-Hgc, Hg. cbn.
      rewrite <-Hlen. assert (len rws = len (vt_screen r')) as ->.
      { apply Forall2_length in Hds. unfold len. lia. }
      apply rendered_shown; [unfold fits in Hc; lia| |done].
      apply Forall_forall. intros d' [j Hj]%list_elem_of_lookup.
      by destruct (screen_rows _ _ _ Hds _ _ Hj).
    + split; [done|]. destruct Hwf' as (_ & _ & _ & _ & Hgw). by rewrite Hg in Hgw.
Qed.
End mirroring.

(** ** A concrete emulator

    A terminal that shows the bytes it has received, row after row, answers the byte 5 (enquiry)
    with the byte 6, and marks a row dirty when its text has changed since it was last cleaned. *)
Module Toy.
Record term := mkTerm { t_cols : Z; t_rows : Z; t_text : list Z }.
Record render := mkRender { r_cols : Z; r_rows : Z; r_lines : list (list char * bool) }.
#[global] Instance term_eta : Eta term := λ t, mkTerm (t_cols t) (t_rows t) (t_text t).
#[global] Instance render_eta : Eta render := λ r, mkRender (r_cols r) (r_rows r) (r_lines r).

Definition line (t : term) (y : Z) : list char :=
  (λ x, default 32 (t_text t !! Z.to_nat (y * t_cols t + x))) <$> range (wrap 16 (t_cols t)).
Definition refresh (t : term) (r : render) : render :=
  {| r_cols := wrap 16 (t_cols t); r_rows := wrap 16 (t_rows t);
     r_lines := (λ y, (line t y,
       negb (bool_decide (r_lines r !! Z.to_nat y = Some (line t y, false)))))
         <$> range (wrap 16 (t_rows t)) |}.
Definition cell (c : char) : VtCell :=
  {| vc_graphemes_len := Ok 1; vc_graphemes_buf := Ok [c]; vc_graphemes := Ok [c];
     vc_fg_color := Ok None; vc_bg_color := Ok None;
     vc_style := Ok {| vs_bold := false; vs_italic := false; vs_inverse := false;
                       vs_underline_none := true |} |}.
Definition row (l : list char * bool) : VtRow :=
  {| vr_dirty := Ok l.2; vr_is_wrapped := Ok false; vr_cells := Ok (cell <$> l.1) |}.

#[global] Instance vt : Vt term render := {|
  Terminal_new cols rows := Ok (mkTerm cols rows []);
  RenderState_new := Ok (mkRender 0 0 []);
  iterators_new := Ok tt;
  on_pty_write _ := Ok tt;
  vt_write data t :=
    (t <| t_text ::= λ l, l ++ data |>, if bool_decide (5 ∈ data) then [[6]] else []);
  vt_resize cols rows t := ((t <| t_cols := cols |> <| t_rows := rows |>, []), Ok tt);
  render_update t r := (refresh t r, Ok tt);
  snapshot_cols r := Ok (r_cols r);
  snapshot_rows r := Ok (r_rows r);
  snapshot_cursor_visible r := Ok true;
  snapshot_cursor_viewport r := Ok None;
  rows_iter_update r := Ok (row <$> r_lines r);
  row_set_clean y r := (r <| r_lines ::= alter (λ l, (l.1, false)) (Z.to_nat y) |>, Ok tt);
  snapshot_set_clean r := (r, Ok tt) |}.

Definition data (c : char) : LocalCellData := 
  blank_cell <| graphemes := CompactGrapheme_new (of_chars (clean_prefix [c])) |>.
(** "ab" on the first line of a screen of 3 columns and 2 rows, rendered once; then "c" arrives. *)
Definition before : ServerTerminalState term render :=
  {| ts_terminal := mkTerm 3 2 [97; 98; 99]; ts_render_state := mkRender 3 2 [([97; 98; 32], false); ([32; 32; 32], false)];
     ts_cols := 3; ts_rows := 2;
     ts_grid_state := rendered 3 2 [([data 97; data 98; data 32], false); ([data 32; data 32; data 32], false)] (0, 0) true;
     ts_force_full := false |}.
End Toy.

Lemma toy_reads l :
  reads (len l.1) (Toy.row l) (Toy.data <$> l.1, false).
Proof.
  exists (Toy.cell <$> l.1). split; [done|]. split; [done|]. split.
  - cbn. induction l.1 as [|c cs IH]; constructor; [done|exact IH].
  - unfold len. by rewrite length_fmap.
Qed.

#[export] Program Instance toy_vt_laws : VtLaws Toy.term Toy.render := {|
  vt_screen r := (λ l : list char * bool, (Toy.data <$> l.1, false)) <$> Toy.r_lines r |}.
Next Obligation.
  intros t r. assert (∀ n, u16 (wrap 16 n)) as Hw by (intros; by apply wrap_fits).
  assert (∀ y, len (Toy.line t y) = wrap 16 (Toy.t_cols t)) as Hlen.
  { intros y. unfold Toy.line, range, len. rewrite length_fmap, length_seqZ.
    specialize (Hw (Toy.t_cols t)). unfold fits in Hw. lia. }
  exists (Toy.refresh t r). eexists _, _, _, _, _. split; [done|]. do 2 (split; [apply Hw|]).
  do 5 (split; [done|]). split; [|split].
  - specialize (Hw (Toy.t_rows t)). unfold fits in Hw. cbn. unfold len, range.
    rewrite !length_fmap, length_seqZ. lia.
  - cbn. rewrite !Forall2_fmap_l, !Forall2_fmap_r. apply Forall_Forall2_diag, Forall_forall.
    intros y _. pose proof (toy_reads (Toy.line t y,
      negb (bool_decide (Toy.r_lines r !! Z.to_nat y = Some (Toy.line t y, false))))) as Hr.
    cbn in Hr. by rewrite Hlen in Hr.
  - intros i row Hi. cbn in Hi. apply list_lookup_fmap_Some in Hi as (l & -> & Hi).
    apply list_lookup_fmap_Some in Hi as (y & -> & Hy). unfold range in Hy.
    apply lookup_seqZ in Hy as [-> Hy]. eexists. split; [done|]. intros Hd. cbn in Hd.
    apply negb_false_iff, bool_decide_eq_true in Hd. rewrite Z.add_0_l, Nat2Z.id in Hd.
    rewrite !list_lookup_fmap. unfold Toy.refresh. cbn [Toy.r_lines].
    rewrite list_lookup_fmap. unfold range. rewrite lookup_seqZ_lt by lia. by rewrite Hd.
Qed.
Next Obligation.
  intros y r. eexists. split; [done|]. cbn. apply list_eq. intros i.
  rewrite !list_lookup_fmap. destruct (decide (i = Z.to_nat y)) as [->|].
  - rewrite list_lookup_alter_eq. by destruct (Toy.r_lines r !! Z.to_nat y).
  - by rewrite list_lookup_alter_ne.
Qed.
Next Obligation. intros r. by exists r. Qed.
Next Obligation. done. Qed.

Lemma update_renders_snapshot_witness :
  ∃ self', update_and_get_state Toy.before =
      (self', Ok (rendered 3 2 [([Toy.data 97; Toy.data 98; Toy.data 99], false);
                                ([Toy.data 32; Toy.data 32; Toy.data 32], false)] (0, 0) true)).
Proof.
  destruct (update_renders_snapshot (λ _, True) Toy.before (Toy.refresh (ts_terminal Toy.before) (ts_render_state Toy.before))
    3 2 true None
    [Toy.row ([97; 98; 99], true); Toy.row ([32; 32; 32], false)]
    [([Toy.data 97; Toy.data 98; Toy.data 99], false); ([Toy.data 32; Toy.data 32; Toy.data 32], false)])
    as (self' & E & _).
  - vm_compute. repeat split; discriminate.
  - vm_compute. split; congruence.
  - vm_compute. split; congruence.
  - intros y r _. eexists. split; [reflexivity|exact I].
  - reflexivity.
  - reflexivity.
  - reflexivity.
  - reflexivity.
  - reflexivity.
  - vm_compute. reflexivity.
  - reflexivity.
  - repeat constructor; eexists; (split; [reflexivity|]); (split; [reflexivity|]);
      (split; [repeat constructor|reflexivity]).
  - exact I.
  - intros r _. split; [reflexivity|exact I].
  - intros i row d Hi Hd. right. right. destruct i as [|[|i]]; cbn in Hi; [..|discriminate Hi].
    + exists true. injection Hi as <-. split; [reflexivity|discriminate].
    + exists false. injection Hi as <-. split; [reflexivity|]. intros _. injection Hd as <-.
      split; [reflexivity|]. intros x Hx. assert (x = 0 ∨ x = 1 ∨ x = 2) as [->|[->| ->]] by lia;
        vm_compute; reflexivity.
  - exists self'. exact E.
Defined.
