(* ===== verification/Pty.v ===== *)
(** * The pseudo-terminal: [src/src/server/pty.rs]

    The trait [PtyBackend] and its two implementations. [PtyBridge] drives the operating system,
    whose calls are the class [PtyOs] on a type of OS states; the thread that forwards the shell's
    output to a channel is in [Readers]. [FakePty] records what it is told. *)

From S2P Require Import Prelude Utf8 Text.

Abbreviation bytes := (list Z) (only parsing).

(** The methods take [&self] and change state behind it. *)
Class PtyBackend (P : Type) := {
  pty_write : bytes → M P unit;
  pty_resize : Z → Z → M P unit;
  pty_is_echo_recommended : M P bool;
}.

(** ** [PtyBridge] *)

Class PtyOs (O : Type) := {
  os_openpty : Z → Z → outcome O;
  os_spawn_command : list (list char) → (list char * list char) → M O unit;
  os_take_writer : M O unit;
  os_clone_reader : M O unit;
  os_write_all : bytes → M O unit;
  os_flush : M O unit;
  os_resize : Z → Z → M O unit;
  os_raw_fd : O → option Z;
  os_tcgetattr_lflag : Z → O → option Z;
  os_tcgetpgrp : Z → O → Z;
  os_read_comm : Z → O → option (list char);
  os_kill_child : M O unit;
}.

Record ProcessCache := mkProcessCache { last_pgrp : Z; last_name : option (list char) }.

Record PtyBridge (O : Type) := mkBridge { pb_os : O; pb_foreground_cache : ProcessCache }.
Arguments mkBridge {O}.
Arguments pb_os {O}.
Arguments pb_foreground_cache {O}.
#[export] Instance PtyBridge_eta O : Eta (PtyBridge O) := λ b,
  mkBridge (pb_os b) (pb_foreground_cache b).

(** [libc::ECHO] *)
Definition ECHO : Z := 8.

Definition shells : list (list char) := chars_of <$> ["bash"; "zsh"; "sh"; "fish"; "rumsh"]%string.

Section bridge.
Context {O : Type} `{PtyOs O}.

Definition on_os {A} (m : M O A) : M (PtyBridge O) A := λ self,
  let '(o, r) := m (pb_os self) in (self <| pb_os := o |>, r).

Definition PtyBridge_new (cols rows : Z) (shell_cmd : list char) : outcome (PtyBridge O) :=
  os ← os_openpty rows cols;
  let parts := split_whitespace shell_cmd in
  if decide (parts = []) then Err (Msg "Empty shell command")
  else
    let '(os, r) := (os_spawn_command parts (chars_of "TERM", chars_of "xterm-256color") ;;
                     os_take_writer ;; os_clone_reader) os in
    r ;;
    Ok {| pb_os := os; pb_foreground_cache := {| last_pgrp := -1; last_name := None |} |}.

Definition PtyBridge_write (data : bytes) : M (PtyBridge O) unit :=
  on_os (os_write_all data) ;; on_os os_flush.

Definition PtyBridge_resize (cols rows : Z) : M (PtyBridge O) unit := on_os (os_resize rows cols).

Definition is_echo_enabled (self : PtyBridge O) : bool :=
  match os_raw_fd (pb_os self) with
  | Some fd =>
    match os_tcgetattr_lflag fd (pb_os self) with
    | Some lflag => negb (Z.land lflag ECHO =? 0)
    | None => true
    end
  | None => true
  end.

Definition get_foreground_process_name : M (PtyBridge O) (option (list char)) :=
  self ← get;
  match os_raw_fd (pb_os self) with
  | None => mret None
  | Some fd =>
    let pgrp := os_tcgetpgrp fd (pb_os self) in
    if decide (0 < pgrp) then
      if decide (last_pgrp (pb_foreground_cache self) = pgrp)
      then mret (last_name (pb_foreground_cache self))
      else
        match os_read_comm pgrp (pb_os self) with
        | Some comm =>
          let name := Some (trim comm) in
          modify (λ self, self <| pb_foreground_cache := {| last_pgrp := pgrp; last_name := name |} |>) ;;
          mret name
        | None =>
          modify (λ self, self <| pb_foreground_cache := {| last_pgrp := pgrp; last_name := None |} |>) ;;
          mret None
        end
    else mret None
  end.

Definition PtyBridge_is_echo_recommended : M (PtyBridge O) bool :=
  self ← get;
  if is_echo_enabled self then mret true
  else
    name ← get_foreground_process_name;
    match name with
    | Some proc_name => mret (bool_decide (proc_name ∈ shells))
    | None => mret false
    end.

(** [Drop]: the child is killed, an error is ignored. *)
Definition PtyBridge_drop : M (PtyBridge O) unit := attempt (on_os os_kill_child) ;; mret tt.

#[export] Instance PtyBridge_backend : PtyBackend (PtyBridge O) := {|
  pty_write := PtyBridge_write;
  pty_resize := PtyBridge_resize;
  pty_is_echo_recommended := PtyBridge_is_echo_recommended |}.

(** The name asked for is the cached one exactly when the process group has not changed. *)
Definition foreground_name (self : PtyBridge O) : option (list char) :=
  match os_raw_fd (pb_os self) with
  | Some fd =>
    let pgrp := os_tcgetpgrp fd (pb_os self) in
    if decide (0 < pgrp) then
      if decide (last_pgrp (pb_foreground_cache self) = pgrp)
      then last_name (pb_foreground_cache self)
      else trim <$> os_read_comm pgrp (pb_os self)
    else None
  | None => None
  end.

(** The local echo is recommended exactly when the terminal driver echoes, or the foreground
    process (by its cached name while its process group stays the same) is one of the known shells.
    Asking never fails and changes nothing but the cache, and asking again, the operating system
    being in the same state, gives the same answer. *)
Theorem echo_recommended_spec (self : PtyBridge O) :
  ∃ cache,
    let self' := self <| pb_foreground_cache := cache |> in
    let answer := is_echo_enabled self ||
      match foreground_name self with Some n => bool_decide (n ∈ shells) | None => false end in
    PtyBridge_is_echo_recommended self = (self', Ok answer) ∧
    PtyBridge_is_echo_recommended self' = (self', Ok answer).
Proof.
  unfold PtyBridge_is_echo_recommended, get_foreground_process_name, foreground_name,
    is_echo_enabled, mbind, M_bind, get, modify, mret, M_ret.
  destruct self as [os [pg name]]. cbn. destruct (os_raw_fd os) as [fd|] eqn:Efd.
  2: { exists (mkProcessCache pg name). cbn. rewrite ?Efd. done. }
  destruct (os_tcgetattr_lflag fd os) as [lflag|] eqn:El.
  2: { exists (mkProcessCache pg name). cbn. rewrite ?Efd, ?El. done. }
  destruct (negb (Z.land lflag ECHO =? 0)) eqn:Ee.
  { exists (mkProcessCache pg name). cbn. rewrite ?Efd, ?El, ?Ee. done. }
  destruct (decide (0 < os_tcgetpgrp fd os)) as [Hp|Hp].
  2: { exists (mkProcessCache pg name). cbn.
       rewrite ?Efd, ?El, ?Ee. rewrite decide_False by done. done. }
  destruct (decide (pg = os_tcgetpgrp fd os)) as [E|E].
  { exists (mkProcessCache pg name). cbn. rewrite ?Efd, ?El, ?Ee.
    rewrite !decide_True by done. by destruct name. }
  destruct (os_read_comm (os_tcgetpgrp fd os) os) as [comm|] eqn:Ec;
    [exists (mkProcessCache (os_tcgetpgrp fd os) (Some (trim comm)))
    |exists (mkProcessCache (os_tcgetpgrp fd os) None)];
    cbn; rewrite ?Efd, ?El, ?Ee; rewrite !(decide_True (P:=0 < _)) by done;
    rewrite (decide_False (P:=pg = _)) by done; rewrite Ec, (decide_True (P:=_ = _)); done.
Qed.
End bridge.

(** ** [FakePty] *)

Record FakePty := mkFakePty {
  fp_written : list bytes; fp_resized : list (Z * Z); fp_echo_recommended : bool }.
#[export] Instance FakePty_eta : Eta FakePty := λ p,
  mkFakePty (fp_written p) (fp_resized p) (fp_echo_recommended p).

Definition FakePty_new : FakePty :=
  {| fp_written := []; fp_resized := []; fp_echo_recommended := false |}.

Definition FakePty_write (data : bytes) : M FakePty unit :=
  modify (λ p, p <| fp_written ::= λ l, l ++ [data] |>).
Definition FakePty_resize (cols rows : Z) : M FakePty unit :=
  modify (λ p, p <| fp_resized ::= λ l, l ++ [(cols, rows)] |>).

#[export] Instance FakePty_backend : PtyBackend FakePty := {|
  pty_write := FakePty_write;
  pty_resize := FakePty_resize;
  pty_is_echo_recommended := gets fp_echo_recommended |}.
