(* ===== verification/ServerSession.v ===== *)
(** * The server's session: [src/src/server/session.rs]

    [AuthoritativeSession] owns the protocol state of one client: it reorders the client's reliable
    packets, applies them to the pseudo-terminal and the emulator, and schedules frame updates
    ([check_sync]). Its methods return the actions the network loop executes. *)

From S2P Require Import Prelude Utf8 Grid Protocol Crypto Codec TermState Pty.

Section session.
Context {P C T R : Type} `{PtyBackend P, PacketCodec C, Vt T R}.

(** ** [UpdateJob] *)

Record UpdateJob := mkUpdateJob {
  uj_seq : Z;
  uj_ack_seq : Z;
  uj_ref_seq : Z;
  uj_ref_state : option GridState;
  uj_current_state : GridState;
  uj_codec : C;
  uj_is_echo_recommended : bool;
}.

(** The actions the network adapter executes. *)
Inductive SessionAction : Type :=
  | SendPacket (b : bytes) (target : SocketAddr)
  | OffloadDiffJob (job : UpdateJob) (target : SocketAddr)
  | ResendFragments (frame_seq : Z) (received_mask : list Z) (target : SocketAddr)
  | Shutdown.

Definition UpdateJob_run (self : UpdateJob) : outcome (list bytes) :=
  update ← diff_from (uj_current_state self) (uj_ref_state self) (uj_ref_seq self)
             (uj_is_echo_recommended self);
  seal_server (uj_codec self) (uj_seq self) (uj_ack_seq self) (ServerPayload.Frame update).

(** [PartialEq]: the codec is not compared. *)
Definition UpdateJob_eq (self other : UpdateJob) : bool :=
  (uj_seq self =? uj_seq other) && (uj_ack_seq self =? uj_ack_seq other) && (uj_ref_seq self =? uj_ref_seq other) &&
  bool_decide (uj_ref_state self = uj_ref_state other) &&
  bool_decide (uj_current_state self = uj_current_state other) &&
  Bool.eqb (uj_is_echo_recommended self) (uj_is_echo_recommended other).

(** ** [AuthoritativeSession] *)

Record AuthoritativeSession := mkSession {
  as_session_id : Z;
  as_seq_num : Z;
  as_ack_seq_num : Z;
  as_expected_client_seq : Z;
  as_out_of_order_packets : gmap Z ClientPayload;
  as_client_ack_seq : Z;
  as_last_sent_ack_seq : Z;
  as_state_history : list (Z * GridState);
  as_codec : C;
  as_current_client_addr : SocketAddr;
  as_last_recv_time : Instant;
  as_last_sync_time : Instant;
  as_last_pty_bytes_time : Instant;
  as_pty_bytes_acc : Z;
  as_dirty : bool;
  as_term_state : ServerTerminalState T R;
  as_pty : P;
}.
#[export] Instance AuthoritativeSession_eta : Eta AuthoritativeSession := λ s,
  mkSession (as_session_id s) (as_seq_num s) (as_ack_seq_num s) (as_expected_client_seq s)
    (as_out_of_order_packets s) (as_client_ack_seq s) (as_last_sent_ack_seq s)
    (as_state_history s) (as_codec s) (as_current_client_addr s) (as_last_recv_time s)
    (as_last_sync_time s) (as_last_pty_bytes_time s) (as_pty_bytes_acc s) (as_dirty s)
    (as_term_state s) (as_pty s).

Definition AuthoritativeSession_new (session_id : Z) (codec : C) (client_start_seq : Z)
    (initial_client_addr : SocketAddr) (cols rows : Z) (pty_backend : P) (now : Instant)
    : outcome AuthoritativeSession :=
  term_state ← ServerTerminalState_new cols rows;
  on_pty_write (ts_terminal term_state) ;;
  Ok {| as_session_id := session_id; as_seq_num := 0; as_ack_seq_num := client_start_seq;
        as_expected_client_seq := client_start_seq +₆₄ 1; as_out_of_order_packets := ∅;
        as_client_ack_seq := 0; as_last_sent_ack_seq := 0; as_state_history := [];
        as_codec := codec; as_current_client_addr := initial_client_addr;
        as_last_recv_time := now; as_last_sync_time := now; as_last_pty_bytes_time := now;
        as_pty_bytes_acc := 0; as_dirty := false; as_term_state := term_state;
        as_pty := pty_backend |}.

(** A call of the pseudo-terminal whose error is logged or ignored. *)
Definition on_pty {A} (m : M P A) : M AuthoritativeSession (option A) := λ self,
  let '(p, r) := m (as_pty self) in (self <| as_pty := p |>, try r).

(** What the terminal sends to its callback is written to the pseudo-terminal. *)
Definition pty_callback (out : list bytes) : M AuthoritativeSession unit :=
  for_each_m out (λ data, on_pty (pty_write data) ;; mret tt).

Definition term_write (data : bytes) : M AuthoritativeSession unit :=
  self ← get;
  let '(t, out) := TermState_write data (as_term_state self) in
  modify (λ self, self <| as_term_state := t |>) ;;
  pty_callback out.

(** [let _ = self.term_state.resize(cols, rows)] *)
Definition term_resize (cols rows : Z) : M AuthoritativeSession unit :=
  self ← get;
  let '((t, out), r) := TermState_resize cols rows (as_term_state self) in
  modify (λ self, self <| as_term_state := t |>) ;;
  pty_callback out ;;
  lift (try r) ;; mret tt.

Definition term_update : M AuthoritativeSession (option GridState) := λ self,
  let '(t, r) := update_and_get_state (as_term_state self) in
  (self <| as_term_state := t |>, try r).

Definition seal (ack : Z) (payload : ServerPayload) : M AuthoritativeSession (list bytes) :=
  modify (λ self, self <| as_seq_num ::= λ n, n +₆₄ 1 |>) ;;
  self ← get;
  lift (seal_server (as_codec self) (as_seq_num self) ack payload).

(** ** [check_sync] *)

(** The front of the history is dropped while the client has moved past it and more than 100
    states are kept. *)
Fixpoint prune_history (client_ack : Z) (history : list (Z * GridState)) : list (Z * GridState) :=
  match history with
  | (seq, _) :: rest =>
    if decide (seq < client_ack ∧ 100 < len history) then prune_history client_ack rest else history
  | [] => []
  end.

Definition find_state (seq : Z) (history : list (Z * GridState)) : option GridState :=
  snd <$> head (filter (λ e, e.1 = seq) history).

Definition push_state (entry : Z * GridState) (history : list (Z * GridState))
    : list (Z * GridState) :=
  let history := history ++ [entry] in
  if decide (200 < len history) then tail history else history.

(** The reference for the next frame: none when the client lags by more than five frames. *)
Definition choose_ref (self : AuthoritativeSession) : Z * option GridState :=
  let lag := saturating_sub (as_seq_num self) (as_client_ack_seq self) in
  let ref_state_opt :=
    if decide (5 < lag) then None
    else find_state (as_client_ack_seq self) (as_state_history self) in
  match ref_state_opt with
  | Some _ => (as_client_ack_seq self, ref_state_opt)
  | None => (0, None)
  end.

Definition min_interval (self : AuthoritativeSession) (now : Instant) : Duration :=
  let time_since_pty := duration_since now (as_last_pty_bytes_time self) in
  if decide (2048 < as_pty_bytes_acc self ∧ time_since_pty < from_millis 50)
  then from_millis 150 else from_millis 16.

(** The frame is queued and logged in the history. *)
Definition queue_frame (latest_grid : GridState) (now : Instant)
    : M AuthoritativeSession (list SessionAction) :=
  modify (λ self, self <| as_last_sent_ack_seq := as_ack_seq_num self |> <| as_dirty := false |>
                       <| as_last_sync_time := now |>
                       <| as_state_history ::= prune_history (as_client_ack_seq self) |>) ;;
  self ← get;
  let '(ref_seq, ref_state) := choose_ref self in
  modify (λ self, self <| as_seq_num ::= λ n, n +₆₄ 1 |>) ;;
  self ← get;
  let seq := as_seq_num self in
  modify (λ self, self <| as_state_history ::= push_state (seq, latest_grid) |>) ;;
  is_echo ← on_pty pty_is_echo_recommended;
  self ← get;
  let job :=
    {| uj_seq := seq; uj_ack_seq := as_ack_seq_num self; uj_ref_seq := ref_seq;
       uj_ref_state := ref_state; uj_current_state := latest_grid; uj_codec := as_codec self;
       uj_is_echo_recommended := default false is_echo |} in
  mret [OffloadDiffJob job (as_current_client_addr self)].

Definition check_sync (now : Instant) : M AuthoritativeSession (list SessionAction) :=
  self ← get;
  let time_since_pty := duration_since now (as_last_pty_bytes_time self) in
  if decide (0 < as_seq_num self ∧
             duration_since now (as_last_sync_time self) < min_interval self now) then mret []
  else
    (if decide (from_millis 50 ≤ time_since_pty)
     then modify (λ self, self <| as_pty_bytes_acc := 0 |>) else mret tt) ;;
    if negb (as_dirty self) && bool_decide (as_ack_seq_num self ≤ as_last_sent_ack_seq self)
    then mret []
    else
      grid ← term_update;
      match grid with
      | None => mret []
      | Some latest_grid =>
        let is_identical :=
          match last (as_state_history self) with
          | Some (_, last_state) => bool_decide (last_state = latest_grid)
          | None => false
          end in
        let ack_updated := bool_decide (as_last_sent_ack_seq self < as_ack_seq_num self) in
        if is_identical && negb ack_updated
        then modify (λ self, self <| as_dirty := false |>) ;; mret []
        else queue_frame latest_grid now
      end.

(** ** [feed_packet] *)

Definition send_all (packets : list bytes) (target : SocketAddr) : list SessionAction :=
  (λ b, SendPacket b target) <$> packets.

(** A packet of session 0: a client that starts or comes back. *)
Definition feed_handshake (wire : EncryptedClientPacket) (src_addr : SocketAddr) (now : Instant)
    : M AuthoritativeSession (list SessionAction) :=
  self ← get;
  let silence := duration_since now (as_last_recv_time self) in
  if decide (0 < as_seq_num self ∧ silence < from_secs 5) then mret []
  else
    modify (λ self, self <| as_current_client_addr := src_addr |> <| as_last_recv_time := now |>
                         <| as_ack_seq_num := ec_seq_num wire |>
                         <| as_expected_client_seq := ec_seq_num wire +₆₄ 1 |>
                         <| as_client_ack_seq := 0 |> <| as_out_of_order_packets := ∅ |>
                         <| as_state_history := [] |> <| as_dirty := true |>) ;;
    packets ← seal (ec_seq_num wire) (ServerPayload.HandshakeAck (as_session_id self));
    let actions := send_all packets src_addr in
    more ← check_sync now;
    mret (actions ++ more).

Definition is_transient (seq_num : Z) (payload : ClientPayload) : bool :=
  negb (Z.land seq_num (Z.shiftl 1 63) =? 0) ||
  match payload with
  | ClientPayload.Ack | ClientPayload.FragmentNack _ _ => true
  | _ => false
  end.

Definition feed_transient (ack_seq_num : Z) (payload : ClientPayload) (now : Instant)
    : M AuthoritativeSession (list SessionAction) :=
  modify (λ self, if decide (as_client_ack_seq self < ack_seq_num)
                  then self <| as_client_ack_seq := ack_seq_num |> else self) ;;
  self ← get;
  let actions :=
    match payload with
    | ClientPayload.FragmentNack frame_seq received_mask =>
      [ResendFragments frame_seq received_mask (as_current_client_addr self)]
    | _ => []
    end in
  more ← check_sync now;
  mret (actions ++ more).

(** Reordering: what becomes processable when a reliable packet arrives, in order. Each round of the
    recovery loop takes a packet out of the buffer, so its size is fuel enough. *)
Fixpoint recover (fuel : nat) (expected : Z) (buffered : gmap Z ClientPayload)
    : list (Z * ClientPayload) * Z * gmap Z ClientPayload :=
  match fuel with
  | O => ([], expected, buffered)
  | S fuel =>
    match BTree.remove expected buffered with
    | (Some payload, buffered) =>
      let '(l, expected', buffered) := recover fuel (expected +₆₄ 1) buffered in
      ((expected, payload) :: l, expected', buffered)
    | (None, buffered) => ([], expected, buffered)
    end
  end.

(** The packets to process, or none for a duplicate or a packet from the future. *)
Definition order_packet (seq_num : Z) (payload : ClientPayload)
    : M AuthoritativeSession (list (Z * ClientPayload)) :=
  self ← get;
  let expected := as_expected_client_seq self in
  if decide (seq_num < expected) then mret []
  else if decide (expected < seq_num) then
    modify (λ self, self <| as_out_of_order_packets ::= <[seq_num := payload]> |>) ;;
    mret []
  else
    let buffered := as_out_of_order_packets self in
    let '(recovered, expected, buffered) := recover (size buffered) (expected +₆₄ 1) buffered in
    modify (λ self, self <| as_expected_client_seq := expected |>
                         <| as_out_of_order_packets := buffered |>) ;;
    mret ((seq_num, payload) :: recovered).

Definition process_payload (payload : ClientPayload)
    : M AuthoritativeSession (list SessionAction) :=
  match payload with
  | ClientPayload.Ack => mret []
  | ClientPayload.Keystrokes keys => on_pty (pty_write keys) ;; mret []
  | ClientPayload.Resize cols rows =>
    on_pty (pty_resize cols rows) ;;
    term_resize cols rows ;;
    modify (λ self, self <| as_dirty := true |>) ;;
    mret []
  | ClientPayload.KeepAlive =>
    self ← get;
    packets ← seal (as_ack_seq_num self) ServerPayload.KeepAlive;
    mret (send_all packets (as_current_client_addr self))
  | ClientPayload.FragmentNack frame_seq received_mask =>
    self ← get;
    mret [ResendFragments frame_seq received_mask (as_current_client_addr self)]
  | ClientPayload.Handshake _ _ _ => lift Panic
  end.

Fixpoint process_all (packets : list (Z * ClientPayload))
    : M AuthoritativeSession (list SessionAction) :=
  match packets with
  | [] => mret []
  | (_, payload) :: packets =>
    actions ← process_payload payload; more ← process_all packets; mret (actions ++ more)
  end.

Definition feed_reliable (seq_num ack_seq_num : Z) (payload : ClientPayload) (now : Instant)
    : M AuthoritativeSession (list SessionAction) :=
  packets ← order_packet seq_num payload;
  if decide (packets = []) then mret []
  else
    modify (λ self, self <| as_ack_seq_num := as_expected_client_seq self -₆₄ 1 |>
                         <| as_client_ack_seq := ack_seq_num |>) ;;
    actions ← process_all packets;
    more ← check_sync now;
    mret (actions ++ more).

Definition feed_packet (packet_bytes : bytes) (src_addr : SocketAddr) (now : Instant)
    : M AuthoritativeSession (list SessionAction) :=
  self ← get;
  opened ← lift (try (open_client (as_codec self) packet_bytes));
  match opened with
  | None => mret []
  | Some (wire, payload, _) =>
    if decide (ec_session_id wire = 0) then feed_handshake wire src_addr now
    else if decide (ec_session_id wire ≠ as_session_id self) then mret []
    else
      modify (λ self, self <| as_last_recv_time := now |> <| as_current_client_addr := src_addr |>) ;;
      if is_transient (ec_seq_num wire) payload
      then feed_transient (ec_ack_seq_num wire) payload now
      else feed_reliable (ec_seq_num wire) (ec_ack_seq_num wire) payload now
  end.

(** ** The other entry points *)

Definition on_pty_bytes (data : bytes) (now : Instant) : M AuthoritativeSession unit :=
  term_write data ;;
  modify (λ self, self <| as_dirty := true |> <| as_last_pty_bytes_time := now |>
                       <| as_pty_bytes_acc ::= λ n, saturating_add64 n (len data) |>).

Definition on_tick (now : Instant) : M AuthoritativeSession (list SessionAction) := check_sync now.

Definition prepare_shutdown : M AuthoritativeSession SessionAction :=
  packets ← seal 0 ServerPayload.Shutdown;
  self ← get;
  mret (SendPacket (default [] (last packets)) (as_current_client_addr self)).
End session.
Arguments UpdateJob C : clear implicits.
Arguments SessionAction C : clear implicits.
Arguments AuthoritativeSession P C T R : clear implicits.
