(* ===== verification/ServerFacts.v ===== *)
(** * Lemmas about the server's session

    What each part of [AuthoritativeSession] changes, when the environment does not panic, and the
    reordering buffer. *)

From S2P Require Import Prelude Utf8 Grid Protocol Crypto Codec TermState Pty ServerSession.

(** ** Jobs *)

(** Equal jobs of one codec compile to the same datagrams, and jobs are equal when they differ in the codec only. *)
Lemma UpdateJob_eq_spec {C} (self other : UpdateJob C) :
  UpdateJob_eq self other = true ↔
  other = {| uj_seq := uj_seq self; uj_ack_seq := uj_ack_seq self; uj_ref_seq := uj_ref_seq self;
             uj_ref_state := uj_ref_state self; uj_current_state := uj_current_state self;
             uj_codec := uj_codec other; uj_is_echo_recommended := uj_is_echo_recommended self |}.
Proof.
  unfold UpdateJob_eq. rewrite !andb_true_iff, !Z.eqb_eq, !bool_decide_eq_true, Bool.eqb_true_iff.
  destruct self, other. cbn. split; [intros [[[[[-> ->] ->] ->] ->] ->]; done|intros [=]; by split_and!].
Qed.
Lemma UpdateJob_eq_run `{PacketCodec C} (self other : UpdateJob C) :
  UpdateJob_eq self other = true → uj_codec self = uj_codec other → UpdateJob_run self = UpdateJob_run other.
Proof. intros Heq%UpdateJob_eq_spec E. rewrite Heq. unfold UpdateJob_run. cbn. by rewrite E. Qed.

(** ** The reordering buffer *)

(** A number below 2^63 on a payload that is not transient itself. *)
Definition reliable_payload (p : ClientPayload) : bool :=
  match p with ClientPayload.Ack | ClientPayload.FragmentNack _ _ => false | _ => true end.
Lemma small_reliable k p : 0 ≤ k < 2 ^ 63 → reliable_payload p = true → is_transient k p = false.
Proof.
  intros Hk Hp. unfold is_transient. apply orb_false_iff. split; [|by destruct p].
  apply negb_false_iff, Z.eqb_eq, Z.bits_inj'. intros n Hn. rewrite Z.land_spec, Z.bits_0, Z.shiftl_1_l, Z.pow2_bits_eqb by lia.
  destruct (Z.eqb_spec 63 n) as [<-|]; [|apply andb_false_r]. rewrite andb_true_r.
  destruct (decide (k = 0)) as [->|Hne]; [done|]. apply Z.bits_above_log2; [lia|]. apply Z.log2_lt_pow2; lia.
Qed.

Lemma recover_spec fuel expected buffered l e' buffered' :
  (size buffered ≤ fuel)%nat → 0 ≤ expected → expected + Z.of_nat fuel < 2 ^ 64 →
  recover fuel expected buffered = (l, e', buffered') →
  expected ≤ e' ≤ expected + Z.of_nat fuel ∧ l.*1 = seqZ expected (e' - expected) ∧
  Forall (λ '(k, p), buffered !! k = Some p) l ∧ buffered' !! e' = None ∧
  (∀ k, buffered' !! k = if decide (expected ≤ k < e') then None else buffered !! k).
Proof.
  revert expected buffered l e' buffered'.
  induction fuel as [|fuel IH]; intros expected buffered l e' buffered' Hs H0 He Hr; simpl in Hr.
  { injection Hr as <- <- <-. assert (buffered = ∅) as -> by (apply map_size_empty_inv; lia).
    rewrite Z.sub_diag. split_and!; try done; try lia. intros k. case_decide; [lia|done]. }
  destruct (buffered !! expected) as [p|] eqn:E.
  2: { injection Hr as <- <- <-. rewrite Z.sub_diag, delete_id by done.
       split_and!; try done; try lia. intros k. case_decide; [lia|done]. }
  rewrite (wrap_small 64) in Hr by (unfold fits; lia).
  destruct (recover fuel (expected + 1) (delete expected buffered)) as [[l1 e1] b1] eqn:E1.
  injection Hr as <- <- <-.
  assert (size (delete expected buffered) ≤ fuel)%nat as Hsz
    by (rewrite map_size_delete, E; simpl; lia).
  destruct (IH (expected + 1) (delete expected buffered) l1 e1 b1) as (Hle & Hl & Hf & Hn & Hk);
    [done|lia|lia|done|].
  split_and!; [lia|lia| | |done|].
  - csimpl. rewrite Hl, (seqZ_cons expected) by lia. f_equal. f_equal; lia.
  - constructor; [done|]. eapply Forall_impl; [exact Hf|]. intros [k q] Hkq.
    apply lookup_delete_Some in Hkq. tauto.
  - intros k. rewrite Hk. destruct (decide (k = expected)) as [->|Hne].
    + rewrite decide_False, decide_True by lia. by rewrite lookup_delete_eq.
    + rewrite lookup_delete_ne by done.
      destruct (decide (expected + 1 ≤ k < e1)); [by rewrite decide_True by lia|].
      by rewrite decide_False by lia.
Qed.

(** ** The abstract machine the session drives

    A pseudo-terminal and an emulator, and the three things that happen to them. *)

Inductive effect : Type :=
  | EKeys (keys : bytes)
  | EResize (cols rows : Z)
  | EOutput (data : bytes).

Definition from_client (e : effect) : bool := match e with EOutput _ => false | _ => true end.

(** What a client payload does to the machine. *)
Definition client_effect (p : ClientPayload) : option effect :=
  match p with
  | ClientPayload.Keystrokes keys => Some (EKeys keys)
  | ClientPayload.Resize cols rows => Some (EResize cols rows)
  | _ => None
  end.

Definition is_handshake (p : ClientPayload) : bool :=
  match p with ClientPayload.Handshake _ _ _ => true | _ => false end.

Section facts.
Context {P C T R : Type} `{PtyBackend P, PacketCodec C, VtLaws T R}.
Abbreviation Session := (AuthoritativeSession P C T R) (only parsing).

Definition write_back (out : list bytes) (p : P) : P := foldl (λ p d, (pty_write d p).1) p out.

Definition apply_effect (w : P * T) (e : effect) : P * T :=
  match e with
  | EKeys keys => ((pty_write keys w.1).1, w.2)
  | EResize cols rows =>
    let '((t, out), _) := vt_resize cols rows w.2 in
    (write_back out (pty_resize cols rows w.1).1, t)
  | EOutput data => let '(t, out) := vt_write data w.2 in (write_back out w.1, t)
  end.

Definition world (s : Session) : P * T := (as_pty s, ts_terminal (as_term_state s)).

(** What the environment is assumed not to do. *)
Record calm : Prop := {
  calm_write d (p : P) : (pty_write d p).2 ≠ Panic;
  calm_resize cols rows (p : P) : (pty_resize cols rows p).2 ≠ Panic;
  calm_echo (p : P) : ∃ b, pty_is_echo_recommended p = (p, Ok b);
  calm_open (c : C) b : open_client c b ≠ Panic;
}.
Context (Hcalm : calm).

Lemma try_not_panic {A} (o : outcome A) : o ≠ Panic → ∃ a, try o = Ok a.
Proof. destruct o; [by eexists..|done]. Qed.

Lemma on_pty_write d (s : Session) :
  ∃ a, runs (on_pty (pty_write d)) s (s <| as_pty := (pty_write d (as_pty s)).1 |>) a.
Proof.
  unfold runs, on_pty. pose proof (calm_write Hcalm d (as_pty s)) as Hp.
  destruct (pty_write d (as_pty s)) as [p r]. destruct (try_not_panic r Hp) as [a ->]. by eexists.
Qed.

Lemma pty_callback_run out (s : Session) :
  runs (pty_callback out) s (s <| as_pty := write_back out (as_pty s) |>) tt.
Proof.
  revert s. induction out as [|d out IH]; intros s; [by destruct s|].
  unfold pty_callback in *. cbn [for_each_m].
  destruct (on_pty_write d s) as [a Ha].
  eapply runs_bind; [eapply runs_bind; [exact Ha|apply runs_ret]|].
  specialize (IH (s <| as_pty := (pty_write d (as_pty s)).1 |>)). exact IH.
Qed.

(** ** What processing a payload changes *)

(** The fields the processing of payloads leaves alone. *)
Record processed (s s' : Session) : Prop := {
  pr_session_id : as_session_id s' = as_session_id s;
  pr_codec : as_codec s' = as_codec s;
  pr_expected : as_expected_client_seq s' = as_expected_client_seq s;
  pr_buffered : as_out_of_order_packets s' = as_out_of_order_packets s;
  pr_ack : as_ack_seq_num s' = as_ack_seq_num s;
  pr_client_ack : as_client_ack_seq s' = as_client_ack_seq s;
  pr_last_sent : as_last_sent_ack_seq s' = as_last_sent_ack_seq s;
  pr_history : as_state_history s' = as_state_history s;
  pr_addr : as_current_client_addr s' = as_current_client_addr s;
  pr_recv : as_last_recv_time s' = as_last_recv_time s;
  pr_sync : as_last_sync_time s' = as_last_sync_time s;
  pr_pty_time : as_last_pty_bytes_time s' = as_last_pty_bytes_time s;
  pr_acc : as_pty_bytes_acc s' = as_pty_bytes_acc s;
}.
#[export] Instance processed_preorder : PreOrder processed.
Proof. split; [by intros ?; split|]. intros ? ? ? [] []. split; congruence. Qed.

(** Sealing an answer other than a frame does not fail. *)
Definition answers (c : C) : Prop :=
  ∀ seq ack p, wf p → match p with ServerPayload.Frame _ => True | _ => is_ok (seal_server c seq ack p) = true end.

Lemma term_resize_run cols rows (s : Session) :
  mirrors (as_term_state s) → u16 cols → u16 rows →
  ∃ ts, mirrors ts ∧
    (write_back (vt_resize cols rows (ts_terminal (as_term_state s))).1.2 (as_pty s), ts_terminal ts) =
      (let '((t, out), _) := vt_resize cols rows (ts_terminal (as_term_state s)) in
       (write_back out (as_pty s), t)) ∧
    runs (term_resize cols rows) s
      (s <| as_term_state := ts |>
         <| as_pty := write_back (vt_resize cols rows (ts_terminal (as_term_state s))).1.2 (as_pty s) |>)
      tt.
Proof.
  intros Hm Hc Hr. destruct (mirrors_resize cols rows (as_term_state s) Hc Hr Hm) as [Hm' Hnp].
  unfold TermState_resize in *.
  destruct (vt_resize cols rows (ts_terminal (as_term_state s))) as [[t out] rt] eqn:Ev. cbn.
  assert (∃ ts r, TermState_resize cols rows (as_term_state s) = ((ts, out), r) ∧
    ts_terminal ts = t ∧ mirrors ts ∧ r ≠ Panic) as (ts & r & Et & Ht & Hmt & Hnr).
  { unfold TermState_resize. rewrite Ev. destruct rt as [[]|e|]; [..|done];
      eexists _, _; (split; [reflexivity|]); by cbn in *. }
  exists ts. split; [done|]. split; [by rewrite Ht|].
  unfold term_resize. mstep. rewrite Et. mstep.
  eapply runs_bind; [apply pty_callback_run|]. destruct (try_not_panic r Hnr) as [a Ha].
  eapply runs_bind; [by apply runs_lift|]. apply runs_ret.
Qed.

(** What a payload is answered with. *)
Definition answered (p : ClientPayload) (s s' : Session) (acts : list (SessionAction C)) : Prop :=
  match p with
  | ClientPayload.KeepAlive => as_seq_num s' = as_seq_num s +₆₄ 1 ∧
      ∃ bss, seal_server (as_codec s) (as_seq_num s +₆₄ 1) (as_ack_seq_num s) ServerPayload.KeepAlive = Ok bss ∧
             acts = send_all bss (as_current_client_addr s)
  | ClientPayload.FragmentNack frame_seq mask => as_seq_num s' = as_seq_num s ∧
      acts = [ResendFragments frame_seq mask (as_current_client_addr s)]
  | _ => as_seq_num s' = as_seq_num s ∧ acts = []
  end.

Lemma process_payload_run p (s : Session) :
  mirrors (as_term_state s) → answers (as_codec s) → wf p → is_handshake p = false →
  ∃ s' acts, runs (process_payload p) s s' acts ∧ processed s s' ∧ mirrors (as_term_state s') ∧
    world s' = foldl apply_effect (world s) (option_list (client_effect p)) ∧
    answered p s s' acts.
Proof.
  intros Hm Hans Hw Hh. destruct p as [|keys|cols rows| | |fs mask]; [done|..].
  - destruct (on_pty_write keys s) as [a Ha]. eexists _, _. split.
    { eapply runs_bind; [exact Ha|apply runs_ret]. }
    split; [by split|]. split; [done|]. split; [done|]. done.
  - destruct Hw as [Hc Hr]. unfold process_payload.
    assert (∃ a, runs (on_pty (pty_resize cols rows)) s
      (s <| as_pty := (pty_resize cols rows (as_pty s)).1 |>) a) as [a Ha].
    { unfold runs, on_pty. pose proof (calm_resize Hcalm cols rows (as_pty s)) as Hpr.
      destruct (pty_resize cols rows (as_pty s)) as [p rp].
      destruct (try_not_panic rp Hpr) as [a ->]. by eexists. }
    set (s1 := s <| as_pty := (pty_resize cols rows (as_pty s)).1 |>) in *.
    destruct (term_resize_run cols rows s1 Hm Hc Hr) as (ts & Hmt & Hworld & Hrun).
    eexists _, _. split.
    { eapply runs_bind; [exact Ha|]. eapply runs_bind; [exact Hrun|]. mstep. apply runs_ret. }
    split; [by split|]. split; [done|]. split; [|done]. exact Hworld.
  - unfold process_payload, seal.
    specialize (Hans (as_seq_num s +₆₄ 1) (as_ack_seq_num s) ServerPayload.KeepAlive I). cbn in Hans.
    destruct (seal_server (as_codec s) (as_seq_num s +₆₄ 1) (as_ack_seq_num s) ServerPayload.KeepAlive)
      as [bss| |] eqn:E; [|done..].
    eexists _, _. split.
    { mstep. eapply runs_bind; [mstep; mstep; apply runs_lift, E|]. apply runs_ret. }
    split; [by split|]. split; [done|]. split; [done|]. split; [done|]. by exists bss.
  - exists s, []. split; [apply runs_ret|]. split; [done|]. split; [done|]. split; [done|]. done.
  - eexists s, _. split; [mstep; apply runs_ret|]. split; [done|]. split; [done|].
    split; [done|]. done.
Qed.

(** Every payload in turn, each applied once. *)
Lemma process_all_run l (s : Session) :
  mirrors (as_term_state s) → answers (as_codec s) →
  Forall (λ p, wf p ∧ is_handshake p = false) l.*2 →
  ∃ s' acts, runs (process_all l) s s' acts ∧ processed s s' ∧ mirrors (as_term_state s') ∧
    world s' = foldl apply_effect (world s) (omap client_effect l.*2) ∧
    (as_seq_num s + len l < 2 ^ 64 → 0 ≤ as_seq_num s →
     as_seq_num s ≤ as_seq_num s' ≤ as_seq_num s + len l).
Proof.
  revert s. induction l as [|[k p] l IH]; intros s Hm Hans Hl.
  { exists s, []. split; [apply runs_ret|]. split; [done|]. split; [done|]. split; [done|].
    unfold len. simpl. lia. }
  apply Forall_cons in Hl as [[Hw Hh] Hl].
  destruct (process_payload_run p s Hm Hans Hw Hh) as (s1 & a1 & E1 & P1 & M1 & W1 & N1).
  destruct (IH s1 M1) as (s2 & a2 & E2 & P2 & M2 & W2 & N2);
    [by rewrite (pr_codec _ _ P1)|done|].
  exists s2, (a1 ++ a2). split.
  { cbn [process_all]. eapply runs_bind; [exact E1|]. eapply runs_bind; [exact E2|]. apply runs_ret. }
  split; [by etransitivity|]. split; [done|]. split.
  - rewrite W2, W1. csimpl. by destruct (client_effect p).
  - unfold len in *. simpl. intros Hroom Hpos.
    assert (as_seq_num s1 = as_seq_num s ∨ as_seq_num s1 = as_seq_num s +₆₄ 1) as [N|N]
      by (destruct p; destruct N1; auto); clear N1; rename N into N1.
    + rewrite N1 in *. specialize (N2 ltac:(lia) ltac:(lia)). lia.
    + rewrite (wrap_small 64) in N1 by (unfold fits; lia). rewrite N1 in *.
      specialize (N2 ltac:(lia) ltac:(lia)). lia.
Qed.

(** ** What [check_sync] does *)

(** The minimal interval since the last frame has not passed. *)
Definition throttled (s : Session) (now : Instant) : Prop :=
  0 < as_seq_num s ∧ duration_since now (as_last_sync_time s) < min_interval s now.

(** Something to tell the client: the screen may have changed, or its packets are unacknowledged. *)
Definition due (s : Session) : Prop :=
  as_dirty s = true ∨ as_last_sent_ack_seq s < as_ack_seq_num s.

(** The fields [check_sync] leaves alone. *)
Record synced (s s' : Session) : Prop := {
  sy_session_id : as_session_id s' = as_session_id s;
  sy_codec : as_codec s' = as_codec s;
  sy_expected : as_expected_client_seq s' = as_expected_client_seq s;
  sy_buffered : as_out_of_order_packets s' = as_out_of_order_packets s;
  sy_ack : as_ack_seq_num s' = as_ack_seq_num s;
  sy_client_ack : as_client_ack_seq s' = as_client_ack_seq s;
  sy_addr : as_current_client_addr s' = as_current_client_addr s;
  sy_recv : as_last_recv_time s' = as_last_recv_time s;
  sy_pty_time : as_last_pty_bytes_time s' = as_last_pty_bytes_time s;
  sy_world : world s' = world s;
}.

(** Nothing is sent: nothing the frames depend on changes. *)
Record quiet (s s' : Session) : Prop := {
  qu_seq : as_seq_num s' = as_seq_num s;
  qu_history : as_state_history s' = as_state_history s;
  qu_sync : as_last_sync_time s' = as_last_sync_time s;
  qu_sent : as_last_sent_ack_seq s' = as_last_sent_ack_seq s;
}.

(** A frame of the grid [g] is queued as [job]. *)
Record queued (s s' : Session) (now : Instant) (g : GridState) (job : UpdateJob C) : Prop := {
  qd_grid : ts_grid_state (as_term_state s') = g;
  qd_wf : grid_wf g;
  qd_seq : as_seq_num s' = as_seq_num s +₆₄ 1;
  qd_job_seq : uj_seq job = as_seq_num s +₆₄ 1;
  qd_job_ack : uj_ack_seq job = as_ack_seq_num s;
  qd_job_state : uj_current_state job = g;
  qd_job_codec : uj_codec job = as_codec s;
  qd_ref : (uj_ref_seq job = 0 ∧ uj_ref_state job = None) ∨
    ∃ r, uj_ref_seq job = as_client_ack_seq s ∧ uj_ref_state job = Some r ∧
      (as_client_ack_seq s, r) ∈ as_state_history s ∧
      as_seq_num s - as_client_ack_seq s ≤ 5;
  qd_history : ∃ k, as_state_history s' = drop k (as_state_history s) ++ [(as_seq_num s +₆₄ 1, g)];
  qd_bound : len (as_state_history s) ≤ 200 → len (as_state_history s') ≤ 200;
  qd_sync : as_last_sync_time s' = now;
  qd_sent : as_last_sent_ack_seq s' = as_ack_seq_num s;
  qd_dirty : as_dirty s' = false;
}.

Lemma prune_history_drop ack h : ∃ k, prune_history ack h = drop k h ∧ (len h ≤ 200 → len (drop k h) ≤ 200).
Proof.
  induction h as [|[k g] h (j & IH & IHl)]; [by exists 0%nat|]. cbn [prune_history].
  case_decide as Hd.
  - exists (S j). cbn. split; [done|]. unfold len in *. simpl. lia.
  - exists 0%nat. done.
Qed.

Lemma find_state_elem seq h g : find_state seq h = Some g → (seq, g) ∈ h.
Proof.
  unfold find_state. intros Hf. apply fmap_Some in Hf as ([k g'] & Hh & ->).
  apply head_Some_elem_of in Hh. apply list_elem_of_filter in Hh as [<- Hin]. done.
Qed.

Lemma push_state_drop e h : ∃ k, push_state e h = drop k h ++ [e] ∧
  (len h ≤ 200 → len (push_state e h) ≤ 200).
Proof.
  unfold push_state. cbv zeta. case_decide as Hd.
  - unfold len in *. rewrite length_app in Hd. simpl in Hd. destruct h as [|e0 h]; simpl in *; [lia|].
    exists 1%nat. split; [done|]. rewrite length_app. simpl. lia.
  - exists 0%nat. split; [done|]. lia.
Qed.

Lemma queue_frame_run g now (s : Session) :
  grid_wf g → ts_grid_state (as_term_state s) = g →
  ∃ s' job, runs (queue_frame g now) s s' [OffloadDiffJob job (as_current_client_addr s)] ∧
    synced s s' ∧ as_term_state s' = as_term_state s ∧ queued s s' now g job.
Proof.
  intros Hg Hts. unfold queue_frame.
  destruct (prune_history_drop (as_client_ack_seq s) (as_state_history s)) as (k & Hk & Hkl).
  set (s1 := s <| as_last_sent_ack_seq := as_ack_seq_num s |> <| as_dirty := false |>
               <| as_last_sync_time := now |>
               <| as_state_history ::= prune_history (as_client_ack_seq s) |>).
  destruct (choose_ref s1) as [ref_seq ref_state] eqn:Er.
  destruct (push_state_drop (as_seq_num s +₆₄ 1, g) (as_state_history s1)) as (j & Hj & Hjl).
  cbn [s1 as_state_history upd] in Hj, Hjl. rewrite Hk in Hj, Hjl.
  destruct (calm_echo Hcalm (as_pty s)) as [b Hb].
  eexists _, _. split.
  { mstep. mstep. fold s1. rewrite Er. mstep. mstep. mstep.
    eapply runs_bind; [unfold runs, on_pty; cbn; rewrite Hb; reflexivity|]. mstep. apply runs_ret. }
  split; [by split|]. split; [done|].
  assert ((ref_seq = 0 ∧ ref_state = None) ∨ ∃ r, ref_seq = as_client_ack_seq s ∧ ref_state = Some r ∧
      (as_client_ack_seq s, r) ∈ as_state_history s ∧ as_seq_num s - as_client_ack_seq s ≤ 5) as Href.
  { unfold choose_ref in Er. cbv zeta in Er. case_decide as Hlag.
    { injection Er as <- <-. by left. }
    destruct (find_state (as_client_ack_seq s1) (as_state_history s1)) as [r|] eqn:Ef;
      injection Er as <- <-; [right|by left].
    exists r. split; [done|]. split; [done|]. split.
    - apply find_state_elem in Ef. cbn in Ef. rewrite Hk in Ef.
      by apply (subseteq_drop k).
    - unfold saturating_sub in Hlag. cbn in Hlag. lia. }
  split; try done; cbn.
  - rewrite Hk, Hj, drop_drop. by eexists.
  - intros Hl. rewrite Hk. by apply Hjl, Hkl.
Qed.

Lemma queued_from (s s2 s' : Session) now g job :
  as_seq_num s2 = as_seq_num s → as_ack_seq_num s2 = as_ack_seq_num s →
  as_client_ack_seq s2 = as_client_ack_seq s → as_codec s2 = as_codec s →
  as_state_history s2 = as_state_history s → queued s2 s' now g job → queued s s' now g job.
Proof.
  intros E1 E2 E3 E4 E5 []. rewrite ?E1, ?E2, ?E3, ?E4, ?E5 in *. by split.
Qed.

(** The session once a pause in the program's output has emptied the count of its bytes. *)
Definition rested now (s : Session) : Session :=
  if decide (from_millis 50 ≤ duration_since now (as_last_pty_bytes_time s))
  then s <| as_pty_bytes_acc := 0 |> else s.

Lemma rested_same now (s : Session) :
  synced s (rested now s) ∧ quiet s (rested now s) ∧ as_term_state (rested now s) = as_term_state s.
Proof. unfold rested. case_decide; by split_and!. Qed.

Lemma rest_run now (s : Session) {A} (f : M Session A) s' a :
  runs f (rested now s) s' a →
  runs ((if decide (from_millis 50 ≤ duration_since now (as_last_pty_bytes_time s))
         then modify (λ self, self <| as_pty_bytes_acc := 0 |>) else mret tt) ;; f) s s' a.
Proof. unfold rested. intros Hf. case_decide; eapply runs_bind; try exact Hf; done. Qed.

Lemma check_sync_undue now (s : Session) :
  ¬ throttled s now → ¬ due s → runs (check_sync now) s (rested now s) [].
Proof.
  intros Ht Hd. unfold check_sync. mstep. rewrite decide_False by done. apply rest_run.
  rewrite (bool_decide_true (as_ack_seq_num s ≤ as_last_sent_ack_seq s)).
  - destruct (as_dirty s) eqn:E; [|apply runs_ret]. exfalso. apply Hd. by left.
  - apply Z.nlt_ge. intros Hlt. apply Hd. by right.
Qed.

(** A screen is not sent again when nothing has changed and no acknowledgement is owed. *)
Lemma nothing_new (s : Session) g :
  match last (as_state_history s) with
  | Some (_, last_state) => bool_decide (last_state = g) | None => false end
  && negb (bool_decide (as_last_sent_ack_seq s < as_ack_seq_num s)) = true ↔
  ¬ as_last_sent_ack_seq s < as_ack_seq_num s ∧ snd <$> last (as_state_history s) = Some g.
Proof.
  rewrite andb_true_iff, negb_true_iff, bool_decide_eq_false.
  destruct (last (as_state_history s)) as [[k g']|]; cbn; [|naive_solver].
  rewrite bool_decide_eq_true. naive_solver.
Qed.

(** A session that is due compares its screen with the last one queued. *)
Lemma check_sync_due now (s : Session) ts g s' a :
  ¬ throttled s now → due s → update_and_get_state (as_term_state s) = (ts, Ok g) →
  runs (if match last (as_state_history s) with
           | Some (_, last_state) => bool_decide (last_state = g) | None => false end
           && negb (bool_decide (as_last_sent_ack_seq s < as_ack_seq_num s))
        then modify (λ self, self <| as_dirty := false |>) ;; mret []
        else queue_frame g now) ((rested now s) <| as_term_state := ts |>) s' a →
  runs (check_sync now) s s' a.
Proof.
  intros Ht Hd Hu Hf. unfold check_sync. mstep. rewrite decide_False by done. apply rest_run.
  assert (negb (as_dirty s) && bool_decide (as_ack_seq_num s ≤ as_last_sent_ack_seq s) = false) as ->.
  { destruct Hd as [->|Hlt]; [done|]. rewrite bool_decide_false; [apply andb_false_r|lia]. }
  destruct (rested_same now s) as (_ & _ & Et).
  eapply runs_bind; [unfold runs, term_update; rewrite Et, Hu; reflexivity|]. exact Hf.
Qed.

Lemma check_sync_run now (s : Session) :
  mirrors (as_term_state s) →
  ∃ s' acts, runs (check_sync now) s s' acts ∧ synced s s' ∧ mirrors (as_term_state s') ∧
    ((acts = [] ∧ quiet s s' ∧
      (throttled s now ∨ ¬ due s ∨
       (¬ as_last_sent_ack_seq s < as_ack_seq_num s ∧
        snd <$> last (as_state_history s) = Some (ts_grid_state (as_term_state s'))))) ∨
     (¬ throttled s now ∧ due s ∧
      ∃ g job, acts = [OffloadDiffJob job (as_current_client_addr s)] ∧ queued s s' now g job ∧
        (as_last_sent_ack_seq s < as_ack_seq_num s ∨
         snd <$> last (as_state_history s) ≠ Some g))).
Proof.
  intros Hm. destruct (decide (throttled s now)) as [Ht|Ht].
  { exists s, []. split.
    { unfold check_sync. mstep. rewrite decide_True by done. apply runs_ret. }
    split; [by split|]. split; [done|]. left. split; [done|]. split; [by split|]. by left. }
  destruct (rested_same now s) as (Y1 & Q1 & T1).
  destruct (decide (due s)) as [Hd|Hd].
  2: { exists (rested now s), []. split; [by apply check_sync_undue|]. split; [done|]. rewrite T1.
       split; [done|]. left. split; [done|]. split; [done|]. right. by left. }
  destruct (mirrors_update (as_term_state s)) as (ts & g & Hu & Hmt & Hts & Htt & Hg); [done|].
  pose proof (λ s' a, check_sync_due now s ts g s' a Ht Hd Hu) as Hgo.
  set (s2 := (rested now s) <| as_term_state := ts |>) in *.
  assert (synced s s2 ∧ quiet s s2) as [Y2 Q2].
  { destruct Y1, Q1. split; split; cbn; try congruence. unfold world in *. cbn. congruence. }
  destruct (_ && _) eqn:E in Hgo.
  - apply nothing_new in E as [Hack Hsame]. eexists _, []. split; [apply Hgo; mstep; apply runs_ret|].
    split; [destruct Y2; by split|]. split; [done|]. left. split; [done|].
    split; [destruct Q2; by split|]. right; right. split; [done|]. rewrite Hsame. cbn. by rewrite Hts.
  - destruct (queue_frame_run g now s2 Hg Hts) as (s3 & job & Er & Y3 & T3 & Q3).
    exists s3, [OffloadDiffJob job (as_current_client_addr s)]. split.
    { apply Hgo. destruct Y2. by rewrite sy_addr0 in Er. }
    split; [destruct Y2, Y3; split; congruence|]. split; [by rewrite T3|]. right.
    split; [done|]. split; [done|]. exists g, job. split; [done|]. split.
    + destruct Y2, Q2. by apply (queued_from s s2).
    + destruct (decide (as_last_sent_ack_seq s < as_ack_seq_num s)) as [|Hack]; [by left|]. right. intros Hsame.
      apply not_true_iff_false in E. by apply E, nothing_new.
Qed.
End facts.

(** ** The client's stream, in order *)

Lemma size_within {A} (m : gmap Z A) lo hi :
  lo ≤ hi → (∀ k, is_Some (m !! k) → lo ≤ k < hi) → Z.of_nat (size m) ≤ hi - lo.
Proof.
  intros Hle Hm. rewrite <-size_dom.
  assert (dom m ⊆ (list_to_set (seqZ lo (hi - lo)) : gset Z)) as Hsub.
  { intros k Hk. apply elem_of_dom in Hk. apply elem_of_list_to_set, elem_of_seqZ.
    specialize (Hm k Hk). lia. }
  apply subseteq_size in Hsub. rewrite size_list_to_set in Hsub by apply NoDup_seqZ.
  rewrite length_seqZ in Hsub. lia.
Qed.

Section stream.
Context {P C T R : Type} `{PtyBackend P, PacketCodec C, VtLaws T R}.
Abbreviation Session := (AuthoritativeSession P C T R) (only parsing).
Context (h : Z) (stream : Z → ClientPayload).

(** [fed] is the set of reliable packets received, [h] the last sequence number before the stream:
    the packets up to the first one missing have been taken, the ones after it wait. *)
Record in_order (fed : gset Z) (s : Session) : Prop := {
  io_start : 0 ≤ h < 2 ^ 63;
  io_low : h < as_expected_client_seq s;
  io_done k : h < k < as_expected_client_seq s → k ∈ fed;
  io_next : as_expected_client_seq s ∉ fed;
  io_waiting k p : as_out_of_order_packets s !! k = Some p ↔
    k ∈ fed ∧ as_expected_client_seq s < k ∧ p = stream k;
  io_range k : k ∈ fed → 0 ≤ k < 2 ^ 63;
}.

Lemma in_order_bound fed s : in_order fed s → as_expected_client_seq s ≤ 2 ^ 63.
Proof.
  intros [[Hh0 Hh] Hlow Hdone _ _ Hr]. destruct (decide (as_expected_client_seq s = h + 1)); [lia|].
  specialize (Hr (as_expected_client_seq s - 1)). specialize (Hdone (as_expected_client_seq s - 1)).
  assert (as_expected_client_seq s - 1 ∈ fed) as Hin by (apply Hdone; lia). specialize (Hr Hin). lia.
Qed.

(** The numbered payloads from [a] up to, but not including, [b]. *)
Definition segment (a b : Z) : list (Z * ClientPayload) := (λ k, (k, stream k)) <$> seqZ a (b - a).

Lemma segment_app a b c : a ≤ b ≤ c → segment a c = segment a b ++ segment b c.
Proof.
  intros Hle. unfold segment. rewrite <-fmap_app. f_equal.
  replace (c - a) with ((b - a) + (c - b)) by lia. rewrite seqZ_app by lia. do 2 f_equal. lia.
Qed.

(** What taking the packet numbered [k] may do: hand on the run of the stream that is now complete,
    and stay in order with [k] counted as received. *)
Definition takes fed k (s : Session) : Prop :=
  ∃ e' b', let s' := s <| as_expected_client_seq := e' |> <| as_out_of_order_packets := b' |> in
    runs (order_packet k (stream k)) s s' (segment (as_expected_client_seq s) e') ∧
    as_expected_client_seq s ≤ e' ∧ in_order ({[k]} ∪ fed) s'.

Lemma take_range fed k (s : Session) j :
  in_order fed s → 0 ≤ k < 2 ^ 63 → j ∈ {[k]} ∪ fed → 0 ≤ j < 2 ^ 63.
Proof. intros Hio Hk. rewrite elem_of_union, elem_of_singleton. intros [->|Hj]; [done|by eapply io_range]. Qed.

(** A packet already taken is dropped. *)
Lemma take_old fed k (s : Session) :
  in_order fed s → 0 ≤ k < 2 ^ 63 → k < as_expected_client_seq s → takes fed k s.
Proof.
  intros Hio Hk Hlt. pose proof (take_range fed k s) as Hrange. pose proof Hio as [Hst Hlow Hdone Hnext Hwait _].
  exists (as_expected_client_seq s), (as_out_of_order_packets s). split; [|split; [lia|]].
  - unfold order_packet, segment. rewrite Z.sub_diag. mstep. rewrite decide_True by done.
    unfold runs, mret, M_ret. by destruct s.
  - split; cbn; try done.
    + intros j Hj. apply elem_of_union_r. by apply Hdone.
    + intros [Hin|Hin]%elem_of_union; [apply elem_of_singleton in Hin; lia|done].
    + intros j p. rewrite Hwait, elem_of_union, elem_of_singleton. naive_solver lia.
    + eauto.
Qed.

(** A packet that is early waits for the ones before it. *)
Lemma take_early fed k (s : Session) :
  in_order fed s → 0 ≤ k < 2 ^ 63 → as_expected_client_seq s < k → takes fed k s.
Proof.
  intros Hio Hk Hgt. pose proof (take_range fed k s) as Hrange. pose proof Hio as [Hst Hlow Hdone Hnext Hwait _].
  exists (as_expected_client_seq s), (<[k := stream k]> (as_out_of_order_packets s)). split; [|split; [lia|]].
  - unfold order_packet, segment. rewrite Z.sub_diag. mstep. rewrite decide_False, decide_True by lia.
    mstep. unfold runs, mret, M_ret. by destruct s.
  - split; cbn; try done.
    + intros j Hj. apply elem_of_union_r. by apply Hdone.
    + intros [Hin|Hin]%elem_of_union; [apply elem_of_singleton in Hin; lia|done].
    + intros j p. rewrite lookup_insert, elem_of_union, elem_of_singleton.
      destruct (decide (k = j)) as [->|Hne]; [naive_solver|]. rewrite Hwait. naive_solver.
    + eauto.
Qed.

(** Waiting packets carry the stream's own payloads. *)
Lemma waiting_payloads fed (s : Session) l :
  in_order fed s → Forall (λ '(k, p), as_out_of_order_packets s !! k = Some p) l →
  l = (λ k, (k, stream k)) <$> l.*1.
Proof.
  intros Hio. induction 1 as [|[j p] l Hp Hf IH]; [done|]. cbn. f_equal; [|exact IH].
  by apply (io_waiting _ _ Hio) in Hp as (_ & _ & ->).
Qed.

(** The packets waiting fit below the bound on sequence numbers. *)
Lemma waiting_size fed (s : Session) :
  in_order fed s → Z.of_nat (size (as_out_of_order_packets s)) ≤ 2 ^ 63 - as_expected_client_seq s.
Proof.
  intros Hio. apply size_within; [by eapply in_order_bound|].
  intros j [p (Hj & Hej & _)%(io_waiting _ _ Hio)]. apply (io_range _ _ Hio) in Hj. lia.
Qed.

(** Taking the next packet with the run [e + 1 .. e'] that was waiting for it keeps the order. *)
Lemma in_order_advance fed (s : Session) e' b' :
  let e := as_expected_client_seq s in
  in_order fed s → 0 ≤ e < 2 ^ 63 → e + 1 ≤ e' →
  (∀ j, e < j < e' → is_Some (as_out_of_order_packets s !! j)) →
  b' !! e' = None →
  (∀ j, b' !! j = if decide (e + 1 ≤ j < e') then None else as_out_of_order_packets s !! j) →
  in_order ({[e]} ∪ fed) (s <| as_expected_client_seq := e' |> <| as_out_of_order_packets := b' |>).
Proof.
  intros e Hio He He' Hrun Hn Hb'. pose proof (take_range fed e s) as Hrange.
  pose proof Hio as [Hst Hlow Hdone Hnext Hwait _]. fold e in Hlow, Hdone, Hnext, Hwait.
  assert (e' ∉ fed) as Hmiss.
  { intros Hin. assert (as_out_of_order_packets s !! e' = Some (stream e')) as Hs
      by (apply Hwait; split_and!; [done|lia|done]).
    rewrite Hb', decide_False in Hn by lia. congruence. }
  split; cbn; [done|lia|..].
  - intros j Hj. rewrite elem_of_union, elem_of_singleton.
    destruct (decide (j = e)) as [->|]; [by left|]. right.
    destruct (decide (j < e)); [apply Hdone; lia|].
    destruct (Hrun j) as [p (? & _)%Hwait]; [lia|done].
  - intros [Hin|Hin]%elem_of_union; [apply elem_of_singleton in Hin; lia|done].
  - intros j p. rewrite Hb', elem_of_union, elem_of_singleton. case_decide.
    + split; [done|]. intros (_ & ? & _). lia.
    + rewrite Hwait. split; [intros (? & ? & ?); split_and!; [by right| |done]|].
      * destruct (decide (j = e')) as [->|]; [done|lia].
      * intros ([?|?] & ? & ?); split_and!; [lia|lia|done|done|lia|done].
  - eauto.
Qed.

(** The packet expected is handed on, with the ones that waited for it. *)
Lemma take_next fed (s : Session) :
  in_order fed s → 0 ≤ as_expected_client_seq s < 2 ^ 63 → takes fed (as_expected_client_seq s) s.
Proof.
  intros Hio Hk. pose proof (waiting_size fed s Hio) as Hsz. unfold takes, order_packet.
  set (e := as_expected_client_seq s) in *. set (b := as_out_of_order_packets s) in *.
  destruct (recover (size b) (e + 1) b) as [[l e'] b'] eqn:Er.
  destruct (recover_spec (size b) (e + 1) b l e' b') as (He' & Hl & Hf & Hn & Hb'); [done|lia|lia|done|].
  exists e', b'. split; [|split; [lia|]].
  - mstep. rewrite !decide_False by lia. fold e b. rewrite (wrap_small 64) by (unfold fits; lia).
    rewrite Er. mstep.
    assert ((e, stream e) :: l = segment e e') as ->; [|apply runs_ret].
    rewrite (segment_app e (e + 1) e') by lia. unfold segment at 1.
    replace (e + 1 - e) with 1 by lia. cbn. f_equal. unfold segment. rewrite <-Hl.
    by eapply waiting_payloads.
  - apply in_order_advance; try (done || lia). intros j Hj. assert (j ∈ l.*1) as Hjl by (rewrite Hl; apply elem_of_seqZ; lia).
    apply list_elem_of_fmap in Hjl as ([j' p] & -> & Hin). rewrite Forall_forall in Hf.
    exists p. exact (Hf _ Hin).
Qed.

Lemma order_packet_run fed k (s : Session) :
  in_order fed s → 0 ≤ k < 2 ^ 63 →
  ∃ e' b', let s' := s <| as_expected_client_seq := e' |> <| as_out_of_order_packets := b' |> in
    runs (order_packet k (stream k)) s s' (segment (as_expected_client_seq s) e') ∧
    as_expected_client_seq s ≤ e' ∧ in_order ({[k]} ∪ fed) s'.
Proof.
  intros Hio Hk. destruct (Ztrichotomy k (as_expected_client_seq s)) as [Hlt|[->|Hgt]].
  - by apply take_old.
  - by apply take_next.
  - apply take_early; [done..|lia].
Qed.
End stream.
