(* ===== verification/ServerProps.v ===== *)
(** * What the server's session guarantees

    The events of a session and their runs; the theorems on the reliable stream, on transient and
    duplicate packets, on the scheduling of frames and on reconnection. *)

From S2P Require Import Prelude Utf8 Grid Protocol Crypto Codec CodecFacts WireFormat CodecProps.
From S2P Require Import TermState Pty ServerSession ServerFacts.

(** ** Events *)

Inductive event : Type :=
  | Datagram (b : bytes) (src : SocketAddr) (now : Instant)
  | PtyData (data : bytes) (now : Instant)
  | Tick (now : Instant).

Section events.
Context {P C T R : Type} `{PtyBackend P, PacketCodec C, Vt T R}.
Abbreviation Session := (AuthoritativeSession P C T R) (only parsing).

Definition handle (e : event) : M Session (list (SessionAction C)) :=
  match e with
  | Datagram b src now => feed_packet b src now
  | PtyData data now => on_pty_bytes data now ;; mret []
  | Tick now => on_tick now
  end.

Fixpoint handle_all (es : list event) : M Session (list (SessionAction C)) :=
  match es with
  | [] => mret []
  | e :: es => a ← handle e; more ← handle_all es; mret (a ++ more)
  end.

(** The reliable packet a datagram carries. *)
Definition reliable (c : C) (e : event) : option Z :=
  match e with
  | Datagram b _ _ =>
    match open_client c b with
    | Ok (wire, payload, _) =>
      if is_transient (ec_seq_num wire) payload then None else Some (ec_seq_num wire)
    | _ => None
    end
  | _ => None
  end.

(** A datagram is rejected by the codec, or is a packet of session [sid] whose reliable payload is
    the one the client put in its stream under that sequence number. *)
Definition genuine_event (c : C) (sid : Z) (stream : Z → ClientPayload) (e : event) : Prop :=
  match e with
  | Datagram b _ _ =>
    match open_client c b with
    | Ok (wire, payload, _) =>
      ec_session_id wire = sid ∧ sid ≠ 0 ∧ u64 (ec_seq_num wire) ∧
      (is_transient (ec_seq_num wire) payload = false → payload = stream (ec_seq_num wire))
    | Err _ => True
    | Panic => False
    end
  | _ => True
  end.

Definition output_of (e : event) : option bytes :=
  match e with PtyData data _ => Some data | _ => None end.
Definition shell_output (e : effect) : option bytes :=
  match e with EOutput data => Some data | _ => None end.
End events.

(** A sequence number without the high bit is below 2^63. *)
Lemma transient_high_bit k p : u64 k → is_transient k p = false → 0 ≤ k < 2 ^ 63.
Proof.
  unfold is_transient. intros Hk Ht. apply orb_false_iff in Ht as [Ht _].
  apply negb_false_iff, Z.eqb_eq in Ht. unfold fits in Hk. split; [lia|].
  apply Z.nle_gt. intros Hge.
  assert (Z.testbit (Z.land k (Z.shiftl 1 63)) 63 = true) as Hbit; [|by rewrite Ht in Hbit].
  rewrite Z.land_spec. apply andb_true_iff. split; [|done].
  rewrite Z.testbit_true by lia. Z.to_euclidean_division_equations. lia.
Qed.

Section runs.
Context {P C T R : Type} `{PtyBackend P, PacketCodec C, VtLaws T R}.
Abbreviation Session := (AuthoritativeSession P C T R) (only parsing).
Context (Hcalm : calm (P:=P) (C:=C)).
Context (h : Z) (stream : Z → ClientPayload).
Hypothesis Hstream : ∀ k, wf (stream k) ∧ is_handshake (stream k) = false.

(** What an event establishes. *)
Record progress (s s' : Session) (fed : gset Z) (effs : list effect) : Prop := {
  pg_sid : as_session_id s' = as_session_id s;
  pg_codec : as_codec s' = as_codec s;
  pg_mirrors : mirrors (as_term_state s');
  pg_order : in_order h stream fed s';
  pg_from : as_expected_client_seq s ≤ as_expected_client_seq s';
  pg_world : world s' = foldl apply_effect (world s) effs;
  pg_effects : filter (λ e, from_client e = true) effs =
    omap client_effect (segment stream (as_expected_client_seq s) (as_expected_client_seq s')).*2;
}.

(** [in_order] only looks at the reordering fields. *)
Lemma in_order_same fed (s s' : Session) :
  as_expected_client_seq s' = as_expected_client_seq s →
  as_out_of_order_packets s' = as_out_of_order_packets s →
  in_order h stream fed s → in_order h stream fed s'.
Proof. intros E1 E2 []. split; rewrite ?E1, ?E2; done. Qed.

Lemma progress_idle (s s' : Session) fed :
  as_session_id s' = as_session_id s → as_codec s' = as_codec s → mirrors (as_term_state s') →
  in_order h stream fed s → as_expected_client_seq s' = as_expected_client_seq s →
  as_out_of_order_packets s' = as_out_of_order_packets s → world s' = world s →
  progress s s' fed [].
Proof.
  intros. split; try done; [by eapply in_order_same|lia|].
  replace (as_expected_client_seq s') with (as_expected_client_seq s).
  unfold segment. by rewrite Z.sub_diag.
Qed.

Lemma sync_progress now (s : Session) fed :
  mirrors (as_term_state s) → in_order h stream fed s →
  ∃ s' acts, runs (check_sync now) s s' acts ∧ progress s s' fed [].
Proof.
  intros Hm Hio. destruct (check_sync_run Hcalm now s Hm) as (s' & acts & E & [] & Hm' & _).
  exists s', acts. split; [done|]. by apply progress_idle.
Qed.

Lemma progress_trans (s s1 s2 : Session) fed1 fed2 effs1 effs2 :
  progress s s1 fed1 effs1 → progress s1 s2 fed2 effs2 → progress s s2 fed2 (effs1 ++ effs2).
Proof.
  intros [] []. split; try congruence; try done; [lia|rewrite foldl_app; congruence|].
  rewrite filter_app, pg_effects0, pg_effects1, <-omap_app, <-fmap_app. do 2 f_equal.
  symmetry. by apply segment_app.
Qed.

Lemma segment_wf a b :
  Forall (λ p, wf p ∧ is_handshake p = false) (segment stream a b).*2.
Proof.
  unfold segment. rewrite <-list_fmap_compose. apply Forall_fmap, Forall_forall.
  intros k _. apply Hstream.
Qed.

(** Every effect of a client's payload comes from the client. *)
Lemma client_effects_filter (ps : list ClientPayload) :
  filter (λ e, from_client e = true) (omap client_effect ps) = omap client_effect ps.
Proof.
  induction ps as [|p ps IH]; [done|]. csimpl. destruct (client_effect p) as [e|] eqn:E; [|done].
  rewrite filter_cons, decide_True; [by f_equal|]. by destruct p; simplify_eq/=.
Qed.

Lemma feed_reliable_progress k ack now (s : Session) fed :
  mirrors (as_term_state s) → answers (as_codec s) → in_order h stream fed s → 0 ≤ k < 2 ^ 63 →
  ∃ s' acts effs, runs (feed_reliable k ack (stream k) now) s s' acts ∧
    progress s s' ({[k]} ∪ fed) effs ∧ omap shell_output effs = [].
Proof.
  intros Hm Hans Hio Hk. unfold feed_reliable.
  destruct (order_packet_run h stream fed k s Hio Hk) as (e' & b' & E & Hle & Hio').
  set (s1 := s <| as_expected_client_seq := e' |> <| as_out_of_order_packets := b' |>) in *.
  destruct (decide (segment stream (as_expected_client_seq s) e' = [])) as [Hn|Hn].
  { exists s1, [], []. split.
    { eapply runs_bind; [exact E|]. rewrite decide_True by done. apply runs_ret. }
    split; [|done]. split; try done. cbn. by rewrite Hn. }
  set (s2 := s1 <| as_ack_seq_num := as_expected_client_seq s1 -₆₄ 1 |> <| as_client_ack_seq := ack |>).
  destruct (process_all_run Hcalm (segment stream (as_expected_client_seq s) e') s2)
    as (s3 & a3 & E3 & P3 & M3 & W3 & _); [done|done|apply segment_wf|].
  destruct (sync_progress now s3 ({[k]} ∪ fed)) as (s4 & a4 & E4 & G4); [done| |].
  { eapply in_order_same; [apply P3|apply P3|]. eapply in_order_same; [..|exact Hio']; done. }
  exists s4, (a3 ++ a4), (omap client_effect (segment stream (as_expected_client_seq s) e').*2).
  split.
  { eapply runs_bind; [exact E|]. rewrite decide_False by done. mstep.
    eapply runs_bind; [exact E3|]. eapply runs_bind; [exact E4|]. apply runs_ret. }
  split.
  - rewrite <-(app_nil_r (omap _ _)). eapply progress_trans; [|exact G4]. split.
    + apply (pr_session_id _ _ P3).
    + apply (pr_codec _ _ P3).
    + done.
    + eapply in_order_same; [apply P3|apply P3|]. eapply in_order_same; [..|exact Hio']; done.
    + by rewrite (pr_expected _ _ P3).
    + exact W3.
    + rewrite (pr_expected _ _ P3). apply client_effects_filter.
  - generalize (segment stream (as_expected_client_seq s) e').*2. intros ps.
    induction ps as [|p ps IH]; [done|]. csimpl.
    destruct p; csimpl; exact IH.
Qed.

Lemma feed_transient_progress ack p now (s : Session) fed :
  mirrors (as_term_state s) → in_order h stream fed s →
  ∃ s' acts, runs (feed_transient ack p now) s s' acts ∧ progress s s' fed [].
Proof.
  intros Hm Hio. unfold feed_transient.
  set (s1 := if decide (as_client_ack_seq s < ack) then s <| as_client_ack_seq := ack |> else s).
  assert (progress s s1 fed []) as G1 by (unfold s1; case_decide; by apply progress_idle).
  destruct (sync_progress now s1 fed) as (s2 & a2 & E2 & G2); [apply G1|apply G1|].
  eexists s2, _. split.
  { mstep. fold s1. mstep. eapply runs_bind; [exact E2|]. apply runs_ret. }
  change [] with ([] ++ [] : list effect). by eapply progress_trans.
Qed.

Lemma term_write_progress data now (s : Session) fed :
  mirrors (as_term_state s) → in_order h stream fed s →
  ∃ s', runs (on_pty_bytes data now) s s' tt ∧ progress s s' fed [EOutput data].
Proof.
  intros Hm Hio. unfold on_pty_bytes, term_write.
  pose proof (mirrors_write data _ Hm) as Hm'. unfold TermState_write in *.
  destruct (vt_write data (ts_terminal (as_term_state s))) as [t out] eqn:Ev. cbn in Hm'.
  eexists. split.
  { eapply runs_bind; [|apply runs_modify]. mstep. unfold TermState_write. rewrite Ev. mstep.
    apply (pty_callback_run Hcalm). }
  split; try done; cbn; [by apply (in_order_same fed s)| |].
  - unfold world. cbn. rewrite Ev. done.
  - unfold segment. by rewrite Z.sub_diag.
Qed.

Lemma handle_progress e (s : Session) fed :
  mirrors (as_term_state s) → answers (as_codec s) → in_order h stream fed s →
  genuine_event (as_codec s) (as_session_id s) stream e →
  ∃ s' acts effs, runs (handle e) s s' acts ∧
    progress s s' (from_option (λ k, {[k]} ∪ fed) fed (reliable (as_codec s) e)) effs ∧
    omap shell_output effs = option_list (output_of e).
Proof.
  intros Hm Hans Hio Hg. destruct e as [b src now|data now|now]; cbn [handle].
  - cbn [genuine_event reliable output_of option_list] in *. unfold feed_packet.
    destruct (open_client (as_codec s) b) as [[[wire p] st]|e|] eqn:Eo; [|..|done].
    2: { exists s, [], []. split.
         { mstep. eapply runs_bind; [apply runs_lift; by rewrite Eo|]. apply runs_ret. }
         split; [|done]. by apply progress_idle. }
    destruct Hg as (Hsid & Hne & Hu & Hp).
    set (s1 := s <| as_last_recv_time := now |> <| as_current_client_addr := src |>).
    assert (progress s s1 fed []) as G1 by by apply progress_idle.
    assert (∀ s' acts, runs (if is_transient (ec_seq_num wire) p
      then feed_transient (ec_ack_seq_num wire) p now
      else feed_reliable (ec_seq_num wire) (ec_ack_seq_num wire) p now) s1 s' acts →
      runs (feed_packet b src now) s s' acts) as Hgo.
    { intros s' acts Hr. unfold feed_packet. mstep.
      eapply runs_bind; [apply runs_lift; by rewrite Eo|]. cbn [try].
      rewrite decide_False by (by rewrite Hsid). rewrite decide_False by (intros Hx; by apply Hx).
      mstep. exact Hr. }
    destruct (is_transient (ec_seq_num wire) p) eqn:Et.
    + destruct (feed_transient_progress (ec_ack_seq_num wire) p now s1 fed) as (s2 & a2 & E2 & G2);
        [apply G1|apply G1|].
      exists s2, a2, []. split; [by apply Hgo|]. split; [|done].
      change [] with ([] ++ [] : list effect). by eapply progress_trans.
    + specialize (Hp eq_refl). rewrite Hp in Hgo.
      destruct (feed_reliable_progress (ec_seq_num wire) (ec_ack_seq_num wire) now s1 fed)
        as (s2 & a2 & effs & E2 & G2 & Ho); [apply G1|done|apply G1|by eapply transient_high_bit|].
      exists s2, a2, effs. split; [by apply Hgo|]. split; [|done].
      change effs with ([] ++ effs). by eapply progress_trans.
  - destruct (term_write_progress data now s fed Hm Hio) as (s' & E & G).
    exists s', [], [EOutput data]. split; [|done].
    eapply runs_bind; [exact E|]. apply runs_ret.
  - destruct (sync_progress now s fed Hm Hio) as (s' & acts & E & G). by exists s', acts, [].
Qed.

Lemma handle_all_progress es (s : Session) fed :
  mirrors (as_term_state s) → answers (as_codec s) → in_order h stream fed s →
  Forall (genuine_event (as_codec s) (as_session_id s) stream) es →
  ∃ s' acts effs, runs (handle_all es) s s' acts ∧
    progress s s' (list_to_set (omap (reliable (as_codec s)) es) ∪ fed) effs ∧
    omap shell_output effs = omap output_of es.
Proof.
  intros Hm Hans Hio Hes. revert s fed Hm Hans Hio Hes.
  induction es as [|e es IH]; intros s fed Hm Hans Hio Hes.
  { exists s, [], []. split; [apply runs_ret|]. split; [|done]. csimpl.
    rewrite (left_id_L ∅ (∪)). by apply progress_idle. }
  apply Forall_cons in Hes as [He Hes].
  destruct (handle_progress e s fed Hm Hans Hio He) as (s1 & a1 & f1 & E1 & G1 & O1).
  destruct (IH s1 (from_option (λ k, {[k]} ∪ fed) fed (reliable (as_codec s) e)))
    as (s2 & a2 & f2 & E2 & G2 & O2); [apply G1|..].
  { rewrite (pg_codec _ _ _ _ G1). exact Hans. }
  { apply G1. }
  { rewrite (pg_codec _ _ _ _ G1), (pg_sid _ _ _ _ G1). exact Hes. }
  exists s2, (a1 ++ a2), (f1 ++ f2). split.
  { cbn [handle_all]. eapply runs_bind; [exact E1|]. eapply runs_bind; [exact E2|]. apply runs_ret. }
  split.
  - rewrite (pg_codec _ _ _ _ G1) in G2. pose proof (progress_trans _ _ _ _ _ _ _ G1 G2) as G.
    csimpl. destruct (reliable (as_codec s) e) as [k|]; cbn in *; [|exact G].
    by rewrite (assoc_L (∪)), (comm_L (∪) (list_to_set _)) in G.
  - rewrite omap_app, O1, O2. csimpl. by destruct (output_of e).
Qed.
End runs.

(** ** Theorems *)

Section theorems.
Context {P C T R : Type} `{PtyBackend P, PacketCodec C, VtLaws T R}.
Abbreviation Session := (AuthoritativeSession P C T R) (only parsing).

(** A fresh session over a whole run. *)
Lemma reliable_run (h : Z) (stream : Z → ClientPayload) (s : Session) es :
  calm (P:=P) (C:=C) → (∀ k, wf (stream k) ∧ is_handshake (stream k) = false) →
  0 ≤ h < 2 ^ 63 → as_expected_client_seq s = h + 1 → as_out_of_order_packets s = ∅ →
  mirrors (as_term_state s) → answers (as_codec s) →
  Forall (genuine_event (as_codec s) (as_session_id s) stream) es →
  let received := omap (reliable (as_codec s)) es in
  ∃ s' acts effs, handle_all es s = (s', Ok acts) ∧
    let e := as_expected_client_seq s' in
    h < e ∧ (∀ k, h < k < e → k ∈ received) ∧ (e ∉ received) ∧
    world s' = foldl apply_effect (world s) effs ∧
    filter (λ f, from_client f = true) effs =
      omap client_effect (stream <$> seqZ (h + 1) (e - (h + 1))) ∧
    omap shell_output effs = omap output_of es.
Proof.
  intros Hcalm Hstream Hh He Hb Hm Hans Hes received.
  assert (in_order h stream ∅ s) as Hio.
  { split; rewrite ?He, ?Hb; [done|lia|lia| |..].
    - apply not_elem_of_empty.
    - intros k p. rewrite lookup_empty. split; [done|]. by intros (?%not_elem_of_empty & _).
    - by intros k ?%not_elem_of_empty. }
  destruct (handle_all_progress Hcalm h stream Hstream es s ∅ Hm Hans Hio Hes)
    as (s' & acts & effs & E & [] & Ho).
  exists s', acts, effs. split; [exact E|]. cbv zeta. destruct pg_order0 as [_ Hlow Hdone Hnext _ _].
  assert (∀ k, k ∈ list_to_set (omap (reliable (as_codec s)) es) ∪ (∅ : gset Z) ↔ k ∈ received) as Hset.
  { intros k. rewrite elem_of_union, elem_of_list_to_set. split; [|by left].
    intros [?|?%not_elem_of_empty]; done. }
  split; [done|]. split; [intros k Hk; by apply Hset, Hdone|].
  split; [by rewrite <-Hset|]. split; [done|]. split; [|done].
  rewrite pg_effects0, He. unfold segment. by rewrite <-list_fmap_compose.
Qed.

(** C9. The reliable stream. Whatever datagrams, shell output and ticks reach the session, in any
    order and with any repetitions, provided the packets of the session are the client's own:
    the session never fails; it has taken exactly the packets up to the first one that has not
    arrived; and the pseudo-terminal and the emulator are in the state the abstract machine reaches
    by applying those packets' payloads once each and in the client's order, interleaved with the
    shell's output in its order. *)
Theorem reliable_stream_in_order (h : Z) (stream : Z → ClientPayload) (s : Session) es :
  calm (P:=P) (C:=C) → (∀ k, wf (stream k) ∧ is_handshake (stream k) = false) →
  0 ≤ h < 2 ^ 63 → as_expected_client_seq s = h + 1 → as_out_of_order_packets s = ∅ →
  mirrors (as_term_state s) → answers (as_codec s) →
  Forall (genuine_event (as_codec s) (as_session_id s) stream) es →
  let received := omap (reliable (as_codec s)) es in
  ∃ s' acts effs, handle_all es s = (s', Ok acts) ∧
    let e := as_expected_client_seq s' in
    h < e ∧ (∀ k, h < k < e → k ∈ received) ∧ (e ∉ received) ∧
    world s' = foldl apply_effect (world s) effs ∧
    filter (λ f, from_client f = true) effs =
      omap client_effect (stream <$> seqZ (h + 1) (e - (h + 1))) ∧
    omap shell_output effs = omap output_of es.
Proof. apply reliable_run. Qed.

(** C16. Scheduling. [check_sync] never fails. It sends nothing exactly when the interval since the
    last frame (16 ms, or 150 ms while the shell floods) has not passed, or nothing is due, or the
    screen is the one last sent and no acknowledgement is owed. Otherwise it queues one frame, for
    the client's current address: the screen of the emulator under the next sequence number,
    acknowledging what the client has sent, against the state the client last acknowledged when that
    is at most five frames old and still in the history, and against nothing otherwise. The history
    keeps at most 200 states. *)
Theorem frame_scheduling (s : Session) now :
  calm (P:=P) (C:=C) → mirrors (as_term_state s) → len (as_state_history s) ≤ 200 →
  ∃ s' acts, check_sync now s = (s', Ok acts) ∧ synced s s' ∧
    let screen := ts_grid_state (as_term_state s') in
    let owed := as_last_sent_ack_seq s < as_ack_seq_num s in
    let send := ¬ throttled s now ∧ due s ∧
      (owed ∨ snd <$> last (as_state_history s) ≠ Some screen) in
    (¬ send ∧ acts = [] ∧ quiet s s') ∨
    (send ∧ len (as_state_history s') ≤ 200 ∧
     ∃ job, acts = [OffloadDiffJob job (as_current_client_addr s)] ∧ queued s s' now screen job).
Proof.
  intros Hcalm Hm Hl. destruct (check_sync_run Hcalm now s Hm) as (s' & acts & E & Y & _ & Hcase).
  exists s', acts. split; [exact E|]. split; [exact Y|]. cbv zeta.
  destruct Hcase as [(-> & Q & Hwhy)|(Ht & Hd & g & job & -> & Q & Hn)].
  - left. split; [|done]. intros (Ht & Hd & Hn). destruct Hwhy as [?|[?|(Ho & Hs)]]; [done|done|].
    destruct Hn; done.
  - right. pose proof (qd_grid _ _ _ _ _ Q) as <-. split; [done|].
    split; [by apply (qd_bound _ _ _ _ _ Q)|]. by exists job.
Qed.

(** C11. A queued frame carries the screen. For a screen of at most 65536 cells and well-formed
    reference states, the job compiles to a frame that, applied by the client to the reference it
    names (a blank or differently sized grid when it names none), gives exactly the screen of the
    server's emulator; the job's datagrams are that frame sealed under the job's numbers. *)
Theorem queued_frame_carries_screen (s : Session) now s' acts job target :
  calm (P:=P) (C:=C) → mirrors (as_term_state s) →
  Forall (λ e, grid_wf e.2) (as_state_history s) →
  check_sync now s = (s', Ok acts) → OffloadDiffJob job target ∈ acts →
  let screen := ts_grid_state (as_term_state s') in
  addressable screen →
  ∃ d, UpdateJob_run job =
      seal_server (as_codec s) (uj_seq job) (uj_ack_seq job) (ServerPayload.Frame d) ∧
    fu_ref_seq d = uj_ref_seq job ∧
    ∀ base, grid_wf base →
      match uj_ref_state job with
      | Some r => base = r
      | None => base = blank_grid (gs_cols screen) (gs_rows screen) ∨ ¬ same_dims base screen
      end →
      patch d base = (screen, Ok tt).
Proof.
  intros Hcalm Hm Hh Hrun Hin screen Haddr.
  destruct (check_sync_run Hcalm now s Hm) as (s1 & acts1 & E & _ & _ & Hcase).
  unfold runs in E. rewrite E in Hrun. injection Hrun as -> ->.
  destruct Hcase as [(-> & _)|(_ & _ & g & job' & -> & Q & _)]; [by apply not_elem_of_nil in Hin|].
  apply list_elem_of_singleton in Hin. injection Hin as -> ->.
  pose proof (qd_grid _ _ _ _ _ Q) as Hg. fold screen in Hg. subst g. destruct Q.
  set (base0 := match uj_ref_state job' with
                | Some r => r | None => blank_grid (gs_cols screen) (gs_rows screen) end).
  assert (grid_wf base0) as Hb0.
  { unfold base0. destruct qd_ref as [[_ ->]|(r & _ & -> & Hr & _)].
    - destruct qd_wf as (? & ? & _). by apply blank_grid_wf.
    - rewrite Forall_forall in Hh. exact (Hh _ Hr). }
  assert (∀ base, grid_wf base → match uj_ref_state job' with
      | Some r => base = r
      | None => base = blank_grid (gs_cols screen) (gs_rows screen) ∨ ¬ same_dims base screen
      end → ∃ d, diff_from screen (uj_ref_state job') (uj_ref_seq job') (uj_is_echo_recommended job') = Ok d ∧
      patch d base = (screen, Ok tt)) as Hdp.
  { intros base Hb Hbase. apply diff_patch; [done..|].
    destruct (uj_ref_state job'); [left; congruence|by right]. }
  destruct (Hdp base0 Hb0) as (d & Hd & _).
  { unfold base0. destruct (uj_ref_state job'); [done|by left]. }
  exists d. split_and!.
  - unfold UpdateJob_run. rewrite qd_job_state, Hd. cbn. by rewrite qd_job_codec.
  - unfold diff_from in Hd. destruct (for_each _ _ _); [|done..]. by injection Hd as <-.
  - intros base Hb Hbase. destruct (Hdp base Hb Hbase) as (d' & Hd' & Hp). congruence.
Qed.

(** ** Reconnection *)

(** The state a session-0 packet leaves before the answer is sealed. *)
Definition reset (seq : Z) (src : SocketAddr) (now : Instant) (s : Session) : Session :=
  s <| as_current_client_addr := src |> <| as_last_recv_time := now |>
    <| as_ack_seq_num := seq |> <| as_expected_client_seq := seq +₆₄ 1 |>
    <| as_client_ack_seq := 0 |> <| as_out_of_order_packets := ∅ |>
    <| as_state_history := [] |> <| as_dirty := true |>.

Lemma feed_handshake_run (wire : EncryptedClientPacket) src now (s : Session) :
  calm (P:=P) (C:=C) → mirrors (as_term_state s) → answers (as_codec s) → u64 (as_session_id s) →
  ¬ (0 < as_seq_num s ∧ duration_since now (as_last_recv_time s) < from_secs 5) →
  ∃ s1 s' bss acts,
    s1 = reset (ec_seq_num wire) src now s <| as_seq_num := as_seq_num s +₆₄ 1 |> ∧
    seal_server (as_codec s) (as_seq_num s +₆₄ 1) (ec_seq_num wire)
      (ServerPayload.HandshakeAck (as_session_id s)) = Ok bss ∧
    runs (check_sync now) s1 s' acts ∧
    runs (feed_handshake wire src now) s s' (send_all bss src ++ acts).
Proof.
  intros Hcalm Hm Hans Hu Hgo. unfold feed_handshake.
  specialize (Hans (as_seq_num s +₆₄ 1) (ec_seq_num wire) (ServerPayload.HandshakeAck (as_session_id s)) Hu).
  cbn in Hans. destruct (seal_server _ _ _ _) as [bss| |] eqn:E; [|done..].
  set (s1 := reset (ec_seq_num wire) src now s <| as_seq_num := as_seq_num s +₆₄ 1 |>).
  destruct (check_sync_run Hcalm now s1 Hm) as (s' & acts & Er & _).
  exists s1, s', bss, acts. split; [done|]. split; [done|]. split; [done|].
  mstep. rewrite decide_False by done. mstep. eapply runs_bind.
  { unfold seal. mstep. mstep. apply runs_lift, E. }
  eapply runs_bind; [exact Er|]. apply runs_ret.
Qed.

(** C34. Reconnection. A datagram of session 0 that opens, whatever its payload, is ignored while the
    session has sent something and heard from its client within five seconds. Otherwise the session
    takes the sender's address, forgets the reordering buffer and the history, expects the sequence
    number after the datagram's, and answers with a handshake acknowledgement under its own next
    sequence number; a frame queued with the answer is a full one. *)
Theorem reconnection (s : Session) b wire payload st src now :
  calm (P:=P) (C:=C) → mirrors (as_term_state s) → answers (as_codec s) → u64 (as_session_id s) →
  open_client (as_codec s) b = Ok (wire, payload, st) → ec_session_id wire = 0 →
  let active := 0 < as_seq_num s ∧ duration_since now (as_last_recv_time s) < from_secs 5 in
  (active → feed_packet b src now s = (s, Ok [])) ∧
  (¬ active → ∃ s' bss acts, feed_packet b src now s = (s', Ok (send_all bss src ++ acts)) ∧
     seal_server (as_codec s) (as_seq_num s +₆₄ 1) (ec_seq_num wire)
       (ServerPayload.HandshakeAck (as_session_id s)) = Ok bss ∧
     as_current_client_addr s' = src ∧ as_last_recv_time s' = now ∧
     as_expected_client_seq s' = ec_seq_num wire +₆₄ 1 ∧ as_out_of_order_packets s' = ∅ ∧
     as_client_ack_seq s' = 0 ∧ world s' = world s ∧ mirrors (as_term_state s') ∧
     (acts = [] ∨ ∃ job, acts = [OffloadDiffJob job src] ∧ uj_ref_seq job = 0 ∧ uj_ref_state job = None)).
Proof.
  intros Hcalm Hm Hans Hu Ho Hsid active.
  assert (∀ s' a, runs (feed_handshake wire src now) s s' a → feed_packet b src now s = (s', Ok a)) as Hfeed.
  { intros s' a Hr. unfold feed_packet. change (runs (feed_packet b src now) s s' a). unfold feed_packet.
    mstep. eapply runs_bind; [apply runs_lift; by rewrite Ho|]. cbn [try]. by rewrite decide_True. }
  split; intros Ha.
  - apply Hfeed. unfold feed_handshake. mstep. rewrite decide_True by done. apply runs_ret.
  - destruct (feed_handshake_run wire src now s Hcalm Hm Hans Hu Ha) as (s1 & s' & bss & acts & -> & E & Er & Ef).
    exists s', bss, acts. split; [by apply Hfeed|]. split; [done|].
    edestruct (check_sync_run Hcalm now (reset (ec_seq_num wire) src now s <| as_seq_num := as_seq_num s +₆₄ 1 |>))
      as (s3 & acts3 & E3 & Y3 & M3 & Hc3); [exact Hm|].
    unfold runs in Er, E3. rewrite E3 in Er. injection Er as -> ->. destruct Y3.
    split; [done|]. split; [done|]. split; [done|]. split; [done|]. split; [done|].
    split; [done|]. split; [done|].
    destruct Hc3 as [(-> & _)|(_ & _ & g & job & -> & Q & _)]; [by left|]. right. exists job.
    split; [done|]. destruct (qd_ref _ _ _ _ _ Q) as [?|(r & _ & _ & Hr & _)]; [done|].
    by apply not_elem_of_nil in Hr.
Qed.

(** C35. A late session-0 packet stalls its own client. When such a packet (a delayed or replayed
    handshake, say) is accepted after a silence of five seconds and the client's next reliable
    sequence number is already past the one it makes the server expect, then, whatever arrives
    afterwards, not one more keystroke or resize of that client is applied. *)
Theorem stale_handshake_stalls (s : Session) b wire payload st src now stream es :
  calm (P:=P) (C:=C) → (∀ k, wf (stream k) ∧ is_handshake (stream k) = false) →
  mirrors (as_term_state s) → answers (as_codec s) → u64 (as_session_id s) →
  open_client (as_codec s) b = Ok (wire, payload, st) → ec_session_id wire = 0 →
  0 ≤ ec_seq_num wire < 2 ^ 63 → from_secs 5 ≤ duration_since now (as_last_recv_time s) →
  Forall (genuine_event (as_codec s) (as_session_id s) stream) es →
  Forall (λ k, ec_seq_num wire + 1 < k) (omap (reliable (as_codec s)) es) →
  ∃ s1 acts1 s2 acts2 effs, feed_packet b src now s = (s1, Ok acts1) ∧
    handle_all es s1 = (s2, Ok acts2) ∧
    world s2 = foldl apply_effect (world s) effs ∧ filter (λ f, from_client f = true) effs = [].
Proof.
  intros Hcalm Hstream Hm Hans Hu Ho Hsid Hq Hsil Hes Hlate.
  destruct (feed_handshake_run wire src now s Hcalm Hm Hans Hu) as (s0 & s1 & bss & acts & -> & _ & Er & Ef);
    [lia|].
  edestruct (check_sync_run Hcalm now (reset (ec_seq_num wire) src now s <| as_seq_num := as_seq_num s +₆₄ 1 |>))
    as (s3 & acts3 & E3 & Y3 & M3 & _); [exact Hm|].
  unfold runs in Er, E3. rewrite E3 in Er. injection Er as -> ->. destruct Y3.
  cbn in sy_codec, sy_session_id, sy_expected, sy_buffered.
  destruct (reliable_run (ec_seq_num wire) stream s1 es) as
    (s2 & acts2 & effs & E2 & Hlow & Hdone & Hnext & Hw & Hf & _);
    [done|done|done|rewrite sy_expected; apply wrap_small; unfold fits; lia|done|done
    |by rewrite sy_codec|by rewrite sy_codec, sy_session_id|].
  exists s1, (send_all bss src ++ acts), s2, acts2, effs. split.
  { change (runs (feed_packet b src now) s s1 (send_all bss src ++ acts)). unfold feed_packet.
    mstep. eapply runs_bind; [apply runs_lift; by rewrite Ho|]. cbn [try]. by rewrite decide_True. }
  split; [exact E2|]. split; [by rewrite Hw, sy_world|]. rewrite Hf, sy_codec in *.
  assert (as_expected_client_seq s2 = ec_seq_num wire + 1) as ->.
  { destruct (decide (ec_seq_num wire + 1 < as_expected_client_seq s2)) as [Hlt|]; [|lia].
    specialize (Hdone (ec_seq_num wire + 1) ltac:(lia)). rewrite Forall_forall in Hlate.
    specialize (Hlate _ Hdone). cbn in Hlate. lia. }
  by rewrite Z.sub_diag.
Qed.

(** ** Packets outside the stream *)

(** C36. A handshake payload inside a session brings the server down: accepted in order under a
    session's own id, it reaches the branch the code declares unreachable. *)
Theorem in_session_handshake_panics (s : Session) b wire v cols rows st src now :
  open_client (as_codec s) b = Ok (wire, ClientPayload.Handshake v cols rows, st) →
  ec_session_id wire = as_session_id s → as_session_id s ≠ 0 →
  ec_seq_num wire = as_expected_client_seq s → 0 ≤ ec_seq_num wire < 2 ^ 63 →
  (feed_packet b src now s).2 = Panic.
Proof.
  intros Ho Hsid Hne Hseq Hlt. unfold feed_packet, mbind, M_bind, get, lift, modify.
  rewrite Ho. cbn [try]. rewrite decide_False by congruence. rewrite decide_False by (intros Hx; by apply Hx).
  assert (is_transient (ec_seq_num wire) (ClientPayload.Handshake v cols rows) = false) as -> by by apply small_reliable.
  unfold feed_reliable, order_packet, mbind, M_bind, get, modify. cbn. rewrite Hseq.
  rewrite !decide_False by lia. destruct (recover _ _ _) as [[l e'] b']. cbn. done.
Qed.

(** C33. Packets that are not next in the stream are harmless. A reliable packet already taken
    changes nothing but the address and time of the last contact, and asks for no action. A
    transient one (an acknowledgement, a fragment report, or anything numbered with the high bit)
    never touches the stream, the pseudo-terminal or the emulator: it raises the acknowledged
    sequence number, when it is newer, and a fragment report is passed on as a retransmission
    request to the sender. *)
Theorem other_packets_harmless (s : Session) b wire payload st src now :
  calm (P:=P) (C:=C) → mirrors (as_term_state s) →
  open_client (as_codec s) b = Ok (wire, payload, st) →
  ec_session_id wire = as_session_id s → as_session_id s ≠ 0 →
  (is_transient (ec_seq_num wire) payload = false → ec_seq_num wire < as_expected_client_seq s →
   feed_packet b src now s =
     (s <| as_last_recv_time := now |> <| as_current_client_addr := src |>, Ok [])) ∧
  (is_transient (ec_seq_num wire) payload = true →
   ∃ s' acts, feed_packet b src now s = (s', Ok (
       match payload with
       | ClientPayload.FragmentNack frame_seq mask => [ResendFragments frame_seq mask src]
       | _ => []
       end ++ acts)) ∧
     world s' = world s ∧ as_expected_client_seq s' = as_expected_client_seq s ∧
     as_out_of_order_packets s' = as_out_of_order_packets s ∧ as_ack_seq_num s' = as_ack_seq_num s ∧
     as_client_ack_seq s' = Z.max (as_client_ack_seq s) (ec_ack_seq_num wire) ∧
     (acts = [] ∨ ∃ job, acts = [OffloadDiffJob job src])).
Proof.
  intros Hcalm Hm Ho Hsid Hne.
  set (s1 := s <| as_last_recv_time := now |> <| as_current_client_addr := src |>).
  assert (∀ s' a, runs (if is_transient (ec_seq_num wire) payload
      then feed_transient (ec_ack_seq_num wire) payload now
      else feed_reliable (ec_seq_num wire) (ec_ack_seq_num wire) payload now) s1 s' a →
      feed_packet b src now s = (s', Ok a)) as Hgo.
  { intros s' a Hr. change (runs (feed_packet b src now) s s' a). unfold feed_packet. mstep.
    eapply runs_bind; [apply runs_lift; by rewrite Ho|]. cbn [try].
    rewrite decide_False by congruence. rewrite decide_False by (intros Hx; by apply Hx).
    mstep. exact Hr. }
  split; intros Ht; rewrite Ht in Hgo.
  - intros Hlt. apply Hgo. unfold feed_reliable, order_packet.
    eapply runs_bind; [mstep; rewrite decide_True by done; apply runs_ret|].
    rewrite decide_True by done. apply runs_ret.
  - set (s2 := if decide (as_client_ack_seq s1 < ec_ack_seq_num wire)
               then s1 <| as_client_ack_seq := ec_ack_seq_num wire |> else s1).
    assert (mirrors (as_term_state s2)) as Hm2 by (unfold s2; by case_decide).
    destruct (check_sync_run Hcalm now s2 Hm2) as (s3 & acts & E & [] & _ & Hcase).
    exists s3, acts. split.
    { apply Hgo. unfold feed_transient. mstep. fold s2. mstep.
      eapply runs_bind; [exact E|]. unfold s2. case_decide; destruct payload; apply runs_ret. }
    rewrite sy_world, sy_expected, sy_buffered, sy_ack, sy_client_ack.
    assert (as_current_client_addr s2 = src) as Ha by (unfold s2; by case_decide).
    unfold s2. case_decide as Hd; cbn in Hd; split_and!; cbn; try done; try lia.
    all: destruct Hcase as [(-> & _)|(_ & _ & g & job & -> & _)]; [by left|right]; exists job;
      by rewrite Ha.
Qed.
End theorems.

(** ** Witnesses

    A session with a plaintext codec, a recording pseudo-terminal and the toy emulator, on a screen
    of 3 columns and 2 rows, created at 10 s for a client whose handshake was number 1. *)

Abbreviation DemoSession := (AuthoritativeSession FakePty NullCodec Toy.term Toy.render) (only parsing).

Definition demo_addr : SocketAddr := SocketAddrV4 2130706433 12345.
Definition demo_start : Instant := from_secs 10.
Definition demo_session : DemoSession :=
  {| as_session_id := 12345; as_seq_num := 0; as_ack_seq_num := 1; as_expected_client_seq := 2;
     as_out_of_order_packets := ∅; as_client_ack_seq := 0; as_last_sent_ack_seq := 0;
     as_state_history := []; as_codec := NullCodec_new 12345; as_current_client_addr := demo_addr;
     as_last_recv_time := demo_start; as_last_sync_time := demo_start;
     as_last_pty_bytes_time := demo_start; as_pty_bytes_acc := 0; as_dirty := false;
     as_term_state := {| ts_terminal := Toy.mkTerm 3 2 []; ts_render_state := Toy.mkRender 0 0 [];
                         ts_cols := 3; ts_rows := 2; ts_grid_state := blank_grid 3 2;
                         ts_force_full := true |};
     as_pty := FakePty_new |}.

Lemma demo_session_new :
  AuthoritativeSession_new 12345 (NullCodec_new 12345) 1 demo_addr 3 2 FakePty_new demo_start = Ok demo_session.
Proof. reflexivity. Qed.

Lemma demo_calm : calm (P:=FakePty) (C:=NullCodec).
Proof.
  split; try done.
  - intros p. by exists (fp_echo_recommended p).
  - intros c b. cbn. unfold Null_open_client, deserialize. destruct (borrow_decode_from_slice b) as [[w n]|];
      cbn -[borrow_decode_from_slice]; [|done].
    case_decide; [done|].
    by destruct (borrow_decode_from_slice (T:=ClientPayload) (ec_ciphertext w)) as [[p m]|].
Qed.

Lemma serialize_all_ok (ps : list EncryptedServerPacket) : is_ok (serialize_all ps) = true.
Proof. induction ps as [|p ps IH]; [done|]. cbn. by destruct (serialize_all ps). Qed.

Lemma demo_answers c : answers (C:=NullCodec) c.
Proof. intros seq ack p _. destruct p; [|exact I|..]; apply serialize_all_ok. Qed.

Lemma demo_mirrors : mirrors (as_term_state demo_session).
Proof. split; [|by left]. vm_compute. repeat split; congruence. Qed.

Definition demo_stream (k : Z) : ClientPayload :=
  if k =? 2 then ClientPayload.Keystrokes [97]
  else if k =? 3 then ClientPayload.Resize 4 2
  else if k =? 4 then ClientPayload.Keystrokes [98]
  else ClientPayload.KeepAlive.

Lemma demo_stream_ok k : wf (demo_stream k) ∧ is_handshake (demo_stream k) = false.
Proof.
  unfold demo_stream. repeat case_match; (split; [|done]); [..|exact I].
  all: apply (bool_decide_unpack _); vm_compute; exact I.
Qed.

Definition demo_packet (sid k : Z) (p : ClientPayload) : bytes :=
  match seal_client (NullCodec_new 12345) sid k 0 p with Ok b => b | _ => [] end.
Definition demo_event (k ms : Z) : event :=
  Datagram (demo_packet 12345 k (demo_stream k)) demo_addr (demo_start + from_millis ms).

(** Packets 3, 2, 2 again and 5 (4 is lost), shell output and a tick. *)
Definition demo_events : list event :=
  [demo_event 3 20; PtyData [36; 5] (demo_start + from_millis 30); demo_event 2 40; demo_event 2 41;
   demo_event 5 50; Tick (demo_start + from_millis 80)].

Lemma genuine_demo k ms :
  In k [2; 3; 4; 5] → genuine_event (NullCodec_new 12345) 12345 demo_stream (demo_event k ms).
Proof.
  intros Hk. repeat destruct Hk as [<-|Hk]; [..|destruct Hk];
    (split; [reflexivity|]); (split; [discriminate|]); (split; [vm_compute; split; congruence|]);
    intros _; reflexivity.
Qed.

Lemma reliable_stream_in_order_witness :
  ∃ s' acts effs, handle_all demo_events demo_session = (s', Ok acts) ∧
    as_expected_client_seq s' = 4 ∧
    filter (λ f, from_client f = true) effs = [EKeys [97]; EResize 4 2] ∧
    omap shell_output effs = [[36; 5]] ∧ world s' = foldl apply_effect (world demo_session) effs.
Proof.
  destruct (reliable_stream_in_order 1 demo_stream demo_session demo_events)
    as (s' & acts & effs & E & Hlow & Hdone & Hnext & Hw & Hf & Ho).
  - exact demo_calm.
  - exact demo_stream_ok.
  - lia.
  - reflexivity.
  - reflexivity.
  - exact demo_mirrors.
  - apply demo_answers.
  - unfold demo_events. repeat apply Forall_cons_2; try (apply genuine_demo; simpl; tauto); constructor.
  - exists s', acts, effs. assert (as_expected_client_seq s' = 4) as He.
    { assert (as_expected_client_seq (handle_all demo_events demo_session).1 = 4) as He
        by (vm_compute; reflexivity). rewrite E in He. exact He. }
    split; [exact E|]. split; [exact He|]. rewrite He in Hf. split; [rewrite Hf; reflexivity|].
    split; [rewrite Ho; reflexivity|exact Hw].
Defined.

(** 60 ms later, with output to show. *)
Definition demo_dirty : DemoSession :=
  (handle (PtyData [36] (demo_start + from_millis 10)) demo_session).1.
Definition demo_tick : Instant := demo_start + from_millis 60.

Lemma demo_dirty_mirrors : mirrors (as_term_state demo_dirty).
Proof. split; [|by left]. vm_compute. repeat split; congruence. Qed.

Lemma frame_scheduling_witness :
  ∃ s' job, check_sync demo_tick demo_dirty = (s', Ok [OffloadDiffJob job demo_addr]) ∧
    queued demo_dirty s' demo_tick (ts_grid_state (as_term_state s')) job.
Proof.
  destruct (frame_scheduling demo_dirty demo_tick demo_calm demo_dirty_mirrors) as (s' & acts & E & _ & Hc).
  - vm_compute. congruence.
  - destruct Hc as [(Hn & _)|(_ & _ & job & -> & Q)].
    + exfalso. apply Hn. split; [|split].
      * intros [Hx _]. vm_compute in Hx. discriminate Hx.
      * left. vm_compute. reflexivity.
      * left. vm_compute. reflexivity.
    + exists s', job. split; [exact E|exact Q].
Defined.

Lemma queued_frame_carries_screen_witness :
  ∃ s' job d, check_sync demo_tick demo_dirty = (s', Ok [OffloadDiffJob job demo_addr]) ∧
    patch d (blank_grid 3 2) = (ts_grid_state (as_term_state s'), Ok tt).
Proof.
  destruct (check_sync demo_tick demo_dirty) as [s' o] eqn:E.
  assert (∃ job, o = Ok [OffloadDiffJob job demo_addr]) as [job ->].
  { vm_compute in E. injection E as _ <-. eexists. reflexivity. }
  assert (ts_grid_state (as_term_state s') = ts_grid_state (as_term_state (check_sync demo_tick demo_dirty).1))
    as Hs by (rewrite E; reflexivity).
  destruct (queued_frame_carries_screen demo_dirty demo_tick s' [OffloadDiffJob job demo_addr] job demo_addr
    demo_calm demo_dirty_mirrors) as (d & _ & _ & Hp).
  - constructor.
  - exact E.
  - left.
  - rewrite Hs. vm_compute. congruence.
  - exists s', job, d. split; [reflexivity|]. apply Hp.
    + vm_compute. repeat split; congruence.
    + assert (uj_ref_state job = None) as ->.
      { vm_compute in E. injection E as _ <-. reflexivity. }
      left. rewrite Hs. vm_compute. reflexivity.
Defined.

(** A client's first handshake, kept by the network and delivered 7 s into the session. *)
Definition demo_handshake : bytes := demo_packet 0 1 (ClientPayload.Handshake 1 3 2).
Definition demo_wire0 : EncryptedClientPacket :=
  match deserialize demo_handshake with Ok w => w | _ => mkEncClient 0 0 0 [] end.
Definition demo_stats (p : ClientPayload) : CodecStats :=
  let n := match serialize p with Ok b => len b | _ => 0 end in
  {| wire_len := n + 4; comp_len := n; decomp_len := n |}.

Lemma demo_sid : u64 (as_session_id demo_session).
Proof. apply (bool_decide_unpack _). vm_compute. exact I. Qed.

Lemma demo_handshake_opened :
  open_client (as_codec demo_session) demo_handshake =
    Ok (demo_wire0, ClientPayload.Handshake 1 3 2, demo_stats (ClientPayload.Handshake 1 3 2)).
Proof. vm_compute. reflexivity. Qed.

Lemma reconnection_witness :
  ∃ s' acts, feed_packet demo_handshake demo_addr (demo_start + from_secs 7) demo_session = (s', Ok acts) ∧
    as_expected_client_seq s' = 2.
Proof.
  destruct (reconnection demo_session demo_handshake demo_wire0 (ClientPayload.Handshake 1 3 2)
    (demo_stats (ClientPayload.Handshake 1 3 2)) demo_addr (demo_start + from_secs 7)
    demo_calm demo_mirrors (demo_answers _) demo_sid demo_handshake_opened) as [_ Hr].
  - reflexivity.
  - destruct Hr as (s' & bss & acts & E & _ & _ & _ & He & _).
    + intros [Hx _]. vm_compute in Hx. discriminate Hx.
    + eexists s', _. split; [exact E|]. rewrite He. reflexivity.
Defined.

Lemma stale_handshake_stalls_witness :
  ∃ s1 acts1 s2 acts2 effs,
    feed_packet demo_handshake demo_addr (demo_start + from_secs 7) demo_session = (s1, Ok acts1) ∧
    handle_all [demo_event 4 7100] s1 = (s2, Ok acts2) ∧
    world s2 = foldl apply_effect (world demo_session) effs ∧ filter (λ f, from_client f = true) effs = [].
Proof.
  apply (stale_handshake_stalls demo_session demo_handshake demo_wire0 (ClientPayload.Handshake 1 3 2)
    (demo_stats (ClientPayload.Handshake 1 3 2)) demo_addr (demo_start + from_secs 7) demo_stream
    [demo_event 4 7100] demo_calm demo_stream_ok demo_mirrors (demo_answers _) demo_sid demo_handshake_opened).
  - reflexivity.
  - vm_compute. split; congruence.
  - vm_compute. congruence.
  - constructor; [apply genuine_demo; simpl; tauto|constructor].
  - vm_compute. constructor; [reflexivity|constructor].
Defined.

Definition demo_inner : bytes := demo_packet 12345 2 (ClientPayload.Handshake 1 3 2).
Definition demo_wire (k : Z) (p : ClientPayload) : EncryptedClientPacket :=
  match deserialize (demo_packet 12345 k p) with Ok w => w | _ => mkEncClient 0 0 0 [] end.

Lemma in_session_handshake_panics_witness :
  (feed_packet demo_inner demo_addr demo_start demo_session).2 = Panic.
Proof.
  apply (in_session_handshake_panics demo_session demo_inner (demo_wire 2 (ClientPayload.Handshake 1 3 2))
    1 3 2 {| wire_len := 10; comp_len := 4; decomp_len := 4 |} demo_addr demo_start).
  - vm_compute. reflexivity.
  - reflexivity.
  - discriminate.
  - reflexivity.
  - vm_compute. split; congruence.
Defined.

Lemma other_packets_harmless_witness :
  (∃ s', feed_packet (demo_packet 12345 1 ClientPayload.KeepAlive) demo_addr demo_start demo_session =
     (s', Ok [])) ∧
  ∃ s' acts, feed_packet (demo_packet 12345 9 (ClientPayload.FragmentNack 4 [1])) demo_addr demo_start
      demo_session = (s', Ok (ResendFragments 4 [1] demo_addr :: acts)) ∧
    as_expected_client_seq s' = 2.
Proof.
  split.
  - eexists. apply (other_packets_harmless demo_session _ (demo_wire 1 ClientPayload.KeepAlive)
      ClientPayload.KeepAlive {| wire_len := 7; comp_len := 1; decomp_len := 1 |}
      demo_addr demo_start demo_calm demo_mirrors); [vm_compute; reflexivity|reflexivity|discriminate|..].
    + reflexivity.
    + vm_compute. reflexivity.
  - destruct (other_packets_harmless demo_session (demo_packet 12345 9 (ClientPayload.FragmentNack 4 [1]))
      (demo_wire 9 (ClientPayload.FragmentNack 4 [1])) (ClientPayload.FragmentNack 4 [1])
      {| wire_len := 10; comp_len := 4; decomp_len := 4 |}
      demo_addr demo_start demo_calm demo_mirrors) as [_ Ht];
      [vm_compute; reflexivity|reflexivity|discriminate|].
    destruct (Ht eq_refl) as (s' & acts & E & _ & He & _).
    exists s', acts. split; [exact E|]. rewrite He. reflexivity.
Defined.
