(* ===== verification/Escape.v ===== *)
(** * Escape sequences typed at the client: [src/src/client/escape.rs]

    The state machine that watches standard input for a tilde at the start of a line. *)

From S2P Require Import Prelude.

Abbreviation bytes := (list Z) (only parsing).

Inductive EscapeCommand := Disconnect | Suspend | Help | ToggleOverlay.
#[export] Instance EscapeCommand_eq_dec : EqDecision EscapeCommand.
Proof. solve_decision. Defined.
Inductive EscapeState := Normal (last_was_newline : bool) | WaitingForCommand.
Inductive InterpreterResult := SendBytes (b : bytes) | Command (c : EscapeCommand) | Consume.

(** The interpreter is its state; the start of the session counts as a line start. *)
Record EscapeInterpreter := mkInterpreter { ei_state : EscapeState }.
Definition EscapeInterpreter_new : EscapeInterpreter := {| ei_state := Normal true |}.

Definition TILDE : Z := 126.
Definition is_newline (b : Z) : bool := (b =? 13) || (b =? 10).

Definition handle_byte (b : Z) (self : EscapeInterpreter) : EscapeInterpreter * InterpreterResult :=
  match ei_state self with
  | Normal last_was_newline =>
    if last_was_newline && (b =? TILDE) then (mkInterpreter WaitingForCommand, Consume)
    else (mkInterpreter (Normal (is_newline b)), SendBytes [b])
  | WaitingForCommand =>
    if b =? 46 then (mkInterpreter (Normal false), Command Disconnect)
    else if b =? 26 then (mkInterpreter (Normal true), Command Suspend)
    else if b =? 63 then (mkInterpreter (Normal false), Command Help)
    else if b =? 111 then (mkInterpreter (Normal false), Command ToggleOverlay)
    else if b =? TILDE then (mkInterpreter (Normal false), SendBytes [TILDE])
    else (mkInterpreter (Normal (is_newline b)), SendBytes [TILDE; b])
  end.

(** ** Specification *)

(** A whole input, byte after byte. *)
Fixpoint interpret (bs : bytes) (self : EscapeInterpreter) : EscapeInterpreter * list InterpreterResult :=
  match bs with
  | [] => (self, [])
  | b :: bs =>
    let '(self, r) := handle_byte b self in
    let '(self, rs) := interpret bs self in (self, r :: rs)
  end.

(** What reaches the server and what is executed locally. *)
Definition sent (rs : list InterpreterResult) : bytes :=
  rs ≫= λ r, match r with SendBytes b => b | _ => [] end.
Definition commands (rs : list InterpreterResult) : list EscapeCommand :=
  omap (λ r, match r with Command c => Some c | _ => None end) rs.

(** Text protected as a user would: a tilde at the start of a line is typed twice. *)
Fixpoint protect (line_start : bool) (bs : bytes) : bytes :=
  match bs with
  | [] => []
  | b :: bs =>
    if line_start && (b =? TILDE) then TILDE :: TILDE :: protect false bs
    else b :: protect (is_newline b) bs
  end.

(** What is typed after a tilde at the start of a line, as the help describes it: a command, the tilde
    itself, or any other character, which then follows the tilde. *)
Definition escaped (b : Z) : InterpreterResult :=
  if b =? 46 then Command Disconnect
  else if b =? 26 then Command Suspend
  else if b =? 63 then Command Help
  else if b =? 111 then Command ToggleOverlay
  else if b =? TILDE then SendBytes [TILDE] else SendBytes [TILDE; b].

(** Whether a line starts after an escape. *)
Definition line_after (b : Z) : bool := is_newline b || (b =? 26).

(** The meaning of a whole input, read with one character of lookahead instead of a state: [line_start]
    says whether a line starts here. A tilde at the end of the input is still held back. *)
Fixpoint meaning (line_start : bool) (bs : bytes) : list InterpreterResult :=
  match bs with
  | [] => []
  | b :: rest =>
    if line_start && (b =? TILDE) then
      match rest with
      | [] => []
      | b' :: rest => escaped b' :: meaning (line_after b') rest
      end
    else SendBytes [b] :: meaning (is_newline b) rest
  end.

(** The outcomes with an effect. *)
Definition effective (r : InterpreterResult) : bool := match r with Consume => false | _ => true end.

Lemma interpret_app bs bs' self :
  interpret (bs ++ bs') self =
  let '(s1, r1) := interpret bs self in let '(s2, r2) := interpret bs' s1 in (s2, r1 ++ r2).
Proof.
  revert self. induction bs as [|b bs IH]; intros self; simpl; [by destruct (interpret bs' self)|].
  destruct (handle_byte b self) as [s r]. rewrite IH. destruct (interpret bs s) as [s1 r1].
  by destruct (interpret bs' s1).
Qed.

Lemma protect_sent nl bs :
  ∃ nl', (interpret (protect nl bs) (mkInterpreter (Normal nl))).1 = mkInterpreter (Normal nl') ∧
    sent (interpret (protect nl bs) (mkInterpreter (Normal nl))).2 = bs ∧
    commands (interpret (protect nl bs) (mkInterpreter (Normal nl))).2 = [].
Proof.
  revert nl. induction bs as [|b bs IH]; intros nl; [by exists nl|]. cbn [protect].
  destruct (nl && (b =? TILDE)) eqn:E.
  - apply andb_true_iff in E as [-> ->%Z.eqb_eq]. destruct (IH false) as (nl' & H1 & H2 & H3).
    exists nl'. cbn -[interpret]. cbn [interpret handle_byte ei_state andb].
    replace (TILDE =? TILDE) with true by done. cbn.
    destruct (interpret (protect false bs) (mkInterpreter (Normal false))) as [s rs]. cbn in *.
    by rewrite H2.
  - destruct (IH (is_newline b)) as (nl' & H1 & H2 & H3). exists nl'.
    cbn [interpret handle_byte ei_state]. rewrite E.
    destruct (interpret (protect (is_newline b) bs) _) as [s rs]. cbn in *. by rewrite H2.
Qed.

(** The interpreter after an input, and at the start of a line. *)
Definition after (bs : bytes) : EscapeInterpreter := (interpret bs EscapeInterpreter_new).1.
Definition at_line_start (bs : bytes) : Prop :=
  bs = [] ∨ (∃ b, last bs = Some b ∧ is_newline b = true) ∨
  last (interpret bs EscapeInterpreter_new).2 = Some (Command Suspend).

Lemma after_snoc bs b :
  interpret (bs ++ [b]) EscapeInterpreter_new =
  let '(s, r) := handle_byte b (after bs) in (s, (interpret bs EscapeInterpreter_new).2 ++ [r]).
Proof.
  rewrite interpret_app. unfold after. destruct (interpret bs _) as [s1 r1]. cbn.
  by destruct (handle_byte b s1).
Qed.

Lemma after_normal bs : ei_state (after bs) = Normal true ↔ at_line_start bs.
Proof.
  induction bs as [|b bs _] using rev_ind; [by split; [left|]|].
  unfold after, at_line_start. rewrite after_snoc, last_snoc. unfold handle_byte. split.
  - destruct (ei_state (after bs)) as [nl|].
    + destruct (nl && (b =? TILDE)); cbn; [done|]. intros [= Hb]. right; left. by exists b.
    + repeat (destruct (_ =? _)); cbn; try done; intros E; right;
        first [right; by rewrite last_snoc | left; exists b; split; [done|congruence]].
  - intros [E|[(b' & [= <-] & Hn)|E]]; [by destruct bs|..].
    + assert (b = 10 ∨ b = 13) as [-> | ->] by (unfold is_newline in Hn; lia);
        (destruct (ei_state (after bs)) as [nl|]; [|done]); by destruct nl.
    + destruct (ei_state (after bs)) as [nl|].
      * destruct (nl && (b =? TILDE)); cbn in E; rewrite last_snoc in E; done.
      * repeat (destruct (_ =? _)); cbn in E; rewrite last_snoc in E; done.
Qed.

Lemma waiting_iff bs : ei_state (after bs) = WaitingForCommand ↔ ∃ bs', bs = bs' ++ [TILDE] ∧ at_line_start bs'.
Proof.
  split.
  - induction bs as [|b bs _] using rev_ind; [done|]. unfold after. rewrite after_snoc. unfold handle_byte.
    fold (after bs). destruct (ei_state (after bs)) as [nl|] eqn:E.
    + destruct (nl && (b =? TILDE)) eqn:E'; cbn; [|done]. intros _.
      apply andb_true_iff in E' as [-> ->%Z.eqb_eq]. exists bs. split; [done|]. by apply after_normal.
    + repeat (destruct (_ =? _)); done.
  - intros (bs' & -> & Hn%after_normal). unfold after. rewrite after_snoc. unfold handle_byte. by rewrite Hn.
Qed.

(** The byte after the tilde. *)
Lemma handle_escaped b : handle_byte b (mkInterpreter WaitingForCommand) = (mkInterpreter (Normal (line_after b)), escaped b).
Proof.
  unfold handle_byte, escaped. cbn [ei_state].
  destruct (b =? 46) eqn:E1; [apply Z.eqb_eq in E1 as ->; done|].
  destruct (b =? 26) eqn:E2; [apply Z.eqb_eq in E2 as ->; done|].
  destruct (b =? 63) eqn:E3; [apply Z.eqb_eq in E3 as ->; done|].
  destruct (b =? 111) eqn:E4; [apply Z.eqb_eq in E4 as ->; done|].
  destruct (b =? TILDE) eqn:E5; [apply Z.eqb_eq in E5 as ->; done|].
  unfold line_after. by rewrite E2, orb_false_r.
Qed.

(** The state machine and the reader with lookahead give the same outcomes. *)
Lemma interpret_meaning bs nl : filter effective (interpret bs (mkInterpreter (Normal nl))).2 = meaning nl bs.
Proof.
  remember (length bs) as n eqn:Hn. revert bs nl Hn. induction n as [n IH] using lt_wf_ind. intros [|b bs] nl ->; [done|].
  cbn [interpret meaning]. unfold handle_byte at 1. cbn [ei_state]. destruct (nl && (b =? TILDE)).
  - destruct bs as [|b' bs]; [done|]. cbn [interpret]. rewrite handle_escaped.
    pose proof (IH (length bs) ltac:(cbn; lia) bs (line_after b') eq_refl) as E.
    destruct (interpret bs _) as [s rs]. cbn [snd] in *. rewrite filter_cons_False by (by intros []).
    rewrite filter_cons_True by (unfold escaped; by repeat (destruct (_ =? _))). by rewrite E.
  - pose proof (IH (length bs) ltac:(cbn; lia) bs (is_newline b) eq_refl) as E.
    destruct (interpret bs _) as [s rs]. cbn [snd] in *. by rewrite filter_cons_True, E.
Qed.

Lemma protect_id_sent bs : protect true bs = bs → sent (interpret bs EscapeInterpreter_new).2 = bs.
Proof.
  intros Hp. destruct (protect_sent true bs) as (_ & _ & Hs & _). by rewrite Hp in Hs.
Qed.

(** C31. The interpreter does what its help says. On any input what is sent and what is executed, in
    order, is what a reader with one character of lookahead finds in it: a tilde at the start of a line
    and the character after it are a command (a full stop, control-Z, a question mark, an o), a single
    tilde (a second one), or both characters sent as typed; any other character is sent as typed; a tilde
    that starts a line at the very end is held back. A byte executes a command if and only if it is the
    command's own and comes right after a tilde that starts a line: at the beginning of the session, after
    a newline or a carriage return, or after the client was resumed from a suspension. And any text can be
    sent: when every tilde that starts a line is typed twice, exactly the text is sent and no command is
    executed. *)
Theorem interpreter_transparent bs :
  filter effective (interpret bs EscapeInterpreter_new).2 = meaning true bs ∧
  (∀ b c, (handle_byte b (after bs)).2 = Command c ↔
    escaped b = Command c ∧ ∃ bs', bs = bs' ++ [TILDE] ∧ at_line_start bs') ∧
  sent (interpret (protect true bs) EscapeInterpreter_new).2 = bs ∧
  commands (interpret (protect true bs) EscapeInterpreter_new).2 = [] ∧
  (protect true bs = bs → sent (interpret bs EscapeInterpreter_new).2 = bs).
Proof.
  split; [apply interpret_meaning|]. split.
  { intros b c. rewrite <-waiting_iff. unfold handle_byte. destruct (ei_state (after bs)) as [nl|].
    - split; [by destruct (nl && _)|by intros [_ [=]]].
    - unfold escaped. repeat (destruct (_ =? _); cbn); split; try done; by intros [? _]. }
  destruct (protect_sent true bs) as (nl & _ & Hs & Hc). split; [exact Hs|]. split; [exact Hc|].
  apply protect_id_sent.
Qed.

(** "ls", newline, a tilde and a question mark: the listing is sent and help is asked for. *)
Lemma interpreter_transparent_witness :
  filter effective (interpret [108; 115; 10; 126; 63; 10; 126; 97] EscapeInterpreter_new).2 =
    [SendBytes [108]; SendBytes [115]; SendBytes [10]; Command Help; SendBytes [10]; SendBytes [126; 97]] ∧
  sent (interpret [108; 115; 10] EscapeInterpreter_new).2 = [108; 115; 10] ∧
  ∃ bs', [108; 115; 10; 126] = bs' ++ [TILDE] ∧ at_line_start bs'.
Proof.
  split; [apply (interpreter_transparent [108; 115; 10; 126; 63; 10; 126; 97])|].
  destruct (interpreter_transparent [108; 115; 10]) as (_ & _ & _ & _ & Hs).
  destruct (interpreter_transparent [108; 115; 10; 126]) as (_ & Hc & _).
  split; [apply Hs; reflexivity|]. apply (Hc 63 Help). reflexivity.
Defined.
