(* ===== verification/Float32.v ===== *)
(** * Single-precision arithmetic

    [f32] as IEEE 754 binary32 ([SpecFloat] of the Standard Library, round to nearest even), with the
    casts the code uses. *)

From Stdlib Require Import Floats.SpecFloat.
From S2P Require Import Prelude.

Abbreviation f32 := spec_float (only parsing).

Definition f32_of_Z (n : Z) : f32 := binary_normalize 24 128 n 0 false.
Definition f32_add (x y : f32) : f32 := SFadd 24 128 x y.
Definition f32_sub (x y : f32) : f32 := SFsub 24 128 x y.
Definition f32_mul (x y : f32) : f32 := SFmul 24 128 x y.
Definition f32_div (x y : f32) : f32 := SFdiv 24 128 x y.
Definition f32_abs (x : f32) : f32 := SFabs x.
Definition f32_gt (x y : f32) : bool := SFltb y x.

(** The literal [n / d]: both are exact, so their quotient is correctly rounded. *)
Definition f32_lit (n d : Z) : f32 := f32_div (f32_of_Z n) (f32_of_Z d).

(** [as u32]: truncation toward zero, saturating; not-a-number is 0. *)
Definition f32_to_u32 (x : f32) : Z :=
  match x with
  | S754_nan | S754_zero _ | S754_infinity true | S754_finite true _ _ => 0
  | S754_infinity false => 2 ^ 32 - 1
  | S754_finite false m e =>
    Z.min (2 ^ 32 - 1) (if 0 <=? e then Z.pos m * 2 ^ Z.min e 64 else Z.pos m / 2 ^ (- e))
  end.

#[export] Instance spec_float_eq_dec : EqDecision spec_float.
Proof. solve_decision. Defined.
