(* ===== verification/Frame.v ===== *)
(** * The client's screen: [src/src/client/terminal.rs] (1-171)

    [TerminalFrame] is the mirror the renderer paints from. *)

From Stdlib Require Import Floats.SpecFloat.
From S2P Require Import Prelude Utf8 Grid Float32.

Record TerminalFrame := mkFrame {
  tf_cols : Z;
  tf_rows : Z;
  tf_cell_cache : list LocalCellData;
  tf_row_dirty : list bool;
  tf_cursor_x : Z;
  tf_cursor_y : Z;
  tf_cursor_visible : bool;
  tf_dirty : bool;
  tf_reconnecting : bool;
  tf_last_seq : Z;
  tf_overlay_enabled : bool;
  tf_rtt_ms : Z;
  tf_packet_loss_pct : f32;
  tf_bandwidth_kb_s : f32;
  tf_compression_ratio : f32;
  tf_fps : Z;
  tf_clear_requested : bool;
}.
#[export] Instance TerminalFrame_eta : Eta TerminalFrame := λ f,
  mkFrame (tf_cols f) (tf_rows f) (tf_cell_cache f) (tf_row_dirty f) (tf_cursor_x f) (tf_cursor_y f)
    (tf_cursor_visible f) (tf_dirty f) (tf_reconnecting f) (tf_last_seq f) (tf_overlay_enabled f)
    (tf_rtt_ms f) (tf_packet_loss_pct f) (tf_bandwidth_kb_s f) (tf_compression_ratio f) (tf_fps f)
    (tf_clear_requested f).

(** Two columns for CJK, Hangul, full-width forms and pictographs, by the first character. *)
Definition grapheme_width (g : str) : Z :=
  match first_char g with
  | None => 0
  | Some val =>
    if ((19968 <=? val) && (val <=? 40959)) || ((44032 <=? val) && (val <=? 55215)) ||
       ((12288 <=? val) && (val <=? 12351)) || ((12352 <=? val) && (val <=? 12543)) ||
       ((65280 <=? val) && (val <=? 65519)) || ((127744 <=? val) && (val <=? 129535))
    then 2 else 1
  end.

Definition TerminalFrame_new (cols rows : Z) : TerminalFrame :=
  {| tf_cols := cols; tf_rows := rows; tf_cell_cache := vec blank_cell (cols * rows);
     tf_row_dirty := vec true rows; tf_cursor_x := 0; tf_cursor_y := 0; tf_cursor_visible := false;
     tf_dirty := true; tf_reconnecting := false; tf_last_seq := 0; tf_overlay_enabled := false;
     tf_rtt_ms := 0; tf_packet_loss_pct := f32_of_Z 0; tf_bandwidth_kb_s := f32_of_Z 0;
     tf_compression_ratio := f32_of_Z 1; tf_fps := 0; tf_clear_requested := false |}.

(** ** [update_from_grid_state] *)

Definition frame_resize (new_state : GridState) (self : TerminalFrame) : TerminalFrame * bool :=
  if decide (tf_cols self ≠ gs_cols new_state ∨ tf_rows self ≠ gs_rows new_state) then
    (self <| tf_cols := gs_cols new_state |> <| tf_rows := gs_rows new_state |>
          <| tf_cell_cache := vec blank_cell (gs_cols new_state * gs_rows new_state) |>
          <| tf_row_dirty := vec true (gs_rows new_state) |> <| tf_clear_requested := true |>, true)
  else (self, false).

(** The loop over the columns of a row: cells that differ are copied; cells outside either grid are
    skipped. *)
Fixpoint update_columns (new_cells : list LocalCellData) (idx : nat) (n : nat)
    (cache : list LocalCellData) : list LocalCellData * bool :=
  match n with
  | O => (cache, false)
  | S n =>
    let '(cache, changed) :=
      match cache !! idx, new_cells !! idx with
      | Some old, Some new =>
        if decide (old ≠ new) then (<[idx := new]> cache, true) else (cache, false)
      | _, _ => (cache, false)
      end in
    let '(cache, changed') := update_columns new_cells (S idx) n cache in
    (cache, changed || changed')
  end.

Definition update_frame_row (new_state : GridState) (y : Z) : M TerminalFrame unit :=
  self ← get;
  let '(cache, row_changed) :=
    update_columns (gs_cells new_state) (Z.to_nat (y * tf_cols self)) (Z.to_nat (tf_cols self))
      (tf_cell_cache self) in
  modify (λ self, self <| tf_cell_cache := cache |>) ;;
  if row_changed then
    row_dirty ← lift (vec_set (tf_row_dirty self) y true);
    modify (λ self, self <| tf_row_dirty := row_dirty |> <| tf_dirty := true |>)
  else mret tt.

Definition update_from_grid_state (new_state : GridState) : M TerminalFrame bool :=
  self ← get;
  let '(self, resized) := frame_resize new_state self in
  modify (λ _, self) ;;
  for_each_m (range (tf_rows self)) (update_frame_row new_state) ;;
  self ← get;
  modify (λ self,
    if decide (tf_cursor_x self ≠ gs_cursor_x new_state ∨ tf_cursor_y self ≠ gs_cursor_y new_state ∨
               tf_cursor_visible self ≠ gs_cursor_visible new_state)
    then self <| tf_cursor_x := gs_cursor_x new_state |> <| tf_cursor_y := gs_cursor_y new_state |>
              <| tf_cursor_visible := gs_cursor_visible new_state |> <| tf_dirty := true |>
    else self) ;;
  mret resized.

(** [copy_to] copies every field. *)
Definition copy_to (self dest : TerminalFrame) : TerminalFrame :=
  dest <| tf_cols := tf_cols self |> <| tf_rows := tf_rows self |>
       <| tf_cell_cache := tf_cell_cache self |> <| tf_row_dirty := tf_row_dirty self |>
       <| tf_cursor_x := tf_cursor_x self |> <| tf_cursor_y := tf_cursor_y self |>
       <| tf_cursor_visible := tf_cursor_visible self |> <| tf_dirty := tf_dirty self |>
       <| tf_reconnecting := tf_reconnecting self |> <| tf_last_seq := tf_last_seq self |>
       <| tf_overlay_enabled := tf_overlay_enabled self |> <| tf_rtt_ms := tf_rtt_ms self |>
       <| tf_packet_loss_pct := tf_packet_loss_pct self |>
       <| tf_bandwidth_kb_s := tf_bandwidth_kb_s self |>
       <| tf_compression_ratio := tf_compression_ratio self |> <| tf_fps := tf_fps self |>
       <| tf_clear_requested := tf_clear_requested self |>.

(** ** Well-formed frames *)

Definition frame_wf (f : TerminalFrame) : Prop :=
  u16 (tf_cols f) ∧ u16 (tf_rows f) ∧ len (tf_cell_cache f) = tf_cols f * tf_rows f ∧
  len (tf_row_dirty f) = tf_rows f.
#[export] Instance frame_wf_dec f : Decision (frame_wf f).
Proof. unfold frame_wf. apply _. Defined.

Lemma TerminalFrame_new_wf cols rows : u16 cols → u16 rows → frame_wf (TerminalFrame_new cols rows).
Proof.
  intros Hc Hr. unfold fits in *. split_and!; cbn; try (unfold fits; lia); apply len_vec; nia.
Qed.

(** ** The update, exactly *)

Lemma update_columns_spec new idx n cache cache' changed :
  (idx + n ≤ length cache)%nat → (idx + n ≤ length new)%nat →
  update_columns new idx n cache = (cache', changed) →
  length cache' = length cache ∧
  (∀ j, cache' !! j = if decide (idx ≤ j < idx + n)%nat then new !! j else cache !! j) ∧
  (changed = true ↔ ∃ j, (idx ≤ j < idx + n)%nat ∧ cache !! j ≠ new !! j).
Proof.
  revert idx cache cache' changed. induction n as [|n IH]; intros idx cache cache' changed Hc Hn; cbn.
  { intros [= <- <-]. split; [done|]. split.
    - intros j. rewrite decide_False by lia. done.
    - split; [done|]. intros (j & ? & _). lia. }
  destruct (lookup_lt_is_Some_2 cache idx) as [old Hold]; [lia|].
  destruct (lookup_lt_is_Some_2 new idx) as [nw Hnw]; [lia|]. rewrite Hold, Hnw.
  set (step := if decide (old ≠ nw) then (<[idx:=nw]> cache, true) else (cache, false)).
  assert (step = (<[idx:=nw]> cache, bool_decide (old ≠ nw))) as ->.
  { unfold step. case_decide as Hd; [by rewrite bool_decide_true|].
    rewrite bool_decide_false by congruence. f_equal. symmetry. apply list_insert_id.
    congruence. }
  destruct (update_columns new (S idx) n (<[idx:=nw]> cache)) as [c1 ch1] eqn:E.
  intros [= <- <-]. apply IH in E as (Hl & Hlk & Hch); [|rewrite length_insert; lia|lia].
  rewrite length_insert in Hl. split; [done|]. split.
  - intros j. rewrite Hlk. destruct (decide (j = idx)) as [->|Hne].
    + rewrite decide_False, decide_True by lia. rewrite list_lookup_insert_eq by lia. done.
    + rewrite list_lookup_insert_ne by done.
      destruct (decide (S idx ≤ j < S idx + n)%nat); [by rewrite decide_True by lia|].
      by rewrite decide_False by lia.
  - rewrite orb_true_iff, bool_decide_eq_true, Hch. split.
    + intros [Hd|(j & Hj & Hjc)].
      * exists idx. split; [lia|]. rewrite Hold, Hnw. congruence.
      * exists j. split; [lia|]. by rewrite list_lookup_insert_ne in Hjc by lia.
    + intros (j & Hj & Hjc). destruct (decide (j = idx)) as [->|Hne].
      * left. rewrite Hold, Hnw in Hjc. congruence.
      * right. exists j. split; [lia|]. by rewrite list_lookup_insert_ne by done.
Qed.

(** Row [y] of two cell lists of [cols] columns differs. *)
Definition row_differs (cols y : Z) (l l' : list LocalCellData) : Prop :=
  ∃ x, 0 ≤ x < cols ∧ l !! Z.to_nat (y * cols + x) ≠ l' !! Z.to_nat (y * cols + x).

(** The first [k] rows have been brought up to date from [f0]. *)
Record rows_updated (g : GridState) (f0 : TerminalFrame) (k : Z) (f : TerminalFrame) : Prop := {
  ru_cells_len : length (tf_cell_cache f) = length (tf_cell_cache f0);
  ru_dirty_len : length (tf_row_dirty f) = length (tf_row_dirty f0);
  ru_cells_at j : tf_cell_cache f !! j =
    if decide (Z.of_nat j < k * tf_cols f0) then gs_cells g !! j else tf_cell_cache f0 !! j;
  ru_flags y : 0 ≤ y < tf_rows f0 → tf_row_dirty f !! Z.to_nat y = Some true ↔
    tf_row_dirty f0 !! Z.to_nat y = Some true ∨
    y < k ∧ row_differs (tf_cols f0) y (tf_cell_cache f0) (gs_cells g);
  ru_dirty : tf_dirty f = true ↔ tf_dirty f0 = true ∨
    ∃ y, 0 ≤ y < k ∧ row_differs (tf_cols f0) y (tf_cell_cache f0) (gs_cells g);
  ru_rest : f = f0 <| tf_cell_cache := tf_cell_cache f |> <| tf_row_dirty := tf_row_dirty f |>
                   <| tf_dirty := tf_dirty f |>;
}.

Lemma update_frame_row_run g f0 k f :
  frame_wf f0 → tf_cols f0 = gs_cols g → tf_rows f0 = gs_rows g → grid_wf g → 0 ≤ k < tf_rows f0 →
  rows_updated g f0 k f →
  ∃ f', update_frame_row g k f = (f', Ok tt) ∧ rows_updated g f0 (k + 1) f'.
Proof.
  intros (Hc & Hr & Hcl & Hdl) Hgc Hgr (_ & _ & Hgl & _) Hk [L1 L2 Hat Hfl Hd Hrest].
  unfold fits, len in *. rewrite <-Hgc, <-Hgr in Hgl.
  assert (tf_cols f = tf_cols f0) as Ec by (by rewrite Hrest).
  unfold update_frame_row, mbind, M_bind, get. rewrite Ec.
  destruct (update_columns _ _ _ _) as [cache changed] eqn:E.
  apply update_columns_spec in E as (Hl & Hlk & Hch); [|nia|nia].
  assert (∀ j, (Z.to_nat (k * tf_cols f0) ≤ j < Z.to_nat (k * tf_cols f0) + Z.to_nat (tf_cols f0))%nat →
    tf_cell_cache f !! j = tf_cell_cache f0 !! j) as Hold.
  { intros j Hj. rewrite Hat. rewrite decide_False by nia. done. }
  assert (changed = true ↔ row_differs (tf_cols f0) k (tf_cell_cache f0) (gs_cells g)) as Hrow.
  { rewrite Hch. split.
    - intros (j & Hj & Hne). exists (Z.of_nat j - k * tf_cols f0). split; [nia|].
      replace (Z.to_nat (k * tf_cols f0 + (Z.of_nat j - k * tf_cols f0))) with j by lia.
      by rewrite <-Hold.
    - intros (x & Hx & Hne). exists (Z.to_nat (k * tf_cols f0 + x)). split; [nia|].
      by rewrite Hold by nia. }
  assert (∀ j, cache !! j = if decide (Z.of_nat j < (k + 1) * tf_cols f0) then gs_cells g !! j
                            else tf_cell_cache f0 !! j) as Hcache.
  { intros j. rewrite Hlk, Hat. repeat case_decide; try done; nia. }
  cbn. destruct changed.
  - rewrite vec_set_ok by (unfold len; lia). eexists. split; [done|]. split; cbn; try done.
    + lia.
    + by rewrite length_insert.
    + intros y Hy. destruct (decide (y = k)) as [->|Hne].
      * rewrite list_lookup_insert_eq by lia. split; [|done]. intros _. right. split; [lia|].
        by apply Hrow.
      * rewrite list_lookup_insert_ne by lia. rewrite Hfl by done. split.
        -- intros [?|[? ?]]; [by left|right; split; [lia|done]].
        -- intros [?|[? ?]]; [by left|right; split; [lia|done]].
    + split; [|done]. intros _. right. exists k. split; [lia|]. by apply Hrow.
    + by rewrite Hrest.
  - eexists. split; [done|]. split; cbn; try done.
    + lia.
    + intros y Hy. rewrite Hfl by done. split.
      * intros [?|[? ?]]; [by left|right; split; [lia|done]].
      * intros [?|[? Hx]]; [by left|]. destruct (decide (y = k)) as [->|Hne].
        -- apply Hrow in Hx. done.
        -- right. split; [lia|done].
    + rewrite Hd. split.
      * intros [?|(y & ? & ?)]; [by left|right; exists y; split; [lia|done]].
      * intros [?|(y & ? & Hx)]; [by left|]. destruct (decide (y = k)) as [->|Hne].
        -- apply Hrow in Hx. done.
        -- right. exists y. split; [lia|done].
    + by rewrite Hrest.
Qed.

(** The frame the rows are compared with: blank, all rows flagged, when the size changes. *)
Definition sized_frame (g : GridState) (f : TerminalFrame) : TerminalFrame := (frame_resize g f).1.

Lemma sized_frame_wf g f : grid_wf g → frame_wf f → frame_wf (sized_frame g f) ∧
  tf_cols (sized_frame g f) = gs_cols g ∧ tf_rows (sized_frame g f) = gs_rows g.
Proof.
  intros (Hc & Hr & Hl & Hw) Hf. unfold sized_frame, frame_resize. case_decide as Hd; cbn.
  - split; [|done]. split; [done|]. split; [done|]. unfold fits in *. split; cbn; apply len_vec; nia.
  - split; [done|]. split; apply dec_stable; tauto.
Qed.

Lemma update_frame_run f g :
  frame_wf f → grid_wf g →
  let f0 := sized_frame g f in
  ∃ f', update_from_grid_state g f =
      (f', Ok (bool_decide (tf_cols f ≠ gs_cols g ∨ tf_rows f ≠ gs_rows g))) ∧
    frame_wf f' ∧ tf_cols f' = gs_cols g ∧ tf_rows f' = gs_rows g ∧ tf_cell_cache f' = gs_cells g ∧
    tf_cursor_x f' = gs_cursor_x g ∧ tf_cursor_y f' = gs_cursor_y g ∧
    tf_cursor_visible f' = gs_cursor_visible g ∧
    (∀ y, 0 ≤ y < gs_rows g → tf_row_dirty f' !! Z.to_nat y = Some true ↔
       tf_row_dirty f0 !! Z.to_nat y = Some true ∨
       row_differs (gs_cols g) y (tf_cell_cache f0) (gs_cells g)) ∧
    (tf_dirty f' = true ↔ tf_dirty f0 = true ∨
       (∃ y, 0 ≤ y < gs_rows g ∧ row_differs (gs_cols g) y (tf_cell_cache f0) (gs_cells g)) ∨
       ¬ (tf_cursor_x f0 = gs_cursor_x g ∧ tf_cursor_y f0 = gs_cursor_y g ∧
          tf_cursor_visible f0 = gs_cursor_visible g)) ∧
    tf_clear_requested f' = tf_clear_requested f0 ∧ tf_last_seq f' = tf_last_seq f ∧
    tf_reconnecting f' = tf_reconnecting f ∧ tf_overlay_enabled f' = tf_overlay_enabled f.
Proof.
  intros Hf Hg f0. destruct (sized_frame_wf g f Hg Hf) as (Hf0 & Hc0 & Hr0). fold f0 in Hf0, Hc0, Hr0.
  assert (0 ≤ tf_rows f0) as Hpos by (destruct Hf0 as (_ & Hr & _); unfold fits in Hr; lia).
  destruct (for_each_m_range (rows_updated g f0) (tf_rows f0) (update_frame_row g) f0 Hpos)
    as (f1 & E1 & [L1 L2 Hat Hfl Hd Hrest]).
  { split; try done.
    - intros j. rewrite decide_False by lia. done.
    - intros y Hy. split; [by left|]. intros [?|[? _]]; [done|lia].
    - split; [by left|]. intros [?|(y & ? & _)]; [done|lia].
    - by destruct f0. }
  { intros k s Hk Hs. by apply update_frame_row_run. }
  assert (tf_cell_cache f1 = gs_cells g) as Hcells.
  { destruct Hg as (_ & _ & Hgl & _), Hf0 as (_ & _ & Hcl & _). unfold len in *.
    rewrite Hc0, Hr0 in Hcl. apply list_eq_same_length with (length (gs_cells g)); [lia|lia|].
    intros i a b Hi Ha Hb. rewrite Hat in Ha. rewrite Hc0, decide_True in Ha by nia. congruence. }
  set (f2 := if decide (tf_cursor_x f1 ≠ gs_cursor_x g ∨ tf_cursor_y f1 ≠ gs_cursor_y g ∨
               tf_cursor_visible f1 ≠ gs_cursor_visible g)
    then f1 <| tf_cursor_x := gs_cursor_x g |> <| tf_cursor_y := gs_cursor_y g |>
            <| tf_cursor_visible := gs_cursor_visible g |> <| tf_dirty := true |>
    else f1).
  assert (tf_last_seq f0 = tf_last_seq f ∧ tf_reconnecting f0 = tf_reconnecting f ∧
    tf_overlay_enabled f0 = tf_overlay_enabled f) as (Hls & Hrec & Hov)
    by (unfold f0, sized_frame, frame_resize; by case_decide).
  exists f2. split.
  { unfold update_from_grid_state, mbind, M_bind, get, modify, mret, M_ret.
    assert (frame_resize g f = (f0, bool_decide (tf_cols f ≠ gs_cols g ∨ tf_rows f ≠ gs_rows g))) as ->.
    { unfold f0, sized_frame, frame_resize. case_decide; [by rewrite bool_decide_true|].
      by rewrite bool_decide_false. }
    by rewrite E1. }
  assert (tf_cursor_x f1 = tf_cursor_x f0 ∧ tf_cursor_y f1 = tf_cursor_y f0 ∧
    tf_cursor_visible f1 = tf_cursor_visible f0) as (X1 & X2 & X3) by (by rewrite Hrest).
  assert (frame_wf f1 ∧ tf_cols f1 = gs_cols g ∧ tf_rows f1 = gs_rows g ∧
    tf_clear_requested f1 = tf_clear_requested f0 ∧ tf_last_seq f1 = tf_last_seq f ∧
    tf_reconnecting f1 = tf_reconnecting f ∧ tf_overlay_enabled f1 = tf_overlay_enabled f)
    as (W & Y1 & Y2 & Y3 & Y4 & Y5 & Y6).
  { unfold frame_wf, len. rewrite L1, L2, Hrest. cbn. by rewrite Hls, Hrec, Hov. }
  rewrite Hc0, Hr0 in *. rewrite <-X1, <-X2, <-X3.
  assert (∀ y, 0 ≤ y < gs_rows g → tf_row_dirty f1 !! Z.to_nat y = Some true ↔
       tf_row_dirty f0 !! Z.to_nat y = Some true ∨
       row_differs (gs_cols g) y (tf_cell_cache f0) (gs_cells g)) as Hfl'.
  { intros y Hy. rewrite Hfl by done. split; (intros [?|?]; [by left|right]); tauto. }
  unfold f2. case_decide as Hcur.
  - cbn. do 8 (split; [done|]). split; [|done]. split; [|done]. intros _. right; right. tauto.
  - assert (tf_cursor_x f1 = gs_cursor_x g ∧ tf_cursor_y f1 = gs_cursor_y g ∧
      tf_cursor_visible f1 = gs_cursor_visible g) as (Z1 & Z2 & Z3)
      by (split_and!; apply dec_stable; tauto).
    do 8 (split; [done|]). split; [|done]. rewrite Hd. split.
    + intros [?|?]; [by left|right; by left].
    + intros [?|[?|[]]]; [by left|by right|done].
Qed.

(** C30. Applying a server state to the client's mirror is exact. On well-formed values it never
    fails; afterwards the mirror has the state's size, cells and cursor; a row is flagged for
    repainting exactly when it already was or one of its cells changed (after a change of size every
    row is compared with a blank screen, is flagged, and the screen is to be cleared); the frame as a
    whole is flagged exactly when it already was, or a row or the cursor changed; and the call
    reports whether the size changed. *)
Theorem update_from_grid_state_exact f g :
  frame_wf f → grid_wf g →
  let f0 := sized_frame g f in
  ∃ f', update_from_grid_state g f =
      (f', Ok (bool_decide (tf_cols f ≠ gs_cols g ∨ tf_rows f ≠ gs_rows g))) ∧
    frame_wf f' ∧ tf_cols f' = gs_cols g ∧ tf_rows f' = gs_rows g ∧ tf_cell_cache f' = gs_cells g ∧
    tf_cursor_x f' = gs_cursor_x g ∧ tf_cursor_y f' = gs_cursor_y g ∧
    tf_cursor_visible f' = gs_cursor_visible g ∧
    (∀ y, 0 ≤ y < gs_rows g → tf_row_dirty f' !! Z.to_nat y = Some true ↔
       tf_row_dirty f0 !! Z.to_nat y = Some true ∨
       row_differs (gs_cols g) y (tf_cell_cache f0) (gs_cells g)) ∧
    (tf_dirty f' = true ↔ tf_dirty f0 = true ∨
       (∃ y, 0 ≤ y < gs_rows g ∧ row_differs (gs_cols g) y (tf_cell_cache f0) (gs_cells g)) ∨
       ¬ (tf_cursor_x f0 = gs_cursor_x g ∧ tf_cursor_y f0 = gs_cursor_y g ∧
          tf_cursor_visible f0 = gs_cursor_visible g)).
Proof.
  intros Hf Hg f0. destruct (update_frame_run f g Hf Hg) as (f' & E & ? & ? & ? & ? & ? & ? & ? & ? & ? & _).
  by exists f'.
Qed.

Lemma update_from_grid_state_exact_witness :
  ∃ f', update_from_grid_state demo_self (TerminalFrame_new 3 2) =
      (f', Ok (bool_decide (3 ≠ gs_cols demo_self ∨ 2 ≠ gs_rows demo_self))) ∧
    tf_cell_cache f' = gs_cells demo_self.
Proof.
  destruct (update_from_grid_state_exact (TerminalFrame_new 3 2) demo_self)
    as (f' & E & _ & _ & _ & Hc & _).
  - apply (bool_decide_unpack _). vm_compute. exact I.
  - apply (bool_decide_unpack _). vm_compute. exact I.
  - exists f'. split; [exact E|exact Hc].
Defined.
