(* ===== verification/Echo.v ===== *)
(** * Predictive local echo: [src/src/client/echo.rs]

    [LocalEchoEngine] draws what the user types into the client's mirror before the server confirms
    it, and keeps an undo log. *)

From Stdlib Require Import Floats.SpecFloat.
From S2P Require Import Prelude Utf8 Grid Float32 Frame.

Abbreviation bytes := (list Z) (only parsing).

(** A cell as it was before a prediction overwrote it. *)
Abbreviation SavedCell := (Z * Z * LocalCellData)%type (only parsing).

Record PredictionEntry := mkEntry {
  pe_seq_num : Z;
  pe_bytes : bytes;
  pe_epoch : Z;
  pe_old_cursor_x : Z;
  pe_old_cursor_y : Z;
  pe_old_cells : list SavedCell;
}.

Record LocalEchoEngine := mkEcho {
  le_unconfirmed_inputs : list PredictionEntry;
  le_current_epoch : Z;
}.
#[export] Instance LocalEchoEngine_eta : Eta LocalEchoEngine := λ e,
  mkEcho (le_unconfirmed_inputs e) (le_current_epoch e).

Definition LocalEchoEngine_new : LocalEchoEngine :=
  {| le_unconfirmed_inputs := []; le_current_epoch := 0 |}.

(** ** [apply_keystrokes] *)

(** The frame being drawn on and the cells saved so far. *)
Abbreviation Drawing := (TerminalFrame * list SavedCell)%type (only parsing).

Definition on_screen (x y : Z) (frame : TerminalFrame) : Prop := x < tf_cols frame ∧ y < tf_rows frame.
#[export] Instance on_screen_dec x y f : Decision (on_screen x y f).
Proof. unfold on_screen. apply _. Defined.

Definition cell_idx (x y : Z) (frame : TerminalFrame) : Z := y * tf_cols frame + x.

(** Saves the cell under ([x], [y]) unless it is saved already, then overwrites it. *)
Definition draw (x y : Z) (cell : LocalCellData) : M Drawing unit :=
  '(frame, old_cells) ← get;
  let idx := cell_idx x y frame in
  old_cells ← (if decide (Exists (λ '(ox, oy, _), ox = x ∧ oy = y) old_cells) then mret old_cells
               else old ← lift (vec_get (tf_cell_cache frame) idx); mret (old_cells ++ [(x, y, old)]));
  cells ← lift (vec_set (tf_cell_cache frame) idx cell);
  modify (λ _, (frame <| tf_cell_cache := cells |>, old_cells)).

Definition set_cursor (x y : Z) (frame : TerminalFrame) : TerminalFrame :=
  frame <| tf_cursor_x := x |> <| tf_cursor_y := y |>.

Definition next_line (frame : TerminalFrame) : Z :=
  Z.min (tf_cursor_y frame +₁₆ 1) (saturating_sub (tf_rows frame) 1).

Definition apply_byte (b : Z) : M Drawing unit :=
  '(frame, _) ← get;
  if b =? 13 then modify (λ '(f, o), (set_cursor 0 (tf_cursor_y frame) f, o))
  else if b =? 10 then modify (λ '(f, o), (set_cursor 0 (next_line frame) f, o))
  else if (b =? 8) || (b =? 127) then
    if decide (0 < tf_cursor_x frame) then
      let x := tf_cursor_x frame - 1 in
      let y := tf_cursor_y frame in
      modify (λ '(f, o), (set_cursor x y f, o)) ;;
      if decide (on_screen x y frame) then draw x y blank_cell else mret tt
    else mret tt
  else if (32 <=? b) && (b <? 127) then
    let x := tf_cursor_x frame in
    let y := tf_cursor_y frame in
    if decide (on_screen x y frame) then
      draw x y (blank_cell <| graphemes := CompactGrapheme_new [b] |>) ;;
      let x := x +₁₆ 1 in
      if decide (tf_cols frame ≤ x) then modify (λ '(f, o), (set_cursor 0 (next_line frame) f, o))
      else modify (λ '(f, o), (set_cursor x y f, o))
    else mret tt
  else mret tt.

Definition apply_keystrokes (bs : bytes) (seq_num : Z) : M (LocalEchoEngine * TerminalFrame) unit :=
  '(self, frame) ← get;
  let '((frame', old_cells), r) := for_each_m bs apply_byte (frame, []) in
  modify (λ _, (self, frame')) ;;
  lift r ;;
  modify (λ _, (self <| le_unconfirmed_inputs ::= λ l, l ++
    [{| pe_seq_num := seq_num; pe_bytes := bs; pe_epoch := le_current_epoch self;
        pe_old_cursor_x := tf_cursor_x frame; pe_old_cursor_y := tf_cursor_y frame;
        pe_old_cells := old_cells |}] |>, frame')).

(** ** [reconcile_frame] *)

Fixpoint drop_confirmed (ack_seq epoch : Z) (l : list PredictionEntry) : list PredictionEntry :=
  match l with
  | front :: rest =>
    if decide (pe_seq_num front ≤ ack_seq ∨ pe_epoch front < epoch)
    then drop_confirmed ack_seq epoch rest else l
  | [] => []
  end.

(** The surviving predictions are drained and drawn again. *)
Definition reconcile_frame (ack_seq : Z) : M (LocalEchoEngine * TerminalFrame) unit :=
  '(self, frame) ← get;
  let surviving := drop_confirmed ack_seq (le_current_epoch self) (le_unconfirmed_inputs self) in
  modify (λ _, (self <| le_unconfirmed_inputs := [] |>, frame)) ;;
  for_each_m surviving (λ entry, apply_keystrokes (pe_bytes entry) (pe_seq_num entry)).

(** ** [abort] *)

Definition restore_cell (c : SavedCell) : M TerminalFrame unit :=
  let '(x, y, cell) := c in
  frame ← get;
  if decide (on_screen x y frame) then
    cells ← lift (vec_set (tf_cell_cache frame) (cell_idx x y frame) cell);
    modify (λ f, f <| tf_cell_cache := cells |>)
  else mret tt.

Definition undo_entry (entry : PredictionEntry) : M TerminalFrame unit :=
  modify (set_cursor (pe_old_cursor_x entry) (pe_old_cursor_y entry)) ;;
  for_each_m (reverse (pe_old_cells entry)) restore_cell.

Definition abort (s : LocalEchoEngine * TerminalFrame) : (LocalEchoEngine * TerminalFrame) * outcome unit :=
  let '(self, frame) := s in
  let '(frame, r) := for_each_m (reverse (le_unconfirmed_inputs self)) undo_entry frame in
  match r with
  | Ok _ => ((self <| le_unconfirmed_inputs := [] |> <| le_current_epoch ::= λ e, e +₆₄ 1 |>, frame), Ok tt)
  | Err e => ((self, frame), Err e)
  | Panic => ((self, frame), Panic)
  end.

(** ** The undo log *)

Definition cursor_ok (f : TerminalFrame) : Prop := u16 (tf_cursor_x f) ∧ u16 (tf_cursor_y f).
#[export] Instance cursor_ok_dec f : Decision (cursor_ok f).
Proof. unfold cursor_ok. apply _. Defined.

(** A saved cell names a place on the screen and holds what [f0] shows there. *)
Definition saved_ok (f0 : TerminalFrame) (e : SavedCell) : Prop :=
  let '(x, y, c) := e in
  0 ≤ x ∧ 0 ≤ y ∧ on_screen x y f0 ∧ tf_cell_cache f0 !! Z.to_nat (cell_idx x y f0) = Some c.

(** [f] is [f0] drawn over, [saved] the cells it has lost. *)
Record drawn (f0 f : TerminalFrame) (saved : list SavedCell) : Prop := {
  dr_rest : f = f0 <| tf_cell_cache := tf_cell_cache f |> <| tf_cursor_x := tf_cursor_x f |>
                   <| tf_cursor_y := tf_cursor_y f |>;
  dr_cursor : cursor_ok f;
  dr_len : length (tf_cell_cache f) = length (tf_cell_cache f0);
  dr_saved : Forall (saved_ok f0) saved;
  dr_same j : (∀ x y c, (x, y, c) ∈ saved → Z.to_nat (cell_idx x y f0) ≠ j) →
    tf_cell_cache f !! j = tf_cell_cache f0 !! j;
}.

Lemma drawn_start f : cursor_ok f → drawn f f [].
Proof. intros Hc. split; try done. by destruct f. Qed.

Lemma drawn_dims f0 f saved :
  drawn f0 f saved → tf_cols f = tf_cols f0 ∧ tf_rows f = tf_rows f0.
Proof. intros [Hr _ _ _ _]. by rewrite Hr. Qed.

Lemma cell_idx_inj f x y x' y' :
  0 ≤ x → 0 ≤ x' → 0 ≤ y → 0 ≤ y' → on_screen x y f → on_screen x' y' f →
  Z.to_nat (cell_idx x y f) = Z.to_nat (cell_idx x' y' f) → x = x' ∧ y = y'.
Proof. unfold cell_idx. intros ? ? ? ? [? ?] [? ?] E. assert (y = y') as -> by nia. split; nia. Qed.

Lemma cell_idx_bound f x y :
  frame_wf f → 0 ≤ x → 0 ≤ y → on_screen x y f → 0 ≤ cell_idx x y f < len (tf_cell_cache f).
Proof. intros (_ & _ & -> & _) Hx Hy [? ?]. unfold cell_idx. nia. Qed.

Lemma drawn_cursor f0 f saved x y : drawn f0 f saved → u16 x → u16 y → drawn f0 (set_cursor x y f) saved.
Proof. intros [Hr Hc Hl Hs Hsame] Hx Hy. split; try done. by rewrite Hr. Qed.

Lemma draw_run f0 f saved x y c :
  frame_wf f0 → drawn f0 f saved → 0 ≤ x → 0 ≤ y → on_screen x y f0 →
  ∃ saved', let f' := f <| tf_cell_cache := <[Z.to_nat (cell_idx x y f0) := c]> (tf_cell_cache f) |> in
    runs (draw x y c) (f, saved) (f', saved') tt ∧ drawn f0 f' saved'.
Proof.
  intros Hwf Hd Hx Hy Hon. pose proof (cell_idx_bound f0 x y Hwf Hx Hy Hon) as Hi.
  pose proof (drawn_dims f0 f saved Hd) as [Ec Er]. pose proof Hd as [Hr Hc Hl Hs Hsame].
  assert (cell_idx x y f = cell_idx x y f0) as Eidx by (unfold cell_idx; by rewrite Ec).
  assert (0 ≤ cell_idx x y f0 < len (tf_cell_cache f)) as Hi' by (unfold len in *; lia).
  set (known := Exists (λ '(ox, oy, _), ox = x ∧ oy = y) saved).
  assert (∃ saved', runs (if decide known then mret saved
      else old ← lift (vec_get (tf_cell_cache f) (cell_idx x y f)); mret (saved ++ [(x, y, old)]))
      (f, saved) (f, saved) saved' ∧ Forall (saved_ok f0) saved' ∧
      (∀ e, e ∈ saved → e ∈ saved') ∧ ∃ old, (x, y, old) ∈ saved') as (saved' & Er' & Hs' & Hin & old & Hold).
  { destruct (decide known) as [Hk|Hk].
    - exists saved. split; [apply runs_ret|]. split; [done|]. split; [done|].
      apply Exists_exists in Hk as ([[ox oy] oc] & Hoin & -> & ->). by exists oc.
    - destruct (vec_get_Some (tf_cell_cache f) (cell_idx x y f0) Hi') as (old & Hold & Hget).
      exists (saved ++ [(x, y, old)]). split.
      { rewrite Eidx. eapply runs_bind; [apply runs_lift, Hget|]. apply runs_ret. }
      split; [|split].
      + apply Forall_app. split; [done|]. constructor; [|done]. split; [done|]. split; [done|].
        split; [done|]. rewrite <-Hsame; [done|]. intros x' y' c' Hin E.
        rewrite Forall_forall in Hs. destruct (Hs _ Hin) as (Hx' & Hy' & Hon' & _).
        apply cell_idx_inj in E as [-> ->]; [|done..]. apply Hk, Exists_exists.
        by exists (x, y, c').
      + intros e He. apply elem_of_app. by left.
      + exists old. apply elem_of_app. right. by apply list_elem_of_singleton. }
  exists saved'. split.
  { unfold draw. mstep. eapply runs_bind; [exact Er'|].
    eapply runs_bind; [apply runs_lift; rewrite Eidx; by apply vec_set_ok|]. done. }
  split; cbn.
  - by rewrite Hr.
  - done.
  - by rewrite length_insert.
  - done.
  - intros j Hj. rewrite list_lookup_insert_ne by (by eapply Hj). apply Hsame. intros x' y' c' Hin'.
    eapply Hj. by apply Hin.
Qed.

Lemma next_line_u16 f : u16 (tf_rows f) → u16 (next_line f).
Proof.
  intros Hr. unfold next_line, saturating_sub, fits in *.
  pose proof (wrap_fits 16 (tf_cursor_y f + 1)) as Hw. unfold fits in Hw. lia.
Qed.

Lemma apply_byte_run f0 f saved b :
  frame_wf f0 → drawn f0 f saved →
  ∃ f' saved', runs (apply_byte b) (f, saved) (f', saved') tt ∧ drawn f0 f' saved'.
Proof.
  intros Hwf Hd. pose proof (drawn_dims f0 f saved Hd) as [Ec Er].
  pose proof (dr_cursor _ _ _ Hd) as [Hx Hy]. pose proof Hwf as (Hc & Hr & _).
  assert (u16 (next_line f)) as Hn by (apply next_line_u16; by rewrite Er).
  assert (u16 0) as H0 by done.
  assert (∀ x y, on_screen x y f ↔ on_screen x y f0) as Hon by (intros; unfold on_screen; by rewrite Ec, Er).
  unfold apply_byte. destruct (b =? 13).
  { eexists _, _. split; [mstep; reflexivity|]. by apply drawn_cursor. }
  destruct (b =? 10).
  { eexists _, _. split; [mstep; reflexivity|]. by apply drawn_cursor. }
  destruct ((b =? 8) || (b =? 127)).
  { destruct (decide (0 < tf_cursor_x f)) as [Hpos|Hpos].
    2: { exists f, saved. split; [|done]. mstep. rewrite decide_False by done. apply runs_ret. }
    assert (u16 (tf_cursor_x f - 1)) as Hx1 by (unfold fits in *; lia).
    pose proof (drawn_cursor f0 f saved _ _ Hd Hx1 Hy) as Hd1.
    destruct (decide (on_screen (tf_cursor_x f - 1) (tf_cursor_y f) f)) as [Hs|Hs].
    - destruct (draw_run f0 _ saved (tf_cursor_x f - 1) (tf_cursor_y f) blank_cell Hwf Hd1)
        as (saved' & E & Hd2); [unfold fits in *; lia|unfold fits in *; lia|by apply Hon|].
      eexists _, saved'. split; [|exact Hd2]. mstep. rewrite decide_True by done. mstep.
      rewrite decide_True by done. exact E.
    - eexists _, saved. split; [|exact Hd1]. mstep. rewrite decide_True by done. mstep.
      rewrite decide_False by done. apply runs_ret. }
  destruct ((32 <=? b) && (b <? 127)); [|exists f, saved; split; [mstep; apply runs_ret|done]].
  destruct (decide (on_screen (tf_cursor_x f) (tf_cursor_y f) f)) as [Hs|Hs].
  2: { exists f, saved. split; [|done]. mstep. rewrite decide_False by done. apply runs_ret. }
  destruct (draw_run f0 f saved (tf_cursor_x f) (tf_cursor_y f)
    (blank_cell <| graphemes := CompactGrapheme_new [b] |>) Hwf Hd)
    as (saved' & E & Hd2); [unfold fits in *; lia|unfold fits in *; lia|by apply Hon|].
  destruct (decide (tf_cols f ≤ tf_cursor_x f +₁₆ 1)) as [Hw|Hw].
  - eexists _, saved'. split.
    { mstep. rewrite decide_True by done. eapply runs_bind; [exact E|].
      rewrite decide_True by done. reflexivity. }
    by apply drawn_cursor.
  - eexists _, saved'. split.
    { mstep. rewrite decide_True by done. eapply runs_bind; [exact E|].
      rewrite decide_False by done. reflexivity. }
    apply drawn_cursor; [done|by apply wrap_fits|done].
Qed.

Lemma apply_bytes_run f0 bs f saved :
  frame_wf f0 → drawn f0 f saved →
  ∃ f' saved', runs (for_each_m bs apply_byte) (f, saved) (f', saved') tt ∧ drawn f0 f' saved'.
Proof.
  intros Hwf. revert f saved. induction bs as [|b bs IH]; intros f saved Hd.
  { exists f, saved. split; [apply runs_ret|done]. }
  destruct (apply_byte_run f0 f saved b Hwf Hd) as (f1 & s1 & E1 & D1).
  destruct (IH f1 s1 D1) as (f2 & s2 & E2 & D2). exists f2, s2. split; [|done].
  cbn [for_each_m]. by eapply runs_bind.
Qed.

Lemma drawn_wf f0 f saved : frame_wf f0 → drawn f0 f saved → frame_wf f.
Proof.
  intros (Hc & Hr & Hl & Hd) [Hrest _ Hlen _ _]. rewrite Hrest. unfold frame_wf, len in *. cbn.
  by rewrite Hlen.
Qed.

(** One input: a new entry, whose saved cells are what the frame showed before. *)
Lemma apply_keystrokes_run e f bs seq :
  frame_wf f → cursor_ok f →
  ∃ f' saved, runs (apply_keystrokes bs seq) (e, f)
      (e <| le_unconfirmed_inputs ::= λ l, l ++
         [{| pe_seq_num := seq; pe_bytes := bs; pe_epoch := le_current_epoch e;
             pe_old_cursor_x := tf_cursor_x f; pe_old_cursor_y := tf_cursor_y f;
             pe_old_cells := saved |}] |>, f') tt ∧
    drawn f f' saved.
Proof.
  intros Hwf Hc. destruct (apply_bytes_run f bs f [] Hwf (drawn_start f Hc)) as (f' & saved & E & D).
  exists f', saved. split; [|done]. unfold apply_keystrokes. mstep. unfold runs in E. rewrite E. mstep.
  eapply runs_bind; [by apply runs_lift|]. reflexivity.
Qed.

(** Restoring saved cells of [f0] on a frame of its size. *)
Lemma restore_cells_run f0 saved f :
  frame_wf f0 → tf_cols f = tf_cols f0 → tf_rows f = tf_rows f0 →
  length (tf_cell_cache f) = length (tf_cell_cache f0) → Forall (saved_ok f0) saved →
  ∃ cells, runs (for_each_m saved restore_cell) f (f <| tf_cell_cache := cells |>) tt ∧
    length cells = length (tf_cell_cache f0) ∧
    ∀ j, (∃ x y c, (x, y, c) ∈ saved ∧ Z.to_nat (cell_idx x y f0) = j) ∧
           cells !! j = tf_cell_cache f0 !! j ∨
         (∀ x y c, (x, y, c) ∈ saved → Z.to_nat (cell_idx x y f0) ≠ j) ∧
           cells !! j = tf_cell_cache f !! j.
Proof.
  intros Hwf. revert f. induction saved as [|[[x y] c] saved IH]; intros f Hc Hr Hl Hs.
  { exists (tf_cell_cache f). split; [by destruct f|]. split; [done|]. intros j. right.
    split; [|done]. by intros x y c ?%not_elem_of_nil. }
  apply Forall_cons in Hs as [(Hx & Hy & Hon & Hlk) Hs].
  pose proof (cell_idx_bound f0 x y Hwf Hx Hy Hon) as Hi.
  assert (cell_idx x y f = cell_idx x y f0) as Ei by (unfold cell_idx; by rewrite Hc).
  set (f1 := f <| tf_cell_cache := <[Z.to_nat (cell_idx x y f0) := c]> (tf_cell_cache f) |>).
  destruct (IH f1) as (cells & E & Hlen & Hcells); [done|done|cbn; by rewrite length_insert|done|].
  exists cells. split; [|split; [done|]].
  - cbn [for_each_m]. eapply runs_bind; [|exact E]. unfold restore_cell. mstep.
    rewrite decide_True by (unfold on_screen in *; by rewrite Hc, Hr). rewrite Ei.
    eapply runs_bind; [apply runs_lift, vec_set_ok; unfold len in *; lia|]. reflexivity.
  - intros j. destruct (Hcells j) as [((x' & y' & c' & Hin & Ej) & Hj)|[Hno Hj]].
    + left. split; [|done]. exists x', y', c'. split; [by right|done].
    + destruct (decide (Z.to_nat (cell_idx x y f0) = j)) as [Ej|Hne].
      * left. split; [exists x, y, c; split; [by left|done]|]. rewrite Hj, <-Ej. cbn.
        rewrite list_lookup_insert_eq; [done|unfold len in *; lia].
      * right. split.
        -- intros x' y' c' [E'|Hin]%elem_of_cons; [by injection E' as -> -> ->|by eapply Hno].
        -- rewrite Hj. cbn. by rewrite list_lookup_insert_ne.
Qed.

(** Undoing one entry gives back the frame it was drawn on. *)
Lemma undo_entry_run f0 f saved seq bs ep :
  frame_wf f0 → drawn f0 f saved →
  runs (undo_entry {| pe_seq_num := seq; pe_bytes := bs; pe_epoch := ep;
                      pe_old_cursor_x := tf_cursor_x f0; pe_old_cursor_y := tf_cursor_y f0;
                      pe_old_cells := saved |}) f f0 tt.
Proof.
  intros Hwf Hd. pose proof (drawn_dims f0 f saved Hd) as [Ec Er]. destruct Hd as [Hrest _ Hl Hs Hsame].
  destruct (restore_cells_run f0 (reverse saved)
    (set_cursor (tf_cursor_x f0) (tf_cursor_y f0) f)) as (cells & E & Hlen & Hcells); try done.
  { by apply Forall_reverse. }
  unfold undo_entry. mstep. cbn [pe_old_cursor_x pe_old_cursor_y pe_old_cells].
  assert (cells = tf_cell_cache f0) as ->.
  { apply list_eq. intros j. destruct (Hcells j) as [[_ ->]|[Hno ->]]; [done|]. cbn.
    apply Hsame. intros x y c Hin. eapply Hno. by apply elem_of_reverse. }
  assert (set_cursor (tf_cursor_x f0) (tf_cursor_y f0) f <| tf_cell_cache := tf_cell_cache f0 |> = f0)
    as Heq by (rewrite Hrest; by destruct f0).
  unfold runs in E |- *. etransitivity; [exact E|]. f_equal. exact Heq.
Qed.

(** [f'] differs from [f] in its cells and cursor only. *)
Definition redrawn (f f' : TerminalFrame) : Prop :=
  f' = f <| tf_cell_cache := tf_cell_cache f' |> <| tf_cursor_x := tf_cursor_x f' |>
         <| tf_cursor_y := tf_cursor_y f' |> ∧
  length (tf_cell_cache f') = length (tf_cell_cache f).

Lemma drawn_redrawn f f' saved : drawn f f' saved → redrawn f f'.
Proof. by intros [Hr _ Hl _ _]. Qed.

Lemma redrawn_fields f f' :
  redrawn f f' → tf_cols f' = tf_cols f ∧ tf_rows f' = tf_rows f ∧ tf_row_dirty f' = tf_row_dirty f ∧
    tf_dirty f' = tf_dirty f ∧ tf_clear_requested f' = tf_clear_requested f ∧
    tf_cursor_visible f' = tf_cursor_visible f ∧ tf_last_seq f' = tf_last_seq f.
Proof. intros [-> _]. done. Qed.

#[export] Instance redrawn_preorder : PreOrder redrawn.
Proof.
  split.
  - intros f. split; [by destruct f|done].
  - intros f g h [E1 L1] [E2 L2]. split; [|congruence]. rewrite E2 at 1. by rewrite E1.
Qed.

(** A sequence of inputs, as [predict_input] feeds them. *)
Definition predict_all (ins : list (bytes * Z)) : M (LocalEchoEngine * TerminalFrame) unit :=
  for_each_m ins (λ '(bs, seq), apply_keystrokes bs seq).

Lemma predict_all_run ins e f :
  frame_wf f → cursor_ok f →
  ∃ f' entries, runs (predict_all ins) (e, f) (e <| le_unconfirmed_inputs ::= λ l, l ++ entries |>, f') tt ∧
    frame_wf f' ∧ cursor_ok f' ∧ pe_seq_num <$> entries = ins.*2 ∧ redrawn f f' ∧
    runs (for_each_m (reverse entries) undo_entry) f' f tt.
Proof.
  revert e f. induction ins as [|[bs seq] ins IH]; intros e f Hwf Hc.
  { exists f, []. split; [|done]. unfold runs. cbn. rewrite app_nil_r. by destruct e. }
  destruct (apply_keystrokes_run e f bs seq Hwf Hc) as (f1 & saved & E1 & D1).
  set (entry := {| pe_seq_num := seq; pe_bytes := bs; pe_epoch := le_current_epoch e;
             pe_old_cursor_x := tf_cursor_x f; pe_old_cursor_y := tf_cursor_y f;
             pe_old_cells := saved |}) in *.
  destruct (IH (e <| le_unconfirmed_inputs ::= λ l, l ++ [entry] |>) f1)
    as (f2 & entries & E2 & W2 & C2 & S2 & R2 & U2); [by eapply drawn_wf|apply D1|].
  exists f2, (entry :: entries). split.
  { unfold predict_all in *. cbn [for_each_m]. eapply runs_bind; [exact E1|].
    unfold runs in *. rewrite E2. cbn. by rewrite <-(assoc_L (++)). }
  split; [done|]. split; [done|]. split; [csimpl; by f_equal|].
  split; [etransitivity; [by eapply drawn_redrawn|done]|].
  rewrite reverse_cons. unfold runs in *. rewrite for_each_m_app.
  unfold mbind, M_bind. rewrite U2. cbn [for_each_m]. unfold mbind, M_bind.
  pose proof (undo_entry_run f f1 saved seq bs (le_current_epoch e) Hwf D1) as Hu.
  unfold runs in Hu. fold entry in Hu. by rewrite Hu.
Qed.

(** Aborting a prediction undoes it completely. From any well-formed mirror with nothing
    predicted, whatever is typed (printable text, newlines, backspaces, wrapping at the edge, writing
    over earlier predictions), drawing it never fails and [abort] gives back exactly the mirror from
    before, every cell and the cursor, with an empty log and the next epoch. *)
Theorem abort_restores e f ins :
  frame_wf f → cursor_ok f → le_unconfirmed_inputs e = [] →
  ∃ e' f', predict_all ins (e, f) = ((e', f'), Ok tt) ∧
    pe_seq_num <$> le_unconfirmed_inputs e' = ins.*2 ∧
    abort (e', f') = ((e <| le_current_epoch := le_current_epoch e +₆₄ 1 |>, f), Ok tt).
Proof.
  intros Hwf Hc He. destruct (predict_all_run ins e f Hwf Hc)
    as (f' & entries & E & _ & _ & Hs & _ & U).
  eexists _, f'. split; [exact E|]. destruct e as [l ep]. cbn in *. subst l. cbn.
  split; [done|]. by rewrite U.
Qed.

(** A prediction is drawn but not announced. Whatever is typed, drawing it flags neither the
    frame nor any row for repainting. *)
Theorem prediction_not_flagged e f ins :
  frame_wf f → cursor_ok f →
  ∃ e' f', predict_all ins (e, f) = ((e', f'), Ok tt) ∧
    tf_dirty f' = tf_dirty f ∧ tf_row_dirty f' = tf_row_dirty f ∧
    tf_clear_requested f' = tf_clear_requested f.
Proof.
  intros Hwf Hc. destruct (predict_all_run ins e f Hwf Hc)
    as (f' & entries & E & _ & _ & _ & [Hr _] & _). eexists _, f'. split; [exact E|]. by rewrite Hr.
Qed.

(** *** Undoing *)

Lemma for_each_m_invariant {S A} (R : S → S → Prop) `{!PreOrder R} (l : list A) (h : A → M S unit) s s' :
  (∀ x s s', runs (h x) s s' tt → R s s') → runs (for_each_m l h) s s' tt → R s s'.
Proof.
  intros Hh. revert s. induction l as [|x l IH]; intros s E.
  { by injection E as ->. }
  unfold runs in E. cbn in E. unfold mbind, M_bind in E.
  destruct (h x s) as [s1 [[]| |]] eqn:E1; [|done|done].
  etransitivity; [by eapply Hh|by apply IH].
Qed.

Lemma restore_cell_redrawn c f f' : runs (restore_cell c) f f' tt → redrawn f f'.
Proof.
  destruct c as [[x y] c]. unfold runs, restore_cell, get, lift, modify, mbind, M_bind, mret, M_ret.
  case_decide; [|intros [= ->]; reflexivity]. unfold vec_set. case_decide; [|done]. intros [= <-].
  split; [by destruct f|cbn; by rewrite length_insert].
Qed.

Lemma undo_redrawn l f f' : runs (for_each_m l undo_entry) f f' tt → redrawn f f'.
Proof.
  apply (for_each_m_invariant redrawn). clear. intros entry f f' E.
  transitivity (set_cursor (pe_old_cursor_x entry) (pe_old_cursor_y entry) f); [by destruct f|].
  eapply (for_each_m_invariant redrawn); [|exact E]. apply restore_cell_redrawn.
Qed.

(** ** Screens

    Two frames show the same screen when they agree on size, cells and cursor. *)
Definition same_screen (f f' : TerminalFrame) : Prop :=
  tf_cols f = tf_cols f' ∧ tf_rows f = tf_rows f' ∧ tf_cell_cache f = tf_cell_cache f' ∧
  tf_cursor_x f = tf_cursor_x f' ∧ tf_cursor_y f = tf_cursor_y f'.

#[export] Instance same_screen_equiv : Equivalence same_screen.
Proof.
  split; unfold same_screen.
  - done.
  - intros x y (-> & -> & -> & -> & ->). done.
  - intros x y z (-> & -> & -> & -> & ->). done.
Qed.

#[export] Instance set_cursor_proper x y : Proper (same_screen ==> same_screen) (set_cursor x y).
Proof. intros f f' (? & ? & ? & ? & ?). done. Qed.

(** A step on frames that reads and writes only the screen. *)
Definition screen_step (m : M TerminalFrame unit) : Prop :=
  ∀ f1 f2 f1', same_screen f1 f2 → runs m f1 f1' tt → ∃ f2', runs m f2 f2' tt ∧ same_screen f1' f2'.

Lemma restore_cell_screen c : screen_step (restore_cell c).
Proof.
  destruct c as [[x y] c]. intros f1 f2 f1' Heq. pose proof Heq as (Hc & Hr & Hcells & Hx & Hy).
  assert (on_screen x y f2 ↔ on_screen x y f1) as Hon by (unfold on_screen; by rewrite Hc, Hr).
  unfold runs, restore_cell, get, lift, modify, mbind, M_bind, mret, M_ret.
  destruct (decide (on_screen x y f1)) as [Hs|Hs].
  2: { rewrite decide_False by tauto. intros [= ->]. by exists f2. }
  rewrite decide_True by tauto. unfold cell_idx. rewrite <-Hc, <-Hcells.
  destruct (vec_set _ _ _) as [cells| |]; [|done|done]. intros [= <-]. by eexists.
Qed.

Lemma screen_step_for_each {A} (l : list A) f :
  (∀ x, screen_step (f x)) → screen_step (for_each_m l f).
Proof.
  intros Hf. induction l as [|x l IH]; intros f1 f2 f1' Heq E.
  { unfold runs in *. cbn in *. injection E as <-. by exists f2. }
  unfold runs in *. cbn [for_each_m] in *. unfold mbind, M_bind in *.
  destruct (f x f1) as [g1 [[]| |]] eqn:E1; [|done|done].
  destruct (Hf x f1 f2 g1 Heq E1) as (g2 & E2 & Hg). rewrite E2. by eapply IH.
Qed.

Lemma undo_entry_screen entry : screen_step (undo_entry entry).
Proof.
  intros f1 f2 f1' Heq E.
  apply (screen_step_for_each _ _ restore_cell_screen
    (set_cursor (pe_old_cursor_x entry) (pe_old_cursor_y entry) f1)
    (set_cursor (pe_old_cursor_x entry) (pe_old_cursor_y entry) f2) f1'); [by apply set_cursor_proper|].
  exact E.
Qed.

(** [f] is [base] with the predictions of [log] drawn over it: undoing them shows [base] again. *)
Definition predicted_over (base : TerminalFrame) (log : list PredictionEntry) (f : TerminalFrame) : Prop :=
  ∃ f', runs (for_each_m (reverse log) undo_entry) f f' tt ∧ same_screen f' base.

#[export] Instance predicted_over_proper :
  Proper (same_screen ==> eq ==> same_screen ==> iff) predicted_over.
Proof.
  assert (∀ b b' l f f', same_screen b b' → same_screen f f' → predicted_over b l f →
    predicted_over b' l f') as H.
  { intros b b' l f f' Hb Hf (g & E & Hg).
    destruct (screen_step_for_each _ _ undo_entry_screen f f' g Hf E) as (g' & E' & Hg').
    exists g'. split; [done|]. by rewrite <-Hg', Hg. }
  intros b b' Hb l l' <- f f' Hf. split; apply H; done || by symmetry.
Qed.

Lemma predicted_over_nil f : predicted_over f [] f.
Proof. by exists f. Qed.

Lemma predicted_over_app base log entries f f' :
  predicted_over base log f → runs (for_each_m (reverse entries) undo_entry) f' f tt →
  predicted_over base (log ++ entries) f'.
Proof.
  intros (g & E & Hg) U. exists g. split; [|done]. unfold runs in *.
  rewrite reverse_app, for_each_m_app. unfold mbind, M_bind. by rewrite U.
Qed.

(** ** What is typed appears *)

Definition char_cell (b : Z) : LocalCellData := blank_cell <| graphemes := CompactGrapheme_new [b] |>.

Lemma type_byte_run f0 f saved b :
  frame_wf f0 → drawn f0 f saved → 32 ≤ b < 127 →
  tf_cursor_x f + 1 < tf_cols f → tf_cursor_y f < tf_rows f →
  ∃ saved', let f' := set_cursor (tf_cursor_x f + 1) (tf_cursor_y f)
      (f <| tf_cell_cache := <[Z.to_nat (cell_idx (tf_cursor_x f) (tf_cursor_y f) f0) := char_cell b]>
                               (tf_cell_cache f) |>) in
    runs (apply_byte b) (f, saved) (f', saved') tt ∧ drawn f0 f' saved'.
Proof.
  intros Hwf Hd Hb Hx Hy. pose proof (drawn_dims f0 f saved Hd) as [Ec Er].
  pose proof (dr_cursor _ _ _ Hd) as [Hux Huy]. pose proof Hwf as (Hc & _).
  assert (u16 (tf_cursor_x f + 1)) as Hx1 by (unfold fits in *; lia).
  destruct (draw_run f0 f saved (tf_cursor_x f) (tf_cursor_y f) (char_cell b) Hwf Hd)
    as (saved' & E & Hd'); [unfold fits in *; lia|unfold fits in *; lia|unfold on_screen; lia|].
  exists saved'. split; [|by apply drawn_cursor]. unfold apply_byte. mstep.
  replace (b =? 13) with false by lia. replace (b =? 10) with false by lia.
  replace ((b =? 8) || (b =? 127)) with false by lia.
  replace ((32 <=? b) && (b <? 127)) with true by lia.
  rewrite decide_True by (unfold on_screen; lia). rewrite wrap_small by done.
  eapply runs_bind; [exact E|]. rewrite decide_False by lia. reflexivity.
Qed.

Lemma inserts_after {A} (x : A) i j k l :
  (i < j)%nat → list_inserts j k (<[i := x]> l) = <[i := x]> (list_inserts j k l).
Proof.
  revert j. induction k as [|y k IH]; intros j Hj; cbn; [done|].
  rewrite IH by lia. by rewrite list_insert_insert_ne by lia.
Qed.

Lemma type_bytes_run f0 bs f saved :
  frame_wf f0 → drawn f0 f saved → Forall (λ b, 32 ≤ b < 127) bs →
  tf_cursor_x f + len bs < tf_cols f → tf_cursor_y f < tf_rows f →
  ∃ saved', let f' := f
      <| tf_cell_cache := list_inserts (Z.to_nat (cell_idx (tf_cursor_x f) (tf_cursor_y f) f0))
                            (char_cell <$> bs) (tf_cell_cache f) |>
      <| tf_cursor_x := tf_cursor_x f + len bs |> in
    runs (for_each_m bs apply_byte) (f, saved) (f', saved') tt ∧ drawn f0 f' saved'.
Proof.
  intros Hwf. revert f saved. induction bs as [|b bs IH]; intros f saved Hd Hb Hx Hy.
  { exists saved. unfold len. cbn. rewrite Z.add_0_r.
    by destruct f. }
  apply Forall_cons in Hb as [Hb Hbs]. unfold len in *. cbn [length] in *.
  pose proof (dr_cursor _ _ _ Hd) as [Hux Huy]. unfold fits in *.
  assert (0 ≤ tf_cursor_y f * tf_cols f0) as Hrow
    by (destruct Hwf as (Hcols & _); unfold fits in Hcols; nia).
  destruct (type_byte_run f0 f saved b) as (saved1 & E1 & D1); [done|done|done|lia|done|].
  destruct (IH _ _ D1) as (saved2 & E2 & D2); [done|cbn; lia|done|].
  exists saved2. cbn zeta in *. cbn [for_each_m].
  match type of D2 with drawn _ ?g _ => match goal with |- runs _ _ (?h, _) _ ∧ _ =>
    assert (g = h) as Heq end end.
  { cbn. f_equal; [|lia]. rewrite <-inserts_after by lia. f_equal. unfold cell_idx. lia. }
  rewrite <-Heq. split; [|done]. by eapply runs_bind.
Qed.

(** The frame after typing [bs]. *)
Definition typed (bs : bytes) (f : TerminalFrame) : TerminalFrame :=
  f <| tf_cell_cache := list_inserts (Z.to_nat (tf_cursor_y f * tf_cols f + tf_cursor_x f))
                          (char_cell <$> bs) (tf_cell_cache f) |>
    <| tf_cursor_x := tf_cursor_x f + len bs |>.

Lemma type_text_run e f bs seq :
  frame_wf f → cursor_ok f → Forall (λ b, 32 ≤ b < 127) bs →
  tf_cursor_x f + len bs < tf_cols f → tf_cursor_y f < tf_rows f →
  ∃ saved, apply_keystrokes bs seq (e, f) =
    ((e <| le_unconfirmed_inputs ::= λ l, l ++
         [{| pe_seq_num := seq; pe_bytes := bs; pe_epoch := le_current_epoch e;
             pe_old_cursor_x := tf_cursor_x f; pe_old_cursor_y := tf_cursor_y f;
             pe_old_cells := saved |}] |>, typed bs f), Ok tt) ∧
    drawn f (typed bs f) saved.
Proof.
  intros Hwf Hc Hb Hx Hy.
  destruct (type_bytes_run f bs f [] Hwf (drawn_start f Hc) Hb Hx Hy) as (saved & E & D).
  exists saved. split; [|exact D].
  unfold apply_keystrokes, get, mbind, M_bind, modify, lift. unfold runs in E. by rewrite E.
Qed.

(** Typed text appears under the cursor. Printable characters that fit on the rest of the
    line are drawn one per cell from the cursor on, in the default style; the cursor moves past
    them; no other cell, and nothing else of the mirror, changes. *)
Theorem typed_text_shown e f bs seq :
  frame_wf f → cursor_ok f → Forall (λ b, 32 ≤ b < 127) bs →
  tf_cursor_x f + len bs < tf_cols f → tf_cursor_y f < tf_rows f →
  ∃ e', apply_keystrokes bs seq (e, f) = ((e',
    f <| tf_cell_cache := list_inserts (Z.to_nat (tf_cursor_y f * tf_cols f + tf_cursor_x f))
                            (char_cell <$> bs) (tf_cell_cache f) |>
      <| tf_cursor_x := tf_cursor_x f + len bs |>), Ok tt).
Proof.
  intros Hwf Hc Hb Hx Hy. destruct (type_text_run e f bs seq Hwf Hc Hb Hx Hy) as (saved & E & _).
  by eexists.
Qed.

(** ** Concrete screens *)
Definition demo_echo_frame : TerminalFrame :=
  (TerminalFrame_new 5 2) <| tf_cursor_x := 1 |> <| tf_row_dirty := [false; false] |> <| tf_dirty := false |>.
(** [ab], then backspace and [xyz] over the edge, then a newline and [!]. *)
Definition demo_typed : list (bytes * Z) := [([97; 98], 1); ([8; 120; 121; 122], 2); ([10; 33], 3)].

Lemma demo_echo_frame_wf : frame_wf demo_echo_frame.
Proof. apply (bool_decide_unpack _). vm_compute. exact I. Qed.
Lemma demo_cursor_ok : cursor_ok demo_echo_frame.
Proof. apply (bool_decide_unpack _). vm_compute. exact I. Qed.

Lemma abort_restores_witness : ∃ e' f',
  predict_all demo_typed (LocalEchoEngine_new, demo_echo_frame) = ((e', f'), Ok tt) ∧
  abort (e', f') = ((LocalEchoEngine_new <| le_current_epoch := 1 |>, demo_echo_frame), Ok tt).
Proof.
  destruct (abort_restores LocalEchoEngine_new demo_echo_frame demo_typed demo_echo_frame_wf demo_cursor_ok eq_refl)
    as (e' & f' & E & _ & A).
  exists e', f'. split; [exact E|exact A].
Defined.

Lemma prediction_not_flagged_witness : ∃ e' f',
  predict_all demo_typed (LocalEchoEngine_new, demo_echo_frame) = ((e', f'), Ok tt) ∧ tf_dirty f' = false.
Proof.
  destruct (prediction_not_flagged LocalEchoEngine_new demo_echo_frame demo_typed demo_echo_frame_wf demo_cursor_ok)
    as (e' & f' & E & D & _).
  exists e', f'. split; [exact E|exact D].
Defined.

Lemma typed_text_shown_witness : ∃ e' f',
  apply_keystrokes [104; 105] 1 (LocalEchoEngine_new, demo_echo_frame) = ((e', f'), Ok tt) ∧
  tf_cell_cache f' !! 1%nat = Some (char_cell 104) ∧ tf_cell_cache f' !! 2%nat = Some (char_cell 105) ∧
  tf_cursor_x f' = 3.
Proof.
  destruct (typed_text_shown LocalEchoEngine_new demo_echo_frame [104; 105] 1 demo_echo_frame_wf demo_cursor_ok)
    as (e' & E).
  - repeat constructor; lia.
  - vm_compute. done.
  - vm_compute. done.
  - exists e'. eexists. split; [exact E|]. vm_compute. done.
Defined.
