(* ===== verification/Terminal.v ===== *)
(** * The client's terminal mirror: [src/src/client/terminal.rs] (172-340)

    [ClientTerminal] is a frame and a predictor behind one lock; each method holds it throughout, so
    it is one step of [TerminalInner]. *)

From Stdlib Require Import Floats.SpecFloat.
From S2P Require Import Prelude Utf8 Grid Float32 Frame Echo.

Record TerminalInner := mkInner {
  ti_frame : TerminalFrame;
  ti_echo_engine : LocalEchoEngine;
}.
#[export] Instance TerminalInner_eta : Eta TerminalInner := λ t, mkInner (ti_frame t) (ti_echo_engine t).

Definition ClientTerminal_new (cols rows : Z) : TerminalInner :=
  {| ti_frame := TerminalFrame_new cols rows; ti_echo_engine := LocalEchoEngine_new |}.

(** [let frame = &mut inner.frame], and the engine called with [&mut inner.frame]. *)
Definition on_frame {A} (m : M TerminalFrame A) : M TerminalInner A := λ t,
  let '(f, r) := m (ti_frame t) in (t <| ti_frame := f |>, r).
Definition on_engine {A} (m : M (LocalEchoEngine * TerminalFrame) A) : M TerminalInner A := λ t,
  let '((e, f), r) := m (ti_echo_engine t, ti_frame t) in
  (t <| ti_frame := f |> <| ti_echo_engine := e |>, r).

Definition apply_frame (new_state : GridState) (server_seq : Z) : M TerminalInner bool :=
  resized ← on_frame (update_from_grid_state new_state);
  modify (λ t, t <| ti_frame ::= λ f, f <| tf_last_seq := server_seq |> |>) ;;
  on_engine (reconcile_frame server_seq) ;;
  mret resized.

Definition predict_input (bs : bytes) (client_seq : Z) : M TerminalInner unit :=
  on_engine (apply_keystrokes bs client_seq).

Definition acknowledge (server_ack_seq : Z) : M TerminalInner unit :=
  on_engine (reconcile_frame server_ack_seq).

Definition abort_prediction : M TerminalInner unit := on_engine abort.

(** [dest] is the renderer's back buffer. *)
Definition consume_updates : M (TerminalInner * TerminalFrame) bool :=
  '(t, dest) ← get;
  let frame := ti_frame t in
  if tf_dirty frame || tf_clear_requested frame then
    modify (λ _, (t <| ti_frame := frame <| tf_dirty := false |>
                         <| tf_row_dirty ::= fmap (λ _, false) |> <| tf_clear_requested := false |> |>,
                  copy_to frame dest)) ;;
    mret true
  else mret false.

Definition dirty_if (b : bool) (f : TerminalFrame) : TerminalFrame :=
  if b then f <| tf_dirty := true |> else f.

Definition tenth : f32 := f32_lit 1 10.

(** [(frame.rtt_ms as f32 * 0.8 + rtt as f32 * 0.2) as u32] *)
Definition smooth_rtt (old rtt : Z) : Z :=
  if old =? 0 then rtt
  else f32_to_u32 (f32_add (f32_mul (f32_of_Z old) (f32_lit 8 10)) (f32_mul (f32_of_Z rtt) (f32_lit 2 10))).

Definition record_rtt_loss (rtt_ms : option Z) (loss_pct : option f32) : M TerminalInner unit :=
  on_frame (modify (λ frame,
    let '(frame, changed) :=
      match rtt_ms with
      | Some rtt =>
        let new_rtt := smooth_rtt (tf_rtt_ms frame) rtt in
        if decide (tf_rtt_ms frame ≠ new_rtt) then (frame <| tf_rtt_ms := new_rtt |>, true)
        else (frame, false)
      | None => (frame, false)
      end in
    let '(frame, changed) :=
      match loss_pct with
      | Some loss =>
        if f32_gt (f32_abs (f32_sub (tf_packet_loss_pct frame) loss)) tenth
        then (frame <| tf_packet_loss_pct := loss |>, true) else (frame, changed)
      | None => (frame, changed)
      end in
    dirty_if (changed && tf_overlay_enabled frame) frame)).

Definition record_bandwidth_compression (kb_s ratio : f32) : M TerminalInner unit :=
  on_frame (modify (λ frame,
    let bw_diff := f32_abs (f32_sub (tf_bandwidth_kb_s frame) kb_s) in
    let cr_diff := f32_abs (f32_sub (tf_compression_ratio frame) ratio) in
    if f32_gt bw_diff tenth || f32_gt cr_diff tenth then
      dirty_if (tf_overlay_enabled frame)
        (frame <| tf_bandwidth_kb_s := kb_s |> <| tf_compression_ratio := ratio |>)
    else frame)).

Definition record_fps (fps : Z) : M TerminalInner unit :=
  on_frame (modify (λ frame,
    if decide (tf_fps frame ≠ fps) then dirty_if (tf_overlay_enabled frame) (frame <| tf_fps := fps |>)
    else frame)).

Definition set_reconnecting (reconnecting : bool) : M TerminalInner unit :=
  on_frame (
    frame ← get;
    if decide (tf_reconnecting frame ≠ reconnecting) then
      modify (λ f, f <| tf_reconnecting := reconnecting |> <| tf_dirty := true |>) ;;
      if reconnecting then mret tt
      else
        let y := if decide (0 < tf_rows frame) then tf_rows frame - 1 else 0 in
        row_dirty ← lift (vec_set (tf_row_dirty frame) y true);
        modify (λ f, f <| tf_row_dirty := row_dirty |>)
    else mret tt).

Definition set_overlay_enabled (enabled : bool) : M TerminalInner unit :=
  on_frame (modify (λ f, f <| tf_overlay_enabled := enabled |> <| tf_dirty := true |>)).

Definition toggle_overlay : M TerminalInner unit :=
  on_frame (modify (λ f, f <| tf_overlay_enabled ::= negb |> <| tf_dirty := true |>)).

Definition rtt_ms (t : TerminalInner) : Z := tf_rtt_ms (ti_frame t).

Definition mark_dirty : M TerminalInner unit := on_frame (modify (λ f, f <| tf_dirty := true |>)).

(** ** Histories of calls on a handle and the renderer's back buffer *)

Inductive view_op : Type :=
  | VApply (g : GridState) (server_seq : Z)
  | VPredict (bs : bytes) (client_seq : Z)
  | VAcknowledge (ack : Z)
  | VAbort
  | VConsume
  | VRttLoss (rtt : option Z) (loss : option f32)
  | VBandwidth (kb_s ratio : f32)
  | VFps (fps : Z)
  | VReconnecting (b : bool)
  | VOverlay (b : bool)
  | VToggle
  | VMark.

Definition on_mirror {A} (m : M TerminalInner A) : M (TerminalInner * TerminalFrame) unit := λ s,
  let '(t, r) := m s.1 in ((t, s.2), fmap (λ _, tt) r).

Definition view_step (op : view_op) : M (TerminalInner * TerminalFrame) unit :=
  match op with
  | VApply g seq => on_mirror (apply_frame g seq)
  | VPredict bs seq => on_mirror (predict_input bs seq)
  | VAcknowledge ack => on_mirror (acknowledge ack)
  | VAbort => on_mirror abort_prediction
  | VConsume => consume_updates ;; mret tt
  | VRttLoss rtt loss => on_mirror (record_rtt_loss rtt loss)
  | VBandwidth kb_s ratio => on_mirror (record_bandwidth_compression kb_s ratio)
  | VFps fps => on_mirror (record_fps fps)
  | VReconnecting b => on_mirror (set_reconnecting b)
  | VOverlay b => on_mirror (set_overlay_enabled b)
  | VToggle => on_mirror toggle_overlay
  | VMark => on_mirror mark_dirty
  end.

Definition view_run (ops : list view_op) : M (TerminalInner * TerminalFrame) unit :=
  for_each_m ops view_step.

(** A grid that came out of [patch]: sized, not empty of rows, the cursor two [u16]s. *)
Definition grid_ok (g : GridState) : Prop :=
  grid_wf g ∧ 0 < gs_rows g ∧ u16 (gs_cursor_x g) ∧ u16 (gs_cursor_y g).
#[export] Instance grid_ok_dec g : Decision (grid_ok g).
Proof. unfold grid_ok. apply _. Defined.

Definition frame_ok (f : TerminalFrame) : Prop := frame_wf f ∧ 0 < tf_rows f ∧ cursor_ok f.
#[export] Instance frame_ok_dec f : Decision (frame_ok f).
Proof. unfold frame_ok. apply _. Defined.

(** [f] shows the server's grid. *)
Definition shows (g : GridState) (f : TerminalFrame) : Prop :=
  tf_cols f = gs_cols g ∧ tf_rows f = gs_rows g ∧ tf_cell_cache f = gs_cells g ∧
  tf_cursor_x f = gs_cursor_x g ∧ tf_cursor_y f = gs_cursor_y g.

#[export] Instance shows_proper g : Proper (same_screen ==> iff) (shows g).
Proof. intros f f' (H1 & H2 & H3 & H4 & H5). unfold shows. by rewrite H1, H2, H3, H4, H5. Qed.

(** ** Calls that only flag or annotate the frame *)

(** [f'] shows what [f] shows and is flagged at least where [f] is. *)
Record touched (f f' : TerminalFrame) : Prop := {
  to_screen : same_screen f f';
  to_visible : tf_cursor_visible f' = tf_cursor_visible f;
  to_len : length (tf_row_dirty f') = length (tf_row_dirty f);
  to_rows y : tf_row_dirty f !! y = Some true → tf_row_dirty f' !! y = Some true;
  to_dirty : tf_dirty f = true → tf_dirty f' = true;
  to_clear : tf_clear_requested f' = tf_clear_requested f;
}.

Definition flag_step (m : M TerminalInner unit) : Prop :=
  ∀ t, frame_ok (ti_frame t) → ∃ f', m t = (t <| ti_frame := f' |>, Ok tt) ∧ touched (ti_frame t) f'.

Lemma touched_ok f f' : frame_ok f → touched f f' → frame_ok f'.
Proof.
  intros ((Hc & Hr & Hl & Hw) & Hpos & Hx & Hy) [(E1 & E2 & E3 & E4 & E5) _ Hlen _ _ _].
  unfold frame_ok, frame_wf, cursor_ok, len in *. by rewrite <-E1, <-E2, <-E3, <-E4, <-E5, Hlen.
Qed.

Lemma modify_flag_step (h : TerminalFrame → TerminalFrame) :
  (∀ f, touched f (h f)) → flag_step (on_frame (modify h)).
Proof. intros Hh t _. by exists (h (ti_frame t)). Qed.

Lemma touched_refl f : touched f f.
Proof. done. Qed.

Lemma dirty_if_touched b f f' : touched f f' → touched f (dirty_if b f').
Proof. intros [? ? ? ? ? ?]. by destruct b. Qed.

Lemma record_rtt_loss_step rtt loss : flag_step (record_rtt_loss rtt loss).
Proof.
  apply modify_flag_step. intros f.
  set (rtt_part := match rtt with Some _ => _ | None => _ end).
  assert (touched f rtt_part.1) as Ht.
  { unfold rtt_part. destruct rtt as [rtt|]; [|done]. by destruct (decide _). }
  destruct rtt_part as [f1 ch]. cbn in Ht. destruct loss as [loss|]; [|by apply dirty_if_touched].
  destruct (f32_gt _ tenth); apply dirty_if_touched; [|done]. destruct Ht as [? ? ? ? ? ?]. by split.
Qed.

Lemma record_bandwidth_step kb_s ratio : flag_step (record_bandwidth_compression kb_s ratio).
Proof.
  apply modify_flag_step. intros f. cbn zeta. destruct (_ || _); [|done]. by apply dirty_if_touched.
Qed.

Lemma record_fps_step fps : flag_step (record_fps fps).
Proof. apply modify_flag_step. intros f. unfold dirty_if. repeat case_match; done. Qed.

Lemma set_overlay_step b : flag_step (set_overlay_enabled b).
Proof. by apply modify_flag_step. Qed.

Lemma toggle_overlay_step : flag_step toggle_overlay.
Proof. by apply modify_flag_step. Qed.

Lemma mark_dirty_step : flag_step mark_dirty.
Proof. by apply modify_flag_step. Qed.

Lemma set_reconnecting_step b : flag_step (set_reconnecting b).
Proof.
  intros t ((Hc & Hr & Hl & Hw) & Hpos & _). unfold set_reconnecting, on_frame, get, mbind, M_bind.
  destruct (decide (tf_reconnecting (ti_frame t) ≠ b)); [|by exists (ti_frame t); destruct t].
  destruct b; cbn; [by eexists|]. rewrite decide_True by done.
  rewrite vec_set_ok by lia. eexists. split; [done|]. split; cbn; try done.
  - by rewrite length_insert.
  - intros y Hy. destruct (decide (Z.to_nat (tf_rows (ti_frame t) - 1) = y)) as [<-|Hne].
    + apply list_lookup_insert_eq. by eapply lookup_lt_Some.
    + by rewrite list_lookup_insert_ne.
Qed.

(** ** Applying a server state *)

Lemma for_each_m_fmap {S A B} (h : A → B) (l : list A) (f : B → M S unit) s :
  for_each_m (h <$> l) f s = for_each_m l (λ x, f (h x)) s.
Proof.
  revert s. induction l as [|x l IH]; intros s; [done|]. cbn. unfold mbind, M_bind.
  by destruct (f (h x) s) as [s' [[]| |]].
Qed.

Definition inputs_of (l : list PredictionEntry) : list (bytes * Z) := (λ e, (pe_bytes e, pe_seq_num e)) <$> l.

Definition survivors (ack : Z) (e : LocalEchoEngine) : list PredictionEntry :=
  drop_confirmed ack (le_current_epoch e) (le_unconfirmed_inputs e).

Lemma reconcile_frame_eq ack e f :
  reconcile_frame ack (e, f) =
  predict_all (inputs_of (survivors ack e)) (e <| le_unconfirmed_inputs := [] |>, f).
Proof. unfold predict_all, inputs_of. rewrite for_each_m_fmap. done. Qed.

(** [t] shows [base] with its logged predictions drawn over it. *)
Definition view_over (base : TerminalFrame) (t : TerminalInner) : Prop :=
  frame_ok (ti_frame t) ∧ predicted_over base (le_unconfirmed_inputs (ti_echo_engine t)) (ti_frame t).

Lemma redrawn_ok f f' : frame_ok f → redrawn f f' → cursor_ok f' → frame_ok f'.
Proof.
  intros ((Hc & Hr & Hl & Hw) & Hpos & _) Hre Hcur. pose proof Hre as [_ L].
  apply redrawn_fields in Hre as (E1 & E2 & E3 & _). unfold frame_ok, frame_wf, len in *.
  by rewrite L, E1, E2, E3.
Qed.

Lemma predict_over base e f ins :
  view_over base (mkInner f e) →
  ∃ e' f', predict_all ins (e, f) = ((e', f'), Ok tt) ∧ view_over base (mkInner f' e') ∧
    pe_seq_num <$> le_unconfirmed_inputs e' = (pe_seq_num <$> le_unconfirmed_inputs e) ++ ins.*2 ∧
    redrawn f f'.
Proof.
  intros (Hok & Hover). pose proof Hok as (Hwf & _ & Hc). cbn in *.
  destruct (predict_all_run ins e f Hwf Hc) as (f' & entries & E & W & C & Hs & R & U).
  eexists _, f'. split; [exact E|]. split; [|by rewrite <-Hs, <-fmap_app].
  split; [by apply (redrawn_ok f)|by eapply predicted_over_app].
Qed.

Lemma apply_frame_run t g seq :
  frame_ok (ti_frame t) → grid_ok g →
  ∃ base t', update_from_grid_state g (ti_frame t) =
      (base, Ok (bool_decide (tf_cols (ti_frame t) ≠ gs_cols g ∨ tf_rows (ti_frame t) ≠ gs_rows g))) ∧
    apply_frame g seq t =
      (t', Ok (bool_decide (tf_cols (ti_frame t) ≠ gs_cols g ∨ tf_rows (ti_frame t) ≠ gs_rows g))) ∧
    shows g base ∧ frame_ok base ∧ view_over base t' ∧
    pe_seq_num <$> le_unconfirmed_inputs (ti_echo_engine t') =
      pe_seq_num <$> survivors seq (ti_echo_engine t) ∧
    redrawn (base <| tf_last_seq := seq |>) (ti_frame t').
Proof.
  intros (Hwf & _ & _) (Hg & Hpos & Hx & Hy).
  destruct (update_frame_run (ti_frame t) g Hwf Hg)
    as (base & E & W & E1 & E2 & E3 & E4 & E5 & E6 & _).
  assert (shows g base) as Hshow by done.
  assert (frame_ok base) as Hok by (split; [done|]; unfold cursor_ok; by rewrite E2, E4, E5).
  set (f := base <| tf_last_seq := seq |>).
  destruct (predict_over f ((ti_echo_engine t) <| le_unconfirmed_inputs := [] |>) f
    (inputs_of (survivors seq (ti_echo_engine t)))) as (e' & f' & E7 & Hv & Hl & Hr).
  { split; [done|]. apply predicted_over_nil. }
  exists base, (mkInner f' e'). split; [done|]. split.
  { unfold apply_frame, on_frame, on_engine, modify, mbind, M_bind. rewrite E. cbn.
    rewrite reconcile_frame_eq. unfold f in E7. cbn in E7 |- *. rewrite E7. done. }
  split; [done|]. split; [done|]. split; [|split; [|done]].
  - destruct Hv as [Hok' Hover]. split; [done|]. cbn in *. done.
  - cbn [ti_echo_engine]. rewrite Hl. unfold inputs_of. cbn. by rewrite <-!list_fmap_compose.
Qed.

Lemma touched_over base t f' :
  view_over base t → touched (ti_frame t) f' → view_over base (t <| ti_frame := f' |>).
Proof.
  intros [Hok Hover] Ht. split; [by eapply touched_ok|]. cbn. by rewrite <-(to_screen _ _ Ht).
Qed.

Lemma abort_run base t :
  cursor_ok base → view_over base t →
  ∃ t', abort_prediction t = (t', Ok tt) ∧ same_screen (ti_frame t') base ∧
    le_unconfirmed_inputs (ti_echo_engine t') = [] ∧ view_over base t' ∧ redrawn (ti_frame t) (ti_frame t').
Proof.
  intros Hb [Hok (f' & U & Hsame)].
  eexists (mkInner f' _). split.
  { unfold abort_prediction, on_engine, abort. unfold runs in U. rewrite U. cbn. reflexivity. }
  pose proof (undo_redrawn _ _ _ U) as Hr.
  split; [done|]. split; [done|]. split; [|done]. split.
  - eapply redrawn_ok; [done..|]. pose proof Hsame as (_ & _ & _ & Ex & Ey). unfold cursor_ok in *.
    cbn. by rewrite Ex, Ey.
  - cbn. rewrite Hsame. apply predicted_over_nil.
Qed.

Lemma shows_cursor g base : grid_ok g → shows g base → cursor_ok base.
Proof. intros (_ & _ & Hx & Hy) (_ & _ & _ & Sx & Sy). unfold cursor_ok. by rewrite Sx, Sy. Qed.

Lemma predict_input_run base bs seq t :
  view_over base t → ∃ t', predict_input bs seq t = (t', Ok tt) ∧ view_over base t'.
Proof.
  intros Hv. destruct t as [f e].
  destruct (predict_over base e f [(bs, seq)] Hv) as (e' & f' & E & Hv' & _).
  exists (mkInner f' e'). split; [|done]. unfold predict_input, on_engine. cbn.
  unfold predict_all in E. cbn in E. unfold mbind, M_bind in E.
  destruct (apply_keystrokes bs seq (e, f)) as [[e1 f1] [[]| |]]; [|done|done].
  by injection E as -> ->.
Qed.

(** ** The mirror is in order: its predictions, if any, can be taken off *)
Definition over (base : TerminalFrame) (t : TerminalInner) : Prop := cursor_ok base ∧ view_over base t.
Definition mirror_ok (t : TerminalInner) : Prop := ∃ base, over base t.

Lemma mirror_ok_frame t : mirror_ok t → frame_ok (ti_frame t).
Proof. by intros (base & _ & ? & _). Qed.

Lemma mirror_ok_new f : frame_ok f → mirror_ok (mkInner f LocalEchoEngine_new).
Proof.
  intros Hok. exists f. split; [apply Hok|]. split; [done|]. apply predicted_over_nil.
Qed.

Lemma apply_frame_ok t g seq :
  mirror_ok t → grid_ok g → ∃ t' r, apply_frame g seq t = (t', Ok r) ∧ mirror_ok t' ∧
    ∃ base, shows g base ∧ view_over base t'.
Proof.
  intros Ht Hg. destruct (apply_frame_run t g seq (mirror_ok_frame t Ht) Hg)
    as (base & t' & _ & E & Hs & _ & Hv & _).
  eexists t', _. split; [exact E|]. split; [|by exists base]. exists base.
  split; [by eapply shows_cursor|done].
Qed.

Lemma predict_input_ok t bs seq :
  mirror_ok t → ∃ t', predict_input bs seq t = (t', Ok tt) ∧ mirror_ok t'.
Proof.
  intros (base & Hb & Hv). destruct (predict_input_run base bs seq t Hv) as (t' & E & Hv').
  exists t'. split; [done|by exists base].
Qed.

(** An acknowledgement redraws the predictions that survive over the screen as it is. *)
Lemma acknowledge_over base t ack :
  over base t → ∃ t', acknowledge ack t = (t', Ok tt) ∧ over (ti_frame t) t'.
Proof.
  intros (_ & Hok & _). destruct (predict_over (ti_frame t) ((ti_echo_engine t) <| le_unconfirmed_inputs := [] |>) (ti_frame t)
    (inputs_of (survivors ack (ti_echo_engine t)))) as (e' & f' & E & Hv & _).
  { split; [done|]. apply predicted_over_nil. }
  exists (mkInner f' e'). split; [|split; [apply Hok|done]].
  unfold acknowledge, on_engine. rewrite reconcile_frame_eq. cbn in E |- *. by rewrite E.
Qed.

Lemma acknowledge_ok t ack :
  mirror_ok t → ∃ t', acknowledge ack t = (t', Ok tt) ∧ mirror_ok t'.
Proof.
  intros [base Hov]. destruct (acknowledge_over base t ack Hov) as (t' & E & Hov'). exists t'. split; [done|by exists (ti_frame t)].
Qed.

Lemma abort_ok t :
  mirror_ok t → ∃ t', abort_prediction t = (t', Ok tt) ∧ mirror_ok t' ∧
    ∀ g base, grid_ok g → shows g base → view_over base t → view_over base t'.
Proof.
  intros (base & Hb & Hv). destruct (abort_run base t Hb Hv) as (t' & E & _ & _ & Hv' & _).
  exists t'. split; [done|]. split; [by exists base|]. intros g base' Hg Hs Hv2.
  destruct (abort_run base' t (shows_cursor g base' Hg Hs) Hv2) as (t2 & E2 & _ & _ & Hv2' & _).
  rewrite E in E2. by injection E2 as <-.
Qed.

Lemma flag_step_ok m t :
  flag_step m → mirror_ok t → ∃ t', m t = (t', Ok tt) ∧ mirror_ok t' ∧
    ∀ base, view_over base t → view_over base t'.
Proof.
  intros Hm (base & Hb & Hv). destruct (Hm t) as (f' & E & Ht); [apply Hv|].
  eexists. split; [exact E|]. split; [exists base; split; [done|by apply touched_over]|].
  intros base' Hv'. by apply touched_over.
Qed.

(** The renderer's copy leaves the mirror's screen, and its log, alone. *)
Lemma consume_updates_run t dest :
  ∃ t' dest', consume_updates (t, dest) =
      ((t', dest'), Ok (tf_dirty (ti_frame t) || tf_clear_requested (ti_frame t))) ∧
    ti_echo_engine t' = ti_echo_engine t ∧ same_screen (ti_frame t) (ti_frame t') ∧
    length (tf_row_dirty (ti_frame t')) = length (tf_row_dirty (ti_frame t)).
Proof.
  unfold consume_updates, get, modify, mbind, M_bind. destruct (_ || _).
  - eexists _, _. split; [done|]. cbn. by rewrite length_fmap.
  - by exists t, dest.
Qed.

Lemma same_screen_ok f f' :
  frame_ok f → same_screen f f' → length (tf_row_dirty f') = length (tf_row_dirty f) → frame_ok f'.
Proof.
  intros ((Hc & Hr & Hl & Hw) & Hpos & Hx & Hy) (E1 & E2 & E3 & E4 & E5) Hlen.
  unfold frame_ok, frame_wf, cursor_ok, len in *. by rewrite <-E1, <-E2, <-E3, <-E4, <-E5, Hlen.
Qed.

Lemma consume_over base t dest t' dest' r :
  view_over base t → consume_updates (t, dest) = ((t', dest'), r) → view_over base t'.
Proof.
  intros [Hok Hover] E. destruct (consume_updates_run t dest) as (t2 & d2 & E2 & Ee & Hs & Hl).
  rewrite E in E2. injection E2 as <- _ _. split; [by eapply same_screen_ok|]. by rewrite Ee, <-Hs.
Qed.

(** ** What predictions leave behind *)

(** The server state on display after [ops]. *)
Definition last_grid (g : GridState) (ops : list view_op) : GridState :=
  foldl (λ g op, match op with VApply g' _ => g' | _ => g end) g ops.

Definition grids_ok (op : view_op) : Prop := match op with VApply g _ => grid_ok g | _ => True end.
#[export] Instance grids_ok_dec op : Decision (grids_ok op).
Proof. destruct op; apply _. Defined.

Definition is_apply (op : view_op) : Prop := match op with VApply _ _ => True | _ => False end.
#[export] Instance is_apply_dec op : Decision (is_apply op).
Proof. destruct op; apply _. Defined.

Lemma on_mirror_run {A} (m : M TerminalInner A) t dest t' a :
  m t = (t', Ok a) → on_mirror m (t, dest) = ((t', dest), Ok tt).
Proof. unfold on_mirror. cbn. by intros ->. Qed.

Create HintDb view.
#[export] Hint Resolve record_rtt_loss_step record_bandwidth_step record_fps_step set_reconnecting_step
  set_overlay_step toggle_overlay_step mark_dirty_step : view.

Definition pending (t : TerminalInner) : list PredictionEntry := le_unconfirmed_inputs (ti_echo_engine t).

(** With nothing pending the mirror shows its base. *)
Lemma over_settled base t : over base t → pending t = [] → same_screen base (ti_frame t).
Proof. intros (_ & _ & f & U & Hs) Hp. unfold pending in Hp. rewrite Hp in U. injection U as <-. by symmetry. Qed.

(** The base after a call: a state applied, the screen as it is when an acknowledgement comes, or the
    base there was. *)
Definition rebased (op : view_op) (t : TerminalInner) (base base' : TerminalFrame) : Prop :=
  match op with
  | VApply g _ => shows g base'
  | VAcknowledge _ => base' = ti_frame t
  | _ => base' = base
  end.

Lemma view_step_over op base t dest :
  grids_ok op → over base t →
  ∃ t' dest' base', view_step op (t, dest) = ((t', dest'), Ok tt) ∧ over base' t' ∧ rebased op t base base'.
Proof.
  intros Hop Hov. pose proof Hov as (Hb & Hok & _). destruct op as [g seq|bs seq|ack| | | | | | | | |]; cbn [view_step rebased];
    try match goal with |- context [on_mirror ?m] =>
      destruct (ltac:(auto with view) : flag_step m) with t as (f' & E & Ht); [done|];
      eexists _, dest, base; split; [by eapply on_mirror_run|];
      split; [split; [done|by apply touched_over; [apply Hov|]]|done]
    end.
  - destruct (apply_frame_run t g seq Hok Hop) as (base' & t' & _ & E & Hs & _ & Hv & _).
    exists t', dest, base'. split; [by eapply on_mirror_run|]. split; [|done]. split; [by eapply shows_cursor|done].
  - destruct (predict_input_run base bs seq t) as (t' & E & Hv'); [apply Hov|].
    exists t', dest, base. split; [by eapply on_mirror_run|done].
  - destruct (acknowledge_over base t ack Hov) as (t' & E & Hv').
    exists t', dest, (ti_frame t). split; [by eapply on_mirror_run|done].
  - destruct (abort_run base t Hb) as (t' & E & _ & _ & Hv' & _); [apply Hov|].
    exists t', dest, base. split; [by eapply on_mirror_run|done].
  - destruct (consume_updates_run t dest) as (t' & dest' & E & _).
    exists t', dest', base. split; [unfold mbind, M_bind; by rewrite E|]. split; [|done]. split; [done|].
    eapply consume_over; [apply Hov|exact E].
Qed.

(** No acknowledgement comes while predictions are pending. *)
Fixpoint settled (ops : list view_op) (s : TerminalInner * TerminalFrame) : bool :=
  match ops with
  | [] => true
  | op :: ops =>
    match op with VAcknowledge _ => bool_decide (pending s.1 = []) | _ => true end &&
    settled ops (view_step op s).1
  end.

Lemma view_run_over ops base t dest :
  Forall grids_ok ops → over base t →
  ∃ t' dest' base', view_run ops (t, dest) = ((t', dest'), Ok tt) ∧ over base' t' ∧
    (settled ops (t, dest) = true →
     (∀ g, shows g base → shows (last_grid g ops) base') ∧
     (Forall (λ op, ¬ is_apply op) ops → same_screen base base')).
Proof.
  revert base t dest. induction ops as [|op ops IH]; intros base t dest Hok Hov; [by exists t, dest, base|].
  apply Forall_cons in Hok as [Hop Hok].
  destruct (view_step_over op base t dest Hop Hov) as (t1 & dest1 & base1 & E1 & Hov1 & Hre).
  destruct (IH base1 t1 dest1 Hok Hov1) as (t2 & dest2 & base2 & E2 & Hov2 & Hset).
  exists t2, dest2, base2. split; [unfold view_run in *; cbn; unfold mbind, M_bind; by rewrite E1|]. split; [done|].
  cbn [settled]. rewrite E1. intros [Hnow Hlater]%andb_true_iff. destruct (Hset Hlater) as [Hg Hsame].
  assert (¬ is_apply op → same_screen base base1) as Hkeep.
  { intros Ha. destruct op; cbn in Hre, Ha; subst; try done. apply bool_decide_eq_true in Hnow. by apply over_settled. }
  split.
  - intros g Hs. cbn [last_grid foldl]. destruct (decide (is_apply op)) as [Ha|Ha].
    + destruct op; try done. by apply Hg.
    + assert (shows (last_grid g ops) base2) by (apply Hg; by rewrite <-(Hkeep Ha)). by destruct op.
  - intros [Ha Has]%Forall_cons. etransitivity; [by apply Hkeep|by apply Hsame].
Qed.

(** C25. What predictions leave behind. The calls a session makes on the mirror, in any order (states
    applied, predictions of any input, acknowledgements, aborts, repaints, telemetry, overlay and banner
    switches), never fail, and neither does taking the predictions off after them. After a state has been
    applied, and until an acknowledgement comes while predictions are pending, that leaves the mirror
    showing exactly the last state applied: its size, cells and cursor. After an acknowledgement, and until
    the next state or the next acknowledgement of that kind, it leaves exactly what was on the mirror when
    the acknowledgement came: the predictions then pending stay on the screen. *)
Theorem abort_reveals_server_screen t dest pre op post :
  frame_ok (ti_frame t) → pending t = [] → Forall grids_ok (pre ++ op :: post) →
  ∃ s1 t2 dest2 t3,
    view_run pre (t, dest) = (s1, Ok tt) ∧ view_run (op :: post) s1 = ((t2, dest2), Ok tt) ∧
    abort_prediction t2 = (t3, Ok tt) ∧
    (settled post (view_step op s1).1 = true →
     match op with
     | VApply g _ => shows (last_grid g post) (ti_frame t3)
     | VAcknowledge _ => Forall (λ op, ¬ is_apply op) post → same_screen (ti_frame s1.1) (ti_frame t3)
     | _ => True
     end).
Proof.
  intros Hok Hun [Hpre [Hop Hpost]%Forall_cons]%Forall_app.
  destruct (view_run_over pre (ti_frame t) t dest Hpre) as (t1 & dest1 & base1 & E1 & Hov1 & _).
  { split; [apply Hok|]. split; [done|]. unfold pending in Hun. rewrite Hun. apply predicted_over_nil. }
  destruct (view_step_over op base1 t1 dest1 Hop Hov1) as (t1' & dest1' & base1' & E1' & Hov1' & Hre).
  destruct (view_run_over post base1' t1' dest1' Hpost Hov1') as (t2 & dest2 & base2 & E2 & [Hb2 Hv2] & Hset).
  destruct (abort_run base2 t2 Hb2 Hv2) as (t3 & E3 & Hsame & _). exists (t1, dest1), t2, dest2, t3. split; [done|].
  split; [unfold view_run in *; cbn; unfold mbind, M_bind; by rewrite E1'|]. split; [done|]. rewrite E1'.
  intros [Hg Hkeep]%Hset. destruct op; try done; cbn [rebased] in Hre.
  - rewrite Hsame. by apply Hg.
  - intros Hno. subst base1'. etransitivity; [by apply Hkeep|by symmetry].
Qed.

(** ** What the renderer is told to repaint *)

Definition row_flagged (f : TerminalFrame) (y : Z) : Prop := tf_row_dirty f !! Z.to_nat y = Some true.

Definition row_same (cols y : Z) (l l' : list LocalCellData) : Prop :=
  ∀ x, 0 ≤ x < cols → l !! Z.to_nat (y * cols + x) = l' !! Z.to_nat (y * cols + x).

Lemma row_same_or cols y l l' : row_differs cols y l l' → row_same cols y l l' → False.
Proof. intros (x & Hx & Hne) Hs. by apply Hne, Hs. Qed.

Lemma not_row_differs cols y l l' : ¬ row_differs cols y l l' → row_same cols y l l'.
Proof. intros Hn x Hx. apply dec_stable. intros Hne. apply Hn. by exists x. Qed.

Lemma rows_same_eq cols rows l l' :
  0 ≤ cols → len l = cols * rows → len l' = cols * rows →
  (∀ y, 0 ≤ y < rows → row_same cols y l l') → l = l'.
Proof.
  intros Hc Hl Hl' Hs. apply list_eq_Z; [congruence|]. intros i Hi.
  assert (0 < cols) by (destruct (decide (cols = 0)); subst; lia). pose proof (Z.div_mod i cols ltac:(lia)) as E.
  pose proof (Z.mod_pos_bound i cols ltac:(lia)).
  assert (0 ≤ i / cols < rows) as Hy
    by (split; [apply Z.div_pos; lia|apply Z.div_lt_upper_bound; lia]).
  specialize (Hs _ Hy (i mod cols) ltac:(lia)).
  by replace (i / cols * cols + i mod cols) with i in Hs by lia.
Qed.

Definition same_view (f f' : TerminalFrame) : Prop :=
  same_screen f f' ∧ tf_cursor_visible f = tf_cursor_visible f'.

(** The flags of [f] cover everything in which it differs from what [dest] shows. *)
Record covered (dest f : TerminalFrame) : Prop := {
  cv_rows : (∀ y, 0 ≤ y < tf_rows f → row_flagged f y) ∨
    tf_cols dest = tf_cols f ∧ tf_rows dest = tf_rows f ∧
    ∀ y, 0 ≤ y < tf_rows f → row_flagged f y ∨ row_same (tf_cols f) y (tf_cell_cache dest) (tf_cell_cache f);
  cv_clean : tf_dirty f = false → tf_clear_requested f = false → same_view dest f;
}.

Lemma touched_covered dest f f' : covered dest f → touched f f' → covered dest f'.
Proof.
  intros [Hrows Hclean] [Hsame Hvis Hlen Hfl Hd Hcl]. pose proof Hsame as (E1 & E2 & E3 & _).
  split.
  - unfold row_flagged in *. rewrite <-E1, <-E2, <-E3. destruct Hrows as [Hall|(D1 & D2 & Hrows)].
    + left. intros y Hy. by apply Hfl, Hall.
    + right. split; [done|]. split; [done|]. intros y Hy. destruct (Hrows y Hy); [left|by right].
      by apply Hfl.
  - intros Hnd Hnc. rewrite Hcl in Hnc. destruct Hclean as [Hs Hv]; [|done|].
    + destruct (tf_dirty f); [|done]. by rewrite Hd in Hnd.
    + split; [by rewrite Hs|by rewrite Hv].
Qed.

Lemma update_covered dest f g base r :
  frame_wf f → grid_ok g → covered dest f → update_from_grid_state g f = (base, Ok r) → covered dest base.
Proof.
  intros Hwf (Hg & _) [Hrows Hclean] E.
  destruct (update_frame_run f g Hwf Hg)
    as (f' & E' & W & E1 & E2 & E3 & E4 & E5 & E6 & Hfl & Hd & Hcl & _).
  rewrite E in E'. injection E' as <- _. unfold sized_frame, frame_resize in Hfl, Hd, Hcl.
  destruct (decide (tf_cols f ≠ gs_cols g ∨ tf_rows f ≠ gs_rows g)) as [Hre|Hre].
  { split; [|by rewrite Hcl]. left. intros y Hy. rewrite E2 in Hy. apply Hfl; [done|]. left.
    by apply lookup_vec. }
  assert (tf_cols f = gs_cols g ∧ tf_rows f = gs_rows g) as [F1 F2] by (split; apply dec_stable; tauto).
  cbn [fst] in *. split.
  - rewrite E1, E2, E3. rewrite F1, F2 in Hrows. destruct Hrows as [Hall|(D1 & D2 & Hrows)].
    + left. intros y Hy. apply Hfl; [done|]. left. by apply Hall.
    + right. split; [done|]. split; [done|]. intros y Hy.
      destruct (decide (tf_row_dirty base !! Z.to_nat y = Some true)) as [Hf|Hf]; [by left|right].
      rewrite Hfl in Hf by done. destruct (Hrows y Hy) as [Hy'|Hs]; [by destruct Hf; left|].
      intros x Hx. rewrite Hs by done. eapply not_row_differs; [|done]. tauto.
  - intros Hnd Hnc. rewrite Hcl in Hnc. assert (¬ tf_dirty base = true) as Hnd' by congruence.
    rewrite Hd in Hnd'. destruct Hclean as [(S1 & S2 & S3 & S4 & S5) Sv]; [|done|].
    { destruct (tf_dirty f); [|done]. by destruct Hnd'; left. }
    assert (tf_cursor_x f = gs_cursor_x g ∧ tf_cursor_y f = gs_cursor_y g ∧
          tf_cursor_visible f = gs_cursor_visible g) as (C1 & C2 & C3).
    { apply dec_stable. tauto. }
    assert (tf_cell_cache f = gs_cells g) as Hcells.
    { destruct Hwf as (Hc & _ & Hl & _). destruct Hg as (_ & _ & Hl' & _). unfold fits in Hc.
      rewrite F1, F2 in *. apply (rows_same_eq (gs_cols g) (gs_rows g)); [lia|done|done|].
      intros y Hy. apply not_row_differs. intros Hdiff. apply Hnd'. right; left. by exists y. }
    unfold same_view, same_screen. by rewrite E1, E2, E3, E4, E5, E6, <-F1, <-F2, <-Hcells, <-C1, <-C2, <-C3.
Qed.

Lemma consume_covered t dest t' dest' b :
  frame_wf (ti_frame t) → covered dest (ti_frame t) → consume_updates (t, dest) = ((t', dest'), Ok b) →
  covered dest' (ti_frame t').
Proof.
  intros Hwf Hcov. unfold consume_updates, get, modify, mbind, M_bind. destruct (_ || _) eqn:Eb; cbn.
  2: { by intros [= -> -> _]. }
  intros [= <- <- _]. split; cbn; [|done]. right. split; [done|]. split; [done|]. intros y Hy. by right.
Qed.

(** Nothing is predicted. *)
Definition unpredicted (t : TerminalInner) : Prop := le_unconfirmed_inputs (ti_echo_engine t) = [].

Definition is_predict (op : view_op) : Prop := match op with VPredict _ _ => True | _ => False end.
#[export] Instance is_predict_dec op : Decision (is_predict op).
Proof. destruct op; apply _. Defined.

(** What the renderer relies on between calls. *)
Definition paintable (s : TerminalInner * TerminalFrame) : Prop :=
  frame_ok (ti_frame s.1) ∧ unpredicted s.1 ∧ covered s.2 (ti_frame s.1).

Lemma flag_step_paintable m t dest :
  flag_step m → paintable (t, dest) →
  ∃ t', on_mirror m (t, dest) = ((t', dest), Ok tt) ∧ paintable (t', dest).
Proof.
  intros Hm (Hok & He & Hcov). destruct (Hm t Hok) as (f' & E & Ht).
  eexists. split; [by eapply on_mirror_run|]. split; [by eapply touched_ok|]. split; [done|].
  by eapply touched_covered.
Qed.

Lemma survivors_none ack e :
  Forall (λ en, pe_seq_num en ≤ ack) (le_unconfirmed_inputs e) → survivors ack e = [].
Proof.
  unfold survivors. induction 1 as [|en l Hen _ IH]; cbn; [done|]. by rewrite decide_True by tauto.
Qed.

Lemma apply_frame_unpredicted t g seq :
  frame_ok (ti_frame t) → grid_ok g →
  Forall (λ en, pe_seq_num en ≤ seq) (le_unconfirmed_inputs (ti_echo_engine t)) →
  ∃ base t' r, update_from_grid_state g (ti_frame t) = (base, Ok r) ∧ apply_frame g seq t = (t', Ok r) ∧
    frame_ok base ∧ ti_frame t' = base <| tf_last_seq := seq |> ∧ unpredicted t'.
Proof.
  intros Hok Hg He. destruct (apply_frame_run t g seq Hok Hg) as (base & t' & E & E' & Hs & Hb & _).
  exists base. eexists _, _. split; [done|].
  unfold apply_frame, on_frame, on_engine, modify, mbind, M_bind. rewrite E. cbn.
  rewrite reconcile_frame_eq, survivors_none by done. cbn. done.
Qed.

Lemma view_step_paintable op s :
  grids_ok op → ¬ is_predict op → paintable s →
  ∃ s', view_step op s = (s', Ok tt) ∧ paintable s'.
Proof.
  destruct s as [t dest]. intros Hop Hp Hs.
  destruct op as [g seq|bs seq|ack| | | | | | | | |]; cbn [view_step]; try done;
    try match goal with |- context [on_mirror ?m] =>
      destruct (flag_step_paintable m t dest ltac:(auto with view) Hs) as (t' & E & Hs');
      by exists (t', dest)
    end.
  - destruct Hs as (Hok & He & Hcov). cbn in *.
    destruct (apply_frame_unpredicted t g seq Hok Hop) as (base & t' & r & E & E' & Hb & Ef & He').
    { rewrite He. done. }
    exists (t', dest). split; [by eapply on_mirror_run|]. split; [cbn; by rewrite Ef|]. split; [done|].
    cbn. rewrite Ef. destruct Hok as [Hwf _].
    pose proof (update_covered dest (ti_frame t) g base r Hwf Hop Hcov E) as Hc. destruct Hc. by split.
  - destruct Hs as (Hok & He & Hcov). unfold unpredicted in He. cbn in *. destruct t as [f [log ep]].
    cbn in He. subst log. by eexists.
  - destruct Hs as (Hok & He & Hcov). unfold unpredicted in He. cbn in *. destruct t as [f [log ep]].
    cbn in He. subst log. by eexists.
  - destruct Hs as (Hok & He & Hcov). destruct (consume_updates_run t dest) as (t' & dest' & E & Ee & Hsame & Hlen).
    exists (t', dest'). split; [unfold mbind, M_bind; by rewrite E|].
    split; [|split; [unfold unpredicted in *; cbn in *; by rewrite Ee|]].
    + by eapply same_screen_ok.
    + destruct Hok as [Hwf _]. by eapply consume_covered.
Qed.

Lemma view_run_paintable ops s :
  Forall grids_ok ops → Forall (λ op, ¬ is_predict op) ops → paintable s →
  ∃ s', view_run ops s = (s', Ok tt) ∧ paintable s'.
Proof.
  revert s. induction ops as [|op ops IH]; intros s Hok Hp Hs; [by exists s|].
  apply Forall_cons in Hok as [Hop Hok]. apply Forall_cons in Hp as [Hop' Hp].
  destruct (view_step_paintable op s Hop Hop' Hs) as (s1 & E1 & Hs1).
  destruct (IH s1 Hok Hp Hs1) as (s2 & E2 & Hs2). exists s2. split; [|done].
  unfold view_run in *. cbn. unfold mbind, M_bind. by rewrite E1.
Qed.

(** C19. The renderer is told all that changes. From a new mirror and the renderer's empty back
    buffer, along any calls without a prediction (server states of any sizes, repaints, telemetry,
    switches), [consume_updates] answers [false] only when the back buffer already shows the mirror
    (size, cells, cursor, its visibility), and otherwise leaves the back buffer showing it and
    flags every row whose cells differ from those shown before; when the size has changed, every
    row. No call fails. *)
Theorem repaint_complete cols rows ops :
  u16 cols → u16 rows → 0 < rows → Forall grids_ok ops → Forall (λ op, ¬ is_predict op) ops →
  ∃ t dest t' dest' b,
    view_run ops (ClientTerminal_new cols rows, TerminalFrame_new 0 0) = ((t, dest), Ok tt) ∧
    consume_updates (t, dest) = ((t', dest'), Ok b) ∧ same_view dest' (ti_frame t) ∧
    if b then ∀ y, 0 ≤ y < tf_rows dest' → row_flagged dest' y ∨
                tf_cols dest = tf_cols dest' ∧ tf_rows dest = tf_rows dest' ∧
                row_same (tf_cols dest') y (tf_cell_cache dest) (tf_cell_cache dest')
    else dest' = dest.
Proof.
  intros Hc Hr Hpos Hok Hp.
  destruct (view_run_paintable ops (ClientTerminal_new cols rows, TerminalFrame_new 0 0))
    as ([t dest] & E & Hf & _ & Hcov); [done|done| |].
  { split; [split; [by apply TerminalFrame_new_wf|done]|]. split; [done|]. split; [|done].
    left. intros y Hy. by apply lookup_vec. }
  destruct Hcov as [Hrows Hclean]. cbn [fst snd] in *. exists t, dest.
  destruct (tf_dirty (ti_frame t) || tf_clear_requested (ti_frame t)) eqn:Eb.
  - eexists _, _, true. split; [done|]. split.
    { unfold consume_updates, get, modify, mbind, M_bind. rewrite Eb. cbn. reflexivity. }
    split; [done|]. cbn. intros y Hy.
    destruct Hrows as [Hall|(D1 & D2 & Hrows)]; [left; by apply Hall|].
    destruct (Hrows y Hy) as [?|?]; [by left|by right].
  - exists t, dest, false. split; [done|]. split.
    { unfold consume_updates, get, modify, mbind, M_bind. rewrite Eb. reflexivity. }
    split; [|done]. apply orb_false_iff in Eb as [? ?]. by apply Hclean.
Qed.

(** A correct prediction is never painted. When nothing is flagged and the user's input is
    predicted, and the server then sends exactly the predicted screen, in a frame numbered at least as
    high as the input, the mirror still has nothing to paint: [consume_updates] answers [false] and the back
    buffer keeps the screen from before the input. *)
Theorem confirmed_prediction_unpainted t ins :
  frame_ok (ti_frame t) → unpredicted t → tf_dirty (ti_frame t) = false →
  tf_clear_requested (ti_frame t) = false →
  ∃ e' f', predict_all ins (ti_echo_engine t, ti_frame t) = ((e', f'), Ok tt) ∧
    ∀ g seq dest, grid_ok g → shows g f' → gs_cursor_visible g = tf_cursor_visible (ti_frame t) →
      Forall (λ n, n ≤ seq) ins.*2 →
      ∃ t', apply_frame g seq (mkInner f' e') = (t', Ok false) ∧
        consume_updates (t', dest) = ((t', dest), Ok false).
Proof.
  intros Hok He Hd Hcl. destruct t as [f e]. unfold unpredicted in He. cbn in *.
  destruct (predict_over f e f ins) as (e' & f' & E & [Hok' _] & Hl & Hre).
  { split; [done|]. cbn. rewrite He. apply predicted_over_nil. }
  exists e', f'. split; [done|]. intros g seq dest Hg (S1 & S2 & S3 & S4 & S5) Hv Hseq. cbn in *.
  apply redrawn_fields in Hre as (_ & _ & R3 & R4 & R5 & R6 & _).
  destruct (apply_frame_unpredicted (mkInner f' e') g seq Hok' Hg)
    as (base & t' & r & Eu & Ea & _ & Ef & _).
  { cbn. rewrite He in Hl. cbn in Hl. rewrite <-Hl in Hseq.
    rewrite Forall_fmap in Hseq. exact Hseq. }
  pose proof Hg as (Hgw & _). destruct Hok' as [Hw' _].
  destruct (update_frame_run f' g Hw' Hgw)
    as (base' & Eu' & _ & _ & _ & _ & _ & _ & _ & _ & Hdirty & Hclear & _).
  cbn in Eu. rewrite Eu in Eu'. injection Eu' as <- Hr.
  rewrite bool_decide_eq_false_2 in Hr by (intros [Hx|Hx]; by apply Hx). subst r.
  assert (sized_frame g f' = f') as Hsz.
  { unfold sized_frame, frame_resize. rewrite decide_False; [done|].
    intros [Hx|Hx]; by apply Hx. }
  rewrite Hsz in Hdirty, Hclear. exists t'. split; [done|].
  unfold consume_updates, get, modify, mbind, M_bind. rewrite Ef. cbn.
  rewrite Hclear, R5, Hcl, orb_false_r. destruct (tf_dirty base); [|done]. exfalso.
  destruct (proj1 Hdirty eq_refl) as [Ht|[(y & Hy & Hdiff)|Hcur]].
  - congruence.
  - eapply row_same_or; [exact Hdiff|]. rewrite S3. by intros x Hx.
  - apply Hcur. by rewrite S4, S5, R6, Hv.
Qed.

(** An acknowledgement draws surviving input twice. After printable text that leaves room on its
    line is predicted, acknowledging an earlier input draws the text again behind itself. *)
Theorem acknowledge_duplicates t bs seq ack :
  frame_ok (ti_frame t) → unpredicted t → Forall (λ b, 32 ≤ b < 127) bs →
  tf_cursor_x (ti_frame t) + 2 * len bs < tf_cols (ti_frame t) →
  tf_cursor_y (ti_frame t) < tf_rows (ti_frame t) → ack < seq →
  ∃ t1 t2, predict_input bs seq t = (t1, Ok tt) ∧ ti_frame t1 = typed bs (ti_frame t) ∧
    acknowledge ack t1 = (t2, Ok tt) ∧ ti_frame t2 = typed (bs ++ bs) (ti_frame t).
Proof.
  intros (Hwf & Hpos & Hc) He Hb Hx Hy Hack. destruct t as [f e]. unfold unpredicted in He. cbn in *.
  unfold len in Hx. destruct (type_text_run e f bs seq Hwf Hc Hb) as (saved & E1 & D1); [unfold len; lia|done|].
  pose proof (drawn_wf _ _ _ Hwf D1) as W1. pose proof (dr_cursor _ _ _ D1) as C1.
  destruct (type_text_run (e <| le_unconfirmed_inputs := [] |>) (typed bs f) bs seq W1 C1 Hb)
    as (saved2 & E2 & _); [cbn; unfold len; lia|done|].
  eexists (mkInner _ _), (mkInner _ _). cbn. split.
  { unfold predict_input, on_engine. cbn. rewrite E1. cbn. reflexivity. }
  split; [done|]. split.
  { unfold acknowledge, on_engine. cbn. rewrite reconcile_frame_eq. rewrite He.
    unfold survivors. cbn. rewrite decide_False by (cbn; lia). cbn. unfold predict_all. cbn.
    cbn in E2. unfold mbind, M_bind. rewrite E2. cbn. reflexivity. }
  cbn. unfold typed. cbn. f_equal; [|unfold len; rewrite length_app; lia].
  rewrite fmap_app, list_inserts_app_l, length_fmap. f_equal.
  unfold fits, cursor_ok, frame_wf, fits, len in *. nia.
Qed.

(** ** Concrete mirrors *)

Definition demo_mirror : TerminalInner := {| ti_frame := demo_echo_frame; ti_echo_engine := LocalEchoEngine_new |}.

(** What the server shows after [hi] is typed on [demo_mirror]. *)
Definition demo_server_grid : GridState :=
  {| gs_cols := 5; gs_rows := 2; gs_cursor_x := 3; gs_cursor_y := 0; gs_cursor_visible := false;
     gs_cells := [blank_cell; char_cell 104; char_cell 105; blank_cell; blank_cell] ++ vec blank_cell 5;
     gs_row_wrapped := [false; false] |}.

(** A prediction is acknowledged and stays; the next state takes it off, with those made after it. *)
Lemma abort_reveals_server_screen_witness :
  let pre := [VPredict [122] 8; VAcknowledge 3] in
  let post := [VPredict [97; 8; 98] 9; VConsume; VToggle; VPredict [99] 10] in
  (∃ s1 t2 dest2 t3,
    view_run pre (demo_mirror, TerminalFrame_new 0 0) = (s1, Ok tt) ∧
    view_run (VApply demo_server_grid 7 :: post) s1 = ((t2, dest2), Ok tt) ∧
    abort_prediction t2 = (t3, Ok tt) ∧ tf_cell_cache (ti_frame t3) = gs_cells demo_server_grid) ∧
  (∃ s1 t2 dest2 t3,
    view_run [VPredict [122] 8] (demo_mirror, TerminalFrame_new 0 0) = (s1, Ok tt) ∧
    view_run [VAcknowledge 3; VPredict [97] 9] s1 = ((t2, dest2), Ok tt) ∧
    abort_prediction t2 = (t3, Ok tt) ∧ same_screen (ti_frame s1.1) (ti_frame t3)).
Proof.
  intros pre post. split.
  - destruct (abort_reveals_server_screen demo_mirror (TerminalFrame_new 0 0) pre (VApply demo_server_grid 7) post)
      as (s1 & t2 & dest2 & t3 & E1 & E2 & E3 & Hs).
    + apply (bool_decide_unpack _). vm_compute. exact I.
    + reflexivity.
    + apply (bool_decide_unpack _). vm_compute. exact I.
    + exists s1, t2, dest2, t3. split; [exact E1|]. split; [exact E2|]. split; [exact E3|]. apply Hs.
      assert (s1 = (view_run pre (demo_mirror, TerminalFrame_new 0 0)).1) as -> by (by rewrite E1).
      vm_compute. reflexivity.
  - destruct (abort_reveals_server_screen demo_mirror (TerminalFrame_new 0 0) [VPredict [122] 8] (VAcknowledge 3) [VPredict [97] 9])
      as (s1 & t2 & dest2 & t3 & E1 & E2 & E3 & Hs).
    + apply (bool_decide_unpack _). vm_compute. exact I.
    + reflexivity.
    + apply (bool_decide_unpack _). vm_compute. exact I.
    + exists s1, t2, dest2, t3. split; [exact E1|]. split; [exact E2|]. split; [exact E3|]. apply Hs.
      * assert (s1 = (view_run [VPredict [122] 8] (demo_mirror, TerminalFrame_new 0 0)).1) as -> by (by rewrite E1).
        vm_compute. reflexivity.
      * apply (bool_decide_unpack _). vm_compute. exact I.
Defined.

Lemma repaint_complete_witness : ∃ t dest t' dest' b,
  view_run [VConsume; VApply demo_server_grid 7; VReconnecting true]
    (ClientTerminal_new 5 2, TerminalFrame_new 0 0) = ((t, dest), Ok tt) ∧
  consume_updates (t, dest) = ((t', dest'), Ok b) ∧ same_view dest' (ti_frame t).
Proof.
  destruct (repaint_complete 5 2 [VConsume; VApply demo_server_grid 7; VReconnecting true])
    as (t & dest & t' & dest' & b & E & C & S & _).
  - done.
  - done.
  - done.
  - apply (bool_decide_unpack _). vm_compute. exact I.
  - apply (bool_decide_unpack _). vm_compute. exact I.
  - exists t, dest, t', dest', b. split; [exact E|]. split; [exact C|exact S].
Defined.

(** [hi] is on the mirror and on the server's screen, and never on the terminal. *)
Lemma confirmed_prediction_unpainted_witness : ∃ e' f' t',
  predict_all [([104; 105], 3)] (LocalEchoEngine_new, demo_echo_frame) = ((e', f'), Ok tt) ∧
  apply_frame demo_server_grid 7 (mkInner f' e') = (t', Ok false) ∧
  consume_updates (t', demo_echo_frame) = ((t', demo_echo_frame), Ok false) ∧
  tf_cell_cache (ti_frame t') !! 1%nat = Some (char_cell 104) ∧
  tf_cell_cache demo_echo_frame !! 1%nat = Some blank_cell.
Proof.
  destruct (confirmed_prediction_unpainted demo_mirror [([104; 105], 3)]) as (e' & f' & E & Hall).
  - apply (bool_decide_unpack _). vm_compute. exact I.
  - done.
  - done.
  - done.
  - assert (f' = typed [104; 105] demo_echo_frame) as ->.
    { vm_compute in E. injection E as _ <-. vm_compute. reflexivity. }
    destruct (Hall demo_server_grid 7 demo_echo_frame) as (t' & A & C).
    + apply (bool_decide_unpack _). vm_compute. exact I.
    + vm_compute. done.
    + done.
    + repeat constructor; vm_compute; done.
    + exists e', (typed [104; 105] demo_echo_frame), t'. split; [exact E|]. split; [exact A|].
      split; [exact C|]. split; [|vm_compute; reflexivity].
      vm_compute in E. injection E as <-. vm_compute in A. injection A as <-. vm_compute. reflexivity.
Defined.

Lemma acknowledge_duplicates_witness : ∃ t1 t2,
  predict_input [104; 105] 3 (demo_mirror <| ti_frame ::= set_cursor 0 0 |>) = (t1, Ok tt) ∧
  acknowledge 2 t1 = (t2, Ok tt) ∧
  tf_cell_cache (ti_frame t2) !! 2%nat = Some (char_cell 104).
Proof.
  destruct (acknowledge_duplicates (demo_mirror <| ti_frame ::= set_cursor 0 0 |>) [104; 105] 3 2)
    as (t1 & t2 & E1 & _ & E2 & F2).
  - apply (bool_decide_unpack _). vm_compute. exact I.
  - done.
  - repeat constructor; lia.
  - vm_compute. done.
  - vm_compute. done.
  - lia.
  - exists t1, t2. split; [exact E1|]. split; [exact E2|]. rewrite F2. vm_compute. reflexivity.
Defined.
