(* ===== verification/Render.v ===== *)
(** * The renderer: [src/src/client/terminal.rs] (341-562)

    [paint] turns the flagged rows of the back buffer into terminal commands. Standard output is the
    class [Stdout]: a sink that takes one command at a time and may fail. *)

From Stdlib Require Import Floats.SpecFloat.
From S2P Require Import Prelude Utf8 Text Grid Float32 Frame.

Abbreviation bytes := (list Z) (only parsing).

(** ** Commands *)

Inductive Attribute : Type := Reset | Bold | Italic | Underlined | Reverse.
Inductive Color : Type := Rgb (r g b : Z) | Red | White.
#[export] Instance Color_eq_dec : EqDecision Color.
Proof. solve_decision. Defined.

(** What [crossterm::queue!], [write_all] and [flush] send. *)
Inductive Command : Type :=
  | ClearAll
  | MoveTo (x y : Z)
  | SetAttribute (a : Attribute)
  | SetForegroundColor (c : Color)
  | SetBackgroundColor (c : Color)
  | Show
  | Hide
  | WriteAll (bs : bytes)
  | Flush.

Class Stdout (W : Type) := queue : Command → W → W * outcome unit.

(** ** [format!] of the overlay's numbers *)

(** [n / d] rounded to the nearest integer, a tie to the even one. *)
Definition round_half_even (n d : Z) : Z :=
  let q := n / d in
  let r := n mod d in
  if (d <? 2 * r) || ((2 * r =? d) && Z.odd q) then q + 1 else q.

(** [{:.1}] *)
Definition fmt_tenths (x : f32) : bytes :=
  let sign (s : bool) := if s then [45] else [] in
  let fixed (n : Z) := digits (n / 10) ++ [46] ++ digits (n mod 10) in
  match x with
  | S754_nan => [78; 97; 78]
  | S754_infinity s => sign s ++ [105; 110; 102]
  | S754_zero s => sign s ++ fixed 0
  | S754_finite s m e =>
    sign s ++ fixed (if 0 <=? e then Z.pos m * 10 * 2 ^ e else round_half_even (Z.pos m * 10) (2 ^ (- e)))
  end.

(** [{:>n}] *)
Definition pad (n : nat) (bs : bytes) : bytes := replicate (n - length bs) 32 ++ bs.

Definition overlay_text (f : TerminalFrame) : bytes :=
  [32; 91] ++ pad 3 (digits (tf_rtt_ms f)) ++ [109; 115; 32; 124; 32] ++
  pad 4 (fmt_tenths (tf_packet_loss_pct f)) ++ [37; 32; 124; 32] ++
  pad 5 (fmt_tenths (tf_bandwidth_kb_s f)) ++ [75; 66; 47; 115; 32; 124; 32] ++
  pad 4 (fmt_tenths (tf_compression_ratio f)) ++ [120; 32; 124; 32] ++
  pad 2 (digits (tf_fps f)) ++ [102; 112; 115; 93; 32].

Example overlay_text_shown :
  overlay_text ((TerminalFrame_new 1 1) <| tf_rtt_ms := 42 |> <| tf_packet_loss_pct := f32_lit 25 10 |>
                  <| tf_bandwidth_kb_s := f32_lit 1234 100 |> <| tf_fps := 7 |>) =
  (* [ 42ms |  2.5% |  12.3KB/s |  1.0x |  7fps] *)
  [32; 91; 32; 52; 50; 109; 115; 32; 124; 32; 32; 50; 46; 53; 37; 32; 124; 32; 32; 49; 50; 46; 51; 75; 66; 47;
   115; 32; 124; 32; 32; 49; 46; 48; 120; 32; 124; 32; 32; 55; 102; 112; 115; 93; 32].
Proof. vm_compute. reflexivity. Qed.

(** ** [paint] *)

Section paint.
Context {W : Type} `{Stdout W}.

Abbreviation CellStyle := (option RgbColorUpdate * option RgbColorUpdate * Z)%type (only parsing).

Record ClientTerminalRenderer := mkRenderer {
  rn_stdout : W;
  rn_back_buffer : TerminalFrame;
}.
#[local] Instance ClientTerminalRenderer_eta : Eta ClientTerminalRenderer := λ r,
  mkRenderer (rn_stdout r) (rn_back_buffer r).

(** The renderer and the locals of [paint]: the style in force, and the row loop's [x] and
    [cursor_moved]. *)
Record Painter := mkPainter {
  pt_stdout : W;
  pt_state : TerminalFrame;
  pt_active_style : option CellStyle;
  pt_x : Z;
  pt_cursor_moved : bool;
}.
#[local] Instance Painter_eta : Eta Painter := λ p,
  mkPainter (pt_stdout p) (pt_state p) (pt_active_style p) (pt_x p) (pt_cursor_moved p).

Definition send (c : Command) : M Painter unit := λ p,
  let '(out, r) := queue c (pt_stdout p) in (p <| pt_stdout := out |>, r).

Definition send_if (b : bool) (c : Command) : M Painter unit := if b then send c else mret tt.

Definition rgb (c : RgbColorUpdate) : Color := Rgb (rgb_r c) (rgb_g c) (rgb_b c).

Definition has_style (style_flags bit : Z) : bool := negb (Z.land style_flags bit =? 0).

Definition apply_style (style : CellStyle) : M Painter unit :=
  let '(fg, bg, style_flags) := style in
  send (SetAttribute Reset) ;;
  send_if (has_style style_flags STYLE_BOLD) (SetAttribute Bold) ;;
  send_if (has_style style_flags STYLE_ITALIC) (SetAttribute Italic) ;;
  send_if (has_style style_flags STYLE_UNDERLINE) (SetAttribute Underlined) ;;
  send_if (has_style style_flags STYLE_INVERSE) (SetAttribute Reverse) ;;
  match fg with Some c => send (SetForegroundColor (rgb c)) | None => mret tt end ;;
  match bg with Some c => send (SetBackgroundColor (rgb c)) | None => mret tt end.

(** The body of the loop over the columns of row [y]. *)
Definition paint_cell (y : Z) : M Painter unit :=
  p ← get;
  let state := pt_state p in
  let x := pt_x p in
  cell_data ← lift (vec_get (tf_cell_cache state) (y * tf_cols state + x));
  g ← lift (as_str (graphemes cell_data));
  let width := Z.max 1 (grapheme_width g) in
  if decide (x = tf_cols state -₁₆ 1 ∧ y = tf_rows state -₁₆ 1)
  then modify (λ p, p <| pt_x := x +₁₆ width |>)
  else
    (if pt_cursor_moved p then mret tt
     else send (MoveTo x y) ;; modify (λ p, p <| pt_cursor_moved := true |>)) ;;
    let current_style := (fg cell_data, bg cell_data, style_flags cell_data) in
    (if decide (pt_active_style p ≠ Some current_style)
     then apply_style current_style ;; modify (λ p, p <| pt_active_style := Some current_style |>)
     else mret tt) ;;
    (if decide (g ≠ []) then send (WriteAll g) else mret tt) ;;
    modify (λ p, p <| pt_x := x +₁₆ width |>).

(** [while x < state.cols]: [false] when the fuel runs out first. *)
Fixpoint paint_columns (fuel : nat) (y : Z) : M Painter bool :=
  p ← get;
  if decide (pt_x p < tf_cols (pt_state p)) then
    match fuel with
    | O => mret false
    | S fuel => paint_cell y ;; paint_columns fuel y
    end
  else mret true.

(** The loop over the rows: [None] when a row does not end, otherwise whether a row was drawn. *)
Fixpoint paint_rows (ys : list Z) (real_update : bool) : M Painter (option bool) :=
  match ys with
  | [] => mret (Some real_update)
  | y :: ys =>
    p ← get;
    flag ← lift (vec_get (tf_row_dirty (pt_state p)) y);
    if (flag : bool) then
      row_dirty ← lift (vec_set (tf_row_dirty (pt_state p)) y false);
      modify (λ p, p <| pt_state ::= λ f, f <| tf_row_dirty := row_dirty |> |>
                     <| pt_cursor_moved := false |> <| pt_x := 0 |>) ;;
      ended ← paint_columns (Z.to_nat (tf_cols (pt_state p))) y;
      if (ended : bool) then paint_rows ys true else mret None
    else paint_rows ys real_update
  end.

Definition paint_reconnecting : M Painter unit :=
  p ← get;
  let state := pt_state p in
  if tf_reconnecting state then
    let x := saturating_sub (tf_cols state) 18 in
    let y := if decide (0 < tf_rows state) then tf_rows state - 1 else 0 in
    send (MoveTo x y) ;;
    send (SetAttribute Reset) ;;
    send (SetForegroundColor Red) ;;
    send (SetAttribute Bold) ;;
    (* [Reconnecting...] *)
    send (WriteAll [91; 82; 101; 99; 111; 110; 110; 101; 99; 116; 105; 110; 103; 46; 46; 46; 93])
  else mret tt.

Definition paint_overlay : M Painter unit :=
  p ← get;
  let state := pt_state p in
  if tf_overlay_enabled state then
    let text := overlay_text state in
    let x := saturating_sub (tf_cols state) (wrap 16 (len text)) in
    send (MoveTo x 0) ;;
    send (SetAttribute Reset) ;;
    send (SetForegroundColor White) ;;
    send (SetBackgroundColor (Rgb 60 60 60)) ;;
    send (SetAttribute Bold) ;;
    send (WriteAll text) ;;
    send (SetAttribute Reset)
  else mret tt.

Definition paint_painter : M Painter (option bool) :=
  p ← get;
  (if tf_clear_requested (pt_state p)
   then modify (λ p, p <| pt_state ::= λ f, f <| tf_clear_requested := false |> |>) ;;
        send ClearAll ;; send Flush
   else mret tt) ;;
  p ← get;
  if tf_dirty (pt_state p) then
    modify (λ p, p <| pt_state ::= λ f, f <| tf_dirty := false |> |>) ;;
    r ← paint_rows (range (tf_rows (pt_state p))) false;
    match r with
    | None => mret None
    | Some real_update =>
      paint_reconnecting ;;
      paint_overlay ;;
      p ← get;
      send (MoveTo (tf_cursor_x (pt_state p)) (tf_cursor_y (pt_state p))) ;;
      send (if tf_cursor_visible (pt_state p) then Show else Hide) ;;
      send Flush ;;
      mret (Some real_update)
    end
  else mret (Some false).

(** [None]: the call does not return. *)
Definition paint (r : ClientTerminalRenderer) : ClientTerminalRenderer * outcome (option bool) :=
  let '(p, o) := paint_painter {| pt_stdout := rn_stdout r; pt_state := rn_back_buffer r;
                                  pt_active_style := None; pt_x := 0; pt_cursor_moved := false |} in
  ({| rn_stdout := pt_stdout p; rn_back_buffer := pt_state p |}, o).
End paint.
Arguments ClientTerminalRenderer W : clear implicits.
Arguments Painter W : clear implicits.
#[export] Existing Instances ClientTerminalRenderer_eta Painter_eta.

(** ** A display

    What a terminal makes of the commands: a glyph is stored under the cursor with the pen in force,
    and the cursor moves past it; a wide glyph also takes the next column. *)

Record Pen := mkPen {
  pen_fg : option Color;
  pen_bg : option Color;
  pen_bold : bool;
  pen_italic : bool;
  pen_underline : bool;
  pen_inverse : bool;
}.
#[export] Instance Pen_eta : Eta Pen := λ p,
  mkPen (pen_fg p) (pen_bg p) (pen_bold p) (pen_italic p) (pen_underline p) (pen_inverse p).
Definition plain : Pen := mkPen None None false false false false.

Abbreviation Glyphs := (gmap (Z * Z) (bytes * Pen)) (only parsing).

Record Screen := mkScreen {
  sc_glyphs : Glyphs;
  sc_x : Z;
  sc_y : Z;
  sc_pen : Pen;
  sc_cursor_shown : bool;
}.
#[export] Instance Screen_eta : Eta Screen := λ s,
  mkScreen (sc_glyphs s) (sc_x s) (sc_y s) (sc_pen s) (sc_cursor_shown s).

Definition put_glyph (x y : Z) (g : bytes) (pen : Pen) (m : Glyphs) : Glyphs :=
  let m := if decide (grapheme_width g = 2) then delete (x + 1, y) m else m in
  <[(x, y) := (g, pen)]> m.

Definition display (c : Command) (s : Screen) : Screen :=
  match c with
  | ClearAll => s <| sc_glyphs := ∅ |>
  | MoveTo x y => s <| sc_x := x |> <| sc_y := y |>
  | SetAttribute Reset => s <| sc_pen := plain |>
  | SetAttribute Bold => s <| sc_pen ::= λ p, p <| pen_bold := true |> |>
  | SetAttribute Italic => s <| sc_pen ::= λ p, p <| pen_italic := true |> |>
  | SetAttribute Underlined => s <| sc_pen ::= λ p, p <| pen_underline := true |> |>
  | SetAttribute Reverse => s <| sc_pen ::= λ p, p <| pen_inverse := true |> |>
  | SetForegroundColor c => s <| sc_pen ::= λ p, p <| pen_fg := Some c |> |>
  | SetBackgroundColor c => s <| sc_pen ::= λ p, p <| pen_bg := Some c |> |>
  | Show => s <| sc_cursor_shown := true |>
  | Hide => s <| sc_cursor_shown := false |>
  | WriteAll g => s <| sc_glyphs ::= put_glyph (sc_x s) (sc_y s) g (sc_pen s) |>
                    <| sc_x ::= λ x, x + Z.max 1 (grapheme_width g) |>
  | Flush => s
  end.

#[export] Instance display_stdout : Stdout Screen := λ c s, (display c s, Ok tt).

(** ** What a row should look like *)

Definition cell_text (c : LocalCellData) : bytes := take (Z.to_nat (cg_len (graphemes c))) (cg_bytes (graphemes c)).
Definition cell_pen (c : LocalCellData) : Pen :=
  mkPen (rgb <$> fg c) (rgb <$> bg c) (has_style (style_flags c) STYLE_BOLD)
    (has_style (style_flags c) STYLE_ITALIC) (has_style (style_flags c) STYLE_UNDERLINE)
    (has_style (style_flags c) STYLE_INVERSE).

Definition drawable (c : LocalCellData) : Prop :=
  cg_len (graphemes c) ≤ len (cg_bytes (graphemes c)) ∧ cell_text c ≠ [].
#[export] Instance drawable_dec c : Decision (drawable c).
Proof. unfold drawable. apply _. Defined.

Definition cell_width (c : LocalCellData) : Z := Z.max 1 (grapheme_width (cell_text c)).

Definition cell_at (f : TerminalFrame) (x y : Z) : LocalCellData :=
  default blank_cell (tf_cell_cache f !! Z.to_nat (y * tf_cols f + x)).

(** The columns at which a glyph starts, from column [x] on. *)
Fixpoint columns_from (f : TerminalFrame) (y : Z) (fuel : nat) (x : Z) : list Z :=
  match fuel with
  | O => []
  | S fuel => if decide (x < tf_cols f) then x :: columns_from f y fuel (x + cell_width (cell_at f x y)) else []
  end.
Definition columns (f : TerminalFrame) (y : Z) : list Z := columns_from f y (Z.to_nat (tf_cols f)) 0.

Definition corner (f : TerminalFrame) (x y : Z) : Prop := x = tf_cols f - 1 ∧ y = tf_rows f - 1.
#[export] Instance corner_dec f x y : Decision (corner f x y).
Proof. unfold corner. apply _. Defined.

Definition draw_column (f : TerminalFrame) (y : Z) (m : Glyphs) (x : Z) : Glyphs :=
  if decide (corner f x y) then m else put_glyph x y (cell_text (cell_at f x y)) (cell_pen (cell_at f x y)) m.

Lemma grapheme_width_range g : 0 ≤ grapheme_width g ≤ 2.
Proof. unfold grapheme_width. destruct (first_char g); [|lia]. by destruct (_ || _). Qed.

Lemma cell_width_range c : 1 ≤ cell_width c ≤ 2.
Proof. unfold cell_width. pose proof (grapheme_width_range (cell_text c)). lia. Qed.

Lemma lookup_put_ne x y g pen m x' y' :
  y' ≠ y ∨ x' < x ∨ x + Z.max 1 (grapheme_width g) ≤ x' → put_glyph x y g pen m !! (x', y') = m !! (x', y').
Proof.
  intros Hne. unfold put_glyph. rewrite lookup_insert_ne.
  2: { intros [= -> ->]. pose proof (grapheme_width_range g). lia. }
  case_decide as Hw; [|done]. rewrite lookup_delete_ne; [done|]. intros [= <- <-]. lia.
Qed.

Lemma columns_from_ge f y fuel x x' : x' ∈ columns_from f y fuel x → x ≤ x' < tf_cols f.
Proof.
  revert x. induction fuel as [|fuel IH]; intros x; cbn; [by intros ?%not_elem_of_nil|].
  case_decide; [|by intros ?%not_elem_of_nil]. intros [->|Hin]%elem_of_cons; [lia|].
  apply IH in Hin. pose proof (cell_width_range (cell_at f x y)). lia.
Qed.

Lemma draw_columns_other f y xs m x' y' :
  y' ≠ y ∨ Forall (λ x, x' < x) xs → foldl (draw_column f y) m xs !! (x', y') = m !! (x', y').
Proof.
  revert m. induction xs as [|x xs IH]; intros m Hne; cbn; [done|]. rewrite IH.
  - unfold draw_column. case_decide; [done|]. apply lookup_put_ne.
    destruct Hne as [?|Hx]; [by left|]. apply Forall_cons in Hx as [? _]. right; by left.
  - destruct Hne as [?|Hx]; [by left|]. apply Forall_cons in Hx as [_ ?]. by right.
Qed.

(** Drawn from the left, each glyph of the row survives. *)
Lemma draw_columns_at f y fuel x m x' :
  x' ∈ columns_from f y fuel x → ¬ corner f x' y →
  foldl (draw_column f y) m (columns_from f y fuel x) !! (x', y) =
  Some (cell_text (cell_at f x' y), cell_pen (cell_at f x' y)).
Proof.
  revert x m. induction fuel as [|fuel IH]; intros x m; cbn; [by intros ?%not_elem_of_nil|].
  case_decide; [|by intros ?%not_elem_of_nil]. intros [->|Hin]%elem_of_cons Hc; cbn; [|by apply IH].
  rewrite draw_columns_other.
  - unfold draw_column. rewrite decide_False by done. apply lookup_insert_eq.
  - right. apply Forall_forall. intros x2 Hx2%columns_from_ge.
    pose proof (cell_width_range (cell_at f x y)). lia.
Qed.

(** ** Runs of the painter on a display *)
Section runs_of_paint.
Implicit Types (p : Painter Screen) (f : TerminalFrame).

Lemma send_run c p : runs (send c) p (p <| pt_stdout ::= display c |>) tt.
Proof. done. Qed.

Lemma apply_style_run c p :
  runs (apply_style (fg c, bg c, style_flags c)) p (p <| pt_stdout ::= λ s, s <| sc_pen := cell_pen c |> |>) tt.
Proof.
  unfold runs, apply_style, send_if, send, mbind, M_bind, mret, M_ret, cell_pen.
  destruct (has_style _ STYLE_BOLD), (has_style _ STYLE_ITALIC), (has_style _ STYLE_UNDERLINE),
    (has_style _ STYLE_INVERSE), (fg c), (bg c); reflexivity.
Qed.

Definition style_known p : Prop :=
  ∀ st, pt_active_style p = Some st → ∃ c, st = (fg c, bg c, style_flags c) ∧ sc_pen (pt_stdout p) = cell_pen c.

Definition cursor_known (y : Z) p : Prop :=
  pt_cursor_moved p = true → sc_x (pt_stdout p) = pt_x p ∧ sc_y (pt_stdout p) = y.

(** The painter about to write at [(x, y)] over the glyphs [m]. *)
Definition aimed f (m : Glyphs) (x y : Z) p : Prop :=
  sc_x (pt_stdout p) = x ∧ sc_y (pt_stdout p) = y ∧ pt_state p = f ∧ sc_glyphs (pt_stdout p) = m ∧
  pt_cursor_moved p = true ∧ pt_x p = x.

Lemma aim_run y p :
  cursor_known y p →
  ∃ p1, runs (if pt_cursor_moved p then mret tt
              else send (MoveTo (pt_x p) y) ;; modify (λ p, p <| pt_cursor_moved := true |>)) p p1 tt ∧
    aimed (pt_state p) (sc_glyphs (pt_stdout p)) (pt_x p) y p1 ∧
    pt_active_style p1 = pt_active_style p ∧ sc_pen (pt_stdout p1) = sc_pen (pt_stdout p).
Proof.
  intros Hcur. destruct (pt_cursor_moved p) eqn:Em.
  - destruct (Hcur Em). exists p. split; [apply runs_ret|]. split; [by split_and!|done].
  - exists (p <| pt_stdout ::= display (MoveTo (pt_x p) y) |> <| pt_cursor_moved := true |>).
    split; [eapply runs_bind; [apply send_run|done]|]. split; [by split_and!|done].
Qed.

Lemma restyle_run f m x y c st p :
  style_known p → pt_active_style p = st → aimed f m x y p →
  ∃ p2, runs (if decide (st ≠ Some (fg c, bg c, style_flags c))
              then apply_style (fg c, bg c, style_flags c) ;;
                modify (λ p, p <| pt_active_style := Some (fg c, bg c, style_flags c) |>)
              else mret tt) p p2 tt ∧
    aimed f m x y p2 ∧ pt_active_style p2 = Some (fg c, bg c, style_flags c) ∧
    sc_pen (pt_stdout p2) = cell_pen c.
Proof.
  intros Hst Ea Haim. case_decide as Ha.
  - exists (p <| pt_stdout ::= λ s, s <| sc_pen := cell_pen c |> |>
              <| pt_active_style := Some (fg c, bg c, style_flags c) |>).
    split; [eapply runs_bind; [apply apply_style_run|done]|done].
  - exists p. subst st. destruct (Hst _ Ha) as (c2 & [= E1 E2 E3] & Ep).
    split; [apply runs_ret|]. split; [done|]. split; [done|]. rewrite Ep. unfold cell_pen. by rewrite E1, E2, E3.
Qed.

Lemma paint_cell_run y p :
  let f := pt_state p in let x := pt_x p in let c := cell_at f x y in
  frame_wf f → tf_cols f < 65535 → 0 ≤ x < tf_cols f → 0 ≤ y < tf_rows f → drawable c →
  style_known p → cursor_known y p →
  ∃ p', runs (paint_cell y) p p' tt ∧ pt_state p' = f ∧ pt_x p' = x + cell_width c ∧ style_known p' ∧
    (pt_x p' < tf_cols f → cursor_known y p') ∧
    sc_glyphs (pt_stdout p') = draw_column f y (sc_glyphs (pt_stdout p)) x.
Proof.
  intros f x c (Hc & Hr & Hl & _) Hcols Hx Hy [Htext Hne] Hst Hcur. unfold fits, len in *.
  destruct (vec_get_Some (tf_cell_cache f) (y * tf_cols f + x)) as (c' & Hc' & Hget); [unfold len; nia|].
  assert (c' = c) as -> by (unfold c, cell_at; by rewrite Hc').
  assert (as_str (graphemes c) = Ok (cell_text c)) as Hstr by (unfold as_str; by rewrite decide_True).
  pose proof (cell_width_range c) as Hw.
  assert (x +₁₆ cell_width c = x + cell_width c) as Hadd by (apply wrap_small; unfold fits; lia).
  assert (tf_cols f -₁₆ 1 = tf_cols f - 1 ∧ tf_rows f -₁₆ 1 = tf_rows f - 1) as [Hc1 Hr1]
    by (split; apply wrap_small; unfold fits; lia).
  unfold paint_cell. change (Z.max 1 (grapheme_width (cell_text c))) with (cell_width c).
  destruct (decide (corner f x y)) as [Hcorner|Hcorner].
  - exists (p <| pt_x := x + cell_width c |>). split.
    { mstep. eapply runs_bind; [apply runs_lift, Hget|]. eapply runs_bind; [apply runs_lift, Hstr|].
      cbn beta iota zeta. fold f x. rewrite Hc1, Hr1, decide_True by exact Hcorner.
      change (Z.max 1 (grapheme_width (cell_text c))) with (cell_width c). by rewrite Hadd. }
    split; [done|]. split; [done|]. split; [done|]. split.
    + destruct Hcorner. cbn. lia.
    + unfold draw_column. by rewrite decide_True.
  - destruct (aim_run y p Hcur) as (p1 & E1 & Haim & A1 & P1).
    assert (style_known p1) as Hst1 by (intros st Es; rewrite P1; apply Hst; congruence).
    destruct (restyle_run f (sc_glyphs (pt_stdout p)) x y c _ p1 Hst1 A1 Haim)
      as (p2 & E2 & (X2 & Y2 & F2 & G2 & M2 & V2) & A2 & P2).
    exists (p2 <| pt_stdout ::= display (WriteAll (cell_text c)) |> <| pt_x := x + cell_width c |>).
    split.
    { mstep. eapply runs_bind; [apply runs_lift, Hget|]. eapply runs_bind; [apply runs_lift, Hstr|].
      cbn beta iota zeta. fold f x. rewrite Hc1, Hr1, decide_False by exact Hcorner.
      change (Z.max 1 (grapheme_width (cell_text c))) with (cell_width c). rewrite Hadd.
      eapply runs_bind; [exact E1|]. eapply runs_bind; [exact E2|].
      eapply runs_bind; [rewrite decide_True by done; apply send_run|]. done. }
    cbn. split; [done|]. split; [done|]. split.
    + intros st [= <-]%(eq_trans (eq_sym A2)). exists c. by rewrite P2.
    + split.
      * intros _ _. cbn. by rewrite X2, Y2.
      * rewrite G2, X2, Y2, P2. unfold draw_column. by rewrite decide_False.
Qed.

Lemma paint_columns_run fuel y p :
  let f := pt_state p in
  frame_wf f → tf_cols f < 65535 → 0 ≤ y < tf_rows f → (∀ x, 0 ≤ x < tf_cols f → drawable (cell_at f x y)) →
  0 ≤ pt_x p → tf_cols f - pt_x p ≤ Z.of_nat fuel → style_known p → (pt_x p < tf_cols f → cursor_known y p) →
  ∃ p', runs (paint_columns fuel y) p p' true ∧ pt_state p' = f ∧ style_known p' ∧
    sc_glyphs (pt_stdout p') = foldl (draw_column f y) (sc_glyphs (pt_stdout p)) (columns_from f y fuel (pt_x p)).
Proof.
  intros f Hwf Hcols Hy Hcells. unfold f in *. clear f. revert p Hwf Hcols Hy Hcells.
  induction fuel as [|fuel IH]; intros p Hwf Hcols Hy Hcells Hx Hfuel Hst Hcur; cbn.
  { exists p. split; [|done]. mstep. rewrite decide_False by lia. apply runs_ret. }
  case_decide as Hlt.
  2: { exists p. split; [|done]. mstep. rewrite decide_False by done. apply runs_ret. }
  destruct (paint_cell_run y p) as (p1 & E1 & F1 & X1 & S1 & C1 & G1); [done|done|lia|done| |done|auto|].
  { apply Hcells. lia. }
  pose proof (cell_width_range (cell_at (pt_state p) (pt_x p) y)) as Hw.
  destruct (IH p1) as (p2 & E2 & F2 & S2 & G2); rewrite ?F1, ?X1 in *; try done; try lia.
  exists p2. split; [|split; [done|split; [done|]]].
  - mstep. rewrite decide_True by done. by eapply runs_bind.
  - rewrite G2, G1. done.
Qed.
End runs_of_paint.

(** ** The whole frame *)

Definition flagged (f : TerminalFrame) (y : Z) : bool := default false (tf_row_dirty f !! Z.to_nat y).

(** The rows [ys] drawn in order, where flagged. *)
Definition draw_row (f : TerminalFrame) (m : Glyphs) (y : Z) : Glyphs :=
  if flagged f y then foldl (draw_column f y) m (columns f y) else m.

Definition unflag (l : list bool) (y : Z) : list bool := <[Z.to_nat y := false]> l.

(** The flags do not matter to what is drawn. *)
Abbreviation reflag f l := (f <| tf_row_dirty := l |>) (only parsing).

Lemma columns_same f f' y :
  tf_cols f' = tf_cols f → tf_cell_cache f' = tf_cell_cache f → columns f' y = columns f y.
Proof.
  intros E1 E2. unfold columns. rewrite E1. generalize (Z.to_nat (tf_cols f)) as n, 0 as x.
  induction n as [|n IH]; [done|]. intros x. cbn. unfold cell_at. by rewrite E1, E2, IH.
Qed.

(** The columns of a row depend on its cells only. *)
Lemma columns_row f f' y :
  tf_cols f' = tf_cols f → (∀ x, 0 ≤ x < tf_cols f → cell_at f' x y = cell_at f x y) → columns f' y = columns f y.
Proof.
  intros E1 Hat. unfold columns. rewrite E1. assert (0 ≤ 0) as H0 by done. revert H0.
  generalize (Z.to_nat (tf_cols f)) as n, 0 at 2 3 4 as x.
  induction n as [|n IH]; [done|]. intros x Hx. cbn. rewrite E1. case_decide as Hlt; [|done]. rewrite Hat by done.
  f_equal. apply IH. pose proof (cell_width_range (cell_at f x y)). lia.
Qed.

Lemma draw_columns_reflag f l y m xs :
  foldl (draw_column (reflag f l) y) m xs = foldl (draw_column f y) m xs.
Proof. revert m. induction xs as [|x xs IH]; intros m; [done|]. cbn. apply IH. Qed.

Lemma cells_drawable f x y :
  frame_wf f → Forall (λ c, drawable c) (tf_cell_cache f) → 0 ≤ x < tf_cols f → 0 ≤ y < tf_rows f →
  drawable (cell_at f x y).
Proof.
  intros (_ & _ & Hlen & _) Hcells Hx Hy. unfold cell_at, len in *.
  assert (0 ≤ y * tf_cols f + x < tf_cols f * tf_rows f) as Hi by nia.
  destruct (lookup_lt_is_Some_2 (tf_cell_cache f) (Z.to_nat (y * tf_cols f + x))) as [c Hc]; [lia|].
  rewrite Hc. cbn. rewrite Forall_lookup in Hcells. by eapply Hcells.
Qed.

(** A flagged row is drawn whole. *)
Lemma paint_row_run f y l (p : Painter Screen) :
  frame_wf f → tf_cols f < 65535 → Forall (λ c, drawable c) (tf_cell_cache f) →
  0 ≤ y < tf_rows f → pt_state p = reflag f l → len l = tf_rows f → style_known p →
  let p1 := p <| pt_state := reflag f (unflag l y) |> <| pt_cursor_moved := false |> <| pt_x := 0 |> in
  ∃ p2, runs (paint_columns (Z.to_nat (tf_cols f)) y) p1 p2 true ∧ pt_state p2 = reflag f (unflag l y) ∧
    style_known p2 ∧ sc_glyphs (pt_stdout p2) = foldl (draw_column f y) (sc_glyphs (pt_stdout p)) (columns f y).
Proof.
  intros Hwf Hcols Hcells Hy Hst Hl Hstyle p1. pose proof Hwf as (Hc & _).
  destruct (paint_columns_run (Z.to_nat (tf_cols f)) y p1) as (p2 & E2 & F2 & S2 & G2); try done.
  { destruct Hwf as (? & ? & ? & ?). unfold frame_wf, len in *. cbn. unfold unflag. by rewrite length_insert. }
  { intros x Hx. by apply (cells_drawable f). }
  { cbn. unfold fits in Hc. lia. }
  exists p2. split; [done|]. split; [done|]. split; [done|]. rewrite G2.
  change (pt_state p1) with (reflag f (unflag l y)). rewrite draw_columns_reflag. f_equal.
  assert (columns (f <| tf_row_dirty := unflag l y |>) y = columns f y) as Ec by (apply columns_same; reflexivity).
  exact Ec.
Qed.

Lemma paint_rows_run f ys l ru (p : Painter Screen) :
  frame_wf f → tf_cols f < 65535 → Forall (λ c, drawable c) (tf_cell_cache f) →
  NoDup ys → Forall (λ y, 0 ≤ y < tf_rows f) ys →
  pt_state p = reflag f l → len l = tf_rows f →
  (∀ y, y ∈ ys → l !! Z.to_nat y = tf_row_dirty f !! Z.to_nat y) → style_known p →
  ∃ p', runs (paint_rows ys ru) p p' (Some (ru || existsb (flagged f) ys)) ∧
    pt_state p' = reflag f (foldl unflag l (filter (flagged f) ys)) ∧
    sc_glyphs (pt_stdout p') = foldl (draw_row f) (sc_glyphs (pt_stdout p)) ys.
Proof.
  intros Hwf Hcols Hcells. revert l ru p.
  induction ys as [|y ys IH]; intros l ru p Hnd Hys Hst Hl Hsame Hstyle.
  { exists p. rewrite orb_false_r. split; [apply runs_ret|done]. }
  apply NoDup_cons in Hnd as [Hy Hnd]. apply Forall_cons in Hys as [Hyr Hys].
  destruct (vec_get_Some l y) as (b & Hb & Hget); [lia|].
  assert (flagged f y = b) as Hfl by (unfold flagged; rewrite <-Hsame by (by left); by rewrite Hb).
  cbn [paint_rows existsb foldl]. unfold draw_row at 2. rewrite Hfl. destruct b.
  - destruct (paint_row_run f y l p) as (p2 & E2 & F2 & S2 & G2); [done..|].
    destruct (IH (unflag l y) true p2) as (p3 & E3 & F3 & G3); try done.
    { unfold unflag, len. by rewrite length_insert. }
    { intros y' Hy'. unfold unflag. rewrite list_lookup_insert_ne.
      - apply Hsame. by right.
      - intros E. rewrite Forall_forall in Hys. specialize (Hys _ Hy').
        assert (y = y') by lia. by subst. }
    exists p3. split; [|split].
    + mstep. eapply runs_bind; [apply runs_lift; by rewrite Hst|]. cbn iota.
      eapply runs_bind; [apply runs_lift; rewrite Hst; apply (vec_set_ok l); lia|].
      eapply runs_bind; [unfold runs, modify; cbn; rewrite Hst; reflexivity|].
      eapply runs_bind; [rewrite Hst; exact E2|]. cbn iota.
      by replace (ru || (true || existsb (flagged f) ys)) with (true || existsb (flagged f) ys)
        by (by destruct ru).
    + rewrite F3. rewrite filter_cons_True by (by rewrite Hfl). done.
    + by rewrite G3, G2.
  - destruct (IH l ru p) as (p3 & E3 & F3 & G3); try done.
    { intros y' Hy'. apply Hsame. by right. }
    exists p3. split; [|split; [|done]].
    + mstep. eapply runs_bind; [apply runs_lift; by rewrite Hst|]. exact E3.
    + rewrite filter_cons_False by (rewrite Hfl; intros []). done.
Qed.

Lemma flagged_false f y : tf_row_dirty f !! Z.to_nat y ≠ Some true → flagged f y = false.
Proof. unfold flagged. by destruct (tf_row_dirty f !! Z.to_nat y) as [[]|]. Qed.

Lemma unflag_all l ys y :
  0 ≤ y → (y ∈ ys ∨ l !! Z.to_nat y ≠ Some true) → foldl unflag l ys !! Z.to_nat y ≠ Some true.
Proof.
  intros Hy. revert l. induction ys as [|y' ys IH]; intros l Hin; cbn.
  { by destruct Hin as [?%not_elem_of_nil|]. }
  apply IH. destruct (decide (Z.to_nat y' = Z.to_nat y)) as [E|Hne].
  - right. unfold unflag. rewrite E, list_lookup_insert. case_decide; [done|].
    destruct (l !! Z.to_nat y) eqn:El; [|done]. apply lookup_lt_Some in El. lia.
  - destruct Hin as [[->|Hin]%elem_of_cons|Hn]; [done|by left|right].
    unfold unflag. by rewrite list_lookup_insert_ne.
Qed.

Lemma draw_rows_other f ys m x y :
  (y ∈ ys → flagged f y = false) → foldl (draw_row f) m ys !! (x, y) = m !! (x, y).
Proof.
  revert m. induction ys as [|y' ys IH]; intros m Hy; cbn; [done|].
  rewrite IH by (intros ?; apply Hy; by right). unfold draw_row.
  destruct (flagged f y') eqn:E; [|done]. apply draw_columns_other. left. intros ->.
  rewrite Hy in E by (by left). done.
Qed.

Lemma draw_rows_at f ys m x y :
  NoDup ys → y ∈ ys → flagged f y = true → x ∈ columns f y → ¬ corner f x y →
  foldl (draw_row f) m ys !! (x, y) = Some (cell_text (cell_at f x y), cell_pen (cell_at f x y)).
Proof.
  intros Hnd Hy Hfl Hx Hc. revert m. induction ys as [|y' ys IH]; intros m; [by apply not_elem_of_nil in Hy|].
  apply NoDup_cons in Hnd as [Hn Hnd]. cbn. apply elem_of_cons in Hy as [<-|Hy]; [|by apply IH].
  rewrite draw_rows_other by done. unfold draw_row. rewrite Hfl. by apply draw_columns_at.
Qed.

Lemma paint_run f (s : Screen) :
  frame_wf f → tf_cols f < 65535 → Forall (λ c, drawable c) (tf_cell_cache f) →
  tf_dirty f = true → tf_reconnecting f = false → tf_overlay_enabled f = false →
  ∃ s' f', paint (mkRenderer s f) =
      (mkRenderer s' f', Ok (Some (existsb (flagged f) (range (tf_rows f))))) ∧
    (∀ x y, 0 ≤ y < tf_rows f → flagged f y = true → x ∈ columns f y → ¬ corner f x y →
       sc_glyphs s' !! (x, y) = Some (cell_text (cell_at f x y), cell_pen (cell_at f x y))) ∧
    (∀ x y, (0 ≤ y < tf_rows f → flagged f y = false) →
       sc_glyphs s' !! (x, y) = if tf_clear_requested f then None else sc_glyphs s !! (x, y)) ∧
    sc_x s' = tf_cursor_x f ∧ sc_y s' = tf_cursor_y f ∧ sc_cursor_shown s' = tf_cursor_visible f ∧
    tf_dirty f' = false ∧ tf_clear_requested f' = false ∧
    (∀ y, 0 ≤ y < tf_rows f → flagged f' y = false) ∧
    (tf_cols f' = tf_cols f ∧ tf_rows f' = tf_rows f ∧ tf_cell_cache f' = tf_cell_cache f ∧
     tf_cursor_x f' = tf_cursor_x f ∧ tf_cursor_y f' = tf_cursor_y f ∧ tf_cursor_visible f' = tf_cursor_visible f).
Proof.
  intros Hwf Hcols Hcells Hd Hrec Hov.
  set (f0 := f <| tf_clear_requested := false |> <| tf_dirty := false |>).
  set (s0 := if tf_clear_requested f then s <| sc_glyphs := ∅ |> else s).
  set (p0 := mkPainter s0 f0 None 0 false).
  destruct (paint_rows_run f0 (range (tf_rows f)) (tf_row_dirty f) false p0)
    as (p1 & E1 & F1 & G1); try done.
  { apply NoDup_seqZ. }
  { apply Forall_forall. intros y Hy. by apply elem_of_range in Hy. }
  { apply Hwf. }
  eexists _, (pt_state p1). split; [|split; [|split]].
  { unfold paint. match goal with |- context [paint_painter ?p] => 
      assert (runs paint_painter p (p1 <| pt_stdout ::= λ s, s <| sc_x := tf_cursor_x f |>
        <| sc_y := tf_cursor_y f |> <| sc_cursor_shown := tf_cursor_visible f |> |>)
        (Some (existsb (flagged f) (range (tf_rows f))))) as E end.
    { unfold paint_painter. mstep.
      eapply (runs_bind _ _ _ (mkPainter s0 (f <| tf_clear_requested := false |>) None 0 false)).
      { unfold s0. cbn. destruct (tf_clear_requested f) eqn:Ec; [|].
        - reflexivity.
        - unfold runs. cbn. rewrite <-Ec. by destruct f. }
      mstep. match goal with |- context [tf_dirty ?g] => assert (tf_dirty g = true) as -> by exact Hd end.
      mstep. eapply runs_bind; [exact E1|]. cbn iota.
      eapply runs_bind; [unfold paint_reconnecting; mstep; rewrite F1; cbn; rewrite Hrec; apply runs_ret|].
      eapply runs_bind; [unfold paint_overlay; mstep; rewrite F1; cbn; rewrite Hov; apply runs_ret|].
      mstep. rewrite F1. cbn. unfold runs. destruct (tf_cursor_visible f); reflexivity. }
    unfold runs in E. cbn in E |- *. rewrite E. reflexivity. }
  - intros x y Hy Hfl Hx Hc. cbn. rewrite G1. apply (draw_rows_at f0); try done.
    + apply NoDup_seqZ.
    + by apply elem_of_range.
    + by rewrite (columns_same f f0).
  - intros x y Hy. cbn. rewrite G1, draw_rows_other.
    + cbn. unfold s0. by destruct (tf_clear_requested f).
    + rewrite elem_of_range. exact Hy.
  - cbn. rewrite F1. cbn. do 5 (split; [done|]). split; [|done]. intros y Hy. apply flagged_false, unflag_all; [lia|].
    destruct (flagged f y) eqn:Hfl.
    + left. apply list_elem_of_filter. split; [change (Is_true (flagged f y)); by rewrite Hfl|]. by apply elem_of_range.
    + right. intros Ht. unfold flagged in Hfl. rewrite Ht in Hfl. done.
Qed.

(** C18. Painting puts the flagged rows on the display. On a well-formed frame of fewer than 65535
    columns, with text in every cell and neither banner nor overlay on, [paint] returns; on every
    flagged row each glyph that starts in a column (wide glyphs take two) is then displayed with its
    colours and attributes, except in the bottom right corner, which is never written; other rows
    keep what they showed, or nothing after a clear; the cursor is placed and shown as the
    frame says; the flags of the frame are down; and [paint] reports whether a row was drawn. *)
Theorem paint_draws_flagged_rows f (s : Screen) :
  frame_wf f → tf_cols f < 65535 → Forall (λ c, drawable c) (tf_cell_cache f) →
  tf_dirty f = true → tf_reconnecting f = false → tf_overlay_enabled f = false →
  ∃ s' f', paint (mkRenderer s f) =
      (mkRenderer s' f', Ok (Some (existsb (flagged f) (range (tf_rows f))))) ∧
    (∀ x y, 0 ≤ y < tf_rows f → flagged f y = true → x ∈ columns f y → ¬ corner f x y →
       sc_glyphs s' !! (x, y) = Some (cell_text (cell_at f x y), cell_pen (cell_at f x y))) ∧
    (∀ x y, (0 ≤ y < tf_rows f → flagged f y = false) →
       sc_glyphs s' !! (x, y) = if tf_clear_requested f then None else sc_glyphs s !! (x, y)) ∧
    sc_x s' = tf_cursor_x f ∧ sc_y s' = tf_cursor_y f ∧ sc_cursor_shown s' = tf_cursor_visible f ∧
    tf_dirty f' = false ∧ tf_clear_requested f' = false ∧
    (∀ y, 0 ≤ y < tf_rows f → flagged f' y = false).
Proof.
  intros Hwf Hcols Hcells Hd Hrec Hov.
  destruct (paint_run f s Hwf Hcols Hcells Hd Hrec Hov) as (s' & f' & E & H1 & H2 & H3 & H4 & H5 & H6 & H7 & H8 & _).
  by exists s', f'.
Qed.

Lemma paint_cell_steps y (p : Painter Screen) c :
  tf_cell_cache (pt_state p) !! Z.to_nat (y * tf_cols (pt_state p) + pt_x p) = Some c → drawable c →
  ∃ p', runs (paint_cell y) p p' tt ∧ pt_state p' = pt_state p ∧ pt_x p' = pt_x p +₁₆ cell_width c.
Proof.
  intros Hc [Htext Hne].
  assert (as_str (graphemes c) = Ok (cell_text c)) as Hstr by (unfold as_str; by rewrite decide_True).
  unfold paint_cell.
  set (b := decide (pt_x p = tf_cols (pt_state p) -₁₆ 1 ∧ y = tf_rows (pt_state p) -₁₆ 1)).
  set (p1 := if pt_cursor_moved p then p
             else p <| pt_stdout ::= display (MoveTo (pt_x p) y) |> <| pt_cursor_moved := true |>).
  set (p2 := if decide (pt_active_style p ≠ Some (fg c, bg c, style_flags c))
             then p1 <| pt_stdout ::= λ s, s <| sc_pen := cell_pen c |> |>
                     <| pt_active_style := Some (fg c, bg c, style_flags c) |> else p1).
  set (p3 := p2 <| pt_stdout ::= display (WriteAll (cell_text c)) |>).
  exists ((if b then p else p3) <| pt_x := pt_x p +₁₆ cell_width c |>). split.
  - mstep. eapply runs_bind; [by apply runs_lift, vec_get_ok|].
    eapply runs_bind; [apply runs_lift, Hstr|]. cbn beta iota zeta. fold b.
    change (Z.max 1 (grapheme_width (cell_text c))) with (cell_width c). destruct b; [done|].
    eapply (runs_bind _ _ _ p1).
    { unfold p1. destruct (pt_cursor_moved p); [apply runs_ret|]. by eapply runs_bind; [apply send_run|]. }
    eapply (runs_bind _ _ _ p2).
    { unfold p2. case_decide; [|apply runs_ret]. by eapply runs_bind; [apply apply_style_run|]. }
    eapply (runs_bind _ _ _ p3); [rewrite decide_True by done; apply send_run|]. done.
  - split; [|done]. destruct b; [done|]. unfold p3, p2, p1. by destruct (pt_cursor_moved p), (decide _).
Qed.

(** C38. At 65535 columns the renderer can hang. When a row's last cell, and no other, is two columns
    wide, the loop over its columns never ends, whatever the fuel: [x += width] wraps around to
    column 0. *)
Theorem paint_row_hangs fuel y (p : Painter Screen) :
  frame_wf (pt_state p) → tf_cols (pt_state p) = 65535 → 0 ≤ y < tf_rows (pt_state p) →
  Forall (λ c, drawable c) (tf_cell_cache (pt_state p)) →
  (∀ x, 0 ≤ x < 65534 → cell_width (cell_at (pt_state p) x y) = 1) →
  cell_width (cell_at (pt_state p) 65534 y) = 2 →
  pt_x p = 0 → ∃ p', paint_columns fuel y p = (p', Ok false).
Proof.
  intros Hwf Hcols Hy Hcells Hone Htwo Hx0. assert (0 ≤ pt_x p < 65535) as Hx by lia. clear Hx0.
  revert p Hwf Hcols Hy Hcells Hone Htwo Hx.
  induction fuel as [|fuel IH]; intros p Hwf Hcols Hy Hcells Hone Htwo Hx; cbn;
    unfold mbind at 1, M_bind at 1, get at 1; rewrite Hcols, decide_True by lia; [by eexists|].
  pose proof Hwf as (_ & _ & Hlen & _). unfold len in Hlen. rewrite Hcols in Hlen.
  assert (0 ≤ y * 65535 + pt_x p < 65535 * tf_rows (pt_state p)) as Hi by nia.
  destruct (lookup_lt_is_Some_2 (tf_cell_cache (pt_state p)) (Z.to_nat (y * 65535 + pt_x p))) as [c Hc]; [lia|].
  destruct (paint_cell_steps y p c) as (p1 & E1 & F1 & X1).
  { by rewrite Hcols. }
  { rewrite Forall_lookup in Hcells. by eapply Hcells. }
  assert (cell_at (pt_state p) (pt_x p) y = c) as Hat by (unfold cell_at; by rewrite Hcols, Hc).
  destruct (IH p1) as (p2 & E2); try (by rewrite F1).
  - rewrite X1. destruct (decide (pt_x p = 65534)) as [E|Hne].
    + rewrite E in *. rewrite Hat in Htwo. by rewrite Htwo.
    + rewrite <-Hat, Hone by lia. rewrite wrap_small; unfold fits; lia.
  - exists p2. unfold runs in E1. unfold mbind, M_bind. by rewrite E1.
Qed.

(** ** Concrete frames *)

(** A Han character, two columns wide. *)
Definition wide_cell : LocalCellData :=
  {| graphemes := CompactGrapheme_new (encode_utf8 20013); fg := Some (mkRgb 255 0 0); bg := None;
     style_flags := Z.lor STYLE_BOLD STYLE_INVERSE |}.
Definition blank_screen : Screen := mkScreen ∅ 0 0 plain false.

Definition demo_wide_frame : TerminalFrame :=
  (TerminalFrame_new 4 2) <| tf_cell_cache := [blank_cell; wide_cell; blank_cell; blank_cell] ++ vec blank_cell 4 |>
    <| tf_cursor_x := 3 |>.

Lemma paint_draws_flagged_rows_witness : ∃ s' f',
  paint (mkRenderer blank_screen demo_wide_frame) = (mkRenderer s' f', Ok (Some true)) ∧
  columns demo_wide_frame 0 = [0; 1; 3] ∧
  sc_glyphs s' !! (1, 0) =
    Some (encode_utf8 20013, mkPen (Some (Rgb 255 0 0)) None true false false true) ∧
  sc_x s' = 3.
Proof.
  destruct (paint_draws_flagged_rows demo_wide_frame blank_screen)
    as (s' & f' & E & Hat & _ & Hx & _).
  - apply (bool_decide_unpack _). vm_compute. exact I.
  - vm_compute. reflexivity.
  - apply (bool_decide_unpack _). vm_compute. exact I.
  - reflexivity.
  - reflexivity.
  - reflexivity.
  - exists s', f'. split; [exact E|]. split; [vm_compute; reflexivity|]. split; [|exact Hx].
    rewrite (Hat 1 0).
    + vm_compute. reflexivity.
    + vm_compute. by split.
    + vm_compute. reflexivity.
    + apply (bool_decide_unpack _). vm_compute. exact I.
    + apply (bool_decide_unpack _). vm_compute. exact I.
Defined.

Definition hanging_frame : TerminalFrame :=
  (TerminalFrame_new 0 0) <| tf_cols := 65535 |> <| tf_rows := 1 |>
    <| tf_cell_cache := vec blank_cell 65534 ++ [wide_cell] |> <| tf_row_dirty := [true] |>.

Lemma paint_row_hangs_witness :
  ∃ p', paint_columns (Z.to_nat 65535) 0 (mkPainter blank_screen hanging_frame None 0 false) = (p', Ok false).
Proof.
  apply paint_row_hangs.
  - split; [done|]. split; [done|]. split; [|done]. cbn. by rewrite len_app, len_vec.
  - done.
  - done.
  - cbn. apply Forall_app. split; [apply Forall_replicate|constructor; [|done]];
      apply (bool_decide_unpack _); vm_compute; exact I.
  - intros x Hx. unfold cell_at. cbn. rewrite lookup_app_l.
    + rewrite lookup_vec by lia. vm_compute. reflexivity.
    + unfold vec. rewrite length_replicate. lia.
  - unfold cell_at. cbn. rewrite lookup_app_r; unfold vec; rewrite length_replicate; [|lia].
    vm_compute. reflexivity.
  - done.
Defined.
