(* ===== verification/MirrorSession.v ===== *)
(** * The client's session: [src/src/client/session.rs]

    [MirrorSession] owns the protocol state of the client: it opens the server's packets, keeps the
    states it has seen to apply differential frames against, drives the terminal mirror, numbers,
    keeps and repeats its own packets, and answers with the actions the executor performs. A
    [HashMap] is a finite map; where the code walks one, the order is an argument. *)

From Stdlib Require Import Floats.SpecFloat.
From S2P Require Import Prelude Utf8 Grid Protocol Crypto Codec Escape.
From S2P Require Import Float32 Frame Echo Terminal.

Module ClientAction.
Inductive t : Type :=
  | SendPacket (b : list Z)
  | Paint
  | Suspend
  | ShowHelp
  | Disconnect.
#[global] Instance eq_dec : EqDecision t.
Proof. solve_decision. Defined.
End ClientAction.
Abbreviation ClientAction := ClientAction.t.

(** ** Floating-point conversions *)

(** [Duration::as_secs_f32] *)
Definition as_secs_f32 (d : Duration) : f32 :=
  f32_add (f32_of_Z (d / 1000000000)) (f32_div (f32_of_Z (d mod 1000000000)) (f32_of_Z 1000000000)).

(** [x.round() as u32]: half away from zero, saturating. *)
Definition f32_round_u32 (x : f32) : Z :=
  match x with
  | S754_finite false m e =>
    if 0 <=? e then f32_to_u32 x
    else Z.min (2 ^ 32 - 1) ((2 * Z.pos m + 2 ^ (- e)) / (2 * 2 ^ (- e)))
  | _ => f32_to_u32 x
  end.

Section session.
Context {C : Type} `{PacketCodec C}.

Record MirrorSession := mkMirror {
  ms_session_id : Z;
  ms_seq_num : Z;
  ms_ack_seq_num : Z;
  ms_codec : C;
  ms_last_recv_time : Instant;
  ms_is_echo_enabled : bool;
  ms_sent_packets : gmap Z Instant;
  ms_unacked_packets : gmap Z (list Z * Instant);
  ms_last_arq_check : Instant;
  ms_last_keepalive_sent : Instant;
  ms_keepalive_interval : Duration;
  ms_last_ack_sent : Instant;
  ms_is_reconnecting : bool;
  ms_transient_seq_num : Z;
  ms_last_nack_check : Instant;
  ms_nacked_frames : gmap Z Instant;
  ms_expected_server_seq : Z;
  ms_loss_window : list bool;
  ms_state_history : list (Z * GridState);
  ms_last_telemetry_calc : Instant;
  ms_bytes_recv_acc : Z;
  ms_comp_acc : Z;
  ms_decomp_acc : Z;
  ms_paint_count_acc : Z;
  ms_mirror : TerminalInner;
  ms_interpreter : EscapeInterpreter;
}.
#[export] Instance MirrorSession_eta : Eta MirrorSession := λ s,
  mkMirror (ms_session_id s) (ms_seq_num s) (ms_ack_seq_num s) (ms_codec s) (ms_last_recv_time s)
    (ms_is_echo_enabled s) (ms_sent_packets s) (ms_unacked_packets s) (ms_last_arq_check s)
    (ms_last_keepalive_sent s) (ms_keepalive_interval s) (ms_last_ack_sent s) (ms_is_reconnecting s)
    (ms_transient_seq_num s) (ms_last_nack_check s) (ms_nacked_frames s) (ms_expected_server_seq s)
    (ms_loss_window s) (ms_state_history s) (ms_last_telemetry_calc s) (ms_bytes_recv_acc s)
    (ms_comp_acc s) (ms_decomp_acc s) (ms_paint_count_acc s) (ms_mirror s) (ms_interpreter s).

Definition MirrorSession_new (session_id : Z) (codec : C) (start_server_seq cols rows : Z)
    (overlay : bool) (now : Instant) : MirrorSession :=
  {| ms_session_id := session_id; ms_seq_num := 0; ms_ack_seq_num := 0; ms_codec := codec;
     ms_last_recv_time := now; ms_is_echo_enabled := true; ms_sent_packets := ∅;
     ms_unacked_packets := ∅; ms_last_arq_check := now; ms_last_keepalive_sent := now;
     ms_keepalive_interval := from_secs 2; ms_last_ack_sent := now; ms_is_reconnecting := false;
     ms_transient_seq_num := 0; ms_last_nack_check := now; ms_nacked_frames := ∅;
     ms_expected_server_seq := start_server_seq; ms_loss_window := []; ms_state_history := [];
     ms_last_telemetry_calc := now; ms_bytes_recv_acc := 0; ms_comp_acc := 0; ms_decomp_acc := 0;
     ms_paint_count_acc := 0;
     ms_mirror := (set_overlay_enabled overlay (ClientTerminal_new cols rows)).1;
     ms_interpreter := EscapeInterpreter_new |}.

Definition with_mirror {A} (m : M TerminalInner A) : M MirrorSession A := λ self,
  let '(t, r) := m (ms_mirror self) in (self <| ms_mirror := t |>, r).

(** [self.codec.open_server(..)] matched on its result. *)
Definition open_packet (packet_bytes : list Z)
    : M MirrorSession (option (EncryptedServerPacket * ServerPayload * CodecStats)) := λ self,
  let '(c, r) := open_server packet_bytes (ms_codec self) in
  (self <| ms_codec := c |>, match r with Ok opened => Ok opened | Err _ => Ok None | Panic => Panic end).

(** ** Preparing packets *)

Definition transient_seq (n : Z) : Z := Z.lor (Z.shiftl 1 63) n.

Definition seal_payload (seq : Z) (payload : ClientPayload) : M MirrorSession (list Z) :=
  self ← get;
  lift (seal_client (ms_codec self) (ms_session_id self) seq (ms_ack_seq_num self) payload).

(** [self.seq_num += 1; self.sent_packets.insert(seq, now)] *)
Definition next_seq (now : Instant) : M MirrorSession Z :=
  modify (λ self, self <| ms_seq_num ::= λ n, n +₆₄ 1 |>) ;;
  seq ← gets ms_seq_num;
  modify (λ self, self <| ms_sent_packets ::= <[seq := now]> |>) ;;
  mret seq.

Definition keep_unacked (seq : Z) (packet_bytes : list Z) (now : Instant) : M MirrorSession unit :=
  modify (λ self, self <| ms_unacked_packets ::= <[seq := (packet_bytes, now)]> |>).

Definition prepare_keystrokes (keys : list Z) (now : Instant) : M MirrorSession (list Z * Z) :=
  seq ← next_seq now;
  packet_bytes ← seal_payload seq (ClientPayload.Keystrokes keys);
  keep_unacked seq packet_bytes now ;;
  mret (packet_bytes, seq).

Definition prepare_ack (now : Instant) : M MirrorSession (list Z) :=
  modify (λ self, self <| ms_transient_seq_num ::= λ n, n +₆₄ 1 |>) ;;
  n ← gets ms_transient_seq_num;
  modify (λ self, self <| ms_last_ack_sent := now |>) ;;
  seal_payload (transient_seq n) ClientPayload.Ack.

Definition prepare_keepalive (now : Instant) : M MirrorSession (list Z) :=
  seq ← next_seq now;
  modify (λ self, self <| ms_last_keepalive_sent := now |>) ;;
  packet_bytes ← seal_payload seq ClientPayload.KeepAlive;
  keep_unacked seq packet_bytes now ;;
  mret packet_bytes.

Definition prepare_resize (cols rows : Z) (now : Instant) : M MirrorSession (list Z) :=
  seq ← next_seq now;
  packet_bytes ← seal_payload seq (ClientPayload.Resize cols rows);
  keep_unacked seq packet_bytes now ;;
  mret packet_bytes.

Definition prepare_fragment_nack (frame_seq : Z) (received_mask : list Z) : M MirrorSession (list Z) :=
  modify (λ self, self <| ms_transient_seq_num ::= λ n, n +₆₄ 1 |>) ;;
  n ← gets ms_transient_seq_num;
  seal_payload (transient_seq n) (ClientPayload.FragmentNack frame_seq received_mask).

(** ** [feed_packet] *)

(** Packet accounting and the recovery from an outage: [true] after more than five seconds of
    silence. *)
Definition note_arrival (seq : Z) (stats : CodecStats) (now : Instant) : M MirrorSession bool :=
  modify (λ self, self <| ms_bytes_recv_acc ::= λ n, n +₆₄ wire_len stats |>
                       <| ms_comp_acc ::= λ n, n +₆₄ comp_len stats |>
                       <| ms_decomp_acc ::= λ n, n +₆₄ decomp_len stats |>) ;;
  self ← get;
  let silence := duration_since now (ms_last_recv_time self) in
  let is_recovering := bool_decide (from_secs 5 < silence) in
  (if is_recovering
   then modify (λ self, self <| ms_loss_window := [] |> <| ms_expected_server_seq := seq |>)
   else mret tt) ;;
  mret is_recovering.

(** The round trip of the packet acknowledged, and the pruning of the acknowledged ones. *)
Definition track_rtt (ack : Z) (is_recovering : bool) (now : Instant) : M MirrorSession (option Z) :=
  self ← get;
  let rtt_updated :=
    match ms_sent_packets self !! ack with
    | Some sent_time =>
      if is_recovering then None
      else
        let rtt := wrap 32 (as_millis (duration_since now sent_time)) in
        if decide (rtt < 5000) then Some rtt else None
    | None => None
    end in
  modify (λ self, self <| ms_sent_packets ::= delete ack |>) ;;
  modify (λ self, self <| ms_sent_packets ::= filter (λ e, ack < e.1) |>
                       <| ms_unacked_packets ::= filter (λ e, ack < e.1) |>) ;;
  mret rtt_updated.

(** The loss window: [true] per packet that arrived, [false] per one missed. *)
Definition slide_window (seq expected : Z) (window : list bool) : Z * list bool :=
  if decide (expected = 0) then (seq +₆₄ 1, window)
  else if decide (expected < seq) then
    (seq +₆₄ 1, window ++ replicate (Z.to_nat (seq - expected)) false ++ [true])
  else if decide (seq = expected) then (seq +₆₄ 1, window ++ [true])
  else
    let gap := expected - 1 - seq in
    (expected, if decide (gap < len window) then <[Z.to_nat (len window - 1 - gap) := true]> window else window).

(** [while self.loss_window.len() > 100 { self.loss_window.pop_front() }] *)
Definition last_hundred (window : list bool) : list bool := drop (length window - 100) window.

Definition loss_pct (window : list bool) : option f32 :=
  match window with
  | [] => None
  | _ =>
    let lost_count := len (filter (λ r, r = false) window) in
    Some (f32_mul (f32_div (f32_of_Z lost_count) (f32_of_Z (len window))) (f32_of_Z 100))
  end.

Definition estimate_loss (seq : Z) : M MirrorSession (option f32) :=
  modify (λ self,
    let '(expected, window) := slide_window seq (ms_expected_server_seq self) (ms_loss_window self) in
    self <| ms_expected_server_seq := expected |> <| ms_loss_window := last_hundred window |>) ;;
  self ← get;
  mret (loss_pct (ms_loss_window self)).

(** A new packet: the silence is over. *)
Definition accept_packet (seq : Z) (now : Instant) : M MirrorSession unit :=
  modify (λ self, self <| ms_last_recv_time := now |> <| ms_ack_seq_num := seq |>
                       <| ms_keepalive_interval := from_secs 2 |>) ;;
  self ← get;
  if ms_is_reconnecting self then
    modify (λ self, self <| ms_is_reconnecting := false |>) ;;
    with_mirror (set_reconnecting false)
  else mret tt.

Definition find_ref (ref_seq : Z) (history : list (Z * GridState)) : option GridState :=
  if decide (ref_seq = 0) then None else snd <$> head (filter (λ e, e.1 = ref_seq) history).

Definition push_state (entry : Z * GridState) (history : list (Z * GridState)) : list (Z * GridState) :=
  let history := history ++ [entry] in
  if decide (200 < len history) then tail history else history.

(** [if let Ok(ack_bytes) = self.prepare_ack(now) { actions.push(SendPacket(ack_bytes)) }] *)
Definition try_ack (now : Instant) : M MirrorSession (list ClientAction) :=
  ack_bytes ← attempt (prepare_ack now);
  mret (ClientAction.SendPacket <$> option_list ack_bytes).

(** A frame whose base state is known. *)
Definition apply_update (seq : Z) (base : GridState) (update : FrameUpdate) (now : Instant)
    : M MirrorSession (list ClientAction) :=
  let '(new_state, applied) := patch update base in
  lift applied ;;
  modify (λ self, self <| ms_is_echo_enabled := fu_is_echo_enabled update |>) ;;
  with_mirror (apply_frame new_state seq) ;;
  (if fu_is_echo_enabled update then mret tt else with_mirror abort_prediction) ;;
  modify (λ self, self <| ms_state_history ::= push_state (seq, new_state) |>) ;;
  self ← get;
  acks ← (if decide (from_millis 30 ≤ duration_since now (ms_last_ack_sent self))
          then try_ack now else mret []);
  mret (ClientAction.Paint :: acks).

Definition feed_frame (seq : Z) (update : FrameUpdate) (now : Instant) : M MirrorSession (list ClientAction) :=
  self ← get;
  match find_ref (fu_ref_seq update) (ms_state_history self) with
  | Some ref_grid => apply_update seq ref_grid update now
  | None =>
    if decide (fu_ref_seq update ≠ 0) then try_ack now
    else apply_update seq (blank_grid (fu_cols update) (fu_rows update)) update now
  end.

Definition feed_payload (seq : Z) (payload : ServerPayload) (now : Instant) : M MirrorSession (list ClientAction) :=
  match payload with
  | ServerPayload.Frame update => feed_frame seq update now
  | ServerPayload.KeepAlive => mret []
  | ServerPayload.Shutdown => mret [ClientAction.Disconnect]
  | ServerPayload.HandshakeAck _ => mret []
  end.

Definition feed_packet (packet_bytes : list Z) (now : Instant) : M MirrorSession (list ClientAction) :=
  opened ← open_packet packet_bytes;
  match opened with
  | None => mret []
  | Some (wire_packet, payload, stats) =>
    let seq := es_seq_num wire_packet in
    let ack := es_ack_seq_num wire_packet in
    is_recovering ← note_arrival seq stats now;
    rtt_updated ← track_rtt ack is_recovering now;
    loss ← estimate_loss seq;
    with_mirror (acknowledge ack) ;;
    with_mirror (record_rtt_loss rtt_updated loss) ;;
    self ← get;
    if decide (seq ≤ ms_ack_seq_num self) then mret []
    else accept_packet seq now ;; feed_payload seq payload now
  end.

(** ** [feed_stdin] *)

Definition interpret_byte (b : Z) : M MirrorSession InterpreterResult := λ self,
  let '(i, r) := handle_byte b (ms_interpreter self) in (self <| ms_interpreter := i |>, Ok r).

(** The loop over the bytes read: whether it returned early, the bytes to send, the actions. *)
Fixpoint read_stdin (buf bytes_to_send : list Z) (actions : list ClientAction)
    : M MirrorSession (bool * list Z * list ClientAction) :=
  match buf with
  | [] => mret (false, bytes_to_send, actions)
  | b :: buf =>
    r ← interpret_byte b;
    match r with
    | SendBytes bs => read_stdin buf (bytes_to_send ++ bs) actions
    | Consume => read_stdin buf bytes_to_send actions
    | Command Escape.Disconnect => mret (true, bytes_to_send, actions ++ [ClientAction.Disconnect])
    | Command Escape.Suspend =>
      with_mirror mark_dirty ;; read_stdin buf bytes_to_send (actions ++ [ClientAction.Suspend])
    | Command Escape.Help =>
      with_mirror mark_dirty ;; read_stdin buf bytes_to_send (actions ++ [ClientAction.ShowHelp])
    | Command Escape.ToggleOverlay =>
      with_mirror toggle_overlay ;; read_stdin buf bytes_to_send (actions ++ [ClientAction.Paint])
    end
  end.

(** [u8::is_ascii_control] *)
Definition is_ascii_control (b : Z) : bool := (b <? 32) || (b =? 127).

Definition feed_stdin (buf : list Z) (now : Instant) : M MirrorSession (list ClientAction) :=
  '(returned, bytes_to_send, actions) ← read_stdin buf [] [];
  if (returned : bool) then mret actions
  else if decide (bytes_to_send = []) then mret actions
  else
    '(packet_bytes, seq) ← prepare_keystrokes bytes_to_send now;
    let is_printable := forallb (λ b, negb (is_ascii_control b)) bytes_to_send in
    self ← get;
    painted ← (if ms_is_echo_enabled self && is_printable
               then with_mirror (predict_input bytes_to_send seq) ;; mret [ClientAction.Paint]
               else mret []);
    mret (actions ++ painted ++ [ClientAction.SendPacket packet_bytes]).

Definition on_winch (cols rows : Z) (now : Instant) : M MirrorSession (list ClientAction) :=
  packet_bytes ← prepare_resize cols rows now;
  with_mirror abort_prediction ;;
  with_mirror mark_dirty ;;
  mret [ClientAction.SendPacket packet_bytes; ClientAction.Paint].

(** ** [on_tick] *)

Definition tick_keepalive (now : Instant) : M MirrorSession (list ClientAction) :=
  self ← get;
  if decide (ms_keepalive_interval self ≤ duration_since now (ms_last_keepalive_sent self))
  then packet_bytes ← prepare_keepalive now; mret [ClientAction.SendPacket packet_bytes]
  else mret [].

(** Twice the round trip, between 200 ms and one second. *)
Definition rtt_limit (rtt : Z) : Duration := from_millis (Z.max 200 (Z.min 1000 (rtt * 2))).

(** The packets to repeat, met in the map's [order]. *)
Definition overdue (now : Instant) (limit : Duration) (order : list Z)
    (unacked : gmap Z (list Z * Instant)) : list (list Z * Z) :=
  omap (λ seq,
    match unacked !! seq with
    | Some (packet_bytes, sent_time) =>
      if decide (limit ≤ duration_since now sent_time) then Some (packet_bytes, seq) else None
    | None => None
    end) order.

Definition tick_arq (order : list Z) (now : Instant) : M MirrorSession (list ClientAction) :=
  self ← get;
  if decide (from_millis 100 ≤ duration_since now (ms_last_arq_check self)) then
    modify (λ self, self <| ms_last_arq_check := now |>) ;;
    let resend := overdue now (rtt_limit (rtt_ms (ms_mirror self))) order (ms_unacked_packets self) in
    for_each_m resend (λ '(_, seq),
      modify (λ self, self <| ms_unacked_packets ::= alter (λ e, (e.1, now)) seq |>)) ;;
    mret ((λ e, ClientAction.SendPacket e.1) <$> resend)
  else mret [].

Definition backoff (silence : Duration) : Duration :=
  if decide (silence < from_secs 5) then from_secs 2
  else if decide (silence < from_secs 15) then from_secs 5
  else if decide (silence < from_secs 60) then from_secs 15
  else if decide (silence < from_secs 180) then from_secs 60
  else if decide (silence < from_secs 600) then from_secs 120
  else from_secs 180.

Definition tick_reconnect (now : Instant) : M MirrorSession (list ClientAction) :=
  self ← get;
  let silence := duration_since now (ms_last_recv_time self) in
  let needs_banner := bool_decide (from_millis 5000 < silence) in
  if decide (ms_is_reconnecting self ≠ needs_banner) then
    modify (λ self, self <| ms_is_reconnecting := needs_banner |>) ;;
    with_mirror (set_reconnecting needs_banner) ;;
    modify (λ self, self <| ms_keepalive_interval := backoff silence |>) ;;
    mret [ClientAction.Paint]
  else mret [].

Definition tick_telemetry (now : Instant) : M MirrorSession (list ClientAction) :=
  self ← get;
  let elapsed := duration_since now (ms_last_telemetry_calc self) in
  if decide (from_secs 1 ≤ elapsed) then
    let kb_s := f32_div (f32_div (f32_of_Z (ms_bytes_recv_acc self)) (f32_of_Z 1024)) (as_secs_f32 elapsed) in
    let ratio :=
      if decide (0 < ms_comp_acc self ∧ 0 < ms_decomp_acc self)
      then f32_div (f32_of_Z (ms_decomp_acc self)) (f32_of_Z (ms_comp_acc self)) else f32_of_Z 1 in
    let fps := f32_round_u32 (f32_div (f32_of_Z (ms_paint_count_acc self)) (as_secs_f32 elapsed)) in
    with_mirror (record_bandwidth_compression kb_s ratio) ;;
    with_mirror (record_fps fps) ;;
    modify (λ self, self <| ms_bytes_recv_acc := 0 |> <| ms_comp_acc := 0 |> <| ms_decomp_acc := 0 |>
                         <| ms_paint_count_acc := 0 |> <| ms_last_telemetry_calc := now |>) ;;
    mret [ClientAction.Paint]
  else mret [].

(** The loop over the incomplete frames. *)
Fixpoint nack_all (incomplete : list (Z * list Z)) (now : Instant) : M MirrorSession (list ClientAction) :=
  match incomplete with
  | [] => mret []
  | (frame_seq, received_mask) :: incomplete =>
    self ← get;
    let should_nack :=
      match ms_nacked_frames self !! frame_seq with
      | Some last_sent => bool_decide (from_millis 100 ≤ duration_since now last_sent)
      | None => true
      end in
    sent ← (if should_nack then
              modify (λ self, self <| ms_nacked_frames ::= <[frame_seq := now]> |>) ;;
              packet_bytes ← prepare_fragment_nack frame_seq received_mask;
              mret [ClientAction.SendPacket packet_bytes]
            else mret []);
    more ← nack_all incomplete now;
    mret (sent ++ more)
  end.

Definition tick_nack (now : Instant) : M MirrorSession (list ClientAction) :=
  self ← get;
  if decide (from_millis 40 ≤ duration_since now (ms_last_nack_check self)) then
    modify (λ self, self <| ms_last_nack_check := now |>) ;;
    actions ← nack_all (get_incomplete_frames (ms_codec self)) now;
    modify (λ self, self <| ms_nacked_frames ::=
      filter (λ e, ms_ack_seq_num self < e.1 ∧ duration_since now e.2 < from_secs 2) |>) ;;
    mret actions
  else mret [].

(** [order]: how the hash map of unacknowledged packets is walked. *)
Definition on_tick (order : list Z) (now : Instant) : M MirrorSession (list ClientAction) :=
  keepalive ← tick_keepalive now;
  arq ← tick_arq order now;
  banner ← tick_reconnect now;
  telemetry ← tick_telemetry now;
  nacks ← tick_nack now;
  mret (keepalive ++ arq ++ banner ++ telemetry ++ nacks).

Definition copy_frame_if_dirty (dest : TerminalFrame) : M MirrorSession (TerminalFrame * bool) := λ self,
  let '((t, dest), r) := consume_updates (ms_mirror self, dest) in
  let self := self <| ms_mirror := t |> in
  match r with
  | Ok true => (self <| ms_paint_count_acc ::= λ n, n +₃₂ 1 |>, Ok (dest, true))
  | Ok false => (self, Ok (dest, false))
  | Err e => (self, Err e)
  | Panic => (self, Panic)
  end.
End session.
Arguments MirrorSession C : clear implicits.
