(* ===== verification/MirrorFacts.v ===== *)
(** * Lemmas about the client's session

    What each part of [MirrorSession] changes, and the invariant that ties its state history to the
    grids the server logged. *)

From Stdlib Require Import Floats.SpecFloat.
From S2P Require Import Prelude Utf8 Grid Protocol Crypto Codec CodecFacts CodecProps Escape.
From S2P Require Import Float32 Frame Echo Terminal MirrorSession.

(** ** What the server logged *)

(** The state a frame update is applied to. *)
Definition base_of (grids : gmap Z GridState) (u : FrameUpdate) : option GridState :=
  if decide (fu_ref_seq u = 0) then Some (blank_grid (fu_cols u) (fu_rows u)) else grids !! fu_ref_seq u.

(** Every frame sent under [seq] turns its base into the grid logged under [seq]. *)
Definition coherent (L : gmap Z ServerPayload) (grids : gmap Z GridState) : Prop :=
  ∀ seq u, L !! seq = Some (ServerPayload.Frame u) → ∃ g base,
    grids !! seq = Some g ∧ grid_ok g ∧ base_of grids u = Some base ∧ patch u base = (g, Ok tt).

Lemma base_of_mono grids grids' u base : grids ⊆ grids' → base_of grids u = Some base → base_of grids' u = Some base.
Proof. unfold base_of. intros Hg. case_decide; [done|]. intros Hb. by eapply lookup_weaken. Qed.

Section facts.
Context {C : Type} `{PacketCodecLaws C}.
Abbreviation Session := (MirrorSession C) (only parsing).
Implicit Types s : Session.

(** Sealing may fail; it does not panic. *)
Context (Hseal : ∀ (c : C) sid seq ack p, seal_client c sid seq ack p ≠ Panic).

(** Fields the parts below leave alone unless they say so. *)
Record stable s s' : Prop := {
  sb_sid : ms_session_id s' = ms_session_id s;
  sb_codec : ms_codec s' = ms_codec s;
  sb_seq : ms_seq_num s' = ms_seq_num s;
  sb_unacked : ms_unacked_packets s' = ms_unacked_packets s;
  sb_history : ms_state_history s' = ms_state_history s;
  sb_ack : ms_ack_seq_num s' = ms_ack_seq_num s;
}.
#[export] Instance stable_preorder : PreOrder stable.
Proof. split; [by intros ?; split|]. intros ? ? ? [] []. split; congruence. Qed.

Lemma with_mirror_run {A} (m : M TerminalInner A) s t a :
  m (ms_mirror s) = (t, Ok a) → runs (with_mirror m) s (s <| ms_mirror := t |>) a.
Proof. unfold runs, with_mirror. by intros ->. Qed.

(** ** Sealing *)

Lemma seal_payload_state seq p s : (seal_payload seq p s).1 = s ∧ (seal_payload seq p s).2 ≠ Panic.
Proof. split; [done|]. apply Hseal. Qed.

Lemma try_ack_run now s :
  ∃ s' acts, runs (try_ack now) s s' acts ∧ stable s s' ∧ ms_mirror s' = ms_mirror s ∧
    ClientAction.Paint ∉ acts.
Proof.
  unfold try_ack, prepare_ack, seal_payload, runs, mbind, M_bind, attempt, gets, get, modify, lift. cbn.
  match goal with |- context [seal_client ?c ?i ?n ?a ?p] =>
    pose proof (Hseal c i n a p) as Ho; destruct (seal_client c i n a p) as [b|e|] end; [..|done];
    (eexists _, _; split; [reflexivity|]; split; [by split|]; split; [done|]).
  - by intros ?%list_elem_of_singleton.
  - apply not_elem_of_nil.
Qed.

(** ** Up to the sequence check of [feed_packet] *)

Lemma note_arrival_run seq st now s :
  ∃ s' b, runs (note_arrival seq st now) s s' b ∧ stable s s' ∧ ms_mirror s' = ms_mirror s.
Proof.
  unfold note_arrival, runs, mbind, M_bind, modify, get, mret, M_ret. cbv zeta. cbn beta iota.
  match goal with |- context [bool_decide ?Q] => destruct (bool_decide Q) end;
    (eexists _, _; split; [reflexivity|done]).
Qed.

Lemma track_rtt_run ack b now s :
  ∃ s' r, runs (track_rtt ack b now) s s' r ∧
    stable (s <| ms_unacked_packets ::= filter (λ e, ack < e.1) |>) s' ∧ ms_mirror s' = ms_mirror s.
Proof. unfold track_rtt, runs. cbn. eexists _, _. split; [reflexivity|done]. Qed.

Lemma estimate_loss_run seq s :
  ∃ s' r, runs (estimate_loss seq) s s' r ∧ stable s s' ∧ ms_mirror s' = ms_mirror s ∧
    len (ms_loss_window s') ≤ 100.
Proof.
  unfold estimate_loss, runs, mbind, M_bind, modify, get, mret, M_ret.
  destruct (slide_window seq (ms_expected_server_seq s) (ms_loss_window s)) as [e w].
  eexists _, _. split; [reflexivity|]. split; [done|]. split; [done|]. cbn.
  unfold last_hundred, len. rewrite length_drop. lia.
Qed.

Lemma accept_packet_run seq now s :
  mirror_ok (ms_mirror s) →
  ∃ s', runs (accept_packet seq now) s s' tt ∧ stable (s <| ms_ack_seq_num := seq |>) s' ∧
    mirror_ok (ms_mirror s').
Proof.
  intros Hm. unfold accept_packet.
  destruct (flag_step_ok _ (ms_mirror s) (set_reconnecting_step false) Hm) as (t & E & Ht & _).
  destruct (ms_is_reconnecting s) eqn:Er.
  - eexists. split; [mstep; mstep; cbn; rewrite Er; mstep; by apply with_mirror_run|]. done.
  - eexists. split; [mstep; mstep; cbn; rewrite Er; apply runs_ret|]. done.
Qed.

(** ** Frames *)

Lemma apply_update_run seq base u g now s :
  mirror_ok (ms_mirror s) → grid_ok g → patch u base = (g, Ok tt) →
  ∃ s' acts, runs (apply_update seq base u now) s s' (ClientAction.Paint :: acts) ∧
    stable (s <| ms_state_history ::= push_state (seq, g) |>) s' ∧ mirror_ok (ms_mirror s') ∧
    ∃ b, shows g b ∧ view_over b (ms_mirror s').
Proof.
  intros Hm Hg Hp. unfold apply_update. rewrite Hp.
  destruct (apply_frame_ok (ms_mirror s) g seq Hm Hg) as (t1 & r & E1 & Hm1 & b & Hs & Hv1).
  set (s1 := s <| ms_is_echo_enabled := fu_is_echo_enabled u |>).
  assert (∃ t2, runs (if fu_is_echo_enabled u then mret tt else with_mirror abort_prediction)
    (s1 <| ms_mirror := t1 |>) (s1 <| ms_mirror := t2 |>) tt ∧ mirror_ok t2 ∧ view_over b t2)
    as (t2 & E2 & Hm2 & Hv2).
  { destruct (fu_is_echo_enabled u); [by exists t1|].
    destruct (abort_ok t1 Hm1) as (t2 & E2 & Hm2 & Hv2). exists t2.
    split; [exact (with_mirror_run abort_prediction (s1 <| ms_mirror := t1 |>) t2 tt E2)|]. split; [done|]. by eapply Hv2. }
  set (s3 := s1 <| ms_mirror := t2 |> <| ms_state_history ::= push_state (seq, g) |>).
  assert (∃ s4 acts, runs (if decide (from_millis 30 ≤ duration_since now (ms_last_ack_sent s3))
    then try_ack now else mret []) s3 s4 acts ∧ stable s3 s4 ∧ ms_mirror s4 = t2)
    as (s4 & acts & E4 & Hst & Hm4).
  { case_decide; [|by exists s3, []]. destruct (try_ack_run now s3) as (s4 & acts & E4 & Hst & Hm4 & _).
    by exists s4, acts. }
  exists s4, acts. split.
  { eapply runs_bind; [by apply runs_lift|]. mstep. fold s1.
    eapply runs_bind; [by apply with_mirror_run|]. eapply runs_bind; [exact E2|]. mstep. mstep. fold s3.
    eapply runs_bind; [exact E4|]. apply runs_ret. }
  split; [|by rewrite Hm4; eauto]. etransitivity; [|exact Hst]. done.
Qed.

(** ** The invariant *)

Record client_inv (c : C) (L : gmap Z ServerPayload) (grids : gmap Z GridState) s : Prop := {
  ci_codec : holds c L (ms_codec s);
  ci_history : Forall (λ e, grids !! e.1 = Some e.2) (ms_state_history s);
  ci_mirror : mirror_ok (ms_mirror s);
}.

Lemma client_inv_stable c L grids s s' :
  client_inv c L grids s → stable s s' → mirror_ok (ms_mirror s') → client_inv c L grids s'.
Proof. intros [] [? E ? ? E' ?] ?. split; [by rewrite E|by rewrite E'|done]. Qed.

Lemma find_ref_elem r h g : find_ref r h = Some g → (r, g) ∈ h ∧ r ≠ 0.
Proof.
  unfold find_ref. case_decide; [done|]. destruct (head _) as [[q g']|] eqn:E; [|done].
  intros [= <-]. destruct (filter _ h) as [|x l] eqn:Ef; [done|]. injection E as ->.
  assert ((q, g') ∈ filter (λ e : Z * GridState, e.1 = r) h) as Hin by (rewrite Ef; by left).
  apply list_elem_of_filter in Hin as [E Hin]. cbn in E. by subst q.
Qed.

Lemma push_state_Forall (Q : Z * GridState → Prop) e h : Forall Q h → Q e → Forall Q (push_state e h).
Proof.
  intros Hh He. unfold push_state. assert (Forall Q (h ++ [e])) as Ha by (apply Forall_app; by repeat constructor).
  case_decide; [|done]. destruct (h ++ [e]); [done|]. by apply Forall_cons in Ha as [_ ?].
Qed.

Lemma push_state_len e h : len h ≤ 200 → len (push_state e h) ≤ 200.
Proof.
  intros Hl. unfold push_state. case_decide as Hd; [|lia]. unfold len in *.
  rewrite length_app in *. destruct (h ++ [e]) as [|x l] eqn:E; cbn; [lia|].
  assert (length (h ++ [e]) = S (length l)) as E' by (by rewrite E). rewrite length_app in E'. cbn in *. lia.
Qed.

(** What a frame shows, when one was applied. *)
Definition painted (grids : gmap Z GridState) seq s (acts : list ClientAction) : Prop :=
  ClientAction.Paint ∈ acts → ∃ g b, grids !! seq = Some g ∧ grid_ok g ∧ shows g b ∧
    view_over b (ms_mirror s) ∧ last (ms_state_history s) = Some (seq, g).

Lemma push_state_last e h : last (push_state e h) = Some e.
Proof.
  unfold push_state. case_decide as Hd; [|by rewrite last_snoc].
  destruct h as [|x h]; [done|]. cbn [tail app]. by rewrite last_snoc.
Qed.

(** What an accepted packet does to the history of states: a frame whose reference is at hand is applied
    and remembered, anything else is not. *)
Definition at_hand (u : FrameUpdate) (h : list (Z * GridState)) : Prop :=
  fu_ref_seq u = 0 ∨ is_Some (find_ref (fu_ref_seq u) h).
Definition remembered seq (p : ServerPayload) (h h' : list (Z * GridState)) (acts : list ClientAction) : Prop :=
  match p with
  | ServerPayload.Frame u =>
    (at_hand u h → ClientAction.Paint ∈ acts ∧ ∃ g, h' = push_state (seq, g) h) ∧ (¬ at_hand u h → h' = h)
  | _ => h' = h
  end.

Lemma feed_frame_run c L grids seq u now s :
  coherent L grids → L !! seq = Some (ServerPayload.Frame u) → client_inv c L grids s →
  ∃ s' acts, runs (feed_frame seq u now) s s' acts ∧ client_inv c L grids s' ∧ painted grids seq s' acts ∧
    (ms_session_id s' = ms_session_id s ∧ ms_codec s' = ms_codec s) ∧ ms_seq_num s' = ms_seq_num s ∧
    ms_unacked_packets s' = ms_unacked_packets s ∧ ms_ack_seq_num s' = ms_ack_seq_num s ∧
    (len (ms_state_history s) ≤ 200 → len (ms_state_history s') ≤ 200) ∧
    remembered seq (ServerPayload.Frame u) (ms_state_history s) (ms_state_history s') acts.
Proof.
  intros Hcoh HL Hinv. pose proof Hinv as [Hcod Hhist Hm].
  destruct (Hcoh seq u HL) as (g & base & Hg & Hok & Hb & Hp).
  assert (∃ s' acts, runs (apply_update seq base u now) s s' acts ∧ client_inv c L grids s' ∧
    painted grids seq s' acts ∧ (ms_session_id s' = ms_session_id s ∧ ms_codec s' = ms_codec s) ∧
    ms_seq_num s' = ms_seq_num s ∧
    ms_unacked_packets s' = ms_unacked_packets s ∧ ms_ack_seq_num s' = ms_ack_seq_num s ∧
    (len (ms_state_history s) ≤ 200 → len (ms_state_history s') ≤ 200) ∧
    (ClientAction.Paint ∈ acts ∧ ∃ g, ms_state_history s' = push_state (seq, g) (ms_state_history s)))
    as (s1 & a1 & E1 & I1 & P1 & A1 & A2 & A3 & A4 & A5 & A6).
  { destruct (apply_update_run seq base u g now s Hm Hok Hp) as (s' & acts & E & [] & Hm' & b & Hs & Hv).
    exists s', (ClientAction.Paint :: acts). split; [exact E|]. cbn in *. split.
    { split; [by rewrite sb_codec0| |done]. rewrite sb_history0. by apply push_state_Forall. }
    split. { intros _. exists g, b. rewrite sb_history0. by rewrite push_state_last. }
    split_and!; try done; [|by left|by exists g]. rewrite sb_history0. apply push_state_len. }
  assert (at_hand u (ms_state_history s) →
    remembered seq (ServerPayload.Frame u) (ms_state_history s) (ms_state_history s1) a1) as Hrem by by split.
  unfold feed_frame. destruct (find_ref (fu_ref_seq u) (ms_state_history s)) as [g'|] eqn:Ef.
  - pose proof (find_ref_elem _ _ _ Ef) as [Hin Hne]. rewrite Forall_forall in Hhist.
    specialize (Hhist _ Hin). cbn in Hhist. unfold base_of in Hb. rewrite decide_False in Hb by done.
    assert (g' = base) as -> by congruence. exists s1, a1.
    split; [eapply runs_bind; [apply runs_get|]; rewrite Ef; exact E1|]. do 7 (split; [done|]).
    apply Hrem. right. by eexists.
  - destruct (decide (fu_ref_seq u ≠ 0)) as [Hne|He].
    + destruct (try_ack_run now s) as (s' & acts & E & Hst & Hmm & Hnp). exists s', acts. split.
      { eapply runs_bind; [apply runs_get|]. rewrite Ef. exact E. }
      split; [apply (client_inv_stable c L grids s s' Hinv Hst); by rewrite Hmm|]. split; [by intros ?|].
      destruct Hst. do 4 (split; [done|]). split; [by rewrite sb_history0|].
      split; [|by rewrite sb_history0]. intros [?|[g' Hg']]; [done|congruence].
    + assert (fu_ref_seq u = 0) as He' by (apply dec_stable; tauto).
      unfold base_of in Hb. rewrite decide_True in Hb by done. injection Hb as <-.
      exists s1, a1. split; [eapply runs_bind; [apply runs_get|]; rewrite Ef; exact E1|].
      do 7 (split; [done|]). apply Hrem. by left.
Qed.

(** ** [feed_packet] *)

(** What a datagram opened to [o] does to the packets awaiting acknowledgement and to the highest
    packet seen. *)
Definition digested (o : option (EncryptedServerPacket * ServerPayload * CodecStats)) s s' : Prop :=
  match o with
  | None => ms_unacked_packets s' = ms_unacked_packets s ∧ ms_ack_seq_num s' = ms_ack_seq_num s
  | Some (pkt, _, _) =>
    ms_unacked_packets s' = filter (λ e, es_ack_seq_num pkt < e.1) (ms_unacked_packets s) ∧
    ms_ack_seq_num s' = Z.max (ms_ack_seq_num s) (es_seq_num pkt)
  end.

(** What a datagram opened to [o] does to the history. *)
Definition recalled (L : gmap Z ServerPayload) (o : option (EncryptedServerPacket * ServerPayload * CodecStats)) s s'
    (acts : list ClientAction) : Prop :=
  match o with
  | None => ms_state_history s' = ms_state_history s
  | Some (pkt, p, _) => L !! es_seq_num pkt = Some p ∧
    (es_seq_num pkt ≤ ms_ack_seq_num s → ms_state_history s' = ms_state_history s) ∧
    (ms_ack_seq_num s < es_seq_num pkt →
       remembered (es_seq_num pkt) p (ms_state_history s) (ms_state_history s') acts)
  end.

(** Reading the header of an authentic packet: only its acknowledgement and the estimates are taken
    before the packet is judged old or new. *)
Lemma feed_header_run b now s c1 pkt p st :
  open_server b (ms_codec s) = (c1, Ok (Some (pkt, p, st))) → mirror_ok (ms_mirror s) →
  ∃ s5, stable (s <| ms_codec := c1 |> <| ms_unacked_packets ::= filter (λ e, es_ack_seq_num pkt < e.1) |>) s5 ∧
    mirror_ok (ms_mirror s5) ∧
    ∀ s' acts, runs (if decide (es_seq_num pkt ≤ ms_ack_seq_num s5) then mret []
        else accept_packet (es_seq_num pkt) now ;; feed_payload (es_seq_num pkt) p now) s5 s' acts →
      runs (feed_packet b now) s s' acts.
Proof.
  intros Eo Hm. set (s0 := s <| ms_codec := c1 |>). set (seq := es_seq_num pkt). set (ack := es_ack_seq_num pkt).
  destruct (note_arrival_run seq st now s0) as (s1 & rec & E1 & S1 & M1).
  destruct (track_rtt_run ack rec now s1) as (s2 & rtt & E2 & S2 & M2).
  destruct (estimate_loss_run seq s2) as (s3 & loss & E3 & S3 & M3 & _).
  assert (mirror_ok (ms_mirror s3)) as Hm3 by (by rewrite M3, M2, M1).
  destruct (acknowledge_ok (ms_mirror s3) ack Hm3) as (t4 & E4 & Hm4).
  destruct (flag_step_ok _ t4 (record_rtt_loss_step rtt loss) Hm4) as (t5 & E5 & Hm5 & _).
  exists (s3 <| ms_mirror := t5 |>). split; [|split; [done|]].
  { transitivity s3; [|by split]. etransitivity; [|exact S3]. etransitivity; [|exact S2].
    destruct S1 as [A1 A2 A3 A4 A5 A6]. split; cbn; by rewrite ?A1, ?A2, ?A3, ?A4, ?A5, ?A6. }
  intros s' acts E. unfold feed_packet. eapply (runs_bind _ _ _ s0 _ (Some (pkt, p, st))).
  { unfold runs, open_packet. by rewrite Eo. }
  eapply runs_bind; [exact E1|]. eapply runs_bind; [exact E2|]. eapply runs_bind; [exact E3|].
  eapply runs_bind; [by apply with_mirror_run|].
  eapply (runs_bind _ _ _ (s3 <| ms_mirror := t5 |>));
    [exact (with_mirror_run _ (s3 <| ms_mirror := t4 |>) t5 tt E5)|].
  mstep. exact E.
Qed.

(** Reading the payload of a new packet. *)
Lemma feed_payload_run c L grids seq p now s :
  coherent L grids → client_inv c L grids s → L !! seq = Some p →
  ∃ s' acts, runs (feed_payload seq p now) s s' acts ∧ client_inv c L grids s' ∧
    painted grids seq s' acts ∧ (ms_session_id s' = ms_session_id s ∧ ms_codec s' = ms_codec s) ∧
    ms_seq_num s' = ms_seq_num s ∧ ms_unacked_packets s' = ms_unacked_packets s ∧
    ms_ack_seq_num s' = ms_ack_seq_num s ∧
    (len (ms_state_history s) ≤ 200 → len (ms_state_history s') ≤ 200) ∧
    remembered seq p (ms_state_history s) (ms_state_history s') acts.
Proof.
  intros Hcoh Hinv HL. destruct p as [sid|u| |].
  - exists s, []. split; [apply runs_ret|]. split_and!; try done. by intros ?%not_elem_of_nil.
  - by apply feed_frame_run with (c:=c) (L:=L).
  - exists s, []. split; [apply runs_ret|]. split_and!; try done. by intros ?%not_elem_of_nil.
  - exists s, [ClientAction.Disconnect]. split; [apply runs_ret|]. split_and!; try done.
    by intros ?%list_elem_of_singleton.
Qed.

Lemma feed_packet_run c L grids b now s :
  coherent L grids → client_inv c L grids s → sealed_by c L b →
  ∃ s' acts o, (open_server b (ms_codec s)).2 = Ok o ∧ runs (feed_packet b now) s s' acts ∧
    client_inv c L grids s' ∧ digested o s s' ∧
    ms_session_id s' = ms_session_id s ∧ ms_seq_num s' = ms_seq_num s ∧
    (len (ms_state_history s) ≤ 200 → len (ms_state_history s') ≤ 200) ∧
    (ClientAction.Paint ∈ acts → ms_ack_seq_num s < ms_ack_seq_num s') ∧
    painted grids (ms_ack_seq_num s') s' acts ∧ recalled L o s s' acts ∧
    ms_codec s' = (open_server b (ms_codec s)).1.
Proof.
  intros Hcoh Hinv Hb. pose proof Hinv as [Hcod Hhist Hm].
  destruct (open_server b (ms_codec s)) as [c1 r] eqn:Eo.
  destruct (server_opened c L (ms_codec s) c1 b r Hcod Hb Eo) as [Hcod1 Hr].
  set (s0 := s <| ms_codec := c1 |>). assert (client_inv c L grids s0) as Hinv0 by done.
  destruct Hr as [->|(pkt & p & st & -> & HL)].
  { exists s0, [], None. split; [done|]. split.
    { unfold feed_packet. eapply (runs_bind _ _ _ s0 _ None); [|apply runs_ret].
      unfold runs, open_packet. by rewrite Eo. }
    split_and!; try done; by intros ?%not_elem_of_nil. }
  destruct (feed_header_run b now s c1 pkt p st Eo Hm) as (s5 & S5 & Hm5 & Hgo).
  assert (client_inv c L grids s5) as Hinv5 by (eapply client_inv_stable; [|exact S5|done]; done).
  set (seq := es_seq_num pkt) in *. set (ack := es_ack_seq_num pkt) in *.
  assert (ms_session_id s5 = ms_session_id s ∧ ms_seq_num s5 = ms_seq_num s ∧
    ms_unacked_packets s5 = filter (λ e, ack < e.1) (ms_unacked_packets s) ∧
    ms_state_history s5 = ms_state_history s ∧ ms_ack_seq_num s5 = ms_ack_seq_num s ∧ ms_codec s5 = c1)
    as (A1 & A3 & A4 & A5 & A6 & A7) by (by destruct S5).
  destruct (decide (seq ≤ ms_ack_seq_num s5)) as [Hle|Hgt].
  { exists s5, [], (Some (pkt, p, st)). split; [done|]. split; [apply Hgo, runs_ret|].
    split; [done|]. split; [split; [done|]; fold seq; lia|].
    split; [done|]. split; [done|]. split; [by rewrite A5|]. split; [by intros ?%not_elem_of_nil|].
    split; [by intros ?%not_elem_of_nil|]. split; [|done]. split; [done|]. split; [done|]. fold seq. lia. }
  destruct (accept_packet_run seq now s5 Hm5) as (s6 & E6 & S6 & M6).
  assert (client_inv c L grids s6) as Hinv6 by (eapply client_inv_stable; [|exact S6|done]; destruct Hinv5; by split).
  assert (ms_session_id s6 = ms_session_id s5 ∧ ms_seq_num s6 = ms_seq_num s5 ∧
    ms_unacked_packets s6 = ms_unacked_packets s5 ∧
    ms_state_history s6 = ms_state_history s5 ∧ ms_ack_seq_num s6 = seq ∧ ms_codec s6 = c1)
    as (B1 & B3 & B4 & B5 & B6 & B7) by (destruct S6; cbn in *; split_and!; congruence).
  destruct (feed_payload_run c L grids seq p now s6 Hcoh Hinv6 HL)
    as (s7 & acts & E7 & Hinv7 & P7 & [D1 D7] & D2 & D3 & D4 & D5 & D6).
  exists s7, acts, (Some (pkt, p, st)). split; [done|]. split.
  { apply Hgo. eapply runs_bind; [exact E6|exact E7]. }
  split; [done|]. split; [split; [by rewrite D3, B4, A4|]; fold seq; lia|].
  split; [by rewrite D1, B1|]. split; [by rewrite D2, B3|]. split; [rewrite B5, A5 in D5; exact D5|].
  split; [intros _; lia|]. split; [by rewrite D4, B6|]. split; [|by rewrite D7, B7].
  split; [done|]. split; [fold seq; lia|]. intros _. by rewrite B5, A5 in D6.
Qed.
End facts.
