(* ===== verification/MirrorProps.v ===== *)
(** * What the client's session guarantees

    The events of a session and their runs; the theorems on the screens it shows, on the reliable
    packets it keeps and repeats, and on what it does with typed input. *)

From Stdlib Require Import Floats.SpecFloat.
From S2P Require Import Prelude Utf8 Grid Protocol Crypto Codec CodecFacts WireFormat CodecProps Escape.
From S2P Require Import Float32 Frame Echo Terminal MirrorSession MirrorFacts.

(** ** Events *)

Inductive client_event : Type :=
  | CDatagram (b : list Z) (now : Instant)
  | CStdin (buf : list Z) (now : Instant)
  | CWinch (cols rows : Z) (now : Instant)
  | CTick (order : list Z) (now : Instant)
  | CPaint (dest : TerminalFrame).

Section events.
Context {C : Type} `{PacketCodec C}.
Abbreviation Session := (MirrorSession C) (only parsing).

Definition client_handle (e : client_event) : M Session (list ClientAction) :=
  match e with
  | CDatagram b now => feed_packet b now
  | CStdin buf now => feed_stdin buf now
  | CWinch cols rows now => on_winch cols rows now
  | CTick order now => on_tick order now
  | CPaint dest => copy_frame_if_dirty dest ;; mret []
  end.

(** The event loop: it ends with the first error. *)
Fixpoint client_run (es : list client_event) : M Session (list ClientAction) :=
  match es with
  | [] => mret []
  | e :: es => a ← client_handle e; more ← client_run es; mret (a ++ more)
  end.

(** The acknowledgement numbers of the packets a run opens. *)
Definition ack_of (e : client_event) (s : Session) : option Z :=
  match e with
  | CDatagram b _ =>
    match (open_server b (ms_codec s)).2 with
    | Ok (Some (pkt, _, _)) => Some (es_ack_seq_num pkt)
    | _ => None
    end
  | _ => None
  end.
Fixpoint acks_of (es : list client_event) (s : Session) : list Z :=
  match es with
  | [] => []
  | e :: es => option_list (ack_of e s) ++ acks_of es (client_handle e s).1
  end.

Definition datagram_of (e : client_event) : option (list Z) :=
  match e with CDatagram b _ => Some b | _ => None end.
End events.

(** ** The screens shown *)

Section screens.
Context {C : Type} `{PacketCodecLaws C}.
Abbreviation Session := (MirrorSession C) (only parsing).
Context (Hseal : ∀ (c : C) sid seq ack p, seal_client c sid seq ack p ≠ Panic).
Context (c : C) (L : gmap Z ServerPayload) (grids : gmap Z GridState).
Hypothesis Hcoh : coherent L grids.

(** The invariant, with the bound on the history. *)
Definition in_sync (s : Session) : Prop := client_inv c L grids s ∧ len (ms_state_history s) ≤ 200.

Lemma in_sync_safe_modify (f : Session → Session) :
  (∀ s, ms_codec (f s) = ms_codec s ∧ ms_state_history (f s) = ms_state_history s ∧
        ms_mirror (f s) = ms_mirror s) → safe in_sync (modify f).
Proof.
  intros Hf. apply safe_modify. intros s [[] Hl]. destruct (Hf s) as (E1 & E2 & E3).
  split; [split|]; by rewrite ?E1, ?E2, ?E3.
Qed.

Lemma with_mirror_safe {A} (m : M TerminalInner A) :
  (∀ t, mirror_ok t → ∃ t' a, m t = (t', Ok a) ∧ mirror_ok t') → safe in_sync (with_mirror m).
Proof.
  intros Hm s [[? ? Hmm] Hl]. destruct (Hm _ Hmm) as (t' & a & E & Ht'). unfold with_mirror. rewrite E.
  by split.
Qed.

Lemma with_flag_safe m : flag_step m → safe in_sync (with_mirror m).
Proof.
  intros Hm. apply with_mirror_safe. intros t Ht. destruct (flag_step_ok m t Hm Ht) as (t' & E & Ht' & _).
  by exists t', tt.
Qed.
Lemma with_abort_safe : safe in_sync (with_mirror abort_prediction).
Proof.
  apply with_mirror_safe. intros t Ht. destruct (abort_ok t Ht) as (t' & E & Ht' & _). by exists t', tt.
Qed.
Lemma with_predict_safe bs seq : safe in_sync (with_mirror (predict_input bs seq)).
Proof.
  apply with_mirror_safe. intros t Ht. destruct (predict_input_ok t bs seq Ht) as (t' & E & Ht').
  by exists t', tt.
Qed.
Lemma seal_payload_safe seq p : safe in_sync (seal_payload seq p).
Proof. apply safe_bind; [apply safe_get|]. intros s. by apply safe_lift. Qed.

Hint Resolve with_flag_safe with_abort_safe with_predict_safe seal_payload_safe : safe.
Hint Resolve record_bandwidth_step record_fps_step set_reconnecting_step toggle_overlay_step mark_dirty_step : safe.
Hint Extern 1 (safe in_sync (modify _)) => apply in_sync_safe_modify; by intros [] : safe.
Hint Extern 1 (safe in_sync (lift _)) => apply safe_lift, Hseal : safe.

(** Peels a computation down to its elementary steps. *)
Ltac safe_steps :=
  repeat first
    [ progress intros
    | solve [auto with safe]
    | apply safe_bind
    | apply safe_for_each_m
    | apply safe_decide
    | apply safe_if
    | progress cbn beta iota zeta
    | match goal with |- safe _ (match ?x with _ => _ end) => destruct x end ].

Lemma prepare_keystrokes_safe keys now : safe in_sync (prepare_keystrokes keys now).
Proof. unfold prepare_keystrokes, next_seq, keep_unacked. safe_steps. Qed.
Lemma prepare_resize_safe cols rows now : safe in_sync (prepare_resize cols rows now).
Proof. unfold prepare_resize, next_seq, keep_unacked. safe_steps. Qed.
Lemma prepare_keepalive_safe now : safe in_sync (prepare_keepalive now).
Proof. unfold prepare_keepalive, next_seq, keep_unacked. safe_steps. Qed.
Lemma prepare_nack_safe seq mask : safe in_sync (prepare_fragment_nack seq mask).
Proof. unfold prepare_fragment_nack. safe_steps. Qed.
Hint Resolve prepare_keystrokes_safe prepare_resize_safe prepare_keepalive_safe prepare_nack_safe : safe.

Lemma interpret_byte_safe b : safe in_sync (interpret_byte b).
Proof.
  intros s [[] Hl]. unfold interpret_byte. destruct (handle_byte b (ms_interpreter s)). by repeat split.
Qed.
Hint Resolve interpret_byte_safe : safe.

Lemma read_stdin_safe buf to_send acts : safe in_sync (read_stdin buf to_send acts).
Proof.
  revert to_send acts. induction buf as [|b buf IH]; intros to_send acts; cbn [read_stdin]; safe_steps.
Qed.
Hint Resolve read_stdin_safe : safe.

Lemma nack_all_safe incomplete now : safe in_sync (nack_all incomplete now).
Proof. induction incomplete as [|[seq mask] incomplete IH]; cbn [nack_all]; safe_steps. Qed.
Hint Resolve nack_all_safe : safe.

Lemma copy_frame_safe dest : safe in_sync (copy_frame_if_dirty dest).
Proof.
  intros s [[? ? (base & Hb & Hv)] Hl]. unfold copy_frame_if_dirty.
  destruct (consume_updates (ms_mirror s, dest)) as [[t d] r] eqn:E.
  pose proof (consume_over base _ dest t d r Hv E) as Hv'.
  destruct (consume_updates_run (ms_mirror s) dest) as (t2 & d2 & E2 & _). rewrite E in E2.
  injection E2 as <- <- ->. assert (mirror_ok t) by (by exists base).
  by destruct (_ || _).
Qed.

Lemma client_handle_safe e :
  from_option (sealed_by c L) True (datagram_of e) → safe in_sync (client_handle e).
Proof.
  intros He. destruct e as [b now|buf now|cols rows now|order now|dest]; cbn [client_handle].
  - intros s [Hinv Hl]. destruct (feed_packet_run Hseal c L grids b now s Hcoh Hinv He)
      as (s' & acts & o & _ & E & Hinv' & _ & _ & _ & Hl' & _).
    unfold runs in E. rewrite E. split; [|done]. split; [done|auto].
  - unfold feed_stdin. safe_steps.
  - unfold on_winch. safe_steps.
  - unfold on_tick, tick_keepalive, tick_arq, tick_reconnect, tick_telemetry, tick_nack. safe_steps.
  - apply safe_bind; [apply copy_frame_safe|]. intros _. apply safe_ret.
Qed.

Lemma client_run_safe es :
  Forall (sealed_by c L) (omap datagram_of es) → safe in_sync (client_run es).
Proof.
  induction es as [|e es IH]; intros Hes; cbn [client_run]; [apply safe_ret|].
  apply safe_bind; [apply client_handle_safe|].
  - csimpl in Hes. destruct (datagram_of e); [|done]. by apply Forall_cons in Hes as [? _].
  - intros a. apply safe_bind; [|intros; apply safe_ret]. apply IH.
    csimpl in Hes. destruct (datagram_of e); [|done]. by apply Forall_cons in Hes as [_ ?].
Qed.
End screens.

(** ** The reliable packets kept *)

Definition send_of (a : ClientAction) : option (list Z) :=
  match a with ClientAction.SendPacket b => Some b | _ => None end.
Definition sends (acts : list ClientAction) : list (list Z) := omap send_of acts.

Lemma sends_app a b : sends (a ++ b) = sends a ++ sends b.
Proof. apply omap_app. Qed.

(** The packets awaiting acknowledgement: number and datagram. *)
Abbreviation Unacked := (gmap Z (list Z * Instant)) (only parsing).
Definition kept (u : Unacked) (k : Z) : option (list Z) := fst <$> u !! k.

Lemma kept_touch u k now k' : kept (alter (λ e, (e.1, now)) k u) k' = kept u k'.
Proof.
  unfold kept. destruct (decide (k' = k)) as [->|Hne]; [|by rewrite lookup_alter_ne].
  rewrite lookup_alter_eq. by destruct (u !! k).
Qed.

Lemma kept_ack u ack k :
  kept (filter (λ e, ack < e.1) u) k = if decide (ack < k) then kept u k else None.
Proof.
  unfold kept. rewrite map_lookup_filter. destruct (u !! k); cbn; repeat case_guard; try done;
    by repeat case_decide.
Qed.

(** Nothing sent, nothing dropped; and the packet [b] sent under the next number. *)
Definition as_before (n : Z) (u : Unacked) (n' : Z) (u' : Unacked) : Prop :=
  n' = n ∧ ∀ k, kept u' k = kept u k.
Definition one_more (n : Z) (u : Unacked) (b : list Z) (n' : Z) (u' : Unacked) : Prop :=
  n' = n + 1 ∧ ∀ k, kept u' k = if decide (k = n + 1) then Some b else kept u k.

Section keeping.
Context {C : Type} `{PacketCodec C}.
Abbreviation Session := (MirrorSession C) (only parsing).

(** A step after which the invariant on the kept packets still holds. *)
Definition keeps (P : Z → Unacked → Prop) {A} (m : M Session A) : Prop :=
  establishes (λ s, P (ms_seq_num s) (ms_unacked_packets s)) m
    (λ _ s, P (ms_seq_num s) (ms_unacked_packets s)).

Context (P : Z → Unacked → Prop).

Lemma keeps_bind {A B} (m : M Session A) (f : A → M Session B) :
  keeps P m → (∀ a, keeps P (f a)) → keeps P (m ≫= f).
Proof. intros Hm Hf. eapply est_bind; [exact Hm|]. exact Hf. Qed.
Lemma keeps_ret {A} (a : A) : keeps P (mret a).
Proof. by apply est_ret. Qed.
Lemma keeps_get : keeps P get.
Proof. by apply est_get. Qed.
Lemma keeps_gets {A} (f : Session → A) : keeps P (gets f).
Proof. by apply est_gets. Qed.
Lemma keeps_lift {A} (o : outcome A) : keeps P (lift o).
Proof. by apply est_lift. Qed.
Lemma keeps_modify (f : Session → Session) :
  (∀ s, ms_seq_num (f s) = ms_seq_num s ∧ ms_unacked_packets (f s) = ms_unacked_packets s) →
  keeps P (modify f).
Proof. intros Hf. apply est_modify. intros s Hs. destruct (Hf s) as [-> ->]. done. Qed.
Lemma keeps_with_mirror {A} (m : M TerminalInner A) : keeps P (with_mirror m).
Proof. intros s s' a Hs. unfold runs, with_mirror. destruct (m (ms_mirror s)) as [t r]. by intros [= <- _]. Qed.
Lemma keeps_interpret b : keeps P (interpret_byte b).
Proof. intros s s' a Hs. unfold runs, interpret_byte. destruct (handle_byte _ _). by intros [= <- _]. Qed.

Hint Resolve keeps_ret keeps_get keeps_gets keeps_lift keeps_with_mirror keeps_interpret : safe.
Hint Extern 1 (keeps P (modify _)) => apply keeps_modify; by intros [] : safe.

Ltac keep_steps :=
  repeat first
    [ progress intros
    | solve [auto with safe]
    | apply keeps_bind
    | progress cbn beta iota zeta
    | match goal with |- keeps _ (if ?b then _ else _) => destruct b end
    | match goal with |- keeps _ (match ?x with _ => _ end) => destruct x end ].

Lemma read_stdin_keeps buf to_send acts : keeps P (read_stdin buf to_send acts).
Proof. revert to_send acts. induction buf as [|b buf IH]; intros; cbn [read_stdin]; keep_steps. Qed.

Lemma nack_all_keeps incomplete now : keeps P (nack_all incomplete now).
Proof.
  induction incomplete as [|[seq mask] incomplete IH]; cbn [nack_all]; [keep_steps|].
  unfold prepare_fragment_nack, seal_payload. keep_steps.
Qed.
Hint Resolve read_stdin_keeps nack_all_keeps : safe.

Lemma tick_nack_keeps now : keeps P (tick_nack now).
Proof. unfold tick_nack. keep_steps. Qed.
Lemma tick_telemetry_keeps now : keeps P (tick_telemetry now).
Proof. unfold tick_telemetry. keep_steps. Qed.
Lemma tick_reconnect_keeps now : keeps P (tick_reconnect now).
Proof. unfold tick_reconnect. keep_steps. Qed.
Lemma tick_arq_keeps order now :
  (∀ k n u, P n u → P n (alter (λ e, (e.1, now)) k u)) → keeps P (tick_arq order now).
Proof.
  intros HP. unfold tick_arq. apply keeps_bind; [apply keeps_get|]. intros s.
  destruct (decide _); [|apply keeps_ret]. apply keeps_bind; [keep_steps|]. intros _.
  apply keeps_bind; [|keep_steps]. apply est_for_each_m. intros [b k]. apply est_modify.
  intros s' Hs. by apply HP.
Qed.
End keeping.

Section stepping.
Context {C : Type} `{PacketCodec C}.
Abbreviation Session := (MirrorSession C) (only parsing).

(** What an event does to them. *)
Definition stepped (n : Z) (u : Unacked) (acts : list ClientAction) (s : Session) : Prop :=
  as_before n u (ms_seq_num s) (ms_unacked_packets s) ∨
  ∃ b, b ∈ sends acts ∧ one_more n u b (ms_seq_num s) (ms_unacked_packets s).

Lemma prepare_steps {A} n u keepalive payload now (ret : list Z → Z → A) :
  0 ≤ n → n + 1 < 2 ^ 64 →
  establishes (λ s, as_before n u (ms_seq_num s) (ms_unacked_packets s))
    (seq ← next_seq now;
     (if (keepalive : bool) then modify (λ s : Session, s <| ms_last_keepalive_sent := now |>) else mret tt) ;;
     b ← seal_payload seq payload; keep_unacked seq b now ;; mret (ret b seq))
    (λ r s, ∃ b seq, r = ret b seq ∧ one_more n u b (ms_seq_num s) (ms_unacked_packets s)).
Proof.
  intros Hn Hb s s' r [E Hu]. unfold runs, next_seq, seal_payload, keep_unacked, mbind, M_bind,
    modify, gets, get, mret, M_ret, lift. cbn. rewrite E, wrap_small by (unfold fits; lia).
  destruct keepalive; cbn; (destruct (seal_client _ _ _ _ _) as [b| |]; [|done|done]);
    intros [= <- <-]; cbn; exists b, (n + 1); (split; [done|]); (split; [done|]); intros k; unfold kept;
    (destruct (decide (k = n + 1)) as [->|Hne]; [by rewrite lookup_insert_eq|]);
    rewrite lookup_insert_ne by done; apply Hu.
Qed.

Lemma prepare_keystrokes_steps n u keys now :
  0 ≤ n → n + 1 < 2 ^ 64 →
  establishes (λ s, as_before n u (ms_seq_num s) (ms_unacked_packets s)) (prepare_keystrokes keys now)
    (λ r s, one_more n u r.1 (ms_seq_num s) (ms_unacked_packets s)).
Proof.
  intros Hn Hb. eapply est_weaken; [exact (prepare_steps n u false (ClientPayload.Keystrokes keys) now pair Hn Hb)|done|].
  by intros r s (b & seq & -> & ?).
Qed.
Lemma prepare_resize_steps n u cols rows now :
  0 ≤ n → n + 1 < 2 ^ 64 →
  establishes (λ s, as_before n u (ms_seq_num s) (ms_unacked_packets s)) (prepare_resize cols rows now)
    (λ b s, one_more n u b (ms_seq_num s) (ms_unacked_packets s)).
Proof.
  intros Hn Hb. eapply est_weaken;
    [exact (prepare_steps n u false (ClientPayload.Resize cols rows) now (λ b _, b) Hn Hb)|done|].
  by intros r s (b & seq & -> & ?).
Qed.
Lemma prepare_keepalive_steps n u now :
  0 ≤ n → n + 1 < 2 ^ 64 →
  establishes (λ s, as_before n u (ms_seq_num s) (ms_unacked_packets s)) (prepare_keepalive now)
    (λ b s, one_more n u b (ms_seq_num s) (ms_unacked_packets s)).
Proof.
  intros Hn Hb. eapply est_weaken;
    [exact (prepare_steps n u true ClientPayload.KeepAlive now (λ b _, b) Hn Hb)|done|].
  by intros r s (b & seq & -> & ?).
Qed.

Lemma feed_stdin_steps n u buf now :
  0 ≤ n → n + 1 < 2 ^ 64 →
  establishes (λ s, as_before n u (ms_seq_num s) (ms_unacked_packets s)) (feed_stdin buf now) (stepped n u).
Proof.
  intros Hn Hb. unfold feed_stdin. eapply est_bind; [apply (read_stdin_keeps (as_before n u))|].
  intros [[returned to_send] acts]. destruct returned; [apply est_ret; intros; by left|].
  destruct (decide (to_send = [])); [apply est_ret; intros; by left|].
  eapply est_bind; [by apply prepare_keystrokes_steps|]. intros [b seq]. cbn [fst].
  eapply est_bind; [apply keeps_get|]. intros s0.
  eapply (est_bind _ (λ _ s, one_more n u b (ms_seq_num s) (ms_unacked_packets s))).
  { destruct (_ && _); [|by apply est_ret].
    eapply est_bind; [exact (keeps_with_mirror (one_more n u b) (predict_input to_send seq))|].
    intros []. by apply est_ret. }
  intros painted. apply est_ret. intros s Hs. right. exists b. split; [|done].
  rewrite !sends_app, !elem_of_app. right; right. by left.
Qed.

Lemma on_winch_steps n u cols rows now :
  0 ≤ n → n + 1 < 2 ^ 64 →
  establishes (λ s, as_before n u (ms_seq_num s) (ms_unacked_packets s)) (on_winch cols rows now) (stepped n u).
Proof.
  intros Hn Hb. unfold on_winch. eapply est_bind; [by apply prepare_resize_steps|]. intros b.
  eapply est_bind; [exact (keeps_with_mirror (one_more n u b) abort_prediction)|]. intros [].
  eapply est_bind; [exact (keeps_with_mirror (one_more n u b) mark_dirty)|]. intros [].
  apply est_ret. intros s' Hs. right. exists b. split; [by left|done].
Qed.

Lemma on_tick_steps n u order now :
  0 ≤ n → n + 1 < 2 ^ 64 →
  establishes (λ s, as_before n u (ms_seq_num s) (ms_unacked_packets s)) (on_tick order now) (stepped n u).
Proof.
  intros Hn Hb. unfold on_tick.
  assert (∀ P acts, (∀ k n u, P n u → P n (alter (λ e, (e.1, now)) k u)) →
    (∀ s more, P (ms_seq_num s) (ms_unacked_packets s) → stepped n u (acts ++ more) s) →
    establishes (λ s, P (ms_seq_num s) (ms_unacked_packets s))
      (arq ← tick_arq order now; banner ← tick_reconnect now; telemetry ← tick_telemetry now;
       nacks ← tick_nack now; mret (acts ++ arq ++ banner ++ telemetry ++ nacks)) (stepped n u)) as Hrest.
  { intros P acts HP Hstep. eapply est_bind; [by apply (tick_arq_keeps P)|]. intros arq.
    eapply est_bind; [apply (tick_reconnect_keeps P)|]. intros banner.
    eapply est_bind; [apply (tick_telemetry_keeps P)|]. intros telemetry.
    eapply est_bind; [apply (tick_nack_keeps P)|]. intros nacks. apply est_ret. intros s. apply Hstep. }
  eapply (est_bind _ (λ acts s, (as_before n u (ms_seq_num s) (ms_unacked_packets s) ∨
    ∃ b, b ∈ sends acts ∧ one_more n u b (ms_seq_num s) (ms_unacked_packets s)))).
  { unfold tick_keepalive. eapply est_bind; [apply keeps_get|]. intros s0.
    destruct (decide _); [|apply est_ret; intros; by left].
    eapply est_bind; [by apply prepare_keepalive_steps|]. intros b. apply est_ret. intros s Hs.
    right. exists b. split; [by left|done]. }
  intros acts. apply (Hrest (λ n' u', as_before n u n' u' ∨ ∃ b, b ∈ sends acts ∧ one_more n u b n' u')).
  - intros k n' u' [[E Hk]|(b & Hin & E & Hk)]; [left|right; exists b; split; [done|]];
      (split; [done|]); intros k'; by rewrite kept_touch.
  - intros s more [?|(b & Hin & ?)]; [by left|right]. exists b. rewrite sends_app, elem_of_app. auto.
Qed.
End stepping.

(** ** Theorems *)

Section theorems.
Context {C : Type} `{PacketCodecLaws C}.
Abbreviation Session := (MirrorSession C) (only parsing).

(** Sealing may fail; it does not panic. *)
Definition seals : Prop := ∀ (c : C) sid seq ack p, seal_client c sid seq ack p ≠ Panic.

(** Every datagram of the run is one the server sealed. *)
Definition genuine_run (c : C) (L : gmap Z ServerPayload) (es : list client_event) : Prop :=
  Forall (sealed_by c L) (omap datagram_of es).

Lemma genuine_run_cons c L e es :
  genuine_run c L (e :: es) → from_option (sealed_by c L) True (datagram_of e) ∧ genuine_run c L es.
Proof.
  unfold genuine_run. csimpl. destruct (datagram_of e); [|done]. by intros [? ?]%Forall_cons.
Qed.

Lemma new_in_sync c L grids sid codec start cols rows overlay now :
  holds c L codec → u16 cols → u16 rows → 0 < rows →
  in_sync c L grids (MirrorSession_new sid codec start cols rows overlay now).
Proof.
  intros Hc Hcols Hrows Hpos. split; [|done]. split; [done|done|]. unfold MirrorSession_new. cbn [ms_mirror].
  destruct (flag_step_ok (set_overlay_enabled overlay) (ClientTerminal_new cols rows) (set_overlay_step overlay))
    as (t & E & Ht & _); [|rewrite E; exact Ht].
  apply mirror_ok_new. split; [by apply TerminalFrame_new_wf|done].
Qed.

(** A further datagram after any run. *)
Lemma client_screen_run c L grids sid codec start cols rows overlay t0 es b now :
  seals → coherent L grids → holds c L codec → u16 cols → u16 rows → 0 < rows →
  genuine_run c L es → sealed_by c L b →
  ∃ s r, client_run es (MirrorSession_new sid codec start cols rows overlay t0) = (s, r) ∧ r ≠ Panic ∧
  ∃ s' acts, feed_packet b now s = (s', Ok acts) ∧
    Forall (λ e, grids !! e.1 = Some e.2) (ms_state_history s') ∧ len (ms_state_history s') ≤ 200 ∧
    (ClientAction.Paint ∈ acts → ms_ack_seq_num s < ms_ack_seq_num s' ∧
       ∃ g t, last (ms_state_history s') = Some (ms_ack_seq_num s', g) ∧
         grids !! ms_ack_seq_num s' = Some g ∧
         abort_prediction (ms_mirror s') = (t, Ok tt) ∧ shows g (ti_frame t)).
Proof.
  intros Hseal Hcoh Hc Hcols Hrows Hpos Hes Hb.
  pose proof (new_in_sync c L grids sid codec start cols rows overlay t0 Hc Hcols Hrows Hpos) as Hnew.
  destruct (client_run_safe Hseal c L grids Hcoh es Hes _ Hnew) as [[Hinv Hl] Hp].
  destruct (client_run es _) as [s r]. exists s, r. split; [done|]. split; [done|]. cbn in Hinv, Hl.
  destruct (feed_packet_run Hseal c L grids b now s Hcoh Hinv Hb)
    as (s' & acts & o & _ & E & Hinv' & _ & _ & _ & Hl' & Hnewer & Hpaint & _).
  exists s', acts. split; [exact E|]. split; [apply Hinv'|]. split; [auto|]. intros Hin.
  split; [by apply Hnewer|]. destruct (Hpaint Hin) as (g & base & Hg & Hgok & Hs & Hv & Hlast).
  destruct (abort_run base (ms_mirror s') (shows_cursor g base Hgok Hs) Hv) as (t & Ea & Hsame & _).
  exists g, t. split; [done|]. split; [done|]. split; [done|]. by rewrite Hsame.
Qed.

(** C10. The client shows the server's screens. When the server's frames each turn the state they
    refer to into the state logged under their number, then along any run of a new session (the
    server's datagrams in any order, lost and repeated, typed input, resizes, ticks, repaints) the
    session does not panic, and a further datagram is digested without error: every state in the
    history, which holds at most 200, is the one the server logged under that number; and when a
    frame is applied it is newer than all before, it is the last of the history, and the terminal,
    once predictions are taken off, shows exactly the screen the server logged under its number. *)
Theorem client_screen_genuine c L grids sid codec start cols rows overlay t0 es b now :
  seals → coherent L grids → holds c L codec → u16 cols → u16 rows → 0 < rows →
  genuine_run c L es → sealed_by c L b →
  ∃ s r, client_run es (MirrorSession_new sid codec start cols rows overlay t0) = (s, r) ∧ r ≠ Panic ∧
  ∃ s' acts, feed_packet b now s = (s', Ok acts) ∧
    Forall (λ e, grids !! e.1 = Some e.2) (ms_state_history s') ∧ len (ms_state_history s') ≤ 200 ∧
    (ClientAction.Paint ∈ acts → ms_ack_seq_num s < ms_ack_seq_num s' ∧
       ∃ g t, last (ms_state_history s') = Some (ms_ack_seq_num s', g) ∧
         grids !! ms_ack_seq_num s' = Some g ∧
         abort_prediction (ms_mirror s') = (t, Ok tt) ∧ shows g (ti_frame t)).
Proof. apply client_screen_run. Qed.

(** ** Reliable packets *)

Definition below (a : option Z) (k : Z) : Prop := match a with Some x => x < k | None => True end.
#[export] Instance below_dec a k : Decision (below a k).
Proof. destruct a; unfold below; apply _. Defined.

Lemma client_handle_steps c L grids e s s' acts :
  seals → coherent L grids → in_sync c L grids s → from_option (sealed_by c L) True (datagram_of e) →
  0 ≤ ms_seq_num s → ms_seq_num s + 1 < 2 ^ 64 → runs (client_handle e) s s' acts →
  (ms_seq_num s' = ms_seq_num s ∧ ∀ k, kept (ms_unacked_packets s') k =
     if decide (below (ack_of e s) k) then kept (ms_unacked_packets s) k else None) ∨
  (ack_of e s = None ∧ ∃ b, b ∈ sends acts ∧
     one_more (ms_seq_num s) (ms_unacked_packets s) b (ms_seq_num s') (ms_unacked_packets s')).
Proof.
  intros Hseal Hcoh [Hinv _] He Hn Hb E.
  assert (ack_of e s = None → stepped (ms_seq_num s) (ms_unacked_packets s) acts s' →
    (ms_seq_num s' = ms_seq_num s ∧ ∀ k, kept (ms_unacked_packets s') k =
     if decide (below (ack_of e s) k) then kept (ms_unacked_packets s) k else None) ∨
    (ack_of e s = None ∧ ∃ b, b ∈ sends acts ∧
     one_more (ms_seq_num s) (ms_unacked_packets s) b (ms_seq_num s') (ms_unacked_packets s'))) as Hgo.
  { intros Ha [[E1 E2]|Hone]; [left|by right]. rewrite Ha. split; [done|]. intros k.
    by rewrite decide_True by done. }
  destruct e as [b now|buf now|cols rows now|order now|dest]; cbn [client_handle] in E.
  - destruct (feed_packet_run Hseal c L grids b now s Hcoh Hinv He)
      as (s2 & acts2 & o & Eo & E2 & _ & Hd & _ & Hseq & _).
    unfold runs in *. rewrite E in E2. injection E2 as <- <-. left. split; [done|]. intros k.
    unfold ack_of. rewrite Eo. destruct o as [[[pkt p] st]|]; destruct Hd as [-> _].
    + apply kept_ack.
    + by rewrite decide_True.
  - apply Hgo; [done|]. by eapply feed_stdin_steps.
  - apply Hgo; [done|]. by eapply on_winch_steps.
  - apply Hgo; [done|]. by eapply on_tick_steps.
  - apply Hgo; [done|]. left. unfold runs, mbind, M_bind, copy_frame_if_dirty in E.
    destruct (consume_updates _) as [[t d] [[]| |]]; [..|done|done]; injection E as <- _; by split.
Qed.

Lemma client_run_kept c L grids es s s' acts :
  seals → coherent L grids → in_sync c L grids s → genuine_run c L es →
  0 ≤ ms_seq_num s → ms_seq_num s + len es < 2 ^ 64 → runs (client_run es) s s' acts →
  ms_seq_num s ≤ ms_seq_num s' ∧
  (∀ k, k ≤ ms_seq_num s → kept (ms_unacked_packets s') k =
     if decide (Forall (λ a, a < k) (acks_of es s)) then kept (ms_unacked_packets s) k else None) ∧
  ∀ k, ms_seq_num s < k ≤ ms_seq_num s' → ∃ es1 es2 s1 acts1 b, es = es1 ++ es2 ∧
    runs (client_run es1) s s1 acts1 ∧ b ∈ sends acts1 ∧ ms_seq_num s1 = k ∧
    kept (ms_unacked_packets s') k = if decide (Forall (λ a, a < k) (acks_of es2 s1)) then Some b else None.
Proof.
  intros Hseal Hcoh. revert s acts. induction es as [|e es IH]; intros s acts Hs Hes Hn Hb E.
  { injection E as <- _. split; [lia|]. split; [|lia]. intros k _. by rewrite decide_True. }
  unfold len in *. cbn [length] in Hb. apply genuine_run_cons in Hes as [He Hes].
  cbn [client_run] in E. unfold runs, mbind, M_bind in E.
  destruct (client_handle e s) as [s1 [a1| |]] eqn:E1; [|done|done].
  destruct (client_run es s1) as [s2 [a2| |]] eqn:E2; [|done|done]. injection E as -> <-.
  destruct (client_handle_safe Hseal c L grids Hcoh e He s Hs) as [Hs1 _]. rewrite E1 in Hs1. cbn in Hs1.
  assert (acks_of (e :: es) s = option_list (ack_of e s) ++ acks_of es s1) as Hacks by (cbn; by rewrite E1).
  assert (∀ k, Forall (λ a, a < k) (acks_of (e :: es) s) ↔
    below (ack_of e s) k ∧ Forall (λ a, a < k) (acks_of es s1)) as Hall.
  { intros k. rewrite Hacks. destruct (ack_of e s); cbn; [by rewrite Forall_cons|tauto]. }
  destruct (client_handle_steps c L grids e s s1 a1 Hseal Hcoh Hs He Hn ltac:(lia) E1)
    as [[Hseq Hk]|(Ha & b & Hin & Hseq & Hk)];
    (destruct (IH s1 a2) as (Hle & Hold & Hnew); [done|done|lia|lia|done|]).
  - split; [lia|]. split.
    + intros k Hkn. rewrite Hold by lia. rewrite Hk. specialize (Hall k).
      destruct (decide (Forall _ (acks_of es s1))), (decide (below (ack_of e s) k)),
        (decide (Forall _ (acks_of (e :: es) s))); try done; tauto.
    + intros k Hkn. destruct (Hnew k) as (es1 & es2 & s3 & acts1 & b & -> & Er & Hin & Hs3 & Hkept); [lia|].
      exists (e :: es1), es2, s3, (a1 ++ acts1), b. split; [done|]. split.
      { unfold runs in *. cbn. unfold mbind, M_bind. rewrite E1, Er. done. }
      split; [|done]. rewrite sends_app, elem_of_app. by right.
  - split; [lia|]. split.
    + intros k Hkn. rewrite Hold by lia. rewrite Hk, (decide_False (P := k = _)) by lia.
      specialize (Hall k). rewrite Ha in Hall. cbn in Hall.
      destruct (decide (Forall _ (acks_of es s1))), (decide (Forall _ (acks_of (e :: es) s))); try done; tauto.
    + intros k Hkn. destruct (decide (k = ms_seq_num s1)) as [->|Hne].
      * exists [e], es, s1, (a1 ++ []), b. split; [done|]. split.
        { unfold runs. cbn. unfold mbind, M_bind. by rewrite E1. }
        split; [by rewrite app_nil_r|]. split; [done|]. rewrite Hold by lia. rewrite Hk.
        by rewrite (decide_True (P := ms_seq_num s1 = _)) by lia.
      * destruct (Hnew k) as (es1 & es2 & s3 & acts1 & b' & -> & Er & Hin' & Hs3 & Hkept); [lia|].
        exists (e :: es1), es2, s3, (a1 ++ acts1), b'. split; [done|]. split.
        { unfold runs in *. cbn. unfold mbind, M_bind. rewrite E1, Er. done. }
        split; [|done]. rewrite sends_app, elem_of_app. by right.
Qed.

(** A reliable packet is kept until it is acknowledged. Along any run that ends without an
    error, the packets numbered from 1 up that the session still keeps for retransmission are
    exactly those for which no acknowledgement as high as their number has arrived since they were
    sent; what is kept is the datagram that was sent. *)
Theorem kept_until_acknowledged c L grids sid codec start cols rows overlay t0 es s acts k :
  let s0 := MirrorSession_new sid codec start cols rows overlay t0 in
  seals → coherent L grids → holds c L codec → u16 cols → u16 rows → 0 < rows →
  genuine_run c L es → len es < 2 ^ 64 → client_run es s0 = (s, Ok acts) → 1 ≤ k ≤ ms_seq_num s →
  ∃ es1 es2 s1 acts1 b, es = es1 ++ es2 ∧ client_run es1 s0 = (s1, Ok acts1) ∧
    ms_seq_num s1 = k ∧ ClientAction.SendPacket b ∈ acts1 ∧
    fst <$> ms_unacked_packets s !! k = if decide (Forall (λ a, a < k) (acks_of es2 s1)) then Some b else None.
Proof.
  intros s0 Hseal Hcoh Hc Hcols Hrows Hpos Hes Hb E Hk.
  pose proof (new_in_sync c L grids sid codec start cols rows overlay t0 Hc Hcols Hrows Hpos) as Hnew.
  destruct (client_run_kept c L grids es s0 s acts Hseal Hcoh Hnew Hes ltac:(done) Hb E) as (_ & _ & Hsent).
  destruct (Hsent k) as (es1 & es2 & s1 & acts1 & b & -> & Er & Hin & Hs1 & Hkept); [cbn; lia|].
  exists es1, es2, s1, acts1, b. split; [done|]. split; [done|]. split; [done|]. split; [|done].
  apply list_elem_of_omap in Hin as (a & Ha & Hb'). by destruct a; simplify_eq/=.
Qed.

(** ** Retransmission *)

Lemma touch_all_lookup l now (u : Unacked) k :
  foldl (λ u (e : list Z * Z), alter (λ x, (x.1, now)) e.2 u) u l !! k =
  if decide (k ∈ l.*2) then (λ x, (x.1, now)) <$> u !! k else u !! k.
Proof.
  revert u. induction l as [|[b k'] l IH]; intros u; cbn; [by rewrite decide_False by apply not_elem_of_nil|].
  rewrite IH. destruct (decide (k = k')) as [->|Hne].
  - rewrite lookup_alter_eq, (decide_True (P := k' ∈ k' :: l.*2)) by by left.
    case_decide; [|done]. by destruct (u !! k').
  - rewrite lookup_alter_ne by done. destruct (decide (k ∈ l.*2)) as [Hin|Hn].
    + rewrite decide_True by by right. done.
    + rewrite decide_False; [done|]. rewrite elem_of_cons. tauto.
Qed.

Lemma touch_all_run (l : list (list Z * Z)) now (s : Session) :
  runs (for_each_m l (λ '(_, seq), modify (λ self, self <| ms_unacked_packets ::= alter (λ e, (e.1, now)) seq |>)))
    s (s <| ms_unacked_packets ::= λ u, foldl (λ u (e : list Z * Z), alter (λ x, (x.1, now)) e.2 u) u l |>) tt.
Proof.
  revert s. induction l as [|[b k] l IH]; intros s; [by destruct s|]. cbn [for_each_m].
  eapply runs_bind; [apply runs_modify|]. apply IH.
Qed.

Lemma overdue_elem now limit order (u : Unacked) b k :
  (b, k) ∈ overdue now limit order u ↔
  k ∈ order ∧ ∃ t, u !! k = Some (b, t) ∧ limit ≤ duration_since now t.
Proof.
  unfold overdue. rewrite list_elem_of_omap. split.
  - intros (k' & Hk' & Ho). destruct (u !! k') as [[b' t]|] eqn:E; [|done]. case_decide; [|done].
    injection Ho as -> ->. split; [done|]. by exists t.
  - intros (Hk & t & E & Hle). exists k. split; [done|]. by rewrite E, decide_True.
Qed.

Lemma overdue_keys now limit order (u : Unacked) : sublist (overdue now limit order u).*2 order.
Proof.
  unfold overdue. induction order as [|k order IH]; csimpl; [done|].
  destruct (u !! k) as [[b t]|]; [|by apply sublist_cons]. case_decide; csimpl; [by apply sublist_skip|].
  by apply sublist_cons.
Qed.

(** C20. Retransmission. A check that is due (100 ms after the last) repeats, once each and unchanged,
    exactly the kept packets last sent at least the limit ago, whatever order the map is walked in;
    the limit lies between 200 ms and a second, so every packet kept for a second is repeated. The
    repeated ones are stamped with the present; nothing is dropped. A check that is not due does
    nothing. *)
Theorem retransmission_exact (s : Session) order now :
  order ≡ₚ (map_to_list (ms_unacked_packets s)).*1 →
  let limit := rtt_limit (rtt_ms (ms_mirror s)) in
  let u := ms_unacked_packets s in
  ∃ s' acts, tick_arq order now s = (s', Ok acts) ∧
    if decide (from_millis 100 ≤ duration_since now (ms_last_arq_check s)) then
      from_millis 200 ≤ limit ≤ from_secs 1 ∧
      (∃ keys, NoDup keys ∧ (∀ k, k ∈ keys ↔ ∃ b t, u !! k = Some (b, t) ∧ limit ≤ duration_since now t) ∧
         acts = omap (λ k, (λ e, ClientAction.SendPacket e.1) <$> u !! k) keys) ∧
      ∀ k, ms_unacked_packets s' !! k =
        (λ e, (e.1, if decide (limit ≤ duration_since now e.2) then now else e.2)) <$> u !! k
    else s' = s ∧ acts = [].
Proof.
  intros Hord limit u. unfold tick_arq. destruct (decide (from_millis 100 ≤ _)) as [Hdue|Hdue].
  2: { exists s, []. split; [|done]. unfold mbind at 1, M_bind at 1, get at 1. by rewrite decide_False. }
  set (s1 := s <| ms_last_arq_check := now |>). set (l := overdue now limit order u).
  eexists _, _. split.
  { unfold mbind at 1, M_bind at 1, get at 1. rewrite decide_True by done.
    unfold mbind at 1, M_bind at 1, modify at 1. fold s1 u limit l.
    pose proof (touch_all_run l now s1) as E. unfold runs in E. unfold mbind, M_bind. rewrite E. reflexivity. }
  assert (NoDup order) as Hnd by (rewrite Hord; apply NoDup_fst_map_to_list).
  assert (∀ k, k ∈ order ↔ is_Some (u !! k)) as Hmem.
  { intros k. rewrite Hord, list_elem_of_fmap. split.
    - intros ([k' e] & -> & Hin). apply elem_of_map_to_list in Hin. by eexists.
    - intros [e He]. exists (k, e). split; [done|]. by apply elem_of_map_to_list. }
  assert (∀ k, k ∈ l.*2 ↔ ∃ b t, u !! k = Some (b, t) ∧ limit ≤ duration_since now t) as Hl.
  { intros k. rewrite list_elem_of_fmap. split.
    - intros ([b k'] & -> & Hin). apply overdue_elem in Hin as (_ & t & ?). by exists b, t.
    - intros (b & t & E & Hle). exists (b, k). split; [done|]. apply overdue_elem.
      split; [apply Hmem; by eexists|]. by exists t. }
  split; [|split].
  - unfold limit, rtt_limit, from_millis, from_secs. lia.
  - exists l.*2. split; [|split; [done|]].
    + eapply sublist_NoDup; [exact Hnd|apply overdue_keys].
    + assert (Forall (λ e, ∃ t, u !! e.2 = Some (e.1, t)) l) as Hf.
      { apply Forall_forall. intros [b k] Hin. apply overdue_elem in Hin as (_ & t & ? & _). by exists t. }
      clear -Hf. induction Hf as [|[b k] l (t & E) Hf IH]; [done|]. csimpl. cbn in E. rewrite E. csimpl.
      by f_equal.
  - intros k. cbn. rewrite touch_all_lookup. fold u. destruct (u !! k) as [[b t]|] eqn:E; cbn; [|by case_decide].
    destruct (decide (k ∈ l.*2)) as [Hin|Hn].
    + apply Hl in Hin as (b' & t' & E' & Hle). assert (t' = t) as -> by congruence. by rewrite decide_True.
    + rewrite decide_False; [done|]. intros Hle. apply Hn, Hl. by exists b, t.
Qed.
End theorems.

(** ** Typed input *)

Section stdin.
Context {C : Type} `{PacketCodec C}.
Abbreviation Session := (MirrorSession C) (only parsing).
Implicit Types s : Session.

(** What a local command asks of the executor. *)
Definition local_action (c : EscapeCommand) : ClientAction :=
  match c with
  | Escape.Disconnect => ClientAction.Disconnect
  | Escape.Suspend => ClientAction.Suspend
  | Escape.Help => ClientAction.ShowHelp
  | Escape.ToggleOverlay => ClientAction.Paint
  end.

Lemma local_no_send c : send_of (local_action c) = None.
Proof. by destruct c. Qed.

(** What it does to the mirror at once. *)
Definition local_effect (c : EscapeCommand) : M TerminalInner unit :=
  match c with
  | Escape.Disconnect => mret tt
  | Escape.Suspend | Escape.Help => mark_dirty
  | Escape.ToggleOverlay => toggle_overlay
  end.

Lemma local_effect_run c t : ∃ t', local_effect c t = (t', Ok tt).
Proof. destruct c; by eexists. Qed.

Lemma read_command c b buf to_send acts s s1 t :
  runs (interpret_byte b) s s1 (Command c) → c ≠ Escape.Disconnect → local_effect c (ms_mirror s1) = (t, Ok tt) →
  read_stdin (b :: buf) to_send acts s =
  read_stdin buf to_send (acts ++ [local_action c]) (s1 <| ms_mirror := t |>).
Proof.
  unfold runs. intros Ei Hc El. cbn [read_stdin]. unfold mbind at 1, M_bind at 1. rewrite Ei.
  destruct c; [done|..]; unfold mbind, M_bind, with_mirror; cbn in El |- *; by injection El as <-.
Qed.

(** The input without and with a disconnect command. *)
Lemma read_stdin_run buf to_send acts s :
  let '(i, rs) := interpret buf (ms_interpreter s) in
  (Escape.Disconnect ∉ commands rs →
   ∃ t, runs (read_stdin buf to_send acts) s (s <| ms_interpreter := i |> <| ms_mirror := t |>)
          (false, to_send ++ Escape.sent rs, acts ++ (local_action <$> commands rs)) ∧
        (commands rs = [] → t = ms_mirror s)) ∧
  (Escape.Disconnect ∈ commands rs →
   ∃ s' to_send' cs, runs (read_stdin buf to_send acts) s s'
       (true, to_send', acts ++ (local_action <$> cs) ++ [ClientAction.Disconnect]) ∧
     ms_seq_num s' = ms_seq_num s ∧ ms_unacked_packets s' = ms_unacked_packets s).
Proof.
  revert to_send acts s. induction buf as [|b buf IH]; intros to_send acts s.
  { cbn. split; [|by intros ?%not_elem_of_nil]. intros _. exists (ms_mirror s).
    rewrite !app_nil_r. split; [by destruct s|done]. }
  cbn [interpret]. destruct (handle_byte b (ms_interpreter s)) as [i1 r] eqn:Eh.
  set (s1 := s <| ms_interpreter := i1 |>).
  assert (runs (interpret_byte b) s s1 r) as Ei by (unfold runs, interpret_byte; by rewrite Eh).
  destruct (interpret buf i1) as [i rs] eqn:Er. destruct r as [bs|c|].
  - specialize (IH (to_send ++ bs) acts s1). cbn in IH. rewrite Er in IH. destruct IH as [IH1 IH2].
    assert (∀ s' x, runs (read_stdin buf (to_send ++ bs) acts) s1 s' x →
      runs (read_stdin (b :: buf) to_send acts) s s' x) as Hgo
      by (intros s' x E; cbn [read_stdin]; eapply runs_bind; [exact Ei|exact E]).
    split; [intros Hn; destruct (IH1 Hn) as (t & E & Ht)|intros Hin; destruct (IH2 Hin) as (s' & ts & cs & E & ?)].
    + exists t. split; [|exact Ht]. apply Hgo. unfold Escape.sent. cbn. rewrite (assoc_L (++)). exact E.
    + exists s', ts, cs. split; [by apply Hgo|done].
  - destruct (decide (c = Escape.Disconnect)) as [->|Hc].
    { split; [intros Hn; destruct Hn; by left|]. intros _. exists s1, to_send, []. split; [|done].
      cbn [read_stdin]. eapply runs_bind; [exact Ei|]. apply runs_ret. }
    destruct (local_effect_run c (ms_mirror s1)) as [t1 El].
    pose proof (read_command c b buf to_send acts s s1 t1 Ei Hc El) as Hstep.
    specialize (IH to_send (acts ++ [local_action c]) (s1 <| ms_mirror := t1 |>)). cbn in IH. rewrite Er in IH.
    destruct IH as [IH1 IH2].
    change (commands (Command c :: rs)) with (c :: commands rs).
    change (Escape.sent (Command c :: rs)) with (Escape.sent rs). rewrite fmap_cons.
    split; [intros Hn; destruct IH1 as (t & E & _)|intros Hin; destruct IH2 as (s' & ts & cs & E & ?)].
    + intros Hin. apply Hn. by right.
    + exists t. split; [|done]. unfold runs in *. rewrite Hstep. etransitivity; [exact E|].
      by rewrite <-(assoc_L (++)).
    + by apply elem_of_cons in Hin as [?|?].
    + exists s', ts, (c :: cs). split; [|done]. unfold runs in *. rewrite Hstep. etransitivity; [exact E|].
      by rewrite <-(assoc_L (++)).
  - specialize (IH to_send acts s1). cbn in IH. rewrite Er in IH. destruct IH as [IH1 IH2].
    assert (∀ s' x, runs (read_stdin buf to_send acts) s1 s' x →
      runs (read_stdin (b :: buf) to_send acts) s s' x) as Hgo
      by (intros s' x E; cbn [read_stdin]; eapply runs_bind; [exact Ei|exact E]).
    split; [intros Hn; destruct (IH1 Hn) as (t & E & Ht)|intros Hin; destruct (IH2 Hin) as (s' & ts & cs & E & ?)].
    + exists t. split; [|exact Ht]. by apply Hgo.
    + exists s', ts, cs. split; [by apply Hgo|done].
Qed.

(** Typed input is forwarded. Input without a local command, of which something remains to be
    sent, goes to the server as one packet of keystrokes under the next number, kept for
    retransmission; it is predicted on the mirror, and painted first, exactly when the server
    last recommended echo and no byte is a control character. *)
Theorem stdin_forwarded (s : Session) buf now b :
  let rs := (interpret buf (ms_interpreter s)).2 in
  let bs := Escape.sent rs in
  let seq := ms_seq_num s + 1 in
  let predicted := ms_is_echo_enabled s && forallb (λ b, negb (is_ascii_control b)) bs in
  mirror_ok (ms_mirror s) → fits 64 seq → commands rs = [] → bs ≠ [] →
  seal_client (ms_codec s) (ms_session_id s) seq (ms_ack_seq_num s) (ClientPayload.Keystrokes bs) = Ok b →
  ∃ s', feed_stdin buf now s =
      (s', Ok ((if predicted then [ClientAction.Paint] else []) ++ [ClientAction.SendPacket b])) ∧
    ms_seq_num s' = seq ∧ ms_unacked_packets s' = <[seq := (b, now)]> (ms_unacked_packets s) ∧
    (if predicted then predict_input bs seq (ms_mirror s) = (ms_mirror s', Ok tt)
     else ms_mirror s' = ms_mirror s).
Proof.
  intros rs bs seq predicted Hm Hseq Hcmd Hbs Hseal.
  pose proof (read_stdin_run buf [] [] s) as Hread. subst bs rs.
  destruct (interpret buf (ms_interpreter s)) as [i rs] eqn:Er. cbn [snd] in *.
  destruct Hread as [Hread _]. destruct Hread as (t & E & Ht); [rewrite Hcmd; by intros ?%not_elem_of_nil|].
  rewrite Hcmd in E. cbn in E. specialize (Ht Hcmd) as ->.
  set (s1 := s <| ms_interpreter := i |> <| ms_mirror := ms_mirror s |>) in *.
  set (s2 := s1 <| ms_seq_num := seq |> <| ms_sent_packets ::= <[seq := now]> |>
                <| ms_unacked_packets ::= <[seq := (b, now)]> |>).
  assert (runs (prepare_keystrokes (Escape.sent rs) now) s1 s2 (b, seq)) as E2.
  { unfold runs, prepare_keystrokes, next_seq, seal_payload, keep_unacked, mbind, M_bind, modify, gets, get,
      mret, M_ret, lift. cbn. rewrite (wrap_small 64 (ms_seq_num s + 1)) by done. fold seq. by rewrite Hseal. }
  destruct (predict_input_ok (ms_mirror s) (Escape.sent rs) seq Hm) as (t2 & E3 & _).
  exists (if predicted then s2 <| ms_mirror := t2 |> else s2). split.
  - unfold feed_stdin. eapply runs_bind; [exact E|]. cbn iota. rewrite decide_False by done.
    eapply runs_bind; [exact E2|]. cbn iota. eapply runs_bind; [apply runs_get|].
    change (ms_is_echo_enabled s2) with (ms_is_echo_enabled s). fold predicted. destruct predicted.
    + eapply runs_bind; [|apply runs_ret]. eapply runs_bind; [exact (with_mirror_run _ s2 t2 tt E3)|]. apply runs_ret.
    + eapply runs_bind; [apply runs_ret|]. apply runs_ret.
  - by destruct predicted.
Qed.

(** A disconnect command throws away the input read with it. When the bytes of one read contain
    a disconnect command, nothing of them is sent: the text typed before it in the same read is
    neither transmitted nor kept. *)
Theorem stdin_disconnect_discards (s : Session) buf now :
  Escape.Disconnect ∈ commands (interpret buf (ms_interpreter s)).2 →
  ∃ s' acts, feed_stdin buf now s = (s', Ok (acts ++ [ClientAction.Disconnect])) ∧
    sends acts = [] ∧ ms_seq_num s' = ms_seq_num s ∧ ms_unacked_packets s' = ms_unacked_packets s.
Proof.
  intros Hin. pose proof (read_stdin_run buf [] [] s) as Hread.
  destruct (interpret buf (ms_interpreter s)) as [i rs]. cbn [snd] in *.
  destruct Hread as [_ Hread]. destruct (Hread Hin) as (s' & ts & cs & E & Hs & Hu).
  exists s', (local_action <$> cs). split; [|split; [|done]].
  - unfold feed_stdin. eapply runs_bind; [exact E|]. apply runs_ret.
  - unfold sends. clear. induction cs as [|c cs IH]; [done|]. csimpl. by rewrite local_no_send.
Qed.
End stdin.

(** ** A frame whose reference is missing *)

Section missing.
Context {C : Type} `{PacketCodecLaws C}.
Abbreviation Session := (MirrorSession C) (only parsing).
Implicit Types s : Session.

Lemma try_ack_exact now s :
  seals (C:=C) →
  ∃ s' n, runs (try_ack now) s s' (ClientAction.SendPacket <$>
      option_list (ok (seal_client (ms_codec s) (ms_session_id s) n (ms_ack_seq_num s) ClientPayload.Ack))) ∧
    stable s s' ∧ ms_mirror s' = ms_mirror s.
Proof.
  intros Hseal.
  unfold try_ack, prepare_ack, seal_payload, runs, mbind, M_bind, attempt, gets, get, modify, lift. cbn.
  match goal with |- context [seal_client ?c ?i ?n ?a ?p] =>
    pose proof (Hseal c i n a p) as Ho; destruct (seal_client c i n a p) as [b|e|] eqn:E end; [..|done];
    (eexists _, _; split; [rewrite E; reflexivity|]; split; [by split|done]).
Qed.

(** A frame that cannot be applied is acknowledged. When a new frame refers to a state the client
    does not have, the frame is dropped, and the answer sent at once acknowledges that very frame:
    the acknowledgement carries its number although the history has no state for it. (A server
    that holds the frame in its own history then takes it as the next reference, and the next
    frame is dropped the same way.) *)
Theorem missing_ref_acknowledged (s : Session) packet now c1 pkt u st :
  seals (C:=C) → mirror_ok (ms_mirror s) →
  open_server packet (ms_codec s) = (c1, Ok (Some (pkt, ServerPayload.Frame u, st))) →
  ms_ack_seq_num s < es_seq_num pkt → fu_ref_seq u ≠ 0 → fu_ref_seq u ∉ (ms_state_history s).*1 →
  ∃ s' n, feed_packet packet now s = (s', Ok (ClientAction.SendPacket <$>
      option_list (ok (seal_client c1 (ms_session_id s) n (es_seq_num pkt) ClientPayload.Ack)))) ∧
    ms_state_history s' = ms_state_history s ∧ ms_ack_seq_num s' = es_seq_num pkt.
Proof.
  intros Hseal Hm Eo Hnew Hne Hmiss. set (seq := es_seq_num pkt) in *. set (ack := es_ack_seq_num pkt).
  set (s0 := s <| ms_codec := c1 |>).
  destruct (note_arrival_run seq st now s0) as (s1 & rec & E1 & S1 & M1).
  destruct (track_rtt_run ack rec now s1) as (s2 & rtt & E2 & S2 & M2).
  destruct (estimate_loss_run seq s2) as (s3 & loss & E3 & S3 & M3 & _).
  assert (mirror_ok (ms_mirror s3)) as Hm3 by (by rewrite M3, M2, M1).
  destruct (acknowledge_ok (ms_mirror s3) ack Hm3) as (t4 & E4 & Hm4).
  destruct (flag_step_ok _ t4 (record_rtt_loss_step rtt loss) Hm4) as (t5 & E5 & Hm5 & _).
  set (s5 := s3 <| ms_mirror := t5 |>).
  destruct (accept_packet_run seq now s5 Hm5) as (s6 & E6 & S6 & _).
  assert (ms_codec s6 = c1 ∧ ms_session_id s6 = ms_session_id s ∧
    ms_state_history s6 = ms_state_history s ∧ ms_ack_seq_num s6 = seq ∧
    ms_ack_seq_num s5 = ms_ack_seq_num s) as (B1 & B2 & B3 & B4 & B5).
  { destruct S1, S2, S3, S6. cbn in *. split_and!; congruence. }
  destruct (try_ack_exact now s6 Hseal) as (s7 & n & E7 & [] & _).
  exists s7, n. split; [|split; [congruence|congruence]]. rewrite B1, B2, B4 in E7.
  unfold feed_packet. eapply (runs_bind _ _ _ s0 _ (Some (pkt, ServerPayload.Frame u, st))).
  { unfold runs, open_packet. by rewrite Eo. }
  eapply runs_bind; [exact E1|]. eapply runs_bind; [exact E2|]. eapply runs_bind; [exact E3|].
  eapply runs_bind; [by apply with_mirror_run|].
  eapply (runs_bind _ _ _ s5); [exact (with_mirror_run _ (s3 <| ms_mirror := t4 |>) t5 tt E5)|].
  mstep. fold seq. rewrite decide_False by lia. eapply runs_bind; [exact E6|].
  cbn [feed_payload]. unfold feed_frame. eapply runs_bind; [apply runs_get|].
  destruct (find_ref (fu_ref_seq u) (ms_state_history s6)) as [g|] eqn:Ef.
  { apply find_ref_elem in Ef as [Hin _]. destruct Hmiss. apply list_elem_of_fmap.
    exists (fu_ref_seq u, g). split; [done|]. by rewrite <-B3. }
  rewrite decide_True by done. exact E7.
Qed.
End missing.

(** ** Witnesses *)

Section demo.

Definition mp_codec : NullCodec := NullCodec_new 12345.
Definition mp_start : Instant := from_secs 10.
Definition mp_session : MirrorSession NullCodec := MirrorSession_new 12345 mp_codec 2 3 2 false mp_start.

(** Two frames of a 3 by 2 screen: an "a" at the origin, then a "b" next to it. *)
Definition mp_cell (b : Z) : LocalCellData := blank_cell <| graphemes := CompactGrapheme_new [b] |>.
Definition mp_update (ref x b : Z) : FrameUpdate :=
  {| fu_ref_seq := ref; fu_cols := 3; fu_rows := 2; fu_cursor_x := x + 1; fu_cursor_y := 0;
     fu_cursor_visible := true;
     fu_row_updates :=
       [{| ru_y := 0; ru_is_wrapped := false; ru_cells := [{| cu_x := x; cu_cell := mp_cell b |}] |}];
     fu_is_echo_enabled := true |}.
Definition mp_log : gmap Z ServerPayload :=
  {[2 := ServerPayload.Frame (mp_update 0 0 97); 3 := ServerPayload.Frame (mp_update 2 1 98)]}.
Definition mp_grid2 : GridState := (patch (mp_update 0 0 97) (blank_grid 3 2)).1.
Definition mp_grid3 : GridState := (patch (mp_update 2 1 98) mp_grid2).1.
Definition mp_grids : gmap Z GridState := {[2 := mp_grid2; 3 := mp_grid3]}.
Definition mp_datagrams (seq ack : Z) (p : ServerPayload) : list bytes :=
  match seal_server mp_codec seq ack p with Ok bss => bss | _ => [] end.
Definition mp_first : bytes := default [] (head (mp_datagrams 2 0 (ServerPayload.Frame (mp_update 0 0 97)))).
Definition mp_second : bytes := default [] (head (mp_datagrams 3 1 (ServerPayload.Frame (mp_update 2 1 98)))).

Lemma mp_seals : seals (C:=NullCodec).
Proof.
  intros c sid seq ack p. cbn [seal_client Null_PacketCodec]. unfold Null_seal_client, serialize. by destruct p.
Qed.

Lemma mp_log_inv seq p :
  mp_log !! seq = Some p →
  (seq = 2 ∧ p = ServerPayload.Frame (mp_update 0 0 97)) ∨ (seq = 3 ∧ p = ServerPayload.Frame (mp_update 2 1 98)).
Proof.
  unfold mp_log. destruct (decide (seq = 2)) as [->|]; [rewrite lookup_insert_eq; intros [= <-]; by left|].
  rewrite lookup_insert_ne by done. intros [<- <-]%lookup_singleton_Some. by right.
Qed.

Lemma mp_coherent : coherent mp_log mp_grids.
Proof.
  intros seq u [[-> [= ->]]|[-> [= ->]]]%mp_log_inv; eexists _, _;
    (split; [reflexivity|]); (split; [evaluate|]); (split; [reflexivity|]); vm_compute; reflexivity.
Qed.

Lemma mp_sealed seq ack p b :
  mp_log !! seq = Some p → wf p → u64 seq → u64 ack →
  seal_server mp_codec seq ack p = Ok [b] → sealed_by mp_codec mp_log b.
Proof. intros Hl Hw Hs Ha E. exists seq, ack, p, [b]. split_and!; try done. by left. Qed.

Lemma mp_first_sealed : sealed_by mp_codec mp_log mp_first.
Proof.
  apply (mp_sealed 2 0 (ServerPayload.Frame (mp_update 0 0 97)));
    [reflexivity|evaluate|evaluate|evaluate|vm_compute; reflexivity].
Qed.
Lemma mp_second_sealed : sealed_by mp_codec mp_log mp_second.
Proof.
  apply (mp_sealed 3 1 (ServerPayload.Frame (mp_update 2 1 98)));
    [reflexivity|evaluate|evaluate|evaluate|vm_compute; reflexivity].
Qed.

(** Typing "x", a first frame with acknowledgement 0, typing "y", a tick. *)
Definition mp_events : list client_event :=
  [CStdin [120] (mp_start + from_millis 5); CDatagram mp_first (mp_start + from_millis 20);
   CStdin [121] (mp_start + from_millis 25); CTick [1; 2] (mp_start + from_millis 30)].

Lemma mp_genuine : genuine_run mp_codec mp_log mp_events.
Proof. repeat constructor. apply mp_first_sealed. Qed.

Definition mp_now : Instant := mp_start + from_millis 40.
Definition mp_after : MirrorSession NullCodec := (client_run mp_events mp_session).1.

Lemma client_screen_genuine_witness :
  ∃ s' acts g t, feed_packet mp_second mp_now mp_after = (s', Ok acts) ∧
    ClientAction.Paint ∈ acts ∧ ms_ack_seq_num s' = 3 ∧ mp_grids !! 3 = Some g ∧
    abort_prediction (ms_mirror s') = (t, Ok tt) ∧ shows g (ti_frame t).
Proof.
  destruct (client_screen_genuine mp_codec mp_log mp_grids 12345 mp_codec 2 3 2 false mp_start mp_events
    mp_second mp_now) as (s & r & Er & _ & s' & acts & E & _ & _ & Hp).
  - exact mp_seals.
  - exact mp_coherent.
  - split; [reflexivity|apply buffer_ok_default].
  - evaluate.
  - evaluate.
  - lia.
  - exact mp_genuine.
  - exact mp_second_sealed.
  - assert (s = mp_after) as -> by (unfold mp_after, mp_session; rewrite Er; reflexivity).
    assert (bool_decide (ClientAction.Paint ∈ acts) && bool_decide (ms_ack_seq_num s' = 3) = true) as Hd.
    { assert (match feed_packet mp_second mp_now mp_after with
        | (s', Ok acts) => bool_decide (ClientAction.Paint ∈ acts) && bool_decide (ms_ack_seq_num s' = 3)
        | _ => false end = true) as H by (vm_compute; reflexivity).
      rewrite E in H. exact H. }
    apply andb_true_iff in Hd as [Hin%bool_decide_eq_true_1 H3%bool_decide_eq_true_1].
    destruct (Hp Hin) as (_ & g & t & _ & Hg & Ha & Hs). rewrite H3 in Hg.
    exists s', acts, g, t. split_and!; assumption.
Defined.

(** The frame acknowledged nothing: both packets are still kept. *)
Lemma kept_until_acknowledged_witness :
  ∃ es1 es2 s1 acts1 b, mp_events = es1 ++ es2 ∧ client_run es1 mp_session = (s1, Ok acts1) ∧
    ms_seq_num s1 = 2 ∧ ClientAction.SendPacket b ∈ acts1 ∧
    fst <$> ms_unacked_packets mp_after !! 2 = if decide (Forall (λ a, a < 2) (acks_of es2 s1)) then Some b else None.
Proof.
  destruct (client_run mp_events mp_session) as [s [acts| |]] eqn:E; [|vm_compute in E; discriminate E..].
  assert (mp_after = s) as -> by (unfold mp_after; rewrite E; reflexivity).
  apply (kept_until_acknowledged mp_codec mp_log mp_grids 12345 mp_codec 2 3 2 false mp_start mp_events s acts 2).
  - exact mp_seals.
  - exact mp_coherent.
  - split; [reflexivity|apply buffer_ok_default].
  - evaluate.
  - evaluate.
  - lia.
  - exact mp_genuine.
  - reflexivity.
  - exact E.
  - assert (ms_seq_num (client_run mp_events mp_session).1 = 2) as H by (vm_compute; reflexivity).
    rewrite E in H. cbn in H. rewrite H. lia.
Defined.

(** A second later both are repeated. *)
Lemma retransmission_exact_witness :
  ∃ s' acts, tick_arq [2; 1] (mp_start + from_secs 2) mp_after = (s', Ok acts) ∧ length acts = 2%nat ∧
    (snd <$> ms_unacked_packets s' !! 1) = Some (mp_start + from_secs 2).
Proof.
  destruct (retransmission_exact mp_after [2; 1] (mp_start + from_secs 2)) as (s' & acts & E & Hd).
  - evaluate.
  - rewrite decide_True in Hd by (vm_compute; congruence). destruct Hd as (_ & _ & Hk).
    exists s', acts. split; [exact E|]. split.
    + assert (match (tick_arq [2; 1] (mp_start + from_secs 2) mp_after).2 with Ok a => length a | _ => O end = 2%nat)
        as H by (vm_compute; reflexivity).
      rewrite E in H. exact H.
    + rewrite Hk. vm_compute. reflexivity.
Defined.

Lemma mp_after_ok : mirror_ok (ms_mirror mp_after).
Proof.
  destruct (client_run_safe mp_seals mp_codec mp_log mp_grids mp_coherent mp_events mp_genuine mp_session) as [[[] _] _];
    [|assumption].
  apply new_in_sync; [split; [reflexivity|apply buffer_ok_default]|evaluate|evaluate|lia].
Qed.

(** "~" is plain text away from the start of a line. *)
Lemma stdin_forwarded_witness :
  ∃ s' b, feed_stdin [97; 126; 98] mp_now mp_after = (s', Ok [ClientAction.Paint; ClientAction.SendPacket b]) ∧
    ms_seq_num s' = 3 ∧ ms_unacked_packets s' = <[3 := (b, mp_now)]> (ms_unacked_packets mp_after).
Proof.
  destruct (seal_client mp_codec 12345 3 2 (ClientPayload.Keystrokes [97; 126; 98])) as [b| |] eqn:Eb;
    [|vm_compute in Eb; discriminate Eb..].
  destruct (stdin_forwarded mp_after [97; 126; 98] mp_now b) as (s' & E & Hs & Hu & _).
  - exact mp_after_ok.
  - evaluate.
  - vm_compute. reflexivity.
  - vm_compute. discriminate.
  - rewrite <-Eb. vm_compute. reflexivity.
  - exists s', b. split; [|split].
    + etransitivity; [exact E|]. vm_compute. reflexivity.
    + rewrite Hs. vm_compute. reflexivity.
    + etransitivity; [exact Hu|]. vm_compute. reflexivity.
Defined.

(** "ls", return, "~.". *)
Lemma stdin_disconnect_discards_witness :
  ∃ s' acts, feed_stdin [108; 115; 13; 126; 46] mp_now mp_after = (s', Ok (acts ++ [ClientAction.Disconnect])) ∧
    sends acts = [] ∧ ms_seq_num s' = 2.
Proof.
  destruct (stdin_disconnect_discards mp_after [108; 115; 13; 126; 46] mp_now) as (s' & acts & E & Hs & Hn & _).
  - evaluate.
  - exists s', acts. split; [exact E|]. split; [exact Hs|]. rewrite Hn. vm_compute. reflexivity.
Defined.

(** The second frame reaches a session that missed the first. *)
Lemma missing_ref_acknowledged_witness :
  ∃ s' n, feed_packet mp_second mp_now mp_session = (s', Ok (ClientAction.SendPacket <$>
      option_list (ok (seal_client mp_codec 12345 n 3 ClientPayload.Ack)))) ∧
    ms_state_history s' = [] ∧ ms_ack_seq_num s' = 3.
Proof.
  destruct (open_server mp_second (ms_codec mp_session)) as [c1 [[[[pkt p] st]|]| |]] eqn:E;
    [|vm_compute in E; discriminate E..].
  assert (c1 = mp_codec ∧ es_seq_num pkt = 3 ∧ p = ServerPayload.Frame (mp_update 2 1 98)) as (-> & Hs & ->).
  { vm_compute in E. injection E as <- <- <- _. split_and!; reflexivity. }
  destruct (missing_ref_acknowledged mp_session mp_second mp_now mp_codec pkt (mp_update 2 1 98) st)
    as (s' & n & Ef & Hh & Ha).
  - exact mp_seals.
  - assert (in_sync mp_codec mp_log mp_grids mp_session) as [[] _]; [|assumption].
    apply new_in_sync; [split; [reflexivity|apply buffer_ok_default]|evaluate|evaluate|lia].
  - exact E.
  - rewrite Hs. reflexivity.
  - discriminate.
  - apply not_elem_of_nil.
  - exists s', n. rewrite Hs in Ef, Ha. split; [exact Ef|]. split; [exact Hh|exact Ha].
Defined.
End demo.
