(* ===== verification/ServerLog.v ===== *)
(** * What the server puts on the network

    A log of the payloads the server's session seals under each sequence number and of the screens
    its frames carry, kept along any run: every datagram handed to the network is logged, and every
    frame turns the state it refers to into the screen logged under its number. *)

From S2P Require Import Prelude Utf8 Grid Protocol Crypto Codec CodecFacts CodecProps.
From S2P Require Import Frame Echo Terminal MirrorFacts.
From S2P Require Import TermState Pty ServerSession ServerFacts ServerProps.

(** ** The frames of well-formed screens *)

(** A screen the protocol can carry: shown by the client's terminal, of at most 65536 cells. *)
Definition sendable (g : GridState) : Prop :=
  grid_ok g ∧ addressable g ∧ Forall cell_wf (gs_cells g).
#[export] Instance sendable_dec g : Decision (sendable g).
Proof. unfold sendable, addressable. apply _. Defined.

Lemma frame_of_wf base self ref_seq echo :
  grid_ok self → Forall cell_wf (gs_cells self) → u64 ref_seq →
  wf (ServerPayload.Frame (frame_of base self ref_seq echo)).
Proof.
  intros ((Hc & Hr & _) & _ & Hx & Hy) Hcells Hs. unfold wf, server_payload_wf, frame_update_wf, frame_of.
  cbn. split_and!; [done..|]. apply Forall_forall. intros r (y & Hy' & Hrow)%list_elem_of_omap.
  apply elem_of_range in Hy'. apply row_diff_Some in Hrow as [<- Hrow]. unfold row_update_wf. rewrite Hrow.
  split; [unfold fits in *; lia|]. apply Forall_forall. intros u (x & Hx' & Hu)%list_elem_of_omap.
  apply elem_of_range in Hx'. apply cell_diff_Some in Hu as (a & -> & Ha & _).
  split; cbn; [unfold fits in *; lia|]. by eapply Forall_lookup_1.
Qed.

Section log.
Context {P C T R : Type} `{PtyBackend P, PacketCodecLaws C, VtLaws T R}.
Abbreviation Session := (AuthoritativeSession P C T R) (only parsing).
Abbreviation Action := (SessionAction C) (only parsing).
Abbreviation Log := (gmap Z ServerPayload) (only parsing).
Abbreviation Screens := (gmap Z GridState) (only parsing).
Implicit Types (s : Session) (L : Log) (grids : Screens).

(** ** The log of an action *)

Definition job_of (a : Action) : option (UpdateJob C) :=
  match a with OffloadDiffJob job _ => Some job | _ => None end.
Definition jobs (acts : list Action) : list (UpdateJob C) := omap job_of acts.

(** Every frame queued carries a screen the protocol can carry, in fewer than 2^16 datagrams. *)
Definition brief (job : UpdateJob C) : Prop :=
  match UpdateJob_run job with Ok bss => len bss < 2 ^ 16 | _ => True end.
#[export] Instance brief_dec job : Decision (brief job).
Proof. unfold brief. destruct (UpdateJob_run job); apply _. Defined.
Definition carried (acts : list Action) : Prop :=
  Forall (λ job, sendable (uj_current_state job) ∧ brief job) (jobs acts).

(** The frame a job compiles to. *)
Definition compiled (c : C) L (job : UpdateJob C) : Prop :=
  ∃ d, L !! uj_seq job = Some (ServerPayload.Frame d) ∧ wf (ServerPayload.Frame d) ∧
    u64 (uj_seq job) ∧ u64 (uj_ack_seq job) ∧ brief job ∧
    UpdateJob_run job = seal_server c (uj_seq job) (uj_ack_seq job) (ServerPayload.Frame d).

Definition act_logged (c : C) L (a : Action) : Prop :=
  match a with
  | SendPacket b _ => sealed_by c L b
  | OffloadDiffJob job _ => compiled c L job
  | ResendFragments _ _ _ | Shutdown => True
  end.

Lemma act_logged_mono c L L' a : L ⊆ L' → act_logged c L a → act_logged c L' a.
Proof.
  intros HL. destruct a as [b t|job t| |]; cbn; [by apply sealed_by_mono| |done..].
  intros (d & Hd & ?). exists d. split; [by eapply lookup_weaken|done].
Qed.

Lemma jobs_send_all bss target : jobs (send_all bss target) = [].
Proof. by induction bss. Qed.

(** What a job produces is sealed. *)
Lemma compiled_sealed c L job bss :
  compiled c L job → UpdateJob_run job = Ok bss → Forall (sealed_by c L) bss.
Proof.
  intros (d & Hd & Hw & Hs & Ha & Hb & Hrun) E. unfold brief in Hb. rewrite E in *.
  apply Forall_forall. intros b Hin. exists (uj_seq job), (uj_ack_seq job), (ServerPayload.Frame d), bss. done.
Qed.

Lemma jobs_app a b : jobs (a ++ b) = jobs a ++ jobs b.
Proof. apply omap_app. Qed.

(** The screen of a queued frame, and the frame itself, which names the job's reference. *)
Definition job_logged L grids (job : UpdateJob C) : Prop :=
  grids !! uj_seq job = Some (uj_current_state job) ∧
  ∃ u, L !! uj_seq job = Some (ServerPayload.Frame u) ∧ fu_ref_seq u = uj_ref_seq job.

(** The log and the screens grow by what the actions carry. *)
Record grows (acts : list Action) L grids L' grids' : Prop := {
  gr_log : L ⊆ L';
  gr_screens : grids ⊆ grids';
  gr_new k g : grids' !! k = Some g → grids !! k = Some g ∨
    ∃ job, job ∈ jobs acts ∧ uj_seq job = k ∧ uj_current_state job = g;
  gr_jobs : Forall (job_logged L' grids') (jobs acts);
}.

Lemma job_logged_mono L L' grids grids' job :
  L ⊆ L' → grids ⊆ grids' → job_logged L grids job → job_logged L' grids' job.
Proof.
  intros HL Hg [Hs (u & Hu & ?)]. split; [by eapply lookup_weaken|]. exists u. split; [by eapply lookup_weaken|done].
Qed.

(** Actions without a frame. *)
Lemma grows_quiet acts L grids L' : jobs acts = [] → L ⊆ L' → grows acts L grids L' grids.
Proof. intros E HL. split; [done|done|auto|by rewrite E]. Qed.
Lemma grows_refl L grids : grows [] L grids L grids.
Proof. by apply grows_quiet. Qed.

Lemma grows_trans a b L grids L1 grids1 L2 grids2 :
  grows a L grids L1 grids1 → grows b L1 grids1 L2 grids2 → grows (a ++ b) L grids L2 grids2.
Proof.
  intros [] []. split; [by etransitivity|by etransitivity| |].
  - intros k g Hg. rewrite jobs_app. setoid_rewrite elem_of_app.
    destruct (gr_new1 k g Hg) as [Hg1|(job & ? & ?)]; [|right; exists job; tauto].
    destruct (gr_new0 k g Hg1) as [?|(job & ? & ?)]; [by left|]. right. exists job. tauto.
  - rewrite jobs_app. apply Forall_app. split; [|done].
    eapply Forall_impl; [exact gr_jobs0|]. intros job. by apply job_logged_mono.
Qed.

(** ** The invariants *)

(** What keeps the session running whatever it receives. *)
Record healthy (c : C) s : Prop := {
  he_codec : as_codec s = c;
  he_mirrors : mirrors (as_term_state s);
  he_sid : u64 (as_session_id s);
  he_ack : u64 (as_ack_seq_num s);
  he_seq : 0 ≤ as_seq_num s;
  he_buffered : map_Forall (λ _ p, wf p ∧ is_handshake p = false) (as_out_of_order_packets s);
}.

Record logged L grids s : Prop := {
  lg_fresh k : as_seq_num s < k → L !! k = None ∧ grids !! k = None;
  lg_numbers k p : L !! k = Some p → 0 < k;
  lg_coherent : coherent L grids;
  lg_screens k g : grids !! k = Some g → sendable g ∧ 0 < k;
  lg_frames k g : grids !! k = Some g → ∃ u, L !! k = Some (ServerPayload.Frame u);
  lg_history : Forall (λ e, grids !! e.1 = Some e.2) (as_state_history s);
}.

(** The numbers of the log. *)
Lemma logged_u64 L grids s k p : logged L grids s → as_seq_num s < 2 ^ 64 → L !! k = Some p → u64 k.
Proof.
  intros [] Hs Hk. split; [by apply Z.lt_le_incl, (lg_numbers0 k p)|].
  apply Z.le_lt_trans with (as_seq_num s); [|done]. apply Z.nlt_ge. intros Hlt.
  destruct (lg_fresh0 k Hlt). congruence.
Qed.

(** The numbers a session may still use up for what it holds. *)
Definition load s : Z := as_seq_num s + Z.of_nat (size (as_out_of_order_packets s)).

(** A part of the session that keeps the log, and uses up at most [n] numbers. *)
Definition keeps_log (c : C) (n : Z) (m : M Session (list Action)) : Prop :=
  ∀ s, healthy c s → load s + n < 2 ^ 64 →
  ∃ s' acts, runs m s s' acts ∧ healthy c s' ∧ load s' ≤ load s + n ∧
    ∀ L grids, logged L grids s → carried acts →
    ∃ L' grids', grows acts L grids L' grids' ∧ logged L' grids' s' ∧ Forall (act_logged c L') acts.

(** Combining parts. *)
Lemma keeps_log_nil c m : (∀ s, ∃ s', runs m s s' ([] : list Action) ∧ (healthy c s → healthy c s') ∧
    load s' ≤ load s ∧ ∀ L grids, logged L grids s → logged L grids s') → keeps_log c 0 m.
Proof.
  intros Hm s Hs Hl. destruct (Hm s) as (s' & E & Hs' & Hl' & Hlog). exists s', []. split; [done|].
  split; [auto|]. split; [lia|]. intros L grids HL _. exists L, grids. split; [apply grows_refl|].
  split; [auto|]. constructor.
Qed.

Lemma keeps_log_app c n1 n2 (m1 m2 : M Session (list Action)) :
  0 ≤ n1 → 0 ≤ n2 → keeps_log c n1 m1 → keeps_log c n2 m2 →
  keeps_log c (n1 + n2) (a ← m1; more ← m2; mret (a ++ more)).
Proof.
  intros ?? Hm1 Hm2 s Hs Hl. destruct (Hm1 s Hs ltac:(lia)) as (s1 & a1 & E1 & Hs1 & Hl1 & Hlog1).
  destruct (Hm2 s1 Hs1 ltac:(lia)) as (s2 & a2 & E2 & Hs2 & Hl2 & Hlog2).
  exists s2, (a1 ++ a2). split; [eapply runs_bind; [exact E1|]; eapply runs_bind; [exact E2|apply runs_ret]|].
  split; [done|]. split; [lia|]. intros L grids HL Hc. unfold carried in Hc. rewrite jobs_app in Hc.
  apply Forall_app in Hc as [Hc1 Hc2].
  destruct (Hlog1 L grids HL Hc1) as (L1 & g1 & G1 & HL1 & A1).
  destruct (Hlog2 L1 g1 HL1 Hc2) as (L2 & g2 & G2 & HL2 & A2).
  exists L2, g2. split; [by eapply grows_trans|]. split; [done|]. apply Forall_app. split; [|done].
  eapply Forall_impl; [exact A1|]. intros a. apply act_logged_mono, G2.
Qed.

Lemma keeps_log_weaken c n1 n2 m : n1 ≤ n2 → keeps_log c n1 m → keeps_log c n2 m.
Proof.
  intros Hn Hm s Hs Hl. destruct (Hm s Hs ltac:(lia)) as (s' & acts & E & Hs' & Hl' & Hlog).
  exists s', acts. split; [done|]. split; [done|]. split; [lia|done].
Qed.

(** A state update first. *)
Lemma keeps_log_modify c n (f : Session → Session) (m : M Session (list Action)) s :
  (healthy c s → healthy c (f s)) → load (f s) ≤ load s → (∀ L grids, logged L grids s → logged L grids (f s)) →
  keeps_log c n m → healthy c s → load s + n < 2 ^ 64 →
  ∃ s' acts, runs (modify f ;; m) s s' acts ∧ healthy c s' ∧ load s' ≤ load s + n ∧
    ∀ L grids, logged L grids s → carried acts →
    ∃ L' grids', grows acts L grids L' grids' ∧ logged L' grids' s' ∧ Forall (act_logged c L') acts.
Proof.
  intros Hf Hl Hg Hm Hs Hn. destruct (Hm (f s) (Hf Hs) ltac:(lia)) as (s' & acts & E & Hs' & Hl' & Hlog).
  exists s', acts. split; [eapply runs_bind; [apply runs_modify|exact E]|]. split; [done|]. split; [lia|]. eauto.
Qed.

(** ** The environment *)

Context (c : C).
Context (Hcalm : calm (P:=P) (C:=C)).
Hypothesis Hanswers : answers c.

(** An answer other than a frame takes at least one datagram and fewer than 2^16. *)
Definition short : Prop := ∀ seq ack p bss, wf p →
  match p with
  | ServerPayload.Frame _ => True
  | _ => seal_server c seq ack p = Ok bss → 0 < len bss < 2 ^ 16
  end.
Hypothesis Hshort : short.

(** ** Answers *)

Lemma coherent_insert L grids k p :
  L !! k = None → (∀ u, p ≠ ServerPayload.Frame u) → coherent L grids → coherent (<[k := p]> L) grids.
Proof.
  intros Hk Hp Hcoh seq u [[-> ->]|[_ Hu]]%lookup_insert_Some; [by destruct (Hp u)|]. by apply Hcoh.
Qed.

Lemma seal_answer_log ack p s :
  (∀ u, p ≠ ServerPayload.Frame u) → wf p → u64 ack → healthy c s → load s + 1 < 2 ^ 64 →
  ∃ s' bss, runs (seal ack p) s s' bss ∧ s' = s <| as_seq_num := as_seq_num s + 1 |> ∧ healthy c s' ∧ bss ≠ [] ∧
    ∀ target L grids, logged L grids s →
    ∃ L', grows [] L grids L' grids ∧ logged L' grids s' ∧ Forall (act_logged c L') (send_all bss target).
Proof.
  intros Hp Hw Ha [] Hl. unfold load in Hl. set (n := as_seq_num s + 1).
  assert (is_ok (seal_server c n ack p) = true) as Hok.
  { specialize (Hanswers n ack p Hw). destruct p as [|u| |]; [done|by destruct (Hp u)|done..]. }
  destruct (seal_server c n ack p) as [bss| |] eqn:E; [|done..].
  assert (0 < len bss < 2 ^ 16) as Hlen by (specialize (Hshort n ack p bss Hw); destruct p as [|u| |]; [auto|by destruct (Hp u)|auto..]).
  exists (s <| as_seq_num := n |>), bss. split.
  { unfold runs, seal, mbind, M_bind, modify, get, lift. cbn.
    rewrite (wrap_small 64) by (unfold fits; lia). fold n. by rewrite he_codec0, E. }
  split; [done|]. split; [split; try done; cbn; unfold n; lia|]. split; [intros ->; by destruct Hlen|]. intros target L grids [].
  exists (<[n := p]> L). destruct (lg_fresh0 n) as [Hn Hng]; [unfold n; lia|]. split; [|split].
  - apply grows_quiet; [done|by apply insert_subseteq].
  - split; [| |by apply coherent_insert|done| |done].
    2: { intros k q [[<- _]|[_ Hq]]%lookup_insert_Some; [unfold n; lia|by eapply lg_numbers0]. }
    2: { intros k g Hk. destruct (lg_frames0 k g Hk) as [u Hu]. exists u. rewrite lookup_insert_ne; [done|]. congruence. }
    intros k Hk. cbn in Hk. destruct (lg_fresh0 k) as [? ?]; [lia|].
    by rewrite lookup_insert_ne by lia.
  - apply Forall_fmap, Forall_forall. intros b Hb. cbn. exists n, ack, p, bss.
    split; [apply lookup_insert_eq|]. split; [done|]. split; [unfold fits, n; lia|]. by destruct Hlen.
Qed.

(** ** Frames *)

Lemma queued_number s s' now g job :
  healthy c s → load s + 1 < 2 ^ 64 → queued s s' now g job →
  as_seq_num s +₆₄ 1 = as_seq_num s + 1 ∧ 0 ≤ as_seq_num s ∧ as_seq_num s + 1 < 2 ^ 64.
Proof.
  intros [] Hl _. unfold load in Hl. split_and!; [apply wrap_small; unfold fits|..]; lia.
Qed.

(** A job's reference is a state of the log, or there is none. *)
Lemma queued_reference s s' now g job L grids :
  0 ≤ as_seq_num s → queued s s' now g job → logged L grids s →
  (∀ r, uj_ref_state job = Some r → grids !! uj_ref_seq job = Some r ∧ grid_wf r) ∧
  0 ≤ uj_ref_seq job ≤ as_seq_num s ∧ (uj_ref_seq job = 0 ↔ uj_ref_state job = None).
Proof.
  intros Hn0 [_ _ _ _ _ _ _ Href _ _ _ _ _] []. destruct Href as [[-> ->]|(r & -> & -> & Hin & _)].
  { split; [done|]. split; [lia|done]. }
  rewrite Forall_forall in lg_history0. pose proof (lg_history0 _ Hin) as Hlk. cbn in Hlk.
  destruct (lg_screens0 _ _ Hlk) as [(Hwf & _) Hpos]. split; [intros ? [= <-]; split; [done|apply Hwf]|].
  split; [|split; [lia|done]]. split; [lia|]. apply Z.nlt_ge. intros Hlt.
  destruct (lg_fresh0 _ Hlt) as [_ Hx]. congruence.
Qed.

(** The update a job computes turns a state of the log into the screen. *)
Lemma queued_patch s s' now g job L grids :
  healthy c s → load s + 1 < 2 ^ 64 → queued s s' now g job → logged L grids s → sendable g →
  ∃ d base, diff_from g (uj_ref_state job) (uj_ref_seq job) (uj_is_echo_recommended job) = Ok d ∧
    d = frame_of (Grid.base_of g (uj_ref_state job)) g (uj_ref_seq job) (uj_is_echo_recommended job) ∧
    wf (ServerPayload.Frame d) ∧ MirrorFacts.base_of grids d = Some base ∧ patch d base = (g, Ok tt).
Proof.
  intros Hs Hl Q Hlog (Hg & Haddr & Hcells).
  destruct (queued_number s s' now g job Hs Hl Q) as (_ & Hn0 & Hn).
  destruct (queued_reference s s' now g job L grids Hn0 Q Hlog) as (Hr & Hrn & Hr0).
  set (base := match uj_ref_state job with Some r => r | None => blank_grid (gs_cols g) (gs_rows g) end).
  assert (grid_wf base) as Hb.
  { unfold base. destruct (uj_ref_state job) as [r|]; [by apply (Hr r)|]. apply blank_grid_wf; apply (qd_wf _ _ _ _ _ Q). }
  destruct (diff_patch g (uj_ref_state job) (uj_ref_seq job) (uj_is_echo_recommended job) base)
    as (d & Hd & Hp); [apply Hg|done|done| |].
  { unfold base. destruct (uj_ref_state job); [by left|right]. split; [done|by left]. }
  pose proof Hd as Hd'. rewrite diff_from_ok in Hd'; [|apply Hg|intros r Er; apply (Hr r Er)|done].
  injection Hd' as <-. eexists _, base. split; [done|]. split; [done|]. split.
  { apply frame_of_wf; [done|done|]. unfold fits. lia. }
  split; [|done]. unfold MirrorFacts.base_of. cbn [fu_ref_seq fu_cols fu_rows frame_of]. case_decide as Hz.
  - apply Hr0 in Hz. unfold base. by rewrite Hz.
  - unfold base. destruct (uj_ref_state job) as [r|] eqn:Er; [by apply Hr|]. by destruct Hz; apply Hr0.
Qed.

(** A log with the next frame is a log. *)
Lemma logged_frame s s' L grids d g base j :
  let n := as_seq_num s + 1 in
  logged L grids s → 0 ≤ as_seq_num s → sendable g →
  MirrorFacts.base_of grids d = Some base → patch d base = (g, Ok tt) →
  as_seq_num s' = n → as_state_history s' = drop j (as_state_history s) ++ [(n, g)] →
  logged (<[n := ServerPayload.Frame d]> L) (<[n := g]> grids) s'.
Proof.
  intros n [] Hn0 Hg Hbase Hp Hseq Hh. destruct (lg_fresh0 n) as [HnL Hng]; [unfold n; lia|].
  assert (grids ⊆ <[n := g]> grids) as Hsub by (by apply insert_subseteq).
  split.
  - intros k Hk. rewrite Hseq in Hk. rewrite !lookup_insert_ne by lia. apply lg_fresh0. unfold n in Hk. lia.
  - intros k q [[<- _]|[_ Hq]]%lookup_insert_Some; [unfold n; lia|by eapply lg_numbers0].
  - intros seq u [[<- [= <-]]|[Hne Hu]]%lookup_insert_Some.
    + exists g, base. rewrite lookup_insert_eq. split; [done|]. split; [apply Hg|].
      split; [|done]. by eapply base_of_mono.
    + destruct (lg_coherent0 seq u Hu) as (g' & base' & Hg' & Hok & Hb & Hpt). exists g', base'.
      rewrite lookup_insert_ne by done. split; [done|]. split; [done|]. split; [|done]. by eapply base_of_mono.
  - intros k g' [[<- <-]|[_ Hk]]%lookup_insert_Some; [|by eapply lg_screens0]. split; [done|]. unfold n. lia.
  - intros k g' [[<- _]|[Hne Hk]]%lookup_insert_Some; [exists d; apply lookup_insert_eq|].
    rewrite lookup_insert_ne by done. by eapply lg_frames0.
  - rewrite Hh. apply Forall_app. split.
    + apply Forall_drop. eapply Forall_impl; [exact lg_history0|]. intros [k g'] Hk. by eapply lookup_weaken.
    + constructor; [|done]. cbn. apply lookup_insert_eq.
Qed.

Lemma queued_log s s' now g job target :
  healthy c s → load s + 1 < 2 ^ 64 → queued s s' now g job → ∀ L grids, logged L grids s → sendable g → brief job →
  ∃ L' grids', grows [OffloadDiffJob job target] L grids L' grids' ∧ logged L' grids' s' ∧
    Forall (act_logged c L') [OffloadDiffJob job target].
Proof.
  intros Hs Hl Q L grids Hlog Hg Hbrief.
  destruct (queued_number s s' now g job Hs Hl Q) as (En & Hn0 & Hn).
  destruct (queued_patch s s' now g job L grids Hs Hl Q Hlog Hg) as (d & base & Hd & Ed & Hdw & Hbase & Hp).
  destruct Q as [_ _ Hseq Hjs Hja Hjg Hjc _ [j Hh] _ _ _ _]. rewrite En in *.
  set (n := as_seq_num s + 1) in *. destruct (lg_fresh _ _ _ Hlog n) as [HnL Hng]; [unfold n; lia|].
  exists (<[n := ServerPayload.Frame d]> L), (<[n := g]> grids). split; [|split].
  - split; [by apply insert_subseteq|by apply insert_subseteq| |].
    + intros k g' [[<- <-]|[_ Hk]]%lookup_insert_Some; [right|by left]. exists job. split; [by left|done].
    + constructor; [|constructor]. split; rewrite Hjs, lookup_insert_eq; [by rewrite Hjg|]. exists d. by rewrite Ed.
  - by eapply logged_frame.
  - constructor; [|done]. cbn. exists d. destruct Hs. rewrite Hjs, lookup_insert_eq. split; [done|]. split; [done|].
    split; [unfold fits, n; lia|]. split; [by rewrite Hja|]. split; [done|]. unfold UpdateJob_run. rewrite Hjg, Hd. cbn.
    by rewrite Hjc, he_codec0, Hjs.
Qed.

Lemma check_sync_log now : keeps_log c 1 (check_sync now).
Proof.
  intros s Hs Hl. destruct (check_sync_run Hcalm now s (he_mirrors _ _ Hs))
    as (s' & acts & E & Y & Hm & Hcase). exists s', acts. split; [done|]. pose proof Hs as [].
  destruct Y as [Y1 Y2 Y3 Y4 Y5 _ _ _ _ _].
  assert (as_seq_num s ≤ as_seq_num s' ≤ as_seq_num s + 1) as Hseq.
  { destruct Hcase as [(_ & [Q _ _ _] & _)|(_ & _ & g & job & _ & Q & _)]; [lia|].
    rewrite (qd_seq _ _ _ _ _ Q), (wrap_small 64) by (unfold fits, load in *; lia). lia. }
  split; [split; [congruence|done|congruence|congruence|lia|by rewrite Y4]|].
  split; [unfold load; rewrite Y4; lia|]. intros L grids HL Hc.
  destruct Hcase as [(-> & [Q1 Q2 _ _] & _)|(_ & _ & g & job & -> & Q & _)].
  - exists L, grids. split; [apply grows_refl|]. split; [|constructor]. destruct HL. split; rewrite ?Q1, ?Q2; done.
  - apply Forall_cons in Hc as [[Hg Hb] _]. rewrite (qd_job_state _ _ _ _ _ Q) in Hg. by eapply queued_log.
Qed.

(** ** The client's packets *)

(** [logged] only looks at the numbering and the history. *)
Lemma logged_same L grids s s' :
  as_seq_num s' = as_seq_num s → as_state_history s' = as_state_history s → logged L grids s → logged L grids s'.
Proof. intros E1 E2 []. split; rewrite ?E1, ?E2; done. Qed.

Lemma healthy_processed s s' :
  processed s s' → mirrors (as_term_state s') → 0 ≤ as_seq_num s' → healthy c s → healthy c s'.
Proof.
  intros Hpr ? ? []. split; rewrite ?(pr_codec _ _ Hpr), ?(pr_session_id _ _ Hpr), ?(pr_ack _ _ Hpr),
    ?(pr_buffered _ _ Hpr); done.
Qed.

Lemma process_payload_log p : wf p → is_handshake p = false → keeps_log c 1 (process_payload p).
Proof.
  intros Hw Hh s Hs Hl.
  destruct (process_payload_run Hcalm p s) as (s' & acts & E & Hpr & Hm & _ & Hn);
    [apply Hs|by rewrite (he_codec _ _ Hs)|done|done|].
  exists s', acts. split; [done|]. pose proof Hs as [].
  assert (as_seq_num s ≤ as_seq_num s' ≤ as_seq_num s + 1) as Hseq.
  { pose proof (wrap_small 64 (as_seq_num s + 1)) as Hw1. unfold fits, load in *.
    destruct p; destruct Hn as [-> _]; lia. }
  split; [apply (healthy_processed s); [done|done|lia|done]|].
  split; [unfold load; rewrite (pr_buffered _ _ Hpr); lia|]. intros L grids HL _.
  destruct p as [v cols rows|keys|cols rows| | |fs mask]; destruct Hn as [Hsq Ha].
  4: { destruct Ha as (bss & Eb & ->).
       destruct (seal_answer_log (as_ack_seq_num s) ServerPayload.KeepAlive s) as (s2 & bss2 & E2 & -> & _ & _ & Hlog);
         [done|done|done|done|done|].
       destruct (Hlog (as_current_client_addr s) L grids HL) as (L' & G & HL' & A).
       unfold runs, seal, mbind, M_bind, modify, get, lift in E2. cbn in E2. rewrite Eb in E2. injection E2 as _ <-.
       exists L', grids. split; [apply grows_quiet; [|apply G]|].
       { apply jobs_send_all. }
       split; [|done]. eapply logged_same; [..|exact HL']; [|apply Hpr]. rewrite Hsq. cbn. apply wrap_small. unfold fits, load in *. lia. }
  all: rewrite Ha; exists L, grids; split; [by apply grows_quiet|];
    (split; [eapply logged_same; [exact Hsq|apply Hpr|done]|by repeat constructor]).
Qed.

Lemma process_all_log l :
  Forall (λ p, wf p ∧ is_handshake p = false) l.*2 → keeps_log c (len l) (process_all l).
Proof.
  induction l as [|[k p] l IH]; cbn [process_all fmap list_fmap snd]; intros Hl.
  { apply keeps_log_nil. intros s. exists s. split; [apply runs_ret|]. split; [done|]. split; [lia|auto]. }
  apply Forall_cons in Hl as [[Hw Hh] Hl]. replace (len ((k, p) :: l)) with (1 + len l) by (unfold len; cbn; lia).
  apply keeps_log_app; [lia|apply len_nonneg|by apply process_payload_log|by apply IH].
Qed.

(** What the reordering buffer gives out. *)
Lemma recover_out fuel expected buffered l e' buffered' (Q : ClientPayload → Prop) :
  map_Forall (λ _, Q) buffered → recover fuel expected buffered = (l, e', buffered') →
  Forall Q l.*2 ∧ map_Forall (λ _, Q) buffered' ∧ (length l + size buffered' = size buffered)%nat.
Proof.
  revert expected buffered l e' buffered'.
  induction fuel as [|fuel IH]; intros expected buffered l e' buffered' HQ Hr; cbn in Hr.
  { injection Hr as <- <- <-. done. }
  destruct (buffered !! expected) as [p|] eqn:E.
  2: { injection Hr as <- <- <-. by rewrite delete_id. }
  destruct (recover fuel _ _) as [[l1 e1] b1] eqn:E1. injection Hr as <- <- <-.
  destruct (IH _ _ _ _ _ (map_Forall_delete _ _ expected HQ) E1) as (Hl & Hb & Hsz).
  split; [constructor; [by eapply HQ|done]|]. split; [done|]. cbn.
  rewrite map_size_delete, E in Hsz. cbn in Hsz.
  assert (size buffered ≠ 0%nat) by (intros ?%map_size_empty_inv; by simplify_map_eq). lia.
Qed.

Lemma feed_transient_log ack p now : keeps_log c 1 (feed_transient ack p now).
Proof.
  intros s Hs Hl. unfold feed_transient.
  set (f := λ self : Session, if decide (as_client_ack_seq self < ack) then self <| as_client_ack_seq := ack |> else self).
  apply (keeps_log_modify c 1 f); [..|done|done].
  - intros []. unfold f. case_decide; by split.
  - unfold f. case_decide; done.
  - intros L grids. apply logged_same; unfold f; by case_decide.
  - clear s Hs Hl. intros s Hs Hl. destruct (check_sync_log now s Hs Hl) as (s' & acts & E & Hs' & Hl' & Hlog).
    eexists s', _. split; [eapply runs_bind; [apply runs_get|]; eapply runs_bind; [exact E|apply runs_ret]|].
    split; [done|]. split; [done|]. intros L grids HL Hc. unfold carried in Hc. rewrite jobs_app in Hc.
    apply Forall_app in Hc as [_ Hc]. destruct (Hlog L grids HL Hc) as (L' & g' & G & HL' & A).
    exists L', g'. split; [|split; [done|]].
    + eapply (grows_trans _ _ L grids L grids); [apply grows_quiet; [by destruct p|done]|done].
    + apply Forall_app. split; [destruct p; by repeat constructor|done].
Qed.

Lemma order_packet_log k p s :
  wf p → is_handshake p = false → healthy c s →
  ∃ s' l, runs (order_packet k p) s s' l ∧ healthy c s' ∧ load s' + len l ≤ load s + 1 ∧
    Forall (λ p, wf p ∧ is_handshake p = false) l.*2 ∧ ∀ L grids, logged L grids s → logged L grids s'.
Proof.
  intros Hw Hh []. unfold order_packet. destruct (decide (k < as_expected_client_seq s)) as [Hlt|Hge].
  { exists s, []. split; [mstep; rewrite decide_True by done; apply runs_ret|].
    split; [done|]. split; [unfold len; cbn; lia|]. split; [constructor|auto]. }
  destruct (decide (as_expected_client_seq s < k)) as [Hgt|Hle].
  { exists (s <| as_out_of_order_packets ::= <[k := p]> |>), []. split.
    { mstep. rewrite decide_False, decide_True by done. mstep. apply runs_ret. }
    split; [split; try done; cbn; by apply map_Forall_insert_2|]. split.
    { unfold load, len. cbn. rewrite map_size_insert. case_match; cbn; lia. }
    split; [constructor|]. intros L grids. by apply logged_same. }
  destruct (recover (size (as_out_of_order_packets s)) (as_expected_client_seq s +₆₄ 1) (as_out_of_order_packets s))
    as [[l e'] b'] eqn:Er.
  destruct (recover_out _ _ _ _ _ _ _ he_buffered0 Er) as (Hl & Hb & Hsz).
  exists (s <| as_expected_client_seq := e' |> <| as_out_of_order_packets := b' |>), ((k, p) :: l). split.
  { mstep. rewrite !decide_False by done. rewrite Er. mstep. apply runs_ret. }
  split; [by split|]. split; [unfold load, len; cbn; lia|]. split; [by constructor|].
  intros L grids. by apply logged_same.
Qed.

Lemma feed_reliable_log k ack p now :
  wf p → is_handshake p = false → keeps_log c 2 (feed_reliable k ack p now).
Proof.
  intros Hw Hh s Hs Hl. unfold feed_reliable.
  destruct (order_packet_log k p s Hw Hh Hs) as (s1 & l & E1 & Hs1 & Hl1 & Hlw & Hlog1).
  destruct (decide (l = [])) as [->|Hne].
  { exists s1, []. split; [eapply runs_bind; [exact E1|]; rewrite decide_True by done; apply runs_ret|].
    split; [done|]. split; [unfold len in Hl1; cbn in Hl1; lia|]. intros L grids HL _. exists L, grids.
    split; [apply grows_refl|]. split; [auto|constructor]. }
  set (f := λ self : Session, self <| as_ack_seq_num := as_expected_client_seq self -₆₄ 1 |> <| as_client_ack_seq := ack |>).
  destruct (keeps_log_modify c (len l + 1) f
    (a ← process_all l; more ← check_sync now; mret (a ++ more)) s1) as (s2 & acts & E2 & Hs2 & Hl2 & Hlog2).
  - intros []. split; try done. cbn. by apply wrap_fits.
  - done.
  - intros L grids. by apply logged_same.
  - apply keeps_log_app; [apply len_nonneg|lia|by apply process_all_log|apply check_sync_log].
  - done.
  - lia.
  - exists s2, acts. split; [eapply runs_bind; [exact E1|]; rewrite decide_False by done; exact E2|].
    split; [done|]. split; [lia|]. auto.
Qed.

Lemma feed_handshake_log wire src now :
  u64 (ec_seq_num wire) → keeps_log c 2 (feed_handshake wire src now).
Proof.
  intros Hu s Hs Hl. unfold feed_handshake.
  destruct (decide (0 < as_seq_num s ∧ duration_since now (as_last_recv_time s) < from_secs 5)) as [Hig|Hig].
  { exists s, []. split; [mstep; rewrite decide_True by done; apply runs_ret|]. split; [done|]. split; [lia|].
    intros L grids HL _. exists L, grids. split; [apply grows_refl|]. split; [done|constructor]. }
  set (f := λ self : Session, reset (ec_seq_num wire) src now self).
  assert (healthy c (f s)) as Hf by (destruct Hs; split; try done; cbn; apply map_Forall_empty).
  assert (load (f s) ≤ load s) as Hlf by (unfold load; cbn; rewrite map_size_empty; lia).
  destruct (seal_answer_log (ec_seq_num wire) (ServerPayload.HandshakeAck (as_session_id s)) (f s))
    as (s1 & bss & E1 & -> & Hs1 & _ & Hlog1); [done|apply Hs|done|done|lia|].
  destruct (check_sync_log now _ Hs1) as (s2 & acts & E2 & Hs2 & Hl2 & Hlog2);
    [unfold load in *; cbn in *; lia|].
  eexists s2, _. split.
  { mstep. rewrite decide_False by done. mstep. eapply runs_bind; [exact E1|].
    eapply runs_bind; [exact E2|apply runs_ret]. }
  split; [done|]. split; [unfold load in *; cbn in *; lia|]. intros L grids HL Hc.
  unfold carried in Hc. rewrite jobs_app in Hc. apply Forall_app in Hc as [_ Hc].
  destruct (Hlog1 src L grids) as (L1 & G1 & HL1 & A1); [by destruct HL; split|].
  destruct (Hlog2 L1 grids HL1 Hc) as (L2 & g2 & G2 & HL2 & A2).
  exists L2, g2. split; [|split; [done|]].
  - eapply grows_trans; [|exact G2]. apply grows_quiet; [apply jobs_send_all|apply G1].
  - apply Forall_app. split; [|done]. eapply Forall_impl; [exact A1|]. intros a. apply act_logged_mono, G2.
Qed.

(** ** Runs *)

(** A datagram the session can digest: what it opens is well formed and, within the session, not
    the handshake payload the session's code excludes. *)
Definition digestible (e : event) : Prop :=
  match e with
  | Datagram b _ _ =>
    match open_client c b with
    | Ok (wire, p, _) => u64 (ec_seq_num wire) ∧ wf p ∧ (ec_session_id wire ≠ 0 → is_handshake p = false)
    | Err _ => True
    | Panic => False
    end
  | _ => True
  end.

Lemma on_pty_bytes_log data now : keeps_log c 0 (on_pty_bytes data now ;; mret []).
Proof.
  apply keeps_log_nil. intros s. unfold on_pty_bytes, term_write. pose proof (mirrors_write data (as_term_state s)) as Hm.
  unfold TermState_write in Hm. destruct (vt_write data (ts_terminal (as_term_state s))) as [t out] eqn:Ev. cbn in Hm.
  eexists. split.
  { eapply runs_bind; [|apply runs_ret]. eapply runs_bind; [|apply runs_modify]. mstep.
    unfold TermState_write. rewrite Ev. mstep. apply (pty_callback_run Hcalm). }
  split; [intros []; split; auto|]. split; [done|]. intros L grids. by apply logged_same.
Qed.

Lemma handle_log e : digestible e → keeps_log c 2 (handle e).
Proof.
  intros He. destruct e as [b src now|data now|now]; cbn [handle]; intros s Hs Hl.
  - cbn in He. unfold feed_packet. destruct (open_client c b) as [[[wire p] st]|e|] eqn:Eo; [|..|done].
    2: { exists s, []. split.
         { mstep. rewrite (he_codec _ _ Hs). eapply runs_bind; [apply runs_lift; by rewrite Eo|]. apply runs_ret. }
         split; [done|]. split; [lia|]. intros L grids HL _. exists L, grids. split; [apply grows_refl|]. by split. }
    destruct He as (Hu & Hw & Hh). set (f := λ self : Session, self <| as_last_recv_time := now |> <| as_current_client_addr := src |>).
    assert (∀ s' acts, runs
        (if decide (ec_session_id wire = 0) then feed_handshake wire src now
         else if decide (ec_session_id wire ≠ as_session_id s) then mret []
         else modify f ;; if is_transient (ec_seq_num wire) p then feed_transient (ec_ack_seq_num wire) p now
              else feed_reliable (ec_seq_num wire) (ec_ack_seq_num wire) p now) s s' acts →
      runs (feed_packet b src now) s s' acts) as Hgo.
    { intros s' acts E. unfold feed_packet. mstep. rewrite (he_codec _ _ Hs).
      eapply runs_bind; [apply runs_lift; by rewrite Eo|]. exact E. }
    destruct (decide (ec_session_id wire = 0)) as [E0|Hne].
    { destruct (feed_handshake_log wire src now Hu s Hs Hl) as (s' & acts & E & Hr).
      exists s', acts. split; [by apply Hgo|done]. }
    destruct (decide (ec_session_id wire ≠ as_session_id s)).
    { exists s, []. split; [apply Hgo, runs_ret|]. split; [done|]. split; [lia|].
      intros L grids HL _. exists L, grids. split; [apply grows_refl|]. by split. }
    destruct (keeps_log_modify c 2 f (if is_transient (ec_seq_num wire) p
      then feed_transient (ec_ack_seq_num wire) p now
      else feed_reliable (ec_seq_num wire) (ec_ack_seq_num wire) p now) s) as (s' & acts & E & Hr).
    + intros []. by split.
    + done.
    + intros L grids. by apply logged_same.
    + destruct (is_transient _ _); [|by apply feed_reliable_log, Hh].
      eapply keeps_log_weaken; [|apply feed_transient_log]. lia.
    + done.
    + done.
    + exists s', acts. split; [by apply Hgo|done].
  - by apply (keeps_log_weaken c 0 2 _ ltac:(lia) (on_pty_bytes_log data now)).
  - by apply (keeps_log_weaken c 1 2 _ ltac:(lia) (check_sync_log now)).
Qed.

Lemma handle_all_log es : Forall digestible es → keeps_log c (2 * len es) (handle_all es).
Proof.
  induction 1 as [|e es He Hes IH]; cbn [handle_all].
  { apply keeps_log_nil. intros s. exists s. split; [apply runs_ret|]. split; [done|]. split; [lia|auto]. }
  replace (2 * len (e :: es)) with (2 + 2 * len es) by (unfold len; cbn; lia).
  pose proof (len_nonneg es). apply keeps_log_app; [lia|lia|by apply handle_log|done].
Qed.

Lemma prepare_shutdown_log : keeps_log c 1 (a ← prepare_shutdown; mret [a]).
Proof.
  intros s Hs Hl. destruct (seal_answer_log 0 ServerPayload.Shutdown s) as (s' & bss & E & -> & Hs' & Hne & Hlog);
    [done|done|done|done|done|].
  eexists _, _. split.
  { eapply runs_bind; [|apply runs_ret]. eapply runs_bind; [exact E|]. mstep. apply runs_ret. }
  split; [done|]. split; [unfold load; cbn; lia|]. intros L grids HL _.
  destruct (Hlog (as_current_client_addr s) L grids HL) as (L' & G & HL' & A).
  exists L', grids. split; [apply grows_quiet; [done|apply G]|]. split; [done|]. constructor; [|constructor].
  destruct (last bss) as [b|] eqn:El; [|by apply last_None in El]. cbn. apply last_Some_elem_of in El.
  rewrite Forall_forall in A. apply (A (SendPacket b (as_current_client_addr s))).
  apply list_elem_of_fmap. by exists b.
Qed.
End log.

Section fresh.
Context {P C T R : Type} `{PtyBackend P, PacketCodecLaws C, VtLaws T R}.

Lemma new_healthy (c : C) sid start addr cols rows (p : P) now (s : AuthoritativeSession P C T R) :
  u64 sid → u64 start → u16 cols → u16 rows →
  AuthoritativeSession_new sid c start addr cols rows p now = Ok s →
  healthy c s ∧ logged ∅ ∅ s ∧ load s = 0.
Proof.
  intros Hsid Hst Hc Hr. unfold AuthoritativeSession_new.
  destruct (ServerTerminalState_new cols rows) as [ts| |] eqn:E; cbn; [|done..].
  destruct (TermState.on_pty_write (ts_terminal ts)); cbn; [|done..]. intros [= <-]. split; [|split; [|done]].
  - split; cbn; [done|by apply (mirrors_new cols rows ts)|done|done|done|by apply map_Forall_empty].
  - split; cbn; [|intros ? ? ?; by simplify_map_eq..|constructor].
    intros k _. by rewrite !lookup_empty.
Qed.
End fresh.
