(* ===== verification/ServerNetwork.v ===== *)
(** * The server's network loop: [src/src/server/network.rs]

    The handshake, the event loop of [run_server] and the executor of the session's actions, with
    the tasks it spawns on the thread pool. A run is a sequence of events: what the operating system
    delivers (datagrams, terminal output, timers, signals) and which spawned task advances next, in
    any interleaving. *)

From S2P Require Import Prelude Utf8 Grid Protocol Crypto Codec TermState Pty ServerSession.

(** ** [wait_for_client_handshake] *)

Record HandshakeResult := mkHandshakeResult {
  hr_client_addr : SocketAddr;
  hr_session_id : Z;
  hr_client_start_seq : Z;
  hr_cols : Z;
  hr_rows : Z;
}.

(** What the socket's [recv_from] gives: a datagram, or an error. *)
Abbreviation Received := (option (bytes * SocketAddr)) (only parsing).

(** [Result::unwrap] *)
Definition unwrap {A} (o : outcome A) : outcome A := match o with Err _ => Panic | _ => o end.

Section handshake.
Context `{Bincode ClientPayload, Bincode ServerPayload, Bincode EncryptedClientPacket,
          Bincode EncryptedServerPacket, Aead}.

(** The packet and payload of a datagram that starts a session. *)
Definition open_handshake (crypto_handshake : CryptoManager) (b : bytes)
    : option (EncryptedClientPacket * Z * Z) :=
  match deserialize b with
  | Ok wire_packet =>
    if decide (ec_session_id wire_packet = 0) then
      match decrypt crypto_handshake (ec_seq_num wire_packet) (ec_ciphertext wire_packet) with
      | Ok payload_bytes =>
        match deserialize payload_bytes with
        | Ok (ClientPayload.Handshake _ cols rows) => Some (wire_packet, cols, rows)
        | _ => None
        end
      | _ => None
      end
    else None
  | _ => None
  end.

(** The reply: the acknowledgement under the handshake's key, with sequence number 1. *)
Definition handshake_reply (crypto_handshake : CryptoManager) (session_id client_seq : Z) : outcome bytes :=
  ack_bytes ← unwrap (serialize (ServerPayload.HandshakeAck session_id));
  let reply_seq := 1 in
  ciphertext ← unwrap (encrypt crypto_handshake reply_seq ack_bytes);
  serialize {| es_seq_num := reply_seq; es_ack_seq_num := client_seq; es_frag_idx := 0;
               es_total_frags := 1; es_ciphertext := ciphertext |}.

(** The datagrams received until the handshake succeeds; the reply sent. When they run out, the
    timer or a signal ends the wait; on an error the process exits. *)
Fixpoint wait_for_client_handshake (crypto_handshake : CryptoManager) (session_id : Z)
    (inbox : list Received) : outcome (HandshakeResult * list (bytes * SocketAddr)) :=
  match inbox with
  | [] => Err (Msg "Handshake timed out")
  | None :: _ => Err (Msg "io::Error")
  | Some (b, src_addr) :: inbox =>
    match open_handshake crypto_handshake b with
    | Some (wire_packet, cols, rows) =>
      reply ← try (handshake_reply crypto_handshake session_id (ec_seq_num wire_packet));
      Ok ({| hr_client_addr := src_addr; hr_session_id := session_id;
             hr_client_start_seq := ec_seq_num wire_packet; hr_cols := cols; hr_rows := rows |},
          (λ b, (b, src_addr)) <$> option_list reply)
    | None => wait_for_client_handshake crypto_handshake session_id inbox
    end
  end.
End handshake.

(** ** The state of [run_server] *)

Section network.
Context {P C T R : Type} `{PtyBackend P, PacketCodec C, Vt T R}.
Abbreviation Session := (AuthoritativeSession P C T R) (only parsing).
Abbreviation Action := (SessionAction C) (only parsing).

(** A task spawned on the thread pool, at one of its suspension points. *)
Inductive Task :=
  | TSend (b : bytes) (target : SocketAddr)
  | TDiff (job : UpdateJob C) (target : SocketAddr)
  | TBurst (packets : list bytes) (target : SocketAddr)
  | TResend (packets : list bytes) (target : SocketAddr).

(** The event loop; the shutdown handler with the copies of the packet it has left to send; the end
    of [run_server]. *)
Inductive Phase :=
  | Running
  | Closing (copies : nat) (b : bytes) (target : SocketAddr)
  | Stopped.

Record Server := mkServer {
  sv_session : Session;
  sv_diff_in_flight : bool;
  sv_fragment_cache : list (Z * list bytes);
  sv_tasks : list Task;
  sv_pty_open : bool; (* the pseudo-terminal's reader task runs *)
  sv_shutdown : bool; (* a message waits in the shutdown channel *)
  sv_phase : Phase;
  sv_sent : list (bytes * SocketAddr); (* what the socket was given, in order *)
}.
#[export] Instance Server_eta : Eta Server := λ sv,
  mkServer (sv_session sv) (sv_diff_in_flight sv) (sv_fragment_cache sv) (sv_tasks sv)
    (sv_pty_open sv) (sv_shutdown sv) (sv_phase sv) (sv_sent sv).

Definition Server_new (session : Session) (sent : list (bytes * SocketAddr)) : Server :=
  {| sv_session := session; sv_diff_in_flight := false; sv_fragment_cache := []; sv_tasks := [];
     sv_pty_open := true; sv_shutdown := false; sv_phase := Running; sv_sent := sent |}.

(** A method of the session. *)
Definition in_session {A} (m : M Session A) : M Server A := λ self,
  let '(s, r) := m (sv_session self) in (self <| sv_session := s |>, r).

Definition spawn (t : Task) : M Server unit := modify (λ self, self <| sv_tasks ::= λ l, l ++ [t] |>).
Definition send_to (b : bytes) (target : SocketAddr) : M Server unit :=
  modify (λ self, self <| sv_sent ::= λ l, l ++ [(b, target)] |>).

(** ** [execute_actions] *)

Definition find_packets (frame_seq : Z) (cache : list (Z * list bytes)) : option (list bytes) :=
  snd <$> head (filter (λ e, e.1 = frame_seq) cache).

(** [received_mask[idx / 64] & (1 << (idx % 64)) != 0], false beyond the mask. *)
Definition is_received (received_mask : list Z) (idx : nat) : bool :=
  match received_mask !! (idx / 64)%nat with
  | Some word => negb (Z.land word (Z.shiftl 1 (Z.of_nat (idx mod 64))) =? 0)
  | None => false
  end.

(** The fragments the client reports missing, from index [idx] on. *)
Fixpoint unreceived (received_mask : list Z) (idx : nat) (packets : list bytes) : list bytes :=
  match packets with
  | [] => []
  | packet_bytes :: packets =>
    (if is_received received_mask idx then [] else [packet_bytes]) ++
    unreceived received_mask (S idx) packets
  end.

Definition execute_action (action : Action) : M Server unit :=
  match action with
  | SendPacket b target => spawn (TSend b target)
  | OffloadDiffJob job target =>
    self ← get;
    if sv_diff_in_flight self then mret tt
    else modify (λ self, self <| sv_diff_in_flight := true |>) ;; spawn (TDiff job target)
  | ResendFragments frame_seq received_mask target =>
    self ← get;
    match find_packets frame_seq (sv_fragment_cache self) with
    | Some packets => spawn (TResend (unreceived received_mask 0 packets) target)
    | None => mret tt
    end
  | Shutdown => modify (λ self, self <| sv_shutdown := true |>)
  end.

Definition execute_actions (actions : list Action) : M Server unit := for_each_m actions execute_action.

(** ** The spawned tasks *)

(** A frame of more than one packet is kept for retransmission; four are kept. *)
Definition cache_push (seq : Z) (packets : list bytes) (cache : list (Z * list bytes))
    : list (Z * list bytes) :=
  (if decide (4 ≤ len cache) then tail cache else cache) ++ [(seq, packets)].

Definition cache_frame (seq : Z) (packets : list bytes) : M Server unit :=
  if decide (1 < len packets)
  then modify (λ self, self <| sv_fragment_cache ::= cache_push seq packets |>)
  else mret tt.

(** What a task does up to its next suspension, and what is left of it. A job that panics takes its
    task with it. *)
Definition task_step (t : Task) : M Server (option Task) :=
  match t with
  | TSend b target => send_to b target ;; mret None
  | TDiff job target =>
    match UpdateJob_run job with
    | Ok packets => cache_frame (uj_seq job) packets ;; mret (Some (TBurst packets target))
    | Err _ => modify (λ self, self <| sv_diff_in_flight := false |>) ;; mret None
    | Panic => mret None
    end
  | TBurst (b :: packets) target => send_to b target ;; mret (Some (TBurst packets target))
  | TBurst [] _ => modify (λ self, self <| sv_diff_in_flight := false |>) ;; mret None
  | TResend (b :: packets) target => send_to b target ;; mret (Some (TResend packets target))
  | TResend [] _ => mret None
  end.

Definition run_task (i : nat) : M Server unit :=
  self ← get;
  match sv_tasks self !! i with
  | Some t =>
    modify (λ self, self <| sv_tasks ::= delete i |>) ;;
    rest ← task_step t;
    for_each_m (option_list rest) spawn
  | None => mret tt
  end.

(** ** The event loop *)

Inductive net_event :=
  | NPty (data : bytes) (now : Instant)
  | NPtyClosed
  | NTick (now : Instant)
  | NRecv (b : bytes) (src_addr : SocketAddr) (now : Instant)
  | NRecvError
  | NTask (i : nat)
  | NShutdown
  | NSignal.

(** The shutdown handler, polled: the packet is prepared, then sent three times. *)
Definition shutdown_signal : M Server (list Action) :=
  self ← get;
  match sv_phase self with
  | Running =>
    if sv_shutdown self then
      modify (λ self, self <| sv_shutdown := false |>) ;;
      actions ← attempt (in_session (a ← prepare_shutdown; mret [a]));
      match actions with
      | Some [SendPacket b target] =>
        modify (λ self, self <| sv_phase := Closing 3 b target |>) ;; mret [SendPacket b target]
      | _ => modify (λ self, self <| sv_phase := Stopped |>) ;; mret []
      end
    else mret []
  | Closing (S copies) b target =>
    send_to b target ;; modify (λ self, self <| sv_phase := Closing copies b target |>) ;; mret []
  | Closing O _ _ => modify (λ self, self <| sv_phase := Stopped |>) ;; mret []
  | Stopped => mret []
  end.

(** One event; the actions the session asked for, whether or not they are executed. *)
Definition serve (e : net_event) : M Server (list Action) :=
  match e with
  | NPty data now =>
    self ← get;
    if sv_pty_open self then in_session (on_pty_bytes data now ;; mret []) else mret []
  | NPtyClosed =>
    modify (λ self, self <| sv_pty_open := false |> <| sv_shutdown := true |>) ;; mret []
  | NTick now =>
    self ← get;
    if sv_diff_in_flight self then mret []
    else actions ← in_session (on_tick now); execute_actions actions ;; mret actions
  | NRecv b src_addr now =>
    actions ← attempt (in_session (feed_packet b src_addr now));
    let actions := default [] actions in
    execute_actions actions ;; mret actions
  | NRecvError => mret []
  | NTask i => run_task i ;; mret []
  | NShutdown => shutdown_signal
  | NSignal => modify (λ self, self <| sv_phase := Stopped |>) ;; mret []
  end.

(** The events up to the end of [run_server]. *)
Fixpoint serve_all (es : list net_event) : M Server (list Action) :=
  match es with
  | [] => mret []
  | e :: es =>
    self ← get;
    match sv_phase self with
    | Stopped => mret []
    | _ => actions ← serve e; more ← serve_all es; mret (actions ++ more)
    end
  end.
End network.
Arguments Task C : clear implicits.
Arguments Server P C T R : clear implicits.

(** ** [run_server] *)

Section run_server.
Context {P T R : Type} `{PtyBackend P, Vt T R}.
Context `{Bincode ClientPayload, Bincode ServerPayload, Bincode EncryptedClientPacket,
          Bincode EncryptedServerPacket, Aead, Lz4}.

(** The session the handshake leads to; [open_pty] is [PtyBridge::new] with the shell command,
    [session_id] the random number drawn. *)
Definition start_server (key_bytes : list Z) (session_id : Z) (open_pty : Z → Z → outcome P)
    (inbox : list Received) (now : Instant) : outcome (Server P ChaChaCodec T R) :=
  let crypto_handshake := CryptoManager_new key_bytes 0 in
  '(handshake, sent) ← wait_for_client_handshake crypto_handshake session_id inbox;
  pty_bridge ← open_pty (hr_cols handshake) (hr_rows handshake);
  let codec := ChaChaCodec_new key_bytes (hr_session_id handshake) in
  session ← AuthoritativeSession_new (hr_session_id handshake) codec (hr_client_start_seq handshake)
              (hr_client_addr handshake) (hr_cols handshake) (hr_rows handshake) pty_bridge now;
  Ok (Server_new session sent).

Definition run_server (key_bytes : list Z) (session_id : Z) (open_pty : Z → Z → outcome P)
    (inbox : list Received) (now : Instant) (es : list net_event) : outcome (list (bytes * SocketAddr)) :=
  server ← start_server key_bytes session_id open_pty inbox now;
  match serve_all es server with
  | (server, Ok _) => Ok (sv_sent server)
  | (_, Err e) => Err e
  | (_, Panic) => Panic
  end.
End run_server.
