(* ===== verification/ServerNetworkProps.v ===== *)
(** * What the server's network loop guarantees

    The executor's invariants along any interleaving of events and tasks, the transmission and
    retransmission of a frame, and the log of everything the socket is given. *)

From S2P Require Import Prelude Utf8 Grid Protocol Crypto Codec CodecFacts CodecProps.
From S2P Require Import TermState Pty ServerSession ServerFacts ServerProps ServerLog ServerNetwork.

(** Runs the steps of a method. *)
Ltac exec := cbn; repeat (progress unfold mbind, M_bind; cbn).

Section executor.
Context {P C T R : Type} `{PtyBackend P, PacketCodec C, Vt T R}.
Abbreviation Server := (Server P C T R) (only parsing).
Implicit Types sv : Server.

(** ** One frame at a time *)

(** The tasks that compile a frame or send its fragments for the first time. *)
Definition transmits (t : Task C) : bool :=
  match t with TDiff _ _ | TBurst _ _ => true | TSend _ _ | TResend _ _ => false end.
Definition transmissions (l : list (Task C)) : nat := length (filter (λ t, transmits t = true) l).
#[local] Arguments transmissions : simpl never.

Record executor_ok sv : Prop := {
  ex_one : (transmissions (sv_tasks sv) ≤ if sv_diff_in_flight sv then 1 else 0)%nat;
  ex_cache : len (sv_fragment_cache sv) ≤ 4;
  ex_fragmented : Forall (λ e, 1 < len e.2) (sv_fragment_cache sv);
}.

Lemma transmissions_spawn l t :
  transmissions (l ++ [t]) = (transmissions l + if transmits t then 1 else 0)%nat.
Proof. unfold transmissions. rewrite filter_app, length_app, filter_cons. by destruct (transmits t). Qed.

Lemma transmissions_delete l i t :
  l !! i = Some t → transmissions l = (transmissions (delete i l) + if transmits t then 1 else 0)%nat.
Proof.
  intros Ht. unfold transmissions. rewrite (delete_Permutation _ _ _ Ht) at 1. rewrite filter_cons.
  destruct (transmits t); [rewrite decide_True by done|rewrite decide_False by done]; cbn [length]; lia.
Qed.

Lemma in_session_always {A} (m : M (AuthoritativeSession P C T R) A) : always executor_ok (in_session m).
Proof. intros sv []. unfold in_session. by destruct (m (sv_session sv)). Qed.

Lemma spawn_quiet_always t : transmits t = false → always executor_ok (spawn t).
Proof.
  intros Ht. apply always_modify. intros sv []. split; [|done..]. cbn. rewrite transmissions_spawn, Ht. lia.
Qed.

Lemma execute_action_always a : always executor_ok (execute_action a).
Proof.
  destruct a as [b t|job t|k mask t|]; cbn [execute_action].
  - by apply spawn_quiet_always.
  - apply always_get_bind. intros sv Hsv. destruct (sv_diff_in_flight sv) eqn:E; [done|]. destruct Hsv.
    unfold mbind, M_bind. split; [|done..]. cbn. rewrite transmissions_spawn. cbn. rewrite E in ex_one0. lia.
  - apply always_get_bind. intros sv Hsv. destruct (find_packets k _) as [ps|]; [|done]. by apply spawn_quiet_always.
  - apply always_modify. by intros sv [].
Qed.

Lemma cache_push_ok seq packets cache :
  1 < len packets → len cache ≤ 4 → Forall (λ e : Z * list (list Z), 1 < len e.2) cache →
  len (cache_push seq packets cache) ≤ 4 ∧ Forall (λ e, 1 < len e.2) (cache_push seq packets cache).
Proof.
  intros Hp Hl Hall. unfold cache_push. destruct (decide (4 ≤ len cache)) as [H4|H4].
  - destruct cache as [|e cache]; [done|]. cbn [tail]. apply Forall_cons in Hall as [_ Hall].
    split; [unfold len in *; rewrite length_app; cbn in *; lia|]. apply Forall_app. by split; [|constructor].
  - split; [unfold len in *; rewrite length_app; cbn in *; lia|]. apply Forall_app. by split; [|constructor].
Qed.

Lemma run_task_always i : always executor_ok (run_task i).
Proof.
  intros sv []. unfold run_task, mbind, M_bind, get. destruct (sv_tasks sv !! i) as [t|] eqn:E; [|done].
  apply transmissions_delete in E.
  destruct t as [b t|job t|[|b ps] t|[|b ps] t]; cbn [transmits] in E; cbn [task_step].
  2: { destruct (UpdateJob_run job) as [packets|e|].
    - unfold cache_frame, mbind, M_bind. destruct (decide (1 < len packets)) as [Hp|Hp].
      + destruct (cache_push_ok (uj_seq job) packets (sv_fragment_cache sv)) as [? ?]; [done..|].
        split; exec; [|done..]. rewrite transmissions_spawn. cbn. lia.
      + split; exec; [|done..]. rewrite transmissions_spawn. cbn. lia.
    - split; exec; [|done..]. destruct (sv_diff_in_flight sv); lia.
    - split; exec; [|done..]. lia. }
  all: split; exec; [|done..]; rewrite ?transmissions_spawn; cbn; destruct (sv_diff_in_flight sv); lia.
Qed.

Hint Resolve in_session_always execute_action_always run_task_always always_bind : safe.
Hint Extern 1 (always executor_ok (modify _)) => apply always_modify; by intros ? [] : safe.

Lemma shutdown_signal_always : always executor_ok shutdown_signal.
Proof.
  unfold shutdown_signal. apply always_bind; [apply always_get|]. intros self.
  destruct (sv_phase self) as [|[|n] b t|]; [|unfold send_to; by auto with safe..].
  destruct (sv_shutdown self); [|by auto with safe]. apply always_bind; [auto with safe|]. intros _.
  apply always_bind; [auto with safe|]. intros [[|[| | |] [|]]|]; by auto with safe.
Qed.

Lemma serve_always e : always executor_ok (serve e).
Proof.
  destruct e; cbn [serve]; try apply shutdown_signal_always; try (by auto with safe);
    (apply always_bind; [by auto with safe|]); intros self.
  - destruct (sv_diff_in_flight self); [by auto with safe|]. apply always_bind; [by auto with safe|].
    intros acts. unfold execute_actions. by auto with safe.
  - unfold execute_actions. by auto with safe.
Qed.

Lemma serve_all_always es : always executor_ok (serve_all es).
Proof.
  induction es as [|e es IH]; cbn [serve_all]; [apply always_ret|].
  apply always_bind; [apply always_get|]. intros self. pose proof (serve_always e).
  destruct (sv_phase self); by auto with safe.
Qed.

(** C22. One frame is compiled and transmitted at a time. After any events, in any interleaving with
    the spawned tasks, at most one task compiles a frame or sends its fragments for the first time,
    and none does while the flag is down, so the fragments of two frames' first transmissions never
    mix; at most four frames are kept for retransmission, each of more than one fragment. *)
Theorem one_frame_at_a_time es s sent : executor_ok (serve_all es (Server_new s sent)).1.
Proof. apply serve_all_always. split; cbn; [done|done|constructor]. Qed.
End executor.

(** ** Everything the socket is given

    A property [Q] of datagrams and a property [J] of jobs, such that a job with [J] compiles to
    datagrams with [Q]: what the loop is asked to send is what it puts on the socket. *)

Section carriage.
Context {P C T R : Type} `{PtyBackend P, PacketCodec C, Vt T R}.
Abbreviation Server := (Server P C T R) (only parsing).
Abbreviation Action := (SessionAction C) (only parsing).
Implicit Types sv : Server.

Section with_properties.
Context (Q : list Z → Prop) (J : UpdateJob C → Prop).

Definition task_carried (t : Task C) : Prop :=
  match t with
  | TSend b _ => Q b
  | TDiff job _ => J job
  | TBurst packets _ | TResend packets _ => Forall Q packets
  end.
Definition act_carried (a : Action) : Prop :=
  match a with
  | SendPacket b _ => Q b
  | OffloadDiffJob job _ => J job
  | ResendFragments _ _ _ | Shutdown => True
  end.

Record carries sv : Prop := {
  tr_tasks : Forall task_carried (sv_tasks sv);
  tr_cache : Forall (λ e, Forall Q e.2) (sv_fragment_cache sv);
  tr_phase : match sv_phase sv with Closing _ b _ => Q b | _ => True end;
  tr_sent : Forall (λ e, Q e.1) (sv_sent sv);
}.
End with_properties.

Lemma carries_mono (Q Q' : list Z → Prop) (J J' : UpdateJob C → Prop) sv :
  (∀ b, Q b → Q' b) → (∀ job, J job → J' job) → carries Q J sv → carries Q' J' sv.
Proof.
  intros HQ HJ []. assert (∀ l, Forall Q l → Forall Q' l) as HQs by (intros l Hl; by eapply Forall_impl).
  split.
  - eapply Forall_impl; [exact tr_tasks0|]. intros [b t|job t|ps t|ps t]; cbn; auto.
  - eapply Forall_impl; [exact tr_cache0|]. cbn. auto.
  - destruct (sv_phase sv); auto.
  - eapply Forall_impl; [exact tr_sent0|]. cbn. auto.
Qed.

Context (Q : list Z → Prop) (J : UpdateJob C → Prop).
Context (HJ : ∀ job bss, J job → UpdateJob_run job = Ok bss → Forall Q bss).
Abbreviation bears := (carries Q J) (only parsing).

Lemma spawn_carries sv t : task_carried Q J t → bears sv → bears (sv <| sv_tasks ::= λ l, l ++ [t] |>).
Proof. intros Ht []. split; try done. cbn. apply Forall_app. by split; [|constructor]. Qed.

Lemma send_carries sv b t : Q b → bears sv → bears (sv <| sv_sent ::= λ l, l ++ [(b, t)] |>).
Proof. intros Hb []. split; try done. cbn. apply Forall_app. by split; [|constructor]. Qed.

Lemma unreceived_Forall mask idx packets : Forall Q packets → Forall Q (unreceived mask idx packets).
Proof.
  intros HQ. revert idx. induction HQ as [|b packets Hb _ IH]; intros idx; cbn; [constructor|].
  apply Forall_app. split; [|done]. by destruct (is_received mask idx); repeat constructor.
Qed.

Lemma find_packets_Forall (R' : list (list Z) → Prop) k cache packets :
  Forall (λ e : Z * list (list Z), R' e.2) cache → find_packets k cache = Some packets → R' packets.
Proof.
  unfold find_packets. intros HQ Hf. apply fmap_Some in Hf as ([k' ps] & Hh & ->).
  apply head_Some_elem_of, list_elem_of_filter in Hh as [_ Hin]. rewrite Forall_forall in HQ. by apply (HQ (k', ps)).
Qed.

(** What does not fail and leaves the session alone; [pre] is asked for the datagrams it adds. *)
Definition quietly {A} (m : M Server A) sv (pre : Prop) (post : A → Prop) : Prop :=
  ∃ sv' a, runs m sv sv' a ∧ sv_session sv' = sv_session sv ∧ (pre → bears sv → bears sv' ∧ post a).

Lemma execute_action_quietly a sv : quietly (execute_action a) sv (act_carried Q J a) (λ _, True).
Proof.
  destruct a as [b t|job t|k mask t|]; cbn [execute_action act_carried].
  - eexists _, _. split; [apply runs_modify|]. split; [done|]. intros Ha Hsv. split; [|done].
    by apply (spawn_carries sv (TSend b t)).
  - destruct (sv_diff_in_flight sv) eqn:E; [exists sv, tt; split; [mstep; by rewrite E|done]|].
    eexists _, _. split; [mstep; rewrite E; mstep; apply runs_modify|]. split; [done|]. intros Ha Hsv. split; [|done].
    apply (spawn_carries (sv <| sv_diff_in_flight := true |>) (TDiff job t)); [done|by destruct Hsv; split].
  - destruct (find_packets k (sv_fragment_cache sv)) as [ps|] eqn:E; [|exists sv, tt; split; [mstep; by rewrite E|done]].
    eexists _, _. split; [mstep; rewrite E; apply runs_modify|]. split; [done|]. intros _ Hsv. split; [|done].
    apply (spawn_carries sv (TResend (unreceived mask 0 ps) t)); [|done].
    apply unreceived_Forall. exact (find_packets_Forall _ _ _ _ (tr_cache _ _ _ Hsv) E).
  - eexists _, _. split; [apply runs_modify|]. split; [done|]. intros _ []. by repeat split.
Qed.

Lemma execute_actions_quietly acts sv :
  quietly (execute_actions acts) sv (Forall (act_carried Q J) acts) (λ _, True).
Proof.
  unfold execute_actions. revert sv. induction acts as [|a acts IH]; intros sv; [by exists sv, tt|].
  destruct (execute_action_quietly a sv) as (sv1 & [] & E1 & Es1 & Ht1), (IH sv1) as (sv2 & [] & E2 & Es2 & Ht2).
  exists sv2, tt. split; [eapply runs_bind; [exact E1|exact E2]|]. split; [congruence|].
  intros [Ha Hacts]%Forall_cons Hsv. destruct Ht1; auto.
Qed.

Lemma task_step_quietly t sv :
  quietly (task_step t) sv (task_carried Q J t) (λ rest, Forall (task_carried Q J) (option_list rest)).
Proof.
  destruct t as [b t|job t|[|b ps] t|[|b ps] t]; cbn [task_step task_carried].
  - eexists _, _. split; [mstep; apply runs_ret|]. split; [done|]. intros Hb Hsv.
    split; [by apply send_carries|constructor].
  - destruct (UpdateJob_run job) as [packets|e|] eqn:E.
    + unfold cache_frame.
      exists (if decide (1 < len packets)
              then sv <| sv_fragment_cache ::= cache_push (uj_seq job) packets |> else sv), (Some (TBurst packets t)).
      split; [eapply runs_bind; [|apply runs_ret]; by case_decide|]. split; [by case_decide|]. intros Ht Hsv.
      pose proof (HJ job packets Ht E) as Hp.
      split; [|by constructor]. case_decide; [|done]. destruct Hsv. split; try done. cbn.
      unfold cache_push. apply Forall_app. split; [|by constructor]. case_decide; [|done]. by destruct tr_cache0.
    + eexists _, _. split; [mstep; apply runs_ret|]. split; [done|]. intros _ []. by repeat split.
    + eexists _, _. split; [apply runs_ret|]. split; [done|]. intros _ Hsv. by split; [|constructor].
  - eexists _, _. split; [mstep; apply runs_ret|]. split; [done|]. intros _ []. by repeat split.
  - eexists _, _. split; [mstep; apply runs_ret|]. split; [done|]. intros [Hb Hps]%Forall_cons Hsv.
    split; [by apply send_carries|by constructor].
  - eexists _, _. split; [apply runs_ret|]. split; [done|]. intros _ Hsv. by split; [|constructor].
  - eexists _, _. split; [mstep; apply runs_ret|]. split; [done|]. intros [Hb Hps]%Forall_cons Hsv.
    split; [by apply send_carries|by constructor].
Qed.

Lemma run_task_quietly i sv : quietly (run_task i) sv True (λ _, True).
Proof.
  unfold run_task. destruct (sv_tasks sv !! i) as [t|] eqn:E; [|exists sv, tt; split; [mstep; by rewrite E|done]].
  set (sv0 := sv <| sv_tasks ::= delete i |>).
  destruct (task_step_quietly t sv0) as (sv1 & rest & E1 & Es1 & Ht).
  exists (match rest with Some t => sv1 <| sv_tasks ::= λ l, l ++ [t] |> | None => sv1 end), tt. split.
  { mstep. rewrite E. mstep. eapply runs_bind; [exact E1|]. by destruct rest. }
  split; [by destruct rest|]. intros _ Hsv. split; [|done]. destruct Ht as [Hsv1 Hr].
  - eapply Forall_lookup_1; [apply (tr_tasks _ _ _ Hsv)|done].
  - destruct Hsv. split; try done. cbn. by apply Forall_delete.
  - destruct rest as [t'|]; [|done]. apply Forall_cons in Hr as [Hr _]. by apply spawn_carries.
Qed.

(** The session's state does not matter. *)
Lemma session_carries {A} (m : M (AuthoritativeSession P C T R) A) sv : bears sv → bears (in_session m sv).1.
Proof. intros []. unfold in_session. destruct (m (sv_session sv)). by split. Qed.
Lemma in_session_carries {A} (m : M (AuthoritativeSession P C T R) A) sv sv' a :
  runs (in_session m) sv sv' a → bears sv → bears sv'.
Proof. intros E Hsv. pose proof (session_carries m sv Hsv) as Hs. unfold runs in E. by rewrite E in Hs. Qed.
Lemma attempt_carries {A} (m : M (AuthoritativeSession P C T R) A) sv sv' a :
  runs (attempt (in_session m)) sv sv' a → bears sv → bears sv'.
Proof.
  intros E Hsv. pose proof (session_carries m sv Hsv) as Hs. unfold runs, attempt in E.
  destruct (in_session m sv) as [sv1 r]. by injection E as <- _.
Qed.

(** An event of the loop: it carries what its session asks for. *)
Lemma shutdown_carries sv sv' acts :
  runs shutdown_signal sv sv' acts → Forall (act_carried Q J) acts → bears sv → bears sv'.
Proof.
  intros E Ha Hsv. unfold shutdown_signal in E. apply runs_bind_inv in E as (sv0 & self & [= <- <-] & E).
  destruct (sv_phase sv) as [|[|copies] b t|] eqn:Ep.
  - destruct (sv_shutdown sv); [|injection E as <- _; done].
    apply runs_bind_inv in E as (sv1 & [] & [= <-] & E). apply runs_bind_inv in E as (sv2 & r & E2 & E).
    assert (bears sv2) as Hsv2 by (eapply attempt_carries; [exact E2|]; by destruct Hsv; split).
    destruct r as [[|[b t|job t|k mask t|] [|a l]]|]; apply runs_bind_inv in E as (sv3 & [] & [= <-] & E);
      injection E as <- <-; try (by destruct Hsv2; split).
    apply Forall_cons in Ha as [Hb _]. destruct Hsv2. by split.
  - apply runs_bind_inv in E as (sv1 & [] & [= <-] & E). injection E as <- _. by destruct Hsv; split.
  - apply runs_bind_inv in E as (sv1 & [] & [= <-] & E). apply runs_bind_inv in E as (sv2 & [] & [= <-] & E).
    injection E as <- _. pose proof (tr_phase _ _ _ Hsv) as Hb. rewrite Ep in Hb.
    destruct (send_carries sv b t Hb Hsv). by split.
  - injection E as <- _. done.
Qed.

Lemma serve_carries e sv sv' acts :
  runs (serve e) sv sv' acts → Forall (act_carried Q J) acts → bears sv → bears sv'.
Proof.
  intros E Ha Hsv.
  assert (∀ acts' sv1 sv2, runs (execute_actions acts' ;; mret acts') sv1 sv2 acts → bears sv1 → bears sv2) as Hex.
  { intros acts' sv1 sv2 E' Hsv1. apply runs_bind_inv in E' as (sv3 & [] & E3 & [= <- <-]).
    destruct (execute_actions_quietly acts' sv1) as (sv4 & [] & E4 & _ & Hc). unfold runs in E3, E4.
    rewrite E3 in E4. injection E4 as <-. by apply Hc. }
  destruct e as [data now| |now|b src now| |i| |]; cbn [serve] in E.
  - apply runs_bind_inv in E as (sv0 & self & [= <- <-] & E). destruct (sv_pty_open sv); [|injection E as <- _; done].
    by eapply in_session_carries.
  - apply runs_bind_inv in E as (sv1 & [] & [= <-] & E). injection E as <- _. by destruct Hsv; split.
  - apply runs_bind_inv in E as (sv0 & self & [= <- <-] & E). destruct (sv_diff_in_flight sv); [injection E as <- _; done|].
    apply runs_bind_inv in E as (sv1 & a & E1 & E). eapply Hex; [exact E|].
    by eapply in_session_carries.
  - apply runs_bind_inv in E as (sv1 & a & E1 & E). eapply Hex; [exact E|].
    by eapply attempt_carries.
  - injection E as <- _. done.
  - apply runs_bind_inv in E as (sv1 & [] & E1 & E). injection E as <- _.
    destruct (run_task_quietly i sv) as (sv2 & [] & E2 & _ & Hc). unfold runs in E1, E2. rewrite E1 in E2.
    injection E2 as <-. by apply Hc.
  - by eapply shutdown_carries.
  - apply runs_bind_inv in E as (sv1 & [] & [= <-] & E). injection E as <- _. by destruct Hsv; split.
Qed.
End carriage.

(** *** Datagrams of the log *)

Section traffic.
Context {P C T R : Type} `{PtyBackend P, PacketCodecLaws C, VtLaws T R}.
Abbreviation Server := (Server P C T R) (only parsing).
Abbreviation Action := (SessionAction C) (only parsing).
Implicit Types (sv : Server) (L : gmap Z ServerPayload) (grids : gmap Z GridState).
Context (c : C).
Context (Hcalm : calm (P:=P) (C:=C)).
Hypothesis Hanswers : answers c.
Hypothesis Hshort : short c.

Definition traffic_ok L sv : Prop := carries (sealed_by c L) (compiled c L) sv.

Lemma traffic_ok_mono L L' sv : L ⊆ L' → traffic_ok L sv → traffic_ok L' sv.
Proof.
  intros HL. apply carries_mono; [intros b; by apply sealed_by_mono|].
  intros job (d & Hd & Hrest). exists d. split; [by eapply lookup_weaken|done].
Qed.

Lemma serve_traffic L e sv sv' acts :
  runs (serve e) sv sv' acts → Forall (act_logged c L) acts → traffic_ok L sv → traffic_ok L sv'.
Proof. apply serve_carries. intros job bss. apply compiled_sealed. Qed.

Lemma execute_actions_runs acts sv : ∃ sv', runs (execute_actions acts) sv sv' tt ∧ sv_session sv' = sv_session sv.
Proof.
  destruct (execute_actions_quietly (λ _, True) (λ _, True) acts sv) as (sv' & [] & E & Es & _). by exists sv'.
Qed.
Lemma run_task_runs i sv : ∃ sv', runs (run_task i) sv sv' tt ∧ sv_session sv' = sv_session sv.
Proof.
  assert (∀ (job : UpdateJob C) bss, True → UpdateJob_run job = Ok bss → Forall (λ _, True) bss) as HJ
    by (intros; by apply Forall_true).
  destruct (run_task_quietly (λ _, True) (λ _, True) HJ i sv) as (sv' & [] & E & Es & _). by exists sv'.
Qed.

(** *** The event loop *)

(** A part of the event loop that keeps the log of the session, and asks for what it logs. *)
Definition relays_at (n : Z) (m : M Server (list Action)) sv : Prop :=
  healthy c (sv_session sv) → load (sv_session sv) + n < 2 ^ 64 →
  ∃ sv' acts, runs m sv sv' acts ∧ healthy c (sv_session sv') ∧ load (sv_session sv') ≤ load (sv_session sv) + n ∧
    ∀ L grids, logged L grids (sv_session sv) → carried acts →
    ∃ L' grids', grows acts L grids L' grids' ∧ logged L' grids' (sv_session sv') ∧ Forall (act_logged c L') acts.
Definition relays (n : Z) (m : M Server (list Action)) : Prop := ∀ sv, relays_at n m sv.

(** What leaves the session alone. *)
Lemma relays_quiet m sv sv' : runs m sv sv' [] → sv_session sv' = sv_session sv → relays_at 0 m sv.
Proof.
  intros E Es Hs Hl. exists sv', []. rewrite Es. split; [done|]. split; [done|]. split; [lia|].
  intros L grids HL _. exists L, grids. split; [apply grows_refl|]. split; [done|constructor].
Qed.

Lemma relays_weaken n n' m sv : n ≤ n' → relays_at n m sv → relays_at n' m sv.
Proof.
  intros Hn Hm Hs Hl. destruct (Hm Hs) as (sv' & acts & E & Hs' & Hl' & Hlog); [lia|].
  exists sv', acts. split; [done|]. split; [done|]. split; [lia|done].
Qed.

(** A method of the session, and the execution of what it asks for. *)
Lemma relays_session n m big sv :
  keeps_log c n m →
  (∀ s' acts, runs m (sv_session sv) s' acts → ∃ sv', runs big sv sv' acts ∧ sv_session sv' = s') →
  relays_at n big sv.
Proof.
  intros Hm Hbig Hs Hl. destruct (Hm (sv_session sv) Hs Hl) as (s' & acts & E & Hlog).
  destruct (Hbig s' acts E) as (sv' & E' & Es). exists sv', acts. by rewrite Es.
Qed.

(** An event the loop can digest. *)
Definition net_digestible (e : net_event) : Prop :=
  match e with NRecv b src now => digestible c (Datagram b src now) | _ => True end.

Lemma shutdown_signal_relays : relays 1 shutdown_signal.
Proof.
  intros sv. destruct (sv_phase sv) as [|[|copies] b t|] eqn:Ep; [destruct (sv_shutdown sv) eqn:Esh|..].
  { eapply relays_session; [exact (prepare_shutdown_log c Hanswers Hshort)|]. intros s' acts E.
    assert (∃ b t, acts = [SendPacket b t]) as (b & t & ->).
    { unfold prepare_shutdown, seal, runs, mbind, M_bind, modify, get, lift in E. cbn in E.
      destruct (seal_server _ _ _ _) as [bss| |]; cbn in E; [|done..]. injection E as _ <-. eauto. }
    exists (sv <| sv_shutdown := false |> <| sv_session := s' |> <| sv_phase := Closing 3 b t |>). split; [|done].
    mstep. rewrite Ep, Esh. mstep. eapply runs_bind.
    - unfold runs, attempt, in_session. cbn. rewrite E. reflexivity.
    - mstep. apply runs_ret. }
  all: apply (relays_weaken 0 1); [lia|].
  - eapply relays_quiet; [mstep; rewrite Ep, Esh; apply runs_ret|done].
  - eapply relays_quiet; [mstep; rewrite Ep; mstep; apply runs_ret|done].
  - eapply relays_quiet; [mstep; rewrite Ep; mstep; mstep; apply runs_ret|done].
  - eapply relays_quiet; [mstep; rewrite Ep; apply runs_ret|done].
Qed.

Lemma serve_relays e : net_digestible e → relays 2 (serve e).
Proof.
  intros He sv. destruct e as [data now| |now|b src now| |i| |]; cbn [serve net_digestible] in *.
  - apply (relays_weaken 0 2); [lia|]. destruct (sv_pty_open sv) eqn:Eo.
    2: { eapply relays_quiet; [mstep; rewrite Eo; apply runs_ret|done]. }
    eapply relays_session; [exact (on_pty_bytes_log c Hcalm data now)|]. intros s' acts E.
    exists (sv <| sv_session := s' |>). split; [mstep; rewrite Eo; unfold runs, in_session; by rewrite E|done].
  - apply (relays_weaken 0 2); [lia|]. eapply relays_quiet; [mstep; apply runs_ret|done].
  - destruct (sv_diff_in_flight sv) eqn:Ef.
    { apply (relays_weaken 0 2); [lia|]. eapply relays_quiet; [mstep; rewrite Ef; apply runs_ret|done]. }
    apply (relays_weaken 1 2); [lia|]. eapply relays_session; [apply (check_sync_log c Hcalm now)|].
    intros s' acts E1. destruct (execute_actions_runs acts (sv <| sv_session := s' |>)) as (sv2 & E2 & Es).
    exists sv2. split; [|done]. mstep. rewrite Ef.
    eapply runs_bind; [unfold runs, in_session, on_tick; by rewrite E1|].
    eapply runs_bind; [exact E2|apply runs_ret].
  - eapply relays_session; [exact (handle_log c Hcalm Hanswers Hshort (Datagram b src now) He)|].
    intros s' acts E1. destruct (execute_actions_runs acts (sv <| sv_session := s' |>)) as (sv2 & E2 & Es).
    exists sv2. split; [|done]. cbn [handle] in E1.
    eapply runs_bind; [unfold runs, attempt, in_session; by rewrite E1|].
    eapply runs_bind; [exact E2|apply runs_ret].
  - apply (relays_weaken 0 2); [lia|]. eapply relays_quiet; [apply runs_ret|done].
  - apply (relays_weaken 0 2); [lia|]. destruct (run_task_runs i sv) as (sv' & E & Es).
    eapply relays_quiet; [eapply runs_bind; [exact E|apply runs_ret]|done].
  - apply (relays_weaken 1 2); [lia|]. apply shutdown_signal_relays.
  - apply (relays_weaken 0 2); [lia|]. eapply relays_quiet; [mstep; apply runs_ret|done].
Qed.

End traffic.
