(* ===== verification/ServerStream.v ===== *)
(** * The client's stream through the server's network loop

    Whatever the interleaving of the loop's events with its tasks, the session takes the client's
    reliable payloads once each and in order, and the loop does not fail. *)

From S2P Require Import Prelude Utf8 Grid Protocol Crypto Codec CodecFacts CodecProps.
From S2P Require Import TermState Pty ServerSession ServerFacts ServerProps ServerLog ServerNetwork ServerNetworkProps.

Section stream.
Context {P C T R : Type} `{PtyBackend P, PacketCodecLaws C, VtLaws T R}.
Abbreviation Server := (Server P C T R) (only parsing).
Implicit Types sv : Server.
Context (c : C).
Context (Hcalm : calm (P:=P) (C:=C)).
Hypothesis Hanswers : answers c.
Context (h : Z) (stream : Z → ClientPayload).
Hypothesis Hstream : ∀ k, wf (stream k) ∧ is_handshake (stream k) = false.

(** An event of the loop as one of the session, when it is one. *)
Definition event_of sv (e : net_event) : option event :=
  match e with
  | NPty data now => if sv_pty_open sv then Some (PtyData data now) else None
  | NTick now => if sv_diff_in_flight sv then None else Some (Tick now)
  | NRecv b src now => Some (Datagram b src now)
  | NPtyClosed | NRecvError | NTask _ | NShutdown | NSignal => None
  end.

(** The session part of an event. *)
Definition session_step (o : option event) : M (AuthoritativeSession P C T R) unit :=
  match o with Some e => attempt (handle e) ;; mret tt | None => mret tt end.

(** The packets received. *)
Definition received (e : option event) : option Z := e ≫= reliable c.

(** What the packet that ends the session changes. *)
Lemma shutdown_signal_quiet sv fed :
  as_codec (sv_session sv) = c → mirrors (as_term_state (sv_session sv)) → in_order h stream fed (sv_session sv) →
  ∃ sv' acts, runs shutdown_signal sv sv' acts ∧ progress h stream (sv_session sv) (sv_session sv') fed [].
Proof.
  intros Hc Hm Hio. assert (progress h stream (sv_session sv) (sv_session sv) fed []) as Hidle by by apply progress_idle.
  destruct (sv_phase sv) as [|[|copies] b t|] eqn:Ep; [destruct (sv_shutdown sv) eqn:Esh|..].
  - set (s := sv_session sv). set (s' := s <| as_seq_num := as_seq_num s +₆₄ 1 |>).
    assert (∃ r, attempt (a ← prepare_shutdown; mret [a]) s = (s', Ok r)) as [r Er].
    { unfold attempt, prepare_shutdown, seal, mbind, M_bind, modify, get, lift. cbn. fold s'.
      pose proof (Hanswers (as_seq_num s +₆₄ 1) 0 ServerPayload.Shutdown I) as Ha. cbn in Ha. rewrite <-Hc in Ha.
      revert Ha. change (as_codec (sv_session sv)) with (as_codec s).
      destruct (seal_server (as_codec s) (as_seq_num s +₆₄ 1) 0 ServerPayload.Shutdown) as [bss| |];
        intros Ha; [|discriminate Ha..].
      cbn. destruct (last bss); by eexists. }
    assert (∃ sv', runs (attempt (in_session (a ← prepare_shutdown; mret [a]))) (sv <| sv_shutdown := false |>) sv' r ∧
      sv_session sv' = s') as (sv' & E & Es).
    { exists (sv <| sv_shutdown := false |> <| sv_session := s' |>). split; [|done].
      unfold attempt in Er. unfold runs, attempt, in_session. cbn. fold s.
      destruct ((a ← prepare_shutdown; mret [a]) s) as [s2 [x| |]]; by injection Er as -> <-. }
    assert (progress h stream (sv_session sv) s' fed []) as Hp by by apply progress_idle.
    assert (∀ sv1 acts, runs (match r with
        | Some [SendPacket b target] =>
          modify (λ self : Server, self <| sv_phase := Closing 3 b target |>) ;; mret [SendPacket b target]
        | _ => modify (λ self : Server, self <| sv_phase := Stopped |>) ;; mret []
        end) sv' sv1 acts → runs shutdown_signal sv sv1 acts) as Hgo.
    { intros sv1 acts E1. mstep. rewrite Ep, Esh. mstep. eapply runs_bind; [exact E|exact E1]. }
    destruct r as [[|[b t|job t|k mask t|] [|a l]]|]; (eexists _, _; split; [apply Hgo; mstep; apply runs_ret|]);
      cbn; rewrite Es; exact Hp.
  - exists sv, []. split; [mstep; rewrite Ep, Esh; apply runs_ret|done].
  - eexists _, _. split; [mstep; rewrite Ep; mstep; apply runs_ret|done].
  - eexists _, _. split; [mstep; rewrite Ep; mstep; mstep; apply runs_ret|done].
  - eexists _, _. split; [mstep; rewrite Ep; apply runs_ret|done].
Qed.

(** An event of the loop makes the progress of the session's event. *)
Lemma serve_progress e sv fed :
  as_codec (sv_session sv) = c → mirrors (as_term_state (sv_session sv)) → in_order h stream fed (sv_session sv) →
  from_option (genuine_event c (as_session_id (sv_session sv)) stream) True (event_of sv e) →
  ∃ sv' acts effs, runs (serve e) sv sv' acts ∧
    progress h stream (sv_session sv) (sv_session sv') (from_option (λ k, {[k]} ∪ fed) fed (received (event_of sv e))) effs ∧
    omap shell_output effs = option_list (event_of sv e ≫= output_of).
Proof.
  intros Hc Hm Hio Hg. assert (progress h stream (sv_session sv) (sv_session sv) fed []) as Hidle by by apply progress_idle.
  assert (answers (as_codec (sv_session sv))) as Hans by by rewrite Hc.
  assert (∀ ev, event_of sv e = Some ev → ∃ s' acts effs, runs (handle ev) (sv_session sv) s' acts ∧
    progress h stream (sv_session sv) s' (from_option (λ k, {[k]} ∪ fed) fed (received (event_of sv e))) effs ∧
    omap shell_output effs = option_list (event_of sv e ≫= output_of)) as Hev.
  { intros ev Ev. rewrite Ev in Hg |- *. cbn in Hg. rewrite <-Hc in Hg.
    destruct (handle_progress Hcalm h stream Hstream ev (sv_session sv) fed Hm Hans Hio Hg) as (s' & acts & effs & E & Hp & Ho).
    exists s', acts, effs. unfold received. cbn. by rewrite <-Hc. }
  destruct e as [data now| |now|b src now| |i| |]; cbn [serve event_of] in *.
  - destruct (sv_pty_open sv) eqn:Eo; [|exists sv, [], []; split; [mstep; rewrite Eo; apply runs_ret|done]].
    destruct (Hev _ eq_refl) as (s' & acts & effs & E & Hr). exists (sv <| sv_session := s' |>), acts, effs.
    split; [mstep; rewrite Eo; unfold runs, in_session; by rewrite E|done].
  - eexists _, [], []. split; [mstep; apply runs_ret|done].
  - destruct (sv_diff_in_flight sv) eqn:Ef; [exists sv, [], []; split; [mstep; rewrite Ef; apply runs_ret|done]|].
    destruct (Hev _ eq_refl) as (s' & acts & effs & E & Hr).
    destruct (execute_actions_runs acts (sv <| sv_session := s' |>)) as (sv2 & E2 & Es). exists sv2, acts, effs.
    rewrite Es. split; [|done]. mstep. rewrite Ef. eapply runs_bind; [unfold runs, in_session; by rewrite E|].
    eapply runs_bind; [exact E2|apply runs_ret].
  - destruct (Hev _ eq_refl) as (s' & acts & effs & E & Hr).
    destruct (execute_actions_runs acts (sv <| sv_session := s' |>)) as (sv2 & E2 & Es). exists sv2, acts, effs.
    rewrite Es. split; [|done]. cbn [handle] in E. eapply runs_bind; [unfold runs, attempt, in_session; by rewrite E|].
    eapply runs_bind; [exact E2|apply runs_ret].
  - exists sv, [], []. split; [apply runs_ret|done].
  - destruct (run_task_runs i sv) as (sv' & E & Es). exists sv', [], [].
    split; [eapply runs_bind; [exact E|apply runs_ret]|]. by rewrite Es.
  - destruct (shutdown_signal_quiet sv fed Hc Hm Hio) as (sv' & acts & E & Hp). by exists sv', acts, [].
  - eexists _, [], []. split; [mstep; apply runs_ret|done].
Qed.
End stream.
