(* ===== verification/Repair.v ===== *)
(** * Lost fragments are repaired

    The transmission of a frame by the server's tasks, and the exchange that repairs a frame with
    missing fragments: the client reports what has arrived ([get_incomplete_frames]), the server sends
    the others again ([ResendFragments]), and their arrival completes the frame. *)

From S2P Require Import Prelude Utf8 Grid Protocol Crypto Codec CodecFacts WireFormat CodecProps.
From S2P Require Import TermState Pty ServerSession ServerFacts ServerProps ServerNetwork.

(** ** What a mask leaves to send *)

Lemma is_received_mask_bit mask idx : is_received mask idx = mask_bit mask (Z.of_nat idx).
Proof.
  unfold is_received, mask_bit. change 64 with (Z.of_nat 64). rewrite <-(Nat2Z.inj_div idx 64), Nat2Z.id.
  destruct (mask !! (idx / 64)%nat) as [w|]; cbn [default id]; [|by rewrite Z.testbit_0_l].
  rewrite <-(Nat2Z.inj_mod idx 64). pose proof (Nat.mod_upper_bound idx 64 ltac:(lia)) as Hb.
  set (b := Z.of_nat (idx mod 64)). assert (0 ≤ b) by lia. rewrite Z.shiftl_1_l.
  assert (Z.land w (2 ^ b) = if Z.testbit w b then 2 ^ b else 0) as ->.
  { apply Z.bits_inj'. intros n Hn. rewrite Z.land_spec, Z.pow2_bits_eqb by done.
    destruct (Z.eqb_spec b n) as [<-|Hne].
    - destruct (Z.testbit w b) eqn:E; [by rewrite Z.pow2_bits_true|by rewrite Z.testbit_0_l].
    - rewrite andb_false_r. destruct (Z.testbit w b); [|by rewrite Z.testbit_0_l].
      rewrite Z.pow2_bits_eqb by done. symmetry. by apply Z.eqb_neq. }
  destruct (Z.testbit w b); [|done]. apply negb_true_iff, Z.eqb_neq. pose proof (Z.pow_pos_nonneg 2 b). lia.
Qed.

(** The indices left. *)
Definition missing (mask : list Z) (idx n : nat) : list nat :=
  filter (λ j, is_received mask j = false) (seq idx n).

Lemma unreceived_missing mask bss :
  unreceived mask 0 bss = (λ j, default [] (bss !! j)) <$> missing mask 0 (length bss).
Proof.
  assert (∀ l idx, (∀ j b, l !! j = Some b → bss !! (idx + j)%nat = Some b) →
    unreceived mask idx l = (λ j, default [] (bss !! j)) <$> missing mask idx (length l)) as Hall.
  { induction l as [|b l IH]; intros idx Hl; [done|]. cbn [unreceived length]. unfold missing in *. cbn [seq].
    rewrite filter_cons, (IH (S idx)).
    - specialize (Hl 0%nat b eq_refl). rewrite Nat.add_0_r in Hl.
      destruct (is_received mask idx); [by rewrite decide_False|].
      rewrite decide_True by done. cbn. by rewrite Hl.
    - intros j b' Hj. replace (S idx + j)%nat with (idx + S j)%nat by lia. by apply Hl. }
  apply Hall. done.
Qed.

(** ** The client's report *)

Lemma NoDup_missing mask idx n : NoDup (missing mask idx n).
Proof. apply NoDup_filter, NoDup_seq. Qed.

Lemma elem_of_missing mask n j : j ∈ missing mask 0 n ↔ (j < n)%nat ∧ is_received mask j = false.
Proof. unfold missing. rewrite list_elem_of_filter, elem_of_seq. split; intros [? ?]; split; (done || lia). Qed.

(** The report on a frame whose fragments [order] have arrived. *)
Lemma arrived_report (cs : list bytes) seq (order : list nat) buf :
  (∃ j, j ∈ order) → arrived cs seq (Z.of_nat <$> order) buf → Forall (λ j, (j < length cs)%nat) order →
  (∃ j, (j < length cs)%nat ∧ j ∉ order) →
  ∃ mask, (∀ m, (seq, m) ∈ FragmentBuffer_get_incomplete_frames buf ↔ m = mask) ∧
    ∀ j, (j < length cs)%nat → is_received mask j = bool_decide (j ∈ order).
Proof.
  intros [j0 Hj0] (acc & frags & Hd & Hp & Hdom & _) Ho (m & Hm & Hmo).
  assert (frames buf !! seq = Some (len cs, acc, frags)) as Hf.
  { destruct (frames buf !! seq) as [e|]; cbn in Hd; [by rewrite Hd|]. injection Hd as _ <-. exfalso.
    assert (Z.of_nat j0 ∈ dom (∅ : gmap Z (list Z))) as Hin by (rewrite Hdom; set_solver). set_solver. }
  set (keys := (map_to_list frags).*1).
  assert (∀ z, z ∈ keys ↔ ∃ j, j ∈ order ∧ z = Z.of_nat j) as Hkeys.
  { intros z. transitivity (z ∈ dom frags).
    - unfold keys. rewrite list_elem_of_fmap, elem_of_dom. split.
      + intros ([k v] & -> & Hkv). apply elem_of_map_to_list in Hkv. by eexists.
      + intros [v Hv]. exists (z, v). split; [done|]. by apply elem_of_map_to_list.
    - rewrite Hdom, elem_of_list_to_set, list_elem_of_fmap. naive_solver. }
  assert (Forall (Z.le 0) keys) as Hpos.
  { apply Forall_forall. intros z (j & _ & ->)%Hkeys. lia. }
  assert (Z.of_nat (size frags) < len cs) as Hlt.
  { rewrite <-size_dom, Hdom. set (X := list_to_set (Z.of_nat <$> order) : gset Z).
    assert (size (X ∪ {[Z.of_nat m]}) ≤ size (list_to_set (seqZ 0 (len cs)) : gset Z))%nat as Hsz.
    { apply subseteq_size. intros z. rewrite elem_of_union, elem_of_singleton, elem_of_list_to_set, elem_of_seqZ.
      unfold X. rewrite elem_of_list_to_set, list_elem_of_fmap. rewrite Forall_forall in Ho. unfold len.
      intros [(j & -> & Hj)| ->]; [apply Ho in Hj|]; lia. }
    rewrite size_union, size_singleton, size_list_to_set, length_seqZ in Hsz by
      (apply NoDup_seqZ || (apply disjoint_singleton_r; unfold X;
        rewrite elem_of_list_to_set, list_elem_of_fmap; intros (j & E & Hj); by replace m with j in Hmo by lia)).
    unfold len in *. lia. }
  exists (mask_of (len cs) keys). split.
  - intros mask. unfold FragmentBuffer_get_incomplete_frames. rewrite list_elem_of_omap. split.
    + intros ([s [[total acc'] frags']] & Hin & Hmk). apply elem_of_BTree_iter in Hin. case_decide; [done|].
      injection Hmk as -> <-. rewrite Hf in Hin. by injection Hin as <- <- <-.
    + intros ->. exists (seq, (len cs, acc, frags)). split; [by apply elem_of_BTree_iter|].
      rewrite decide_False by lia. done.
  - intros j Hj. rewrite is_received_mask_bit.
    destruct (mask_of_spec (len cs) keys (Z.of_nat j) Hpos) as [_ ->].
    + unfold len. lia.
    + unfold len. split; [lia|]. Z.to_euclidean_division_equations. lia.
    + apply bool_decide_ext. rewrite Hkeys. split; [|by exists j].
      intros (j' & Hj' & ?). by replace j with j' by lia.
Qed.

(** ** The exchange *)

Section repair.
Context `{Bincode ClientPayload, Bincode ServerPayload,
          Bincode EncryptedClientPacket, Bincode EncryptedServerPacket, Aead, Lz4}.
Context `{!BincodeLaws ClientPayload, !BincodeLaws ServerPayload,
          !BincodeLaws EncryptedClientPacket, !BincodeLaws EncryptedServerPacket,
          !AeadLaws, !Lz4Laws}.

(** The missing fragments in any order. *)
Lemma resent_completes c c1 seq ack (p : ServerPayload) plain ct bss (l js : list nat) :
  wf p → u64 seq → u64 ack → serialize_compressed p = Ok plain → encrypt (cc_crypto c) seq plain = Ok ct →
  serialize_all (packets_of seq ack ct) = Ok bss → countable ct → 1 < len (pieces ct) →
  same_keys c c1 → arrived (pieces ct) seq (Z.of_nat <$> l) (cc_fragment_buffer c1) →
  NoDup js → js ≠ [] → (∀ j, j ∈ js ↔ (j < length bss)%nat ∧ j ∉ l) →
  ∃ c2 pkt st, open_all ((λ j, default [] (bss !! j)) <$> js) c1 =
      (c2, Ok (replicate (pred (length js)) None ++ [Some (pkt, p, st)])) ∧
    es_seq_num pkt = seq ∧ es_ack_seq_num pkt = ack.
Proof.
  intros Hp Hs Ha Hpl He Hser Hc Hmany Hk1 Ha1 Hnd Hne Hjs.
  destruct (serialize_all_lookup _ _ Hser) as [Elen _]. rewrite length_packets in Elen.
  destruct (exists_last Hne) as (front & i & ->). apply NoDup_app in Hnd as (_ & Hi & _).
  assert ((i < length bss)%nat ∧ i ∉ l) as [Hib Hil] by (apply Hjs; set_solver).
  assert (Forall (λ j, is_Some (bss !! j)) front) as Hfront.
  { apply Forall_forall. intros j Hj. apply lookup_lt_is_Some. apply Hjs. set_solver. }
  destruct (lookup_lt_is_Some_2 bss i Hib) as [b Hb].
  destruct (delivery_prefix c seq ack plain ct bss Hs Ha He Hser Hc Hmany front c1 (Z.of_nat <$> l))
    as (c2 & E2 & Hk2 & Ha2); [done..| |].
  { rewrite fmap_rev. intros Hcov. specialize (Hcov (Z.of_nat i)). unfold len in Hcov.
    rewrite elem_of_app, !list_elem_of_fmap in Hcov. destruct Hcov as [(j & E & Hj)|(j & E & Hj)]; [lia|..];
      (assert (j = i) as -> by lia); [|done]. rewrite elem_of_rev in Hj. apply (Hi i Hj). by left. }
  destruct (delivery_completes c seq ack p plain ct bss Hp Hs Ha Hpl He Hser Hc Hmany c2
    (rev (Z.of_nat <$> front) ++ (Z.of_nat <$> l)) i b) as (c3 & pkt & st & E3 & _ & ? & ?); [done..| |].
  { intros z Hz. unfold len in Hz. rewrite fmap_rev.
    destruct (decide (Z.to_nat z ∈ l)) as [Hin|Hno].
    - right. apply elem_of_app. right. apply list_elem_of_fmap. exists (Z.to_nat z). split; [lia|done].
    - assert (Z.to_nat z ∈ front ++ [i]) as [Hin|Hin]%elem_of_app by (apply Hjs; split; [lia|done]).
      + right. apply elem_of_app. left. apply list_elem_of_fmap. exists (Z.to_nat z).
        split; [lia|]. by apply elem_of_rev.
      + apply list_elem_of_singleton in Hin. replace z with (Z.of_nat i) by lia. left. }
  exists c3, pkt, st. split; [|done]. rewrite fmap_app, length_app. cbn [fmap list_fmap length]. rewrite Hb. cbn [default id].
  replace (pred (length front + 1)) with (length front) by lia. eapply open_all_snoc; [|exact E3].
  rewrite <-E2. f_equal. clear -Hfront. induction Hfront as [|j front [b Hb] _ IH]; [done|]. csimpl. rewrite Hb. cbn. by f_equal.
Qed.

(** C21. A report and its answer repair a frame. Some fragments of a frame have arrived, in any order
    with repetitions, and some have not: [get_incomplete_frames] reports the frame, once, with a mask;
    the fragments the server sends again for that mask are exactly the missing ones, each once, and
    their arrival, in any order, delivers the frame with the last of them and not before. *)
Theorem nack_repairs_frame c c' seq ack (p : ServerPayload) bss (order : list nat) :
  same_keys c c' → frames (cc_fragment_buffer c') !! seq = None →
  (size (frames (cc_fragment_buffer c')) < 32)%nat →
  wf p → u64 seq → u64 ack → seal_server c seq ack p = Ok bss → len bss < 2 ^ 16 →
  order ≠ [] → Forall (λ j, (j < length bss)%nat) order → (∃ j, (j < length bss)%nat ∧ j ∉ order) →
  ∃ c1 mask,
    open_all (omap (λ j, bss !! j) order) c' = (c1, Ok (replicate (length order) None)) ∧
    (∀ m, (seq, m) ∈ get_incomplete_frames c1 ↔ m = mask) ∧
    (∀ b, b ∈ unreceived mask 0 bss ↔ ∃ j, bss !! j = Some b ∧ j ∉ order) ∧
    ∀ resent, resent ≡ₚ unreceived mask 0 bss →
      ∃ c2 pkt st, open_all resent c1 =
          (c2, Ok (replicate (pred (length resent)) None ++ [Some (pkt, p, st)])) ∧
        es_seq_num pkt = seq ∧ es_ack_seq_num pkt = ack.
Proof.
  intros Hk Hfresh Hroom Hp Hs Ha Hseal Hl Hne Ho (m & Hm & Hmo).
  destruct (chacha_seal_server_inv c seq ack p bss Hp Hseal) as (plain & ct & Hpl & He & Hu & Hser).
  destruct (serialize_all_lookup _ _ Hser) as [Elen _]. rewrite length_packets in Elen.
  assert (countable ct) as Hc by (unfold countable, len in *; lia).
  destruct order as [|j0 order0] eqn:Eorder; [done|]. rewrite <-Eorder in *. clear Hne.
  assert (j0 ∈ order) as Hj0 by (rewrite Eorder; by left). clear Eorder order0.
  assert (1 < len (pieces ct)) as Hmany.
  { rewrite Forall_forall in Ho. pose proof (Ho _ Hj0) as Hlt. unfold len.
    destruct (decide (m = j0)) as [->|]; [by destruct Hmo|lia]. }
  destruct (delivery_prefix c seq ack plain ct bss Hs Ha He Hser Hc Hmany order c' [])
    as (c1 & E1 & Hk1 & Ha1); [done|by apply arrived_nil|..].
  { eapply Forall_impl; [exact Ho|]. intros j Hj. by apply lookup_lt_is_Some. }
  { rewrite app_nil_r, fmap_rev. unfold covers. intros Hcov. specialize (Hcov (Z.of_nat m)). apply Hmo.
    unfold len in Hcov. rewrite list_elem_of_fmap in Hcov. destruct Hcov as (j & E & Hj); [lia|].
    rewrite elem_of_rev in Hj. by replace m with j by lia. }
  rewrite app_nil_r, fmap_rev in Ha1.
  destruct (arrived_report (pieces ct) seq (rev order) (cc_fragment_buffer c1)) as (mask & Hmask & Hbits).
  { exists j0. by apply elem_of_rev. }
  { done. }
  { rewrite <-Elen. apply Forall_forall. intros j Hj. rewrite elem_of_rev in Hj. rewrite Forall_forall in Ho. by apply Ho. }
  { exists m. rewrite <-Elen, elem_of_rev. done. }
  assert (∀ j, j ∈ missing mask 0 (length bss) ↔ (j < length bss)%nat ∧ j ∉ order) as Hmiss.
  { intros j. rewrite elem_of_missing. split; intros [Hj Hx]; (split; [done|]); rewrite Hbits in * by lia.
    - apply bool_decide_eq_false in Hx. by rewrite elem_of_rev in Hx.
    - apply bool_decide_eq_false. by rewrite elem_of_rev. }
  exists c1, mask. split; [exact E1|]. split; [exact Hmask|]. split.
  { intros b. rewrite unreceived_missing, list_elem_of_fmap. split.
    - intros (j & -> & [Hj Hno]%Hmiss). exists j. split; [|done].
      by destruct (lookup_lt_is_Some_2 bss j Hj) as [b ->].
    - intros (j & Hb & Hno). exists j. rewrite Hb. split; [done|]. apply Hmiss.
      split; [by apply lookup_lt_Some in Hb|done]. }
  intros resent Hperm. rewrite unreceived_missing in Hperm. apply Permutation_map_inv in Hperm as (js & -> & Hjs).
  destruct (resent_completes c c1 seq ack p plain ct bss (rev order) js) as (c2 & pkt & st & E2 & Hr); [done..| | | |].
  - rewrite <-Hjs. apply NoDup_missing.
  - intros ->. assert (m ∈ missing mask 0 (length bss)) as Hin by by apply Hmiss.
    rewrite Hjs in Hin. by apply elem_of_nil in Hin.
  - intros j. rewrite <-Hjs, Hmiss, elem_of_rev. done.
  - exists c2, pkt, st. rewrite length_fmap. done.
Qed.
End repair.

(** ** The server's side *)

Section transmission.
Context {P C T R : Type} `{PtyBackend P, PacketCodec C, Vt T R}.
Abbreviation Server := (Server P C T R) (only parsing).
Implicit Types sv : Server.

(** An event the session asks nothing at. *)
Lemma serve_all_cons e es sv sv1 sv2 b :
  sv_phase sv ≠ Stopped → runs (serve e) sv sv1 [] → runs (serve_all es) sv1 sv2 b →
  runs (serve_all (e :: es)) sv sv2 b.
Proof.
  intros Hp E1 E2. cbn [serve_all]. mstep. destruct (sv_phase sv); [..|done];
    (eapply runs_bind; [exact E1|]; eapply runs_bind; [exact E2|apply runs_ret]).
Qed.

(** A task that goes on is put back at the end of the list. *)
Lemma serve_task i t sv sv1 rest :
  sv_tasks sv !! i = Some t → runs (task_step t) (sv <| sv_tasks ::= delete i |>) sv1 rest →
  runs (serve (NTask i)) sv (sv1 <| sv_tasks ::= λ l, l ++ option_list rest |>) [].
Proof.
  intros Ht E. cbn [serve]. eapply runs_bind; [|apply runs_ret]. unfold run_task. mstep. rewrite Ht. mstep.
  eapply runs_bind; [exact E|]. destruct rest; [apply runs_modify|]. unfold runs. cbn. f_equal.
  destruct sv1. cbn. by rewrite app_nil_r.
Qed.

(** A task at the end of the list that sends packets one after the other. *)
Lemma serve_sending (task : list (list Z) → Task C) t ps more sv sv' l :
  (∀ b ps, task_step (P:=P) (T:=T) (R:=R) (task (b :: ps)) = (send_to b t ;; mret (Some (task ps)))) →
  sv_phase sv ≠ Stopped → sv_tasks sv = l ++ [task ps] →
  runs (serve_all more) (sv <| sv_tasks := l ++ [task []] |> <| sv_sent ::= λ s, s ++ ((λ b, (b, t)) <$> ps) |>) sv' [] →
  runs (serve_all (replicate (length ps) (NTask (length l)) ++ more)) sv sv' [].
Proof.
  intros Htask. revert sv. induction ps as [|b ps IH]; intros sv Hp Ht Hmore.
  { refine (eq_ind _ (λ s, runs _ s sv' _) Hmore _ _). destruct sv. cbn in *. by rewrite Ht, app_nil_r. }
  assert (runs (serve (NTask (length l))) sv
    (sv <| sv_tasks := l ++ [task ps] |> <| sv_sent ::= λ s, s ++ [(b, t)] |>) []) as E1.
  { set (sv0 := sv <| sv_tasks ::= delete (length l) |>).
    assert (sv <| sv_tasks := l ++ [task ps] |> <| sv_sent ::= λ s, s ++ [(b, t)] |> =
      (sv0 <| sv_sent ::= λ s, s ++ [(b, t)] |>) <| sv_tasks ::= λ k, k ++ option_list (Some (task ps)) |>) as ->.
    { unfold sv0. cbn. f_equal. rewrite Ht, delete_middle, app_nil_r. done. }
    apply (serve_task (length l) (task (b :: ps))).
    - rewrite Ht. by apply list_lookup_middle.
    - rewrite Htask. mstep. apply runs_ret. }
  cbn [length replicate app]. eapply serve_all_cons; [done|exact E1|]. apply IH; [done|done|].
  refine (eq_ind _ (λ s, runs _ s sv' _) Hmore _ _). cbn. f_equal. by rewrite <-(assoc_L (++)).
Qed.

(** A frame is transmitted whole. A task that compiles a frame, given the processor for one step per
    fragment and two more, gives the socket exactly the frame's datagrams, in order, to the client's
    address; then it is gone, the flag is down for the next frame, and a frame of several fragments
    is in the retransmission cache; nothing else has changed. *)
Lemma frame_transmitted sv i job t bss :
  sv_phase sv ≠ Stopped → sv_tasks sv !! i = Some (TDiff job t) → UpdateJob_run job = Ok bss →
  runs (serve_all (NTask i :: replicate (S (length bss)) (NTask (pred (length (sv_tasks sv)))))) sv
    (sv <| sv_tasks ::= delete i |> <| sv_diff_in_flight := false |>
        <| sv_sent ::= λ s, s ++ ((λ b, (b, t)) <$> bss) |>
        <| sv_fragment_cache ::= λ c, if decide (1 < len bss) then cache_push (uj_seq job) bss c else c |>) [].
Proof.
  intros Hp Ht Hrun. set (l := delete i (sv_tasks sv)).
  assert (pred (length (sv_tasks sv)) = length l) as -> by (unfold l; rewrite length_delete by (by eexists); lia).
  set (sv1 := sv <| sv_tasks := l ++ [TBurst bss t] |>
    <| sv_fragment_cache ::= λ c, if decide (1 < len bss) then cache_push (uj_seq job) bss c else c |>).
  assert (runs (serve (NTask i)) sv sv1 []) as E1.
  { assert (sv1 = (sv <| sv_tasks ::= delete i |>
      <| sv_fragment_cache ::= λ c, if decide (1 < len bss) then cache_push (uj_seq job) bss c else c |>)
      <| sv_tasks ::= λ k, k ++ option_list (Some (TBurst bss t)) |>) as -> by done.
    apply (serve_task i (TDiff job t) sv); [done|]. cbn [task_step]. rewrite Hrun. unfold cache_frame.
    eapply runs_bind; [|apply runs_ret]. case_decide; [apply runs_modify|]. by destruct sv. }
  eapply serve_all_cons; [done|exact E1|]. rewrite replicate_S_end.
  apply (serve_sending (λ ps, TBurst ps t) t bss [NTask (length l)] sv1 _ l); [done..|].
  eapply serve_all_cons; [done| |apply runs_ret].
  set (sv2 := sv1 <| sv_tasks := l ++ [TBurst [] t] |> <| sv_sent ::= λ s, s ++ ((λ b, (b, t)) <$> bss) |>).
  refine (eq_ind _ (λ s, runs _ _ s _) (serve_task (length l) (TBurst [] t) sv2
    (sv2 <| sv_tasks ::= delete (length l) |> <| sv_diff_in_flight := false |>) None _ _) _ _).
  - by apply list_lookup_middle.
  - cbn [task_step]. mstep. apply runs_ret.
  - unfold sv2, sv1. cbn. f_equal. rewrite delete_middle, !app_nil_r. done.
Qed.

(** Later frames, at most three, leave a cached frame in the cache. *)
Lemma find_cached k (bss : list (list Z)) cache (later : list (Z * list (list Z))) :
  len cache ≤ 4 → k ∉ cache.*1 → k ∉ later.*1 → len later ≤ 3 →
  find_packets k (foldl (λ c e, cache_push e.1 e.2 c) (cache_push k bss cache) later) = Some bss.
Proof.
  intros Hc Hk Hl H3.
  assert (∃ front, cache_push k bss cache = front ++ [(k, bss)] ∧ k ∉ front.*1) as (front & E0 & Hf).
  { unfold cache_push. eexists. split; [done|]. case_decide; [|done]. destruct cache; [done|]. set_solver. }
  assert (∀ l more front, l ++ more = later → k ∉ front.*1 → len (front ++ (k, bss) :: l) ≤ 4 →
    find_packets k (foldl (λ c e, cache_push e.1 e.2 c) (front ++ (k, bss) :: l) more) = Some bss) as Hall.
  { clear front Hf E0. intros l more. revert l. induction more as [|[k' ps] more IH]; intros l front El Hf Hlen; cbn [foldl].
    - unfold find_packets. rewrite filter_app, filter_cons, decide_True by done.
      assert (filter (λ e : Z * list (list Z), e.1 = k) front = []) as ->; [|done].
      apply elem_of_nil_inv. intros [k2 p2] [E Hin]%list_elem_of_filter. cbn in E. subst k2.
      apply Hf, list_elem_of_fmap. by exists (k, p2).
    - assert (∃ front', cache_push k' ps (front ++ (k, bss) :: l) = (front' ++ (k, bss) :: (l ++ [(k', ps)])) ∧
        (k ∉ front'.*1) ∧ len (front' ++ (k, bss) :: (l ++ [(k', ps)])) ≤ 4) as (front' & E & Hf' & Hlen').
      { subst later. unfold cache_push. case_decide as H4.
        - destruct front as [|e front]; [unfold len in *; rewrite length_app in H3; cbn in *; lia|].
          exists front. split; [cbn; by rewrite <-(assoc_L (++))|]. split; [set_solver|].
          unfold len in *. cbn in *. rewrite !length_app in *. cbn in *. rewrite length_app. cbn. lia.
        - exists front. split; [by rewrite <-(assoc_L (++))|]. split; [done|].
          unfold len in *. rewrite !length_app in *. cbn in *. rewrite length_app. cbn. lia. }
      cbn [fst snd]. rewrite E. apply IH; [|done|done]. by rewrite <-(assoc_L (++)). }
  rewrite E0. apply (Hall [] later front); [done|done|]. rewrite <-E0. unfold cache_push. case_decide.
  - destruct cache; [done|]. unfold len in *. cbn [tail]. rewrite length_app. cbn in *. lia.
  - unfold len in *. rewrite length_app. cbn. lia.
Qed.
(** A retransmission sends exactly what the mask leaves out. A frame of several fragments is found
    in the cache until four later ones have been cached; while it is, the client's report is answered,
    given the processor for one step per fragment left and one more, by exactly the fragments whose
    bit is not set in its mask, in order, to the address the report came from. *)
Theorem retransmission sv k bss mask t cache (later : list (Z * list (list Z))) :
  sv_phase sv ≠ Stopped → len cache ≤ 4 → k ∉ cache.*1 → k ∉ later.*1 → len later ≤ 3 →
  sv_fragment_cache sv = foldl (λ c e, cache_push e.1 e.2 c) (cache_push k bss cache) later →
  ∃ sv', runs (execute_actions [ResendFragments k mask t]) sv sv' tt ∧
    runs (serve_all (replicate (S (length (unreceived mask 0 bss))) (NTask (length (sv_tasks sv))))) sv'
      (sv <| sv_sent ::= λ s, s ++ ((λ b, (b, t)) <$> unreceived mask 0 bss) |>) [].
Proof.
  intros Hp Hc Hk Hl H3 E. pose proof (find_cached k bss cache later Hc Hk Hl H3) as Hf. rewrite <-E in Hf.
  set (ps := unreceived mask 0 bss). exists (sv <| sv_tasks ::= λ l, l ++ [TResend ps t] |>). split.
  { eapply runs_bind; [|apply runs_ret]. cbn [execute_action]. mstep. rewrite Hf. apply runs_modify. }
  rewrite replicate_S_end. set (l := sv_tasks sv).
  apply (serve_sending (λ ps, TResend ps t) t ps [NTask (length l)]
    (sv <| sv_tasks ::= λ l, l ++ [TResend ps t] |>) _ l); [done..|].
  eapply serve_all_cons; [done| |apply runs_ret].
  set (sv2 := sv <| sv_tasks := l ++ [TResend [] t] |> <| sv_sent ::= λ s, s ++ ((λ b, (b, t)) <$> ps) |>).
  refine (eq_ind _ (λ s, runs _ _ s _) (serve_task (length l) (TResend [] t) sv2
    (sv2 <| sv_tasks ::= delete (length l) |>) None _ _) _ _).
  - by apply list_lookup_middle.
  - apply runs_ret.
  - unfold sv2. cbn. f_equal. rewrite delete_middle, !app_nil_r. done.
Qed.
End transmission.

(** ** Witnesses *)

(** Of three datagrams the first has arrived, twice. *)
Lemma nack_repairs_frame_witness :
  ∃ c1 mask, open_all (omap (λ j, demo_datagrams !! j) [0%nat; 0%nat]) demo_codec = (c1, Ok [None; None]) ∧
    (9, mask) ∈ get_incomplete_frames c1 ∧
    ∃ c2 pkt st, open_all (unreceived mask 0 demo_datagrams) c1 =
      (c2, Ok (replicate (pred (length (unreceived mask 0 demo_datagrams))) None ++
               [Some (pkt, ServerPayload.Frame demo_frame, st)])) ∧ es_seq_num pkt = 9.
Proof.
  assert (length demo_datagrams = 3%nat) as Hl by (vm_compute; reflexivity).
  destruct (nack_repairs_frame demo_codec demo_codec 9 4 (ServerPayload.Frame demo_frame) demo_datagrams
    [0%nat; 0%nat]) as (c1 & mask & E & Hm & _ & Hr); rewrite ?Hl.
  - split_and!; reflexivity.
  - vm_compute. reflexivity.
  - vm_compute. lia.
  - apply demo_frame_wf.
  - evaluate.
  - evaluate.
  - apply demo_sealed.
  - unfold len. rewrite Hl. reflexivity.
  - discriminate.
  - evaluate.
  - exists 1%nat. split; [lia|]. evaluate.
  - exists c1, mask. split; [exact E|]. split; [apply Hm; reflexivity|].
    destruct (Hr _ (reflexivity _)) as (c2 & pkt & st & E2 & Hs & _). exists c2, pkt, st. split; [exact E2|exact Hs].
Defined.

(** A server whose session has just queued a frame. *)
Abbreviation DemoServer := (Server FakePty NullCodec Toy.term Toy.render) (only parsing).
Definition demo_busy : DemoServer := (serve (NTick demo_tick) (Server_new demo_dirty [])).1.
Definition demo_job : option (UpdateJob NullCodec) :=
  match sv_tasks demo_busy with [TDiff job _] => Some job | _ => None end.
Definition demo_packets : list bytes :=
  match UpdateJob_run <$> demo_job with Some (Ok bss) => bss | _ => [] end.

Lemma frame_transmitted_witness :
  length demo_packets = 1%nat ∧
  ∃ sv, runs (serve_all [NTask 0; NTask 0; NTask 0]) demo_busy sv [] ∧
    sv_sent sv = (λ b, (b, demo_addr)) <$> demo_packets ∧ sv_diff_in_flight sv = false.
Proof.
  assert (length demo_packets = 1%nat) as Hl by (vm_compute; reflexivity). split; [exact Hl|].
  destruct demo_job as [job|] eqn:Ej; [|vm_compute in Ej; discriminate Ej].
  assert (sv_tasks demo_busy = [TDiff job demo_addr]) as Ht.
  { vm_compute in Ej. injection Ej as <-. vm_compute. reflexivity. }
  assert (UpdateJob_run job = Ok demo_packets) as Hr.
  { vm_compute in Ej. injection Ej as <-. vm_compute. reflexivity. }
  assert (sv_sent demo_busy = []) as Hs by (vm_compute; reflexivity).
  assert (sv_phase demo_busy ≠ Stopped) as Hp by (vm_compute; discriminate).
  assert (sv_tasks demo_busy !! 0%nat = Some (TDiff job demo_addr)) as H0 by (rewrite Ht; reflexivity).
  pose proof (frame_transmitted demo_busy 0 job demo_addr demo_packets Hp H0 Hr) as E. rewrite Ht, Hl in E.
  clear Ht Hp H0. revert Hs E. generalize demo_busy. intros sv Hs E. eexists. split; [exact E|]. cbn. rewrite Hs.
  split; reflexivity.
Defined.

(** A frame of three fragments is cached, another after it; the second of the three has arrived. *)
Definition demo_server : DemoServer :=
  (Server_new demo_session []) <| sv_fragment_cache := [(9, [[1]; [2]; [3]]); (10, [[4]; [5]])] |>.

Lemma retransmission_witness :
  ∃ sv', runs (execute_actions [ResendFragments 9 [2] demo_addr]) demo_server sv' tt ∧
    runs (serve_all (replicate 3 (NTask 0))) sv'
      (demo_server <| sv_sent := [([1], demo_addr); ([3], demo_addr)] |>) [].
Proof.
  apply (retransmission demo_server 9 [[1]; [2]; [3]] [2] demo_addr [] [(10, [[4]; [5]])]);
    [discriminate|vm_compute; discriminate|evaluate|evaluate|vm_compute; discriminate|reflexivity].
Defined.
