(* ===== verification/Readers.v ===== *)
(** * The reader threads: [src/src/server/pty.rs] (lines 71-85), [src/src/client/network.rs] (lines 126-155)

    The thread that forwards the shell's output to the server's loop, and the task that forwards what is
    typed to the client's. Each reads into a buffer and sends what was read on a channel, until the
    input ends, a read fails or nobody listens any more. What the operating system answers to the
    calls of [read] is a list; the messages become the events [NPty] and [LStdin] of the loops, and the end
    of the shell's reader [NPtyClosed]. *)

From S2P Require Import Prelude.

(** What a call of [read] does: the number it returns, and the bytes it has put at the start of the
    buffer it was lent; or an error. *)
Inductive Reading :=
  | ReadOk (n : nat) (data : list Z)
  | ReadError.

Definition overwrite (data buf : list Z) : list Z := data ++ drop (length data) buf.

(** [buf[..n].to_vec()] *)
Definition first_bytes (n : nat) (buf : list Z) : outcome (list Z) :=
  if decide (n ≤ length buf)%nat then Ok (take n buf) else Panic.

(** [accepts i]: the channel's receiver exists when message [i] is sent. The messages sent, and whether
    the thread has ended; otherwise it waits in [read]. *)
Abbreviation Forwarded := (list (list Z) * bool)%type (only parsing).
Definition sent_on (accepted : bool) (message : list Z) (rest : outcome Forwarded) : outcome Forwarded :=
  if accepted then '(messages, ended) ← rest; Ok (message :: messages, ended) else Ok ([], true).

(** One buffer for all the reads: what the reads before have left in it is still there. *)
Fixpoint pty_reader_loop (accepts : nat → bool) (i : nat) (buf : list Z) (readings : list Reading) : outcome Forwarded :=
  match readings with
  | [] => Ok ([], false)
  | ReadError :: _ => Ok ([], true)
  | ReadOk n data :: readings =>
    let buf := overwrite data buf in
    if decide (n = 0%nat) then Ok ([], true)
    else
      message ← first_bytes n buf;
      sent_on (accepts i) message (pty_reader_loop accepts (S i) buf readings)
  end.
Definition pty_reader (accepts : nat → bool) (readings : list Reading) : outcome Forwarded :=
  pty_reader_loop accepts 0 (replicate 4096 0) readings.

(** A new buffer for each read. *)
Fixpoint stdin_reader_loop (accepts : nat → bool) (i : nat) (readings : list Reading) : outcome Forwarded :=
  match readings with
  | [] => Ok ([], false)
  | ReadError :: _ => Ok ([], true)
  | ReadOk n data :: readings =>
    let buf := overwrite data (replicate 1024 0) in
    if decide (n = 0%nat) then Ok ([], true)
    else
      message ← first_bytes n buf;
      sent_on (accepts i) message (stdin_reader_loop accepts (S i) readings)
  end.
Definition stdin_reader (accepts : nat → bool) (readings : list Reading) : outcome Forwarded :=
  stdin_reader_loop accepts 0 readings.

(** ** Specification *)

(** The contract of [Read::read] on a buffer of [size] bytes. *)
Definition reads_within (size : nat) (r : Reading) : Prop :=
  match r with ReadOk n data => length data = n ∧ (n ≤ size)%nat | ReadError => True end.
#[export] Instance reads_within_dec size r : Decision (reads_within size r).
Proof. destruct r; cbn; apply _. Defined.

(** The input: the data up to its end. *)
Fixpoint delivered_by (readings : list Reading) : list (list Z) :=
  match readings with
  | ReadOk (S _) data :: readings => data :: delivered_by readings
  | _ => []
  end.
Definition ends (r : Reading) : bool := match r with ReadOk (S _) _ => false | _ => true end.

(** The messages that are accepted before the first that is not. *)
Fixpoint heard (accepts : nat → bool) (i : nat) (messages : list (list Z)) : list (list Z) :=
  match messages with
  | [] => []
  | m :: messages => if accepts i then m :: heard accepts (S i) messages else []
  end.

Lemma heard_prefix accepts i l : heard accepts i l `prefix_of` l.
Proof. revert i. induction l as [|m l IH]; intros i; [done|]. cbn. destruct (accepts i); [by apply prefix_cons|apply prefix_nil]. Qed.
Lemma heard_all accepts i l : (∀ j, accepts j = true) → heard accepts i l = l.
Proof. intros Ha. revert i. induction l as [|m l IH]; intros i; [done|]. cbn. by rewrite Ha, IH. Qed.

Lemma overwrite_length data buf size :
  length buf = size → (length data ≤ size)%nat → length (overwrite data buf) = size.
Proof. intros <- Hd. unfold overwrite. rewrite length_app, length_drop. lia. Qed.
(** Only what was read is sent, whatever the buffer held. *)
Lemma first_bytes_overwrite data buf size :
  length buf = size → (length data ≤ size)%nat → first_bytes (length data) (overwrite data buf) = Ok data.
Proof.
  intros Hb Hd. unfold first_bytes. rewrite decide_True by (by rewrite (overwrite_length data buf size)).
  unfold overwrite. by rewrite take_app_length.
Qed.

(** A loop that sends each reading's data and goes on. *)
Lemma reader_loop_spec (loop : nat → list Z → list Reading → outcome Forwarded) accepts size :
  (∀ i buf, loop i buf [] = Ok ([], false)) →
  (∀ i buf r readings, ends r = true → loop i buf (r :: readings) = Ok ([], true)) →
  (∀ i buf data readings, length buf = size → (0 < length data ≤ size)%nat →
     ∃ buf', length buf' = size ∧
       loop i buf (ReadOk (length data) data :: readings) = sent_on (accepts i) data (loop (S i) buf' readings)) →
  ∀ readings i buf, length buf = size → Forall (reads_within size) readings →
    ∃ ended, loop i buf readings = Ok (heard accepts i (delivered_by readings), ended) ∧
      (ended = true ↔ Exists (λ r, ends r = true) readings ∨
         ∃ j, (j < length (delivered_by readings))%nat ∧ accepts (i + j)%nat = false).
Proof.
  intros Hnil Hend Hgo. induction readings as [|r readings IH]; intros i buf Hb Hr.
  { exists false. split; [by rewrite Hnil|]. split; [done|]. intros [?%Exists_nil|(j & ? & _)]; [done|cbn in *; lia]. }
  apply Forall_cons in Hr as [Hr1 Hr]. destruct (ends r) eqn:Er.
  { exists true. rewrite Hend by done. split; [by destruct r as [[|n] data|]|]. split; [|done]. intros _. left. by constructor. }
  destruct r as [[|n] data|]; try done. cbn [reads_within] in Hr1. destruct Hr1 as [Hn Hs].
  destruct (Hgo i buf data readings Hb ltac:(lia)) as (buf' & Hb' & E). rewrite Hn in E. rewrite E.
  cbn [delivered_by heard]. unfold sent_on. destruct (accepts i) eqn:Ea.
  - destruct (IH (S i) buf' Hb' Hr) as (ended & -> & Hiff). exists ended. split; [done|]. rewrite Hiff, Exists_cons.
    cbn [length]. split.
    + intros [He|(j & Hj & Hf)]; [tauto|]. right. exists (S j). rewrite Nat.add_succ_r. split; [lia|done].
    + intros [[He|He]|([|j] & Hj & Hf)]; [done|tauto|rewrite Nat.add_0_r in Hf; congruence|]. right. exists j.
      rewrite Nat.add_succ_r in Hf. split; [lia|done].
  - exists true. split; [done|]. split; [|done]. intros _. right. exists 0%nat. rewrite Nat.add_0_r. cbn. split; [lia|done].
Qed.

(** C32. The readers forward the input. As long as [read] keeps its contract, neither thread fails. It sends
    what it has read up to the end of the input, an error, or the first message nobody listens
    to, in order, one nonempty message for each read, and nothing that an earlier read has left in
    the buffer; put together the messages are the input. It ends exactly when one of the three
    occurs, and otherwise waits for more. *)
Theorem readers_forward (accepts : nat → bool) (readings : list Reading) :
  let stops := Exists (λ r, ends r = true) readings ∨
    ∃ j, (j < length (delivered_by readings))%nat ∧ accepts j = false in
  (Forall (reads_within 4096) readings → ∃ ended,
     pty_reader accepts readings = Ok (heard accepts 0 (delivered_by readings), ended) ∧ (ended = true ↔ stops)) ∧
  (Forall (reads_within 1024) readings → ∃ ended,
     stdin_reader accepts readings = Ok (heard accepts 0 (delivered_by readings), ended) ∧ (ended = true ↔ stops)).
Proof.
  split; intros Hr.
  - apply (reader_loop_spec (pty_reader_loop accepts) accepts 4096); [done| | |by rewrite length_replicate|done].
    + intros i buf r rest Hr'. by destruct r as [[|n] data|].
    + intros i buf data rest Hb Hd. exists (overwrite data buf). split; [apply overwrite_length; [done|lia]|].
      cbn [pty_reader_loop]. rewrite decide_False by lia. rewrite (first_bytes_overwrite data buf 4096) by (done || lia). done.
  - apply (reader_loop_spec (λ i _, stdin_reader_loop accepts i) accepts 1024) with (buf := replicate 1024 0);
      [done| | |by rewrite length_replicate|done].
    + intros i buf r rest Hr'. by destruct r as [[|n] data|].
    + intros i buf data rest Hb Hd. exists buf. split; [done|].
      cbn [stdin_reader_loop]. rewrite decide_False by lia.
      rewrite (first_bytes_overwrite data (replicate 1024 0) 1024) by (by rewrite ?length_replicate || lia). done.
Qed.

(** A short read after a long one, then the end of the input. *)
Lemma readers_forward_witness :
  let readings := [ReadOk 3 [104; 105; 10]; ReadOk 1 [36]; ReadOk 0 []; ReadOk 1 [97]] in
  (∃ ended, pty_reader (λ _, true) readings = Ok ([[104; 105; 10]; [36]], ended)) ∧
  (∃ ended, stdin_reader (λ i, bool_decide (i = 0%nat)) readings = Ok ([[104; 105; 10]], ended)).
Proof.
  intros readings. split.
  - destruct (readers_forward (λ _, true) readings) as [Hp _]. destruct Hp as (ended & E & _).
    + apply (bool_decide_unpack _). vm_compute. exact I.
    + exists ended. exact E.
  - destruct (readers_forward (λ i, bool_decide (i = 0%nat)) readings) as [_ Hs]. destruct Hs as (ended & E & _).
    + apply (bool_decide_unpack _). vm_compute. exact I.
    + exists ended. exact E.
Defined.
