(* ===== verification/Lifecycle.v ===== *)
(** * The client's terminal: [src/src/client/lifecycle.rs]

    Raw mode and the alternate screen around a session: [TerminalLifecycle] takes the terminal over,
    gives it back while the client is suspended, and gives it back when it is dropped. The backend is
    the trait [LifecycleBackend]; [CrosstermBackend] calls the crossterm library and libc, whose
    functions are the class [Tty]. *)

From S2P Require Import Prelude.

(** ** The trait [LifecycleBackend] *)

Class LifecycleBackend (B : Type) := {
  enable_raw_mode : M B unit;
  disable_raw_mode : M B unit;
  enter_alternate_screen : M B unit;
  leave_alternate_screen : M B unit;
  terminal_size : M B (Z * Z);
  send_sigtstp : M B unit;
}.

(** What a backend does to the terminal: [raw] and [alt] are what it has set. An operation that fails
    changes nothing of them; the process is stopped and continued without touching the terminal. *)
Class LifecycleLaws (B : Type) `{LifecycleBackend B} := {
  raw : B → bool;
  alt : B → bool;
  enable_raw_law b : (enable_raw_mode b).2 ≠ Panic ∧ alt (enable_raw_mode b).1 = alt b ∧
    raw (enable_raw_mode b).1 = if is_ok (enable_raw_mode b).2 then true else raw b;
  disable_raw_law b : (disable_raw_mode b).2 ≠ Panic ∧ alt (disable_raw_mode b).1 = alt b ∧
    raw (disable_raw_mode b).1 = if is_ok (disable_raw_mode b).2 then false else raw b;
  enter_alt_law b : (enter_alternate_screen b).2 ≠ Panic ∧ raw (enter_alternate_screen b).1 = raw b ∧
    alt (enter_alternate_screen b).1 = if is_ok (enter_alternate_screen b).2 then true else alt b;
  leave_alt_law b : (leave_alternate_screen b).2 ≠ Panic ∧ raw (leave_alternate_screen b).1 = raw b ∧
    alt (leave_alternate_screen b).1 = if is_ok (leave_alternate_screen b).2 then false else alt b;
  size_law b : (terminal_size b).2 ≠ Panic ∧ raw (terminal_size b).1 = raw b ∧ alt (terminal_size b).1 = alt b;
  sigtstp_law b : (send_sigtstp b).2 ≠ Panic ∧ raw (send_sigtstp b).1 = raw b ∧ alt (send_sigtstp b).1 = alt b;
}.

(** ** [CrosstermBackend] *)

Inductive TtyCommand : Type :=
  | EnterAlternateScreen | LeaveAlternateScreen | HideCursor | ShowCursor | ClearScreen.

(** [crossterm::terminal], [crossterm::execute!] on stdout, and [libc::kill]. *)
Class Tty (O : Type) := {
  tty_enable_raw_mode : M O unit;
  tty_disable_raw_mode : M O unit;
  tty_execute : list TtyCommand → M O unit;
  tty_size : M O (Z * Z);
  tty_kill_self_sigtstp : O → O;
}.

#[export] Instance CrosstermBackend {O : Type} `{Tty O} : LifecycleBackend O := {|
  enable_raw_mode := tty_enable_raw_mode ;; mret tt;
  disable_raw_mode := tty_disable_raw_mode ;; mret tt;
  enter_alternate_screen := tty_execute [EnterAlternateScreen; HideCursor; ClearScreen] ;; mret tt;
  leave_alternate_screen := attempt (tty_execute [LeaveAlternateScreen; ShowCursor]) ;; mret tt;
  terminal_size := '(cols, rows) ← tty_size; mret (cols, rows);
  send_sigtstp := modify tty_kill_self_sigtstp |}.

(** ** [TerminalLifecycle]

    The lifecycle is the backend; [on_resume] and [on_resize] are given the terminal's size, or are
    not called when it cannot be had. *)
Section lifecycle.
Context {B : Type} `{LifecycleBackend B}.

(** The size to start with. *)
Definition with_backend : M B (Z * Z) :=
  enable_raw_mode ;;
  enter_alternate_screen ;;
  '(cols, rows) ← terminal_size;
  mret (cols, rows).

Definition suspend : M B (option (Z * Z)) :=
  attempt disable_raw_mode ;;
  attempt leave_alternate_screen ;;
  attempt send_sigtstp ;;
  attempt enable_raw_mode ;;
  attempt enter_alternate_screen ;;
  attempt terminal_size.

Definition clear_and_resize : M B (option (Z * Z)) :=
  attempt enter_alternate_screen ;;
  attempt terminal_size.

(** One signal [SIGWINCH] of the loop [spawn_resize_loop]. *)
Definition resize_signal : M B (option (Z * Z)) := attempt terminal_size.

(** [Drop] *)
Definition lifecycle_drop : M B unit :=
  attempt leave_alternate_screen ;;
  attempt disable_raw_mode ;;
  mret tt.

(** What happens between the start and the drop. *)
Inductive LifecycleCall := LSuspend | LClear | LWinch.
Definition lifecycle_call (c : LifecycleCall) : M B (option (Z * Z)) :=
  match c with LSuspend => suspend | LClear => clear_and_resize | LWinch => resize_signal end.

(** A client: the lifecycle is dropped when it exists. *)
Definition lifecycle_run (calls : list LifecycleCall) : M B unit :=
  with_backend ;; for_each_m calls (λ c, lifecycle_call c ;; mret tt) ;; lifecycle_drop.
End lifecycle.

(** On the real terminal. *)
Section crossterm.
Context {O : Type} `{Tty O}.
Definition TerminalLifecycle_new : M O (Z * Z) := with_backend.
Definition query_size : M O (Z * Z) := terminal_size.
End crossterm.

(** ** What is kept *)

Section laws.
Context {B : Type} `{LifecycleLaws B}.
Implicit Types b : B.

(** The two states of the terminal, as a pair. *)
Definition tty b : bool * bool := (raw b, alt b).

Lemma attempt_run {S A} (m : M S A) s : (m s).2 ≠ Panic → runs (attempt m) s (m s).1 (ok (m s).2).
Proof. unfold runs, attempt. by destruct (m s) as [s' [| |]]. Qed.

Lemma attempt_ops b :
  (∃ b' r, runs (attempt enable_raw_mode) b b' r ∧
     tty b' = (if is_ok (enable_raw_mode b).2 then true else raw b, alt b)) ∧
  (∃ b' r, runs (attempt disable_raw_mode) b b' r ∧
     tty b' = (if is_ok (disable_raw_mode b).2 then false else raw b, alt b)) ∧
  (∃ b' r, runs (attempt enter_alternate_screen) b b' r ∧
     tty b' = (raw b, if is_ok (enter_alternate_screen b).2 then true else alt b)) ∧
  (∃ b' r, runs (attempt leave_alternate_screen) b b' r ∧
     tty b' = (raw b, if is_ok (leave_alternate_screen b).2 then false else alt b)) ∧
  (∃ b' r, runs (attempt terminal_size) b b' r ∧ tty b' = tty b) ∧
  (∃ b' r, runs (attempt send_sigtstp) b b' r ∧ tty b' = tty b).
Proof.
  destruct (enable_raw_law b) as (P1 & A1 & R1), (disable_raw_law b) as (P2 & A2 & R2),
    (enter_alt_law b) as (P3 & R3 & A3), (leave_alt_law b) as (P4 & R4 & A4),
    (size_law b) as (P5 & R5 & A5), (sigtstp_law b) as (P6 & R6 & A6).
  unfold tty. split_and!; eexists _, _; (split; [by apply attempt_run|]); congruence.
Qed.

(** A backend whose operations succeed. *)
Definition works : Prop := ∀ b, is_ok (enable_raw_mode b).2 = true ∧ is_ok (disable_raw_mode b).2 = true ∧
  is_ok (enter_alternate_screen b).2 = true ∧ is_ok (leave_alternate_screen b).2 = true ∧
  is_ok (terminal_size b).2 = true.

(** The state of the terminal the calls pass through, when all works. *)
Lemma suspend_run b :
  ∃ b1 b' size, runs (attempt disable_raw_mode ;; attempt leave_alternate_screen ;; mret tt) b b1 tt ∧
    runs suspend b b' size ∧ (works → tty b1 = (false, false) ∧ tty b' = (true, true)).
Proof.
  destruct (attempt_ops b) as (_ & (b0 & r0 & E0 & T0) & _).
  destruct (attempt_ops b0) as (_ & _ & _ & (b1 & r1 & E1 & T1) & _).
  destruct (attempt_ops b1) as (_ & _ & _ & _ & _ & (b2 & r2 & E2 & T2)).
  destruct (attempt_ops b2) as ((b3 & r3 & E3 & T3) & _).
  destruct (attempt_ops b3) as (_ & _ & (b4 & r4 & E4 & T4) & _).
  destruct (attempt_ops b4) as (_ & _ & _ & _ & (b5 & r5 & E5 & T5) & _).
  exists b1, b5, r5. split; [eapply runs_bind; [exact E0|]; eapply runs_bind; [exact E1|apply runs_ret]|]. split.
  { unfold suspend. do 5 (eapply runs_bind; [eassumption|]). exact E5. }
  intros Hw. destruct (Hw b) as (_ & W0 & _), (Hw b0) as (_ & _ & _ & W1 & _), (Hw b2) as (W3 & _),
    (Hw b3) as (_ & _ & W4 & _). rewrite W0 in T0. rewrite W1 in T1. rewrite W3 in T3. rewrite W4 in T4.
  unfold tty in *. split; congruence.
Qed.

Lemma call_run c b :
  ∃ b' size, runs (lifecycle_call c) b b' size ∧ (works → tty b = (true, true) → tty b' = (true, true)).
Proof.
  destruct c; cbn [lifecycle_call].
  - destruct (suspend_run b) as (b1 & b' & size & _ & E & Ht). exists b', size. split; [done|]. intros Hw _. by apply Ht.
  - destruct (attempt_ops b) as (_ & _ & (b1 & r1 & E1 & T1) & _).
    destruct (attempt_ops b1) as (_ & _ & _ & _ & (b2 & r2 & E2 & T2) & _).
    exists b2, r2. split; [by eapply runs_bind|]. intros Hw Hb. destruct (Hw b) as (_ & _ & W & _).
    rewrite W in T1. unfold tty in *. congruence.
  - destruct (attempt_ops b) as (_ & _ & _ & _ & (b2 & r2 & E2 & T2) & _). exists b2, r2.
    split; [done|]. intros _. congruence.
Qed.

Lemma calls_run calls b :
  ∃ b', runs (for_each_m calls (λ c, lifecycle_call c ;; mret tt)) b b' tt ∧
    (works → tty b = (true, true) → tty b' = (true, true)).
Proof.
  revert b. induction calls as [|c calls IH]; intros b; [by exists b|].
  destruct (call_run c b) as (b1 & size & E1 & T1), (IH b1) as (b2 & E2 & T2). exists b2. split; [|auto].
  eapply runs_bind; [eapply runs_bind; [exact E1|apply runs_ret]|exact E2].
Qed.

Lemma drop_run b : ∃ b', runs lifecycle_drop b b' tt ∧ (works → tty b' = (false, false)).
Proof.
  destruct (attempt_ops b) as (_ & _ & _ & (b1 & r1 & E1 & T1) & _).
  destruct (attempt_ops b1) as (_ & (b2 & r2 & E2 & T2) & _).
  exists b2. split; [do 2 (eapply runs_bind; [eassumption|]); apply runs_ret|]. intros Hw.
  destruct (Hw b) as (_ & _ & _ & W1 & _), (Hw b1) as (_ & W2 & _). rewrite W1 in T1. rewrite W2 in T2.
  unfold tty in *. congruence.
Qed.

Lemma with_backend_run b :
  works → ∃ b' size, runs with_backend b b' size ∧ tty b' = (true, true).
Proof.
  intros Hw. unfold with_backend, runs, mbind, M_bind.
  destruct (enable_raw_law b) as (_ & A1 & R1), (Hw b) as (W1 & _).
  destruct (enable_raw_mode b) as [b1 [[]| |]]; [|done..]. cbn in *.
  destruct (enter_alt_law b1) as (_ & R2 & A2), (Hw b1) as (_ & _ & W2 & _).
  destruct (enter_alternate_screen b1) as [b2 [[]| |]]; [|done..]. cbn in *.
  destruct (size_law b2) as (_ & R3 & A3), (Hw b2) as (_ & _ & _ & _ & W3).
  destruct (terminal_size b2) as [b3 [[c r]| |]]; [|done..]. cbn in *.
  exists b3, (c, r). split; [done|]. unfold tty. congruence.
Qed.

(** C24. The terminal is given back. When the backend's operations succeed, a client that starts,
    is suspended, asks for help and follows resizes any number of times in any order, and ends, leaves
    the terminal out of raw mode and on its main screen; it has raw mode and the alternate screen
    after the start and after each of these calls, and a suspended client is stopped with both
    undone. None of the calls fails, even when the backend does. *)
Theorem terminal_restored calls b :
  (∀ b, ∃ b' size, runs suspend b b' size) ∧
  (works → ∃ b0 size b1 b2, runs with_backend b b0 size ∧ tty b0 = (true, true) ∧
     runs (for_each_m calls (λ c, lifecycle_call c ;; mret tt)) b0 b1 tt ∧ tty b1 = (true, true) ∧
     (∃ stopped, runs (attempt disable_raw_mode ;; attempt leave_alternate_screen ;; mret tt) b1 stopped tt ∧
        tty stopped = (false, false)) ∧
     runs (lifecycle_run calls) b b2 tt ∧ tty b2 = (false, false)).
Proof.
  split. { intros b0. destruct (suspend_run b0) as (b1 & b' & size & _ & E & _). eauto. }
  intros Hw. destruct (with_backend_run b Hw) as (b0 & size & E0 & T0), (calls_run calls b0) as (b1 & E1 & T1).
  destruct (suspend_run b1) as (stopped & b' & size' & Es & _ & Ts), (drop_run b1) as (b2 & E2 & T2).
  exists b0, size, b1, b2. split; [done|]. split; [done|]. split; [done|]. split; [auto|].
  split; [exists stopped; split; [done|by apply Ts]|]. split; [|auto].
  unfold lifecycle_run. do 2 (eapply runs_bind; [eassumption|]). exact E2.
Qed.

(** A failed start keeps raw mode. When raw mode was entered and the alternate screen, or the
    size, then fails, the client ends with that error before there is a lifecycle to drop, and the
    terminal is left in raw mode. *)
Theorem failed_start_keeps_raw calls b e :
  is_ok (enable_raw_mode b).2 = true → (with_backend b).2 = Err e →
  (lifecycle_run calls b).2 = Err e ∧ raw (lifecycle_run calls b).1 = true.
Proof.
  intros Hok Hf. assert (raw (with_backend b).1 = true) as Hr.
  { unfold with_backend, mbind, M_bind in *. destruct (enable_raw_law b) as (_ & _ & R1). rewrite Hok in R1.
    destruct (enable_raw_mode b) as [b1 [[]| |]]; [|done..]. cbn in *.
    destruct (enter_alt_law b1) as (_ & R2 & _). destruct (enter_alternate_screen b1) as [b2 [[]| |]]; cbn in *;
      [|congruence|done].
    destruct (size_law b2) as (_ & R3 & _). by destruct (terminal_size b2) as [b3 [[c r]| |]]; cbn in *; try congruence. }
  unfold lifecycle_run, mbind, M_bind. destruct (with_backend b) as [b1 o]. cbn in *. by subst o.
Qed.
End laws.

(** ** Instances *)

(** The backend of the code's own tests. *)
Record FakeLifecycleBackend := mkFakeLifecycle {
  fl_raw_mode : bool; fl_alt_screen : bool; fl_sigtstp_count : Z; fl_size : Z * Z }.
#[export] Instance FakeLifecycleBackend_eta : Eta FakeLifecycleBackend := λ b,
  mkFakeLifecycle (fl_raw_mode b) (fl_alt_screen b) (fl_sigtstp_count b) (fl_size b).

Definition FakeLifecycleBackend_new (cols rows : Z) : FakeLifecycleBackend :=
  {| fl_raw_mode := false; fl_alt_screen := false; fl_sigtstp_count := 0; fl_size := (cols, rows) |}.

#[export] Instance FakeLifecycle_backend : LifecycleBackend FakeLifecycleBackend := {|
  enable_raw_mode := modify (λ b, b <| fl_raw_mode := true |>);
  disable_raw_mode := modify (λ b, b <| fl_raw_mode := false |>);
  enter_alternate_screen := modify (λ b, b <| fl_alt_screen := true |>);
  leave_alternate_screen := modify (λ b, b <| fl_alt_screen := false |>);
  terminal_size := gets fl_size;
  send_sigtstp := modify (λ b, b <| fl_sigtstp_count ::= λ n, n +₆₄ 1 |>) |}.

#[export] Instance FakeLifecycle_laws : LifecycleLaws FakeLifecycleBackend.
Proof. refine (Build_LifecycleLaws _ _ fl_raw_mode fl_alt_screen _ _ _ _ _ _); by intros b. Defined.

Lemma FakeLifecycle_works : works (B:=FakeLifecycleBackend).
Proof. by intros b. Qed.

(** A terminal that takes escape sequences, or is not one. *)
Record DemoTty := mkDemoTty { dt_raw : bool; dt_alt : bool; dt_escapes : bool }.
#[export] Instance DemoTty_eta : Eta DemoTty := λ t, mkDemoTty (dt_raw t) (dt_alt t) (dt_escapes t).
Definition demo_command (t : DemoTty) (c : TtyCommand) : DemoTty :=
  match c with
  | EnterAlternateScreen => t <| dt_alt := true |>
  | LeaveAlternateScreen => t <| dt_alt := false |>
  | _ => t
  end.
#[export] Instance DemoTty_tty : Tty DemoTty := {|
  tty_enable_raw_mode := modify (λ t, t <| dt_raw := true |>);
  tty_disable_raw_mode := modify (λ t, t <| dt_raw := false |>);
  tty_execute cmds := t ← get; if dt_escapes t then modify (λ t, foldl demo_command t cmds) else fail (Msg "io::Error");
  tty_size := mret (80, 24);
  tty_kill_self_sigtstp := λ t, t |}.
(** [leave_alternate_screen] hides the error of a terminal without escape sequences, which is never on
    its alternate screen. *)
#[export] Instance DemoTty_laws : LifecycleLaws DemoTty.
Proof.
  refine (Build_LifecycleLaws _ _ dt_raw (λ t, dt_alt t && dt_escapes t) _ _ _ _ _ _); by intros [[] [] []].
Defined.

Lemma terminal_restored_witness :
  ∃ b2, runs (lifecycle_run [LSuspend; LWinch; LClear; LSuspend]) (FakeLifecycleBackend_new 80 24) b2 tt ∧
    tty b2 = (false, false).
Proof.
  destruct (terminal_restored [LSuspend; LWinch; LClear; LSuspend] (FakeLifecycleBackend_new 80 24)) as [_ Hr].
  destruct (Hr FakeLifecycle_works) as (_ & _ & _ & b2 & _ & _ & _ & _ & _ & E & T). by exists b2.
Defined.

Lemma failed_start_keeps_raw_witness :
  (lifecycle_run [LSuspend] (mkDemoTty false false false)).2 = Err (Msg "io::Error") ∧
  raw (lifecycle_run [LSuspend] (mkDemoTty false false false)).1 = true.
Proof.
  apply (failed_start_keeps_raw [LSuspend] (mkDemoTty false false false) (Msg "io::Error")); reflexivity.
Defined.
