(* ===== verification/ClientNetwork.v ===== *)
(** * The client's network loop: [src/src/client/network.rs]

    The handshake and the event loop of [run_client], which executes the session's actions: datagrams
    to the server, the renderer, the suspended terminal. What the operating system delivers (datagrams,
    typed input, signals, timers) is a sequence of events; writing on the socket is taken to succeed,
    and the help text, which goes straight to standard output, is not modelled. *)

From S2P Require Import Prelude Utf8 Text Grid Protocol Crypto Codec.
From S2P Require Import Frame Echo Terminal Render MirrorSession Lifecycle.

(** ** The handshake *)

(** What the wait for the reply ends with. *)
Inductive Reception :=
  | Arrived (b : list Z) (src : SocketAddr)
  | RecvFailed
  | TimedOut.

Section handshake.
Context `{Bincode ClientPayload, Bincode ServerPayload, Bincode EncryptedClientPacket,
          Bincode EncryptedServerPacket, Aead}.

Definition handshake_packet (crypto_handshake : CryptoManager) (handshake_seq cols rows : Z) : outcome (list Z) :=
  payload_bytes ← serialize (ClientPayload.Handshake 1 cols rows);
  ciphertext ← encrypt crypto_handshake handshake_seq payload_bytes;
  serialize {| ec_session_id := 0; ec_seq_num := handshake_seq; ec_ack_seq_num := 0; ec_ciphertext := ciphertext |}.

(** The session id and the server's sequence number in a reply to this handshake. *)
Definition accept_reply (crypto_handshake : CryptoManager) (handshake_seq : Z) (b : list Z) : option (Z * Z) :=
  match deserialize b with
  | Ok server_packet =>
    if decide (es_ack_seq_num server_packet = handshake_seq) then
      match decrypt crypto_handshake (es_seq_num server_packet) (es_ciphertext server_packet) with
      | Ok payload_bytes =>
        match deserialize payload_bytes with
        | Ok (ServerPayload.HandshakeAck s_id) => Some (s_id, es_seq_num server_packet)
        | _ => None
        end
      | _ => None
      end
    else None
  | _ => None
  end.

(** The state is the datagrams sent; [None] when the events end before the handshake does. *)
Fixpoint client_handshake (crypto_handshake : CryptoManager) (cols rows handshake_seq : Z)
    (receptions : list Reception) : M (list (list Z)) (option (Z * Z)) :=
  serialized ← lift (handshake_packet crypto_handshake handshake_seq cols rows);
  modify (λ sent, sent ++ [serialized]) ;;
  match receptions with
  | [] => mret None
  | r :: receptions =>
    match r with
    | Arrived b _ =>
      match accept_reply crypto_handshake handshake_seq b with
      | Some accepted => mret (Some accepted)
      | None => client_handshake crypto_handshake cols rows handshake_seq receptions
      end
    | RecvFailed | TimedOut =>
      client_handshake crypto_handshake cols rows (handshake_seq +₆₄ 1) receptions
    end
  end.
End handshake.

(** ** The event loop *)

Section client.
Context {C W B : Type} `{PacketCodec C, Stdout W, LifecycleBackend B}.

Record Client := mkClient {
  cl_session : MirrorSession C;
  cl_renderer : ClientTerminalRenderer W;
  cl_terminal : B;
  cl_tick_interval : Duration;
  cl_sent : list (list Z);
}.
#[export] Instance Client_eta : Eta Client := λ c,
  mkClient (cl_session c) (cl_renderer c) (cl_terminal c) (cl_tick_interval c) (cl_sent c).

Definition in_mirror {A} (m : M (MirrorSession C) A) : M Client A := λ self,
  let '(s, r) := m (cl_session self) in (self <| cl_session := s |>, r).
Definition in_terminal {A} (m : M B A) : M Client A := λ self,
  let '(b, r) := m (cl_terminal self) in (self <| cl_terminal := b |>, r).
Definition transmit (b : list Z) : M Client unit := modify (λ self, self <| cl_sent ::= λ l, l ++ [b] |>).

(** What the loop does next; [Stuck] when the renderer does not return. *)
Inductive Control := Continue | Exit | Stuck.

(** How long the painting takes and when the session is told of a new size. *)
Record Clock := mkClock { ck_paint_duration : Duration; ck_resumed : Instant }.

(** [renderer.paint()]: whether it returned; its error is logged. *)
Definition paint_screen : M Client Control := λ self,
  let '(r, o) := paint (cl_renderer self) in
  (self <| cl_renderer := r |>,
   match o with Ok None => Ok Stuck | Ok (Some _) | Err _ => Ok Continue | Panic => Panic end).

Definition paint_action (clock : Clock) : M Client Control :=
  self ← get;
  '(back_buffer, dirty) ← in_mirror (copy_frame_if_dirty (rn_back_buffer (cl_renderer self)));
  modify (λ self, self <| cl_renderer := mkRenderer (rn_stdout (cl_renderer self)) back_buffer |>) ;;
  if (dirty : bool) then
    c ← paint_screen;
    match c with
    | Stuck => mret Stuck
    | _ =>
      let target_interval :=
        Z.min (Z.max (ck_paint_duration clock * 3) (from_millis 16)) (from_millis 100) in
      modify (λ self, self <| cl_tick_interval := target_interval |>) ;;
      mret Continue
    end
  else
    modify (λ self, if decide (from_millis 16 < cl_tick_interval self)
      then self <| cl_tick_interval := Z.max (cl_tick_interval self - from_millis 1) (from_millis 16) |> else self) ;;
    mret Continue.

(** [session.on_winch] as the callback of the lifecycle: its actions and its error are dropped. *)
Definition tell_size (clock : Clock) (size : option (Z * Z)) : M Client unit :=
  match size with
  | Some (cols, rows) => attempt (in_mirror (on_winch cols rows (ck_resumed clock))) ;; mret tt
  | None => mret tt
  end.

Definition perform_action (clock : Clock) (action : ClientAction) : M Client Control :=
  match action with
  | ClientAction.SendPacket b => transmit b ;; mret Continue
  | ClientAction.Paint => paint_action clock
  | ClientAction.Suspend => size ← in_terminal suspend; tell_size clock size ;; mret Continue
  | ClientAction.ShowHelp => size ← in_terminal clear_and_resize; tell_size clock size ;; mret Continue
  | ClientAction.Disconnect => mret Exit
  end.

(** The actions up to one that ends the loop. *)
Fixpoint perform_actions (clock : nat → Clock) (i : nat) (actions : list ClientAction) : M Client Control :=
  match actions with
  | [] => mret Continue
  | action :: actions =>
    c ← perform_action (clock i) action;
    match c with
    | Continue => perform_actions clock (S i) actions
    | Exit | Stuck => mret c
    end
  end.

Inductive loop_event :=
  | LTick (order : list Z)
  | LRecv (b : list Z) (src : SocketAddr)
  | LRecvError
  | LStdin (bs : list Z)
  | LResize (cols rows : Z)
  | LClosed.

(** The actions of an event, [None] when it ends the loop. *)
Definition loop_actions (server_addr : SocketAddr) (e : loop_event) (now : Instant)
    : M Client (option (list ClientAction)) :=
  match e with
  | LTick order => actions ← in_mirror (on_tick order now); mret (Some actions)
  | LRecv b src =>
    if decide (src = server_addr) then actions ← in_mirror (feed_packet b now); mret (Some actions)
    else mret (Some [])
  | LRecvError | LClosed => mret None
  | LStdin bs => actions ← in_mirror (feed_stdin bs now); mret (Some actions)
  | LResize cols rows => actions ← in_mirror (on_winch cols rows now); mret (Some actions)
  end.

Definition loop_round (server_addr : SocketAddr) (e : loop_event) (now : Instant) (clock : nat → Clock)
    : M Client Control :=
  actions ← loop_actions server_addr e now;
  match actions with
  | Some actions => perform_actions clock 0 actions
  | None => mret Exit
  end.

(** The rounds of the loop, each with its event, its time and what the clock then reads. *)
Abbreviation Round := (loop_event * Instant * (nat → Clock))%type (only parsing).
Fixpoint client_loop (server_addr : SocketAddr) (rounds : list Round) : M Client Control :=
  match rounds with
  | [] => mret Continue
  | (e, now, clock) :: rounds =>
    c ← loop_round server_addr e now clock;
    match c with
    | Continue => client_loop server_addr rounds
    | Exit | Stuck => mret c
    end
  end.

(** *** The start of the session *)

(** The initial layout is sent; nothing else of its actions is performed. *)
Definition send_layout (cols rows : Z) (now : Instant) : M Client unit :=
  init_actions ← in_mirror (on_winch cols rows now);
  for_each_m init_actions (λ a, match a with ClientAction.SendPacket b => transmit b | _ => mret tt end).

Definition Client_new (session : MirrorSession C) (stdout : W) (terminal : B) (sent : list (list Z)) : Client :=
  {| cl_session := session; cl_renderer := mkRenderer stdout (TerminalFrame_new 0 0); cl_terminal := terminal;
     cl_tick_interval := from_millis 16; cl_sent := sent |}.
End client.
Arguments Client C W B : clear implicits.

(** ** [run_client] *)

Section run_client.
Context {W B : Type} `{Stdout W, LifecycleBackend B}.
Context `{Bincode ClientPayload, Bincode ServerPayload, Bincode EncryptedClientPacket,
          Bincode EncryptedServerPacket, Aead, Lz4}.

(** Whatever ends the loop, the lifecycle is dropped. [None]: the client is still in its handshake. *)
Definition run_client (server_addr : SocketAddr) (key_bytes : list Z) (overlay : bool) (stdout : W) (terminal : B)
    (receptions : list Reception) (start layout : Instant) (rounds : list (loop_event * Instant * (nat → Clock)))
    : B * outcome (option (list (list Z) * Control)) :=
  let crypto_handshake := CryptoManager_new key_bytes 0 in
  match terminal_size terminal with
  | (terminal, Ok (cols, rows)) =>
    match client_handshake crypto_handshake cols rows 1 receptions [] with
    | (sent, Ok (Some (session_id, server_seq))) =>
      match with_backend terminal with
      | (terminal, Ok (cols, rows)) =>
        let codec := ChaChaCodec_new key_bytes session_id in
        let session := MirrorSession_new session_id codec server_seq cols rows overlay start in
        let '(client, o) := (send_layout cols rows layout ;; client_loop server_addr rounds)
          (Client_new session stdout terminal sent) in
        ((lifecycle_drop (cl_terminal client)).1,
         match o with Ok c => Ok (Some (cl_sent client, c)) | Err e => Err e | Panic => Panic end)
      | (terminal, Err e) => (terminal, Err e)
      | (terminal, Panic) => (terminal, Panic)
      end
    | (_, Ok None) => (terminal, Ok None)
    | (_, Err e) => (terminal, Err e)
    | (_, Panic) => (terminal, Panic)
    end
  | (terminal, Err e) => (terminal, Err e)
  | (terminal, Panic) => (terminal, Panic)
  end.
End run_client.
