(* ===== verification/Display.v ===== *)
(** * The terminal shows the mirror

    [Terminal] says what the renderer is told to repaint, [Render] what painting puts on the display.
    Here the two are put together, along the actions of the client's loop: after a repaint the display
    shows the mirror. *)

From Stdlib Require Import Floats.SpecFloat.
From S2P Require Import Prelude Utf8 Text Grid Protocol Crypto Codec WireFormat Escape.
From S2P Require Import Float32 Frame Echo Terminal Render MirrorSession Lifecycle ClientNetwork.

(** ** What is on display *)

(** A glyph for every cell that starts one, but for the corner, which is never written; a blank cell may be
    left as a clear left it. *)
Definition displayed (f : TerminalFrame) (s : Screen) : Prop :=
  ∀ x y, 0 ≤ y < tf_rows f → x ∈ columns f y → ¬ corner f x y →
    sc_glyphs s !! (x, y) = Some (cell_text (cell_at f x y), cell_pen (cell_at f x y)) ∨
    cell_at f x y = blank_cell ∧ sc_glyphs s !! (x, y) = None.
Definition cursor_displayed (f : TerminalFrame) (s : Screen) : Prop :=
  sc_x s = tf_cursor_x f ∧ sc_y s = tf_cursor_y f ∧ sc_cursor_shown s = tf_cursor_visible f.

Lemma corner_same f f' x y : same_screen f f' → corner f x y ↔ corner f' x y.
Proof. intros (E1 & E2 & _). unfold corner. by rewrite E1, E2. Qed.

Lemma displayed_same f f' s : same_screen f f' → displayed f s → displayed f' s.
Proof.
  intros Hsame Hd x y Hy Hx Hc. rewrite <-(corner_same f f') in Hc by done.
  pose proof Hsame as (E1 & E2 & E3 & _). rewrite (columns_same f f') in Hx by done.
  assert (cell_at f' x y = cell_at f x y) as -> by (unfold cell_at; by rewrite E1, E3).
  apply Hd; [by rewrite E2|done..].
Qed.

Lemma cursor_displayed_same f f' s : same_view f f' → cursor_displayed f s → cursor_displayed f' s.
Proof. intros [(_ & _ & _ & E4 & E5) E6] (? & ? & ?). unfold cursor_displayed. by rewrite <-E4, <-E5, <-E6. Qed.

(** ** The calls *)

(** Calls that leave the predictions, the banner and the overlay out; the states fit the display. *)
Definition plainly (op : view_op) : Prop :=
  match op with
  | VApply g _ => grid_ok g ∧ gs_cols g < 65535 ∧ Forall (λ c, drawable c) (gs_cells g)
  | VPredict _ _ | VConsume | VToggle => False
  | VReconnecting b | VOverlay b => b = false
  | _ => True
  end.
#[export] Instance plainly_dec op : Decision (plainly op).
Proof. destruct op; apply _. Defined.

(** A call on the mirror alone. *)
Definition mirror_call (op : view_op) : M TerminalInner unit := λ t,
  let '((t', _), r) := view_step op (t, TerminalFrame_new 0 0) in (t', r).

(** No banner, no overlay, text in every cell. *)
Definition unadorned (f : TerminalFrame) : Prop :=
  tf_reconnecting f = false ∧ tf_overlay_enabled f = false ∧ tf_cols f < 65535 ∧
  Forall (λ c, drawable c) (tf_cell_cache f).

(** What the renderer relies on between its paints: [t] is the mirror, [back] the back buffer and [s] the
    display. *)
Record in_step (t : TerminalInner) (back : TerminalFrame) (s : Screen) : Prop := {
  is_paintable : paintable (t, back);
  is_unadorned : unadorned (ti_frame t);
  is_clear : tf_clear_requested (ti_frame t) = true →
    (∀ y, 0 ≤ y < tf_rows (ti_frame t) → row_flagged (ti_frame t) y) ∧
    (tf_dirty (ti_frame t) = false → Forall (λ c, c = blank_cell) (tf_cell_cache (ti_frame t)));
  is_cursor : tf_dirty (ti_frame t) = false →
    tf_cursor_x (ti_frame t) = tf_cursor_x back ∧ tf_cursor_y (ti_frame t) = tf_cursor_y back ∧
    tf_cursor_visible (ti_frame t) = tf_cursor_visible back;
  is_shown : displayed back s;
  is_placed : tf_dirty (ti_frame t) = true ∨ cursor_displayed back s;
}.

(** *** Calls that flag *)

Definition adorns_not (m : M TerminalInner unit) : Prop := ∀ t,
  unadorned (ti_frame t) → tf_reconnecting (ti_frame (m t).1) = false ∧ tf_overlay_enabled (ti_frame (m t).1) = false.

Lemma modify_adorns_not (h : TerminalFrame → TerminalFrame) :
  (∀ f, tf_reconnecting (h f) = tf_reconnecting f ∧ tf_overlay_enabled (h f) = tf_overlay_enabled f) →
  adorns_not (on_frame (modify h)).
Proof. intros Hh t (Hr & Ho & _). cbn. destruct (Hh (ti_frame t)) as [-> ->]. done. Qed.

Lemma in_step_flag m t back s :
  flag_step m → adorns_not m → in_step t back s → ∃ t', m t = (t', Ok tt) ∧ in_step t' back s.
Proof.
  intros Hm Ha [(Hok & He & Hcov) Hun Hclear Hcur Hsh Hpl]. cbn [fst snd] in *. destruct (Hm t Hok) as (f' & E & Ht).
  pose proof (Ha t Hun) as [Hr Ho]. rewrite E in Hr, Ho. cbn in Hr, Ho.
  eexists. split; [exact E|]. pose proof Ht as [Hsame Hv Hlen Hfl Hd Hc]. pose proof Hsame as (E1 & E2 & E3 & E4 & E5).
  assert (tf_dirty f' = false → tf_dirty (ti_frame t) = false) as Hd' by (destruct (tf_dirty (ti_frame t)); [by rewrite Hd|done]).
  split; cbn.
  - split; [by eapply touched_ok|]. split; [done|]. by eapply touched_covered.
  - destruct Hun as (_ & _ & Hcols & Hcells). unfold unadorned. by rewrite <-E1, <-E3.
  - rewrite Hc, <-E2, <-E3. intros [Hall Hblank]%Hclear. split; [intros y Hy; by apply Hfl, Hall|]. by intros ?%Hd'%Hblank.
  - intros ?%Hd'%Hcur. by rewrite <-E4, <-E5, Hv.
  - done.
  - destruct Hpl; [left; by apply Hd|by right].
Qed.

Lemma dirty_if_adorns b f f' :
  tf_reconnecting f' = tf_reconnecting f ∧ tf_overlay_enabled f' = tf_overlay_enabled f →
  tf_reconnecting (dirty_if b f') = tf_reconnecting f ∧ tf_overlay_enabled (dirty_if b f') = tf_overlay_enabled f.
Proof. by destruct b. Qed.

Lemma record_rtt_loss_adorns rtt loss : adorns_not (record_rtt_loss rtt loss).
Proof.
  apply modify_adorns_not. intros f. set (rtt_part := match rtt with Some _ => _ | None => _ end).
  assert (tf_reconnecting rtt_part.1 = tf_reconnecting f ∧ tf_overlay_enabled rtt_part.1 = tf_overlay_enabled f) as Hp.
  { unfold rtt_part. destruct rtt as [rtt|]; [|done]. by destruct (decide _). }
  destruct rtt_part as [f1 ch]. cbn in Hp. destruct loss as [loss|]; [|by apply dirty_if_adorns].
  destruct (f32_gt _ tenth); by apply dirty_if_adorns.
Qed.
Lemma record_bandwidth_adorns kb_s ratio : adorns_not (record_bandwidth_compression kb_s ratio).
Proof. apply modify_adorns_not. intros f. cbn zeta. destruct (_ || _); [by apply dirty_if_adorns|done]. Qed.
Lemma record_fps_adorns fps : adorns_not (record_fps fps).
Proof. apply modify_adorns_not. intros f. case_decide; [by apply dirty_if_adorns|done]. Qed.
Lemma mark_dirty_adorns : adorns_not mark_dirty.
Proof. by apply modify_adorns_not. Qed.
Lemma set_overlay_adorns : adorns_not (set_overlay_enabled false).
Proof. by intros t (? & _). Qed.
Lemma set_reconnecting_adorns : adorns_not (set_reconnecting false).
Proof.
  intros t (Hr & Ho & _). unfold set_reconnecting, on_frame, get, mbind, M_bind. rewrite Hr. by rewrite decide_False by tauto.
Qed.
#[export] Hint Resolve record_rtt_loss_adorns record_bandwidth_adorns record_fps_adorns mark_dirty_adorns
  set_overlay_adorns set_reconnecting_adorns : view.

(** *** A new state *)

Lemma apply_frame_keeps g seq t t' r :
  frame_ok (ti_frame t) → unpredicted t → apply_frame g seq t = (t', Ok r) →
  ∃ base, update_from_grid_state g (ti_frame t) = (base, Ok r) ∧ ti_frame t' = base <| tf_last_seq := seq |>.
Proof.
  intros Hok He. unfold apply_frame, on_frame, on_engine, mbind, M_bind, modify.
  destruct (update_from_grid_state g (ti_frame t)) as [base [b|e|]]; [|done..]. cbn.
  rewrite reconcile_frame_eq, survivors_none by (by rewrite He). cbn. intros [= <- <-]. by exists base.
Qed.

(** The frame after a new state, by whether its size changes. *)
Lemma update_resized f g base r :
  frame_wf f → grid_wf g → update_from_grid_state g f = (base, Ok r) → tf_cols f ≠ gs_cols g ∨ tf_rows f ≠ gs_rows g →
  (∀ y, 0 ≤ y < tf_rows base → row_flagged base y) ∧
  (tf_dirty base = false → Forall (λ c, c = blank_cell) (tf_cell_cache base) ∧ tf_dirty f = false ∧
     tf_cursor_x base = tf_cursor_x f ∧ tf_cursor_y base = tf_cursor_y f ∧ tf_cursor_visible base = tf_cursor_visible f).
Proof.
  intros Hf Hg E Hre. destruct (update_frame_run f g Hf Hg)
    as (f' & E' & _ & E1 & E2 & E3 & E4 & E5 & E6 & Hfl & Hd & _).
  rewrite E in E'. injection E' as <- _. unfold sized_frame, frame_resize in Hfl, Hd. rewrite decide_True in Hfl, Hd by done.
  cbn [fst] in Hfl, Hd. split.
  - intros y Hy. rewrite E2 in Hy. apply Hfl; [done|]. left. by apply lookup_vec.
  - intros Hnd. assert (¬ tf_dirty base = true) as Hnd' by congruence. rewrite Hd in Hnd'. cbn in Hnd'.
    assert (tf_cursor_x f = gs_cursor_x g ∧ tf_cursor_y f = gs_cursor_y g ∧ tf_cursor_visible f = gs_cursor_visible g)
      as (C1 & C2 & C3) by (apply dec_stable; tauto).
    split; [|split; [by destruct (tf_dirty f); [destruct Hnd'; left|]|by rewrite E4, E5, E6]].
    pose proof Hg as (Hc & Hr & Hl & _). unfold fits in Hc, Hr.
    assert (gs_cells g = vec blank_cell (gs_cols g * gs_rows g)) as Ecells.
    { symmetry. apply (rows_same_eq (gs_cols g) (gs_rows g)); [lia|apply len_vec; nia|done|].
      intros y Hy. apply not_row_differs. intros Hdiff. apply Hnd'. right; left. by exists y. }
    rewrite E3, Ecells. apply Forall_forall. intros c Hin. unfold vec in Hin. by apply elem_of_replicate in Hin as [-> _].
Qed.

Lemma update_unsized f g base r :
  frame_wf f → grid_wf g → update_from_grid_state g f = (base, Ok r) → ¬ (tf_cols f ≠ gs_cols g ∨ tf_rows f ≠ gs_rows g) →
  tf_clear_requested base = tf_clear_requested f ∧ tf_rows base = tf_rows f ∧
  (∀ y, 0 ≤ y < tf_rows base → row_flagged f y → row_flagged base y) ∧
  (tf_dirty base = false → tf_dirty f = false ∧ tf_cell_cache base = tf_cell_cache f ∧
     tf_cursor_x base = tf_cursor_x f ∧ tf_cursor_y base = tf_cursor_y f ∧ tf_cursor_visible base = tf_cursor_visible f).
Proof.
  intros Hf Hg E Hre. destruct (update_frame_run f g Hf Hg)
    as (f' & E' & _ & E1 & E2 & E3 & E4 & E5 & E6 & Hfl & Hd & Hcl & _).
  rewrite E in E'. injection E' as <- _. unfold sized_frame, frame_resize in Hfl, Hd, Hcl.
  rewrite decide_False in Hfl, Hd, Hcl by done. cbn [fst] in *. split; [done|].
  assert (tf_cols f = gs_cols g ∧ tf_rows f = gs_rows g) as [F1 F2] by (split; apply dec_stable; tauto).
  split; [congruence|]. split; [intros y Hy Hy'; rewrite E2 in Hy; apply Hfl; [done|by left]|].
  intros Hnd. assert (¬ tf_dirty base = true) as Hnd' by congruence. rewrite Hd in Hnd'.
  assert (tf_cursor_x f = gs_cursor_x g ∧ tf_cursor_y f = gs_cursor_y g ∧ tf_cursor_visible f = gs_cursor_visible g)
    as (C1 & C2 & C3) by (apply dec_stable; tauto).
  split; [by destruct (tf_dirty f); [destruct Hnd'; left|]|]. split; [|by rewrite E4, E5, E6].
  destruct Hf as (Hc & _ & Hl & _). destruct Hg as (_ & _ & Hl' & _). unfold fits in Hc. rewrite F1, F2 in *.
  rewrite E3. symmetry. apply (rows_same_eq (gs_cols g) (gs_rows g)); [lia|done|done|].
  intros y Hy. apply not_row_differs. intros Hdiff. apply Hnd'. right; left. by exists y.
Qed.

Lemma in_step_apply t back s g seq :
  plainly (VApply g seq) → in_step t back s → ∃ t' r, apply_frame g seq t = (t', Ok r) ∧ in_step t' back s.
Proof.
  intros (Hg & Hgc & Hgd) Hin. pose proof Hin as [(Hok & He & Hcov) (Hr & Ho & Hcols & Hcells) Hclear Hcur Hsh Hpl].
  cbn [fst snd] in *. pose proof Hok as [Hwf _]. pose proof Hg as [Hgwf _].
  destruct (view_step_paintable (VApply g seq) (t, back)) as ([t' back'] & E & Hp); [done|by intros ?|by split|].
  cbn in E. unfold on_mirror in E. cbn in E. destruct (apply_frame g seq t) as [t1 r1] eqn:Ea.
  destruct r1 as [r| |]; [|done..]. injection E as -> <-.
  destruct (apply_frame_keeps g seq t t' r Hok He Ea) as (base & Eu & Ef). exists t', r. split; [done|].
  destruct (update_frame_run (ti_frame t) g Hwf Hgwf)
    as (f' & E' & W & E1 & E2 & E3 & _ & _ & _ & _ & _ & Hcl & _ & Erec & Eov).
  rewrite Eu in E'. injection E' as <- _.
  assert (unadorned (ti_frame t')) as Hun by (rewrite Ef; unfold unadorned; cbn; by rewrite Erec, Eov, E1, E3).
  destruct (decide (tf_cols (ti_frame t) ≠ gs_cols g ∨ tf_rows (ti_frame t) ≠ gs_rows g)) as [Hre|Hre].
  - destruct (update_resized _ _ _ _ Hwf Hgwf Eu Hre) as [Hall Hnd].
    split; [done|done|rewrite Ef..|done|rewrite Ef]; cbn.
    + intros _. split; [exact Hall|]. intros Hd. by apply Hnd.
    + intros (_ & Hd & -> & -> & ->)%Hnd. by apply Hcur.
    + destruct (tf_dirty base) eqn:Hd; [by left|right]. destruct (Hnd eq_refl) as (_ & Hd' & _).
      destruct Hpl as [?|?]; [congruence|done].
  - destruct (update_unsized _ _ _ _ Hwf Hgwf Eu Hre) as (Ecl & Erows & Hfl & Hnd).
    split; [done|done|rewrite Ef..|done|rewrite Ef]; cbn.
    + rewrite Ecl. intros [Hall Hblank]%Hclear. split; [intros y Hy; apply Hfl; [done|]; apply Hall; by rewrite <-Erows|].
      intros (Hd & -> & _)%Hnd. by apply Hblank.
    + intros (Hd & _ & -> & -> & ->)%Hnd. by apply Hcur.
    + destruct (tf_dirty base) eqn:Hd; [by left|right]. destruct (Hnd eq_refl) as (Hd' & _).
      destruct Hpl as [?|?]; [congruence|done].
Qed.

(** *** Any call *)

Lemma mirror_call_run {A} op (m : M TerminalInner A) t t' (a : A) :
  view_step op = on_mirror m → m t = (t', Ok a) → mirror_call op t = (t', Ok tt).
Proof. intros Eop E. unfold mirror_call. rewrite Eop. unfold on_mirror. cbn. by rewrite E. Qed.

Lemma mirror_call_in_step op t back s :
  plainly op → in_step t back s → ∃ t', mirror_call op t = (t', Ok tt) ∧ in_step t' back s.
Proof.
  intros Hop Hin. destruct op as [g seq|bs seq|ack| | |rtt loss|kb_s ratio|fps|b|b| |]; cbn [plainly] in Hop; subst; try done.
  - destruct (in_step_apply t back s g seq Hop Hin) as (t' & r & E & Hin'). exists t'. split; [|done]. by eapply mirror_call_run.
  - exists t. split; [|done]. destruct Hin as [(_ & He & _)]. unfold unpredicted in He. cbn in He.
    destruct t as [f [log ep]]. cbn in He. by subst log.
  - destruct t as [f [log ep]]. destruct Hin as [(Hok & He & Hcov) ? ? ? ? ?]. unfold unpredicted in He. cbn in He. subst log.
    eexists (mkInner f _). split; [reflexivity|]. by split.
  - destruct (in_step_flag (record_rtt_loss rtt loss) t back s) as (t' & E & ?); [auto with view..|].
    exists t'. split; [by eapply mirror_call_run|done].
  - destruct (in_step_flag (record_bandwidth_compression kb_s ratio) t back s) as (t' & E & ?); [auto with view..|].
    exists t'. split; [by eapply mirror_call_run|done].
  - destruct (in_step_flag (record_fps fps) t back s) as (t' & E & ?); [auto with view..|].
    exists t'. split; [by eapply mirror_call_run|done].
  - destruct (in_step_flag (set_reconnecting false) t back s) as (t' & E & ?); [auto with view..|].
    exists t'. split; [by eapply mirror_call_run|done].
  - destruct (in_step_flag (set_overlay_enabled false) t back s) as (t' & E & ?); [auto with view..|].
    exists t'. split; [by eapply mirror_call_run|done].
  - destruct (in_step_flag mark_dirty t back s) as (t' & E & ?); [auto with view..|].
    exists t'. split; [by eapply mirror_call_run|done].
Qed.

(** ** A repaint *)

(** A frame that is only to be cleared. *)
Lemma paint_only_clears f (s : Screen) :
  tf_dirty f = false → paint (mkRenderer s f) =
    (mkRenderer (if tf_clear_requested f then s <| sc_glyphs := ∅ |> else s)
       (f <| tf_clear_requested := false |>), Ok (Some false)).
Proof.
  intros Hd. unfold paint, paint_painter, get, mbind, M_bind, mret, M_ret. cbn. destruct (tf_clear_requested f) eqn:Ec; cbn; rewrite Hd; [done|].
  destruct f. cbn in *. by subst.
Qed.

(** The frame handed to the renderer, painted. *)
Lemma paint_displays f back (s : Screen) :
  frame_wf f → unadorned f → displayed back s → covered back f →
  (tf_clear_requested f = true → (∀ y, 0 ≤ y < tf_rows f → row_flagged f y) ∧
     (tf_dirty f = false → Forall (λ c, c = blank_cell) (tf_cell_cache f))) →
  (tf_dirty f = false → tf_clear_requested f = true ∧ cursor_displayed f s) →
  ∃ s' f' real, paint (mkRenderer s f) = (mkRenderer s' f', Ok (Some real)) ∧
    same_view f' f ∧ displayed f' s' ∧ cursor_displayed f' s'.
Proof.
  intros Hwf (Hrec & Hov & Hcols & Hcells) Hsh [Hrows _] Hclear Hnd. destruct (tf_dirty f) eqn:Hd.
  - destruct (paint_run f s Hwf Hcols Hcells Hd Hrec Hov)
      as (s' & f' & E & Hdrawn & Hkept & Hx & Hy & Hv & _ & _ & _ & E1 & E2 & E3 & E4 & E5 & E6).
    assert (same_screen f' f) as Hsame by done.
    exists s', f', (existsb (flagged f) (range (tf_rows f))). split; [exact E|]. split; [done|].
    split; [|by unfold cursor_displayed; rewrite E4, E5, E6]. apply (displayed_same f); [by symmetry|].
    intros x y Hyr Hxc Hc. destruct (flagged f y) eqn:Hfl; [left; by apply Hdrawn|].
    assert (tf_row_dirty f !! Z.to_nat y ≠ Some true) as Hnf by (intros Ht; unfold flagged in Hfl; by rewrite Ht in Hfl).
    rewrite Hkept by done. destruct (tf_clear_requested f) eqn:Ec.
    { destruct (Hclear eq_refl) as [Hall _]. by destruct Hnf; apply Hall. }
    destruct Hrows as [Hall|(D1 & D2 & Hrows)]; [by destruct Hnf; apply Hall|].
    destruct (Hrows y Hyr) as [?|Hs]; [done|].
    assert (∀ x, 0 ≤ x < tf_cols f → cell_at back x y = cell_at f x y) as Hat.
    { intros x' Hx'. unfold cell_at. rewrite D1. by rewrite Hs. }
    assert (columns back y = columns f y) as Ecols by (apply columns_row; [done|exact Hat]).
    assert (0 ≤ x < tf_cols f) as Hxr by (unfold columns in Hxc; by apply columns_from_ge in Hxc).
    rewrite <-Hat by done. apply Hsh; [by rewrite D2|by rewrite Ecols|]. unfold corner in *. by rewrite D1, D2.
  - destruct (Hnd eq_refl) as [Ec Hcur]. destruct (Hclear Ec) as [_ Hblank]. specialize (Hblank eq_refl).
    eexists _, _, false. split; [by apply paint_only_clears|]. split; [done|]. rewrite Ec. split; [|done].
    intros x y _ _ _. right. split; [|by apply lookup_empty]. unfold cell_at. cbn.
    destruct (tf_cell_cache f !! _) as [c|] eqn:El; [|done]. cbn. by eapply (Forall_lookup_1 _ _ _ _ Hblank El).
Qed.

Lemma consume_in_step t back s :
  in_step t back s → ∃ t' back0 b, consume_updates (t, back) = ((t', back0), Ok b) ∧
    if b then ∃ s' back' real, paint (mkRenderer s back0) = (mkRenderer s' back', Ok (Some real)) ∧
      in_step t' back' s' ∧ same_view back' (ti_frame t') ∧ cursor_displayed back' s'
    else in_step t' back0 s ∧ same_view back0 (ti_frame t') ∧ cursor_displayed back0 s.
Proof.
  intros Hin. pose proof Hin as [(Hok & He & Hcov) Hun Hclear Hcur Hsh Hpl]. cbn [fst snd] in *.
  unfold consume_updates, get, modify, mbind, M_bind.
  destruct (tf_dirty (ti_frame t) || tf_clear_requested (ti_frame t)) eqn:Eb; cbn.
  2: { apply orb_false_iff in Eb as [Hd Hc]. exists t, back, false. split; [done|]. split; [done|].
       split; [by apply Hcov|]. destruct Hpl; [congruence|done]. }
  set (f := ti_frame t) in *. set (back0 := copy_to f back).
  destruct (paint_displays back0 back s) as (s' & back' & real & Ep & Hview & Hdisp & Hcurs).
  - apply Hok.
  - exact Hun.
  - exact Hsh.
  - destruct Hcov as [Hrows Hclean]. by split.
  - exact Hclear.
  - intros Hnd. change (tf_dirty f = false) in Hnd. split.
    + rewrite Hnd in Eb. exact Eb.
    + destruct Hpl as [?|(P1 & P2 & P3)]; [congruence|]. destruct (Hcur Hnd) as (C1 & C2 & C3).
      unfold cursor_displayed. cbn. by rewrite C1, C2, C3.
  - eexists _, back0, true. split; [done|]. exists s', back', real. split; [done|].
    set (f2 := f <| tf_dirty := false |> <| tf_row_dirty ::= fmap (λ _, false) |> <| tf_clear_requested := false |>).
    assert (same_view back' f2) as Hview2 by done. pose proof Hview2 as [(V1 & V2 & V3 & V4 & V5) V6].
    split; [|done]. split; cbn [ti_frame]; [|exact Hun|done| |done|by right].
    + split; [eapply same_screen_ok; [exact Hok|done|cbn; by rewrite length_fmap]|]. split; [done|]. split; [|done].
      right. split; [exact V1|]. split; [exact V2|]. intros y Hy. right. intros x Hx. cbn [snd]. by rewrite V3.
    + intros _. by rewrite V4, V5, V6.
Qed.

(** ** Along the client's loop *)

Section client.
Context {C B : Type} `{PacketCodec C, LifecycleBackend B}.
Abbreviation Client := (Client C Screen B) (only parsing).
Implicit Types cl : Client.

Abbreviation mirror cl := (ms_mirror (cl_session cl)) (only parsing).
Abbreviation back cl := (rn_back_buffer (cl_renderer cl)) (only parsing).
Abbreviation stdout cl := (rn_stdout (cl_renderer cl)) (only parsing).

(** What the loop does to the mirror and the display: calls of the session's, and its own repaints. *)
Inductive show_op := Call (op : view_op) | Repaint (clock : Clock).

Definition show_step (op : show_op) : M Client Control :=
  match op with
  | Call op => in_mirror (with_mirror (mirror_call op)) ;; mret Continue
  | Repaint clock => paint_action clock
  end.
Fixpoint show_run (ops : list show_op) : M Client Control :=
  match ops with
  | [] => mret Continue
  | op :: ops => c ← show_step op; match c with Continue => show_run ops | _ => mret c end
  end.

Definition client_in_step cl : Prop := in_step (mirror cl) (back cl) (stdout cl).
Definition shown_op (op : show_op) : Prop := match op with Call op => plainly op | Repaint _ => True end.
#[export] Instance shown_op_dec op : Decision (shown_op op).
Proof. destruct op; apply _. Defined.

Lemma paint_action_in_step clock cl :
  client_in_step cl → ∃ cl', paint_action clock cl = (cl', Ok Continue) ∧ client_in_step cl' ∧
    displayed (ti_frame (mirror cl')) (stdout cl') ∧ cursor_displayed (ti_frame (mirror cl')) (stdout cl').
Proof.
  intros Hin. destruct (consume_in_step _ _ _ Hin) as (t' & back0 & b & Ec & Hb).
  unfold paint_action, in_mirror, copy_frame_if_dirty, get, modify, mbind, M_bind. rewrite Ec.
  assert (∀ f f' s, displayed f s → cursor_displayed f s → same_view f f' → displayed f' s ∧ cursor_displayed f' s) as Hsame.
  { intros f f' s ? ? Hv. split; [eapply displayed_same; [apply Hv|done]|by eapply cursor_displayed_same]. }
  destruct b; cbn.
  - destruct Hb as (s' & back' & real & Ep & Hin' & Hv & Hc). unfold paint_screen. cbn. rewrite Ep. cbn.
    eexists. split; [done|]. split; [exact Hin'|]. by apply (Hsame back'); [apply Hin'|..].
  - destruct Hb as (Hin' & Hv & Hc). case_decide; (eexists; split; [done|]; split; [exact Hin'|]);
      by apply (Hsame back0); [apply Hin'|..].
Qed.

Lemma show_step_in_step op cl :
  shown_op op → client_in_step cl → ∃ cl', show_step op cl = (cl', Ok Continue) ∧ client_in_step cl'.
Proof.
  intros Hop Hin. destruct op as [op|clock]; cbn [show_step].
  - destruct (mirror_call_in_step op _ _ _ Hop Hin) as (t' & E & Hin').
    unfold in_mirror, with_mirror, mbind, M_bind. rewrite E. cbn. eexists. by split.
  - destruct (paint_action_in_step clock cl Hin) as (cl' & E & Hin' & _). by exists cl'.
Qed.

Lemma show_run_in_step ops cl :
  Forall shown_op ops → client_in_step cl →
  ∃ cl', client_in_step cl' ∧ ∀ more, show_run (ops ++ more) cl = show_run more cl'.
Proof.
  intros Hops. revert cl. induction Hops as [|op ops Hop _ IH]; intros cl Hin; [by exists cl|].
  destruct (show_step_in_step op cl Hop Hin) as (cl1 & E1 & Hin1). destruct (IH cl1 Hin1) as (cl2 & Hin2 & E2).
  exists cl2. split; [done|]. intros more. cbn [app show_run]. unfold mbind, M_bind. rewrite E1. apply E2.
Qed.

(** A new client is in step with any display. *)
Lemma new_in_step sid (codec : C) seq cols rows now (s : Screen) (b : B) sent :
  u16 cols → u16 rows → 0 < rows → cols < 65535 →
  client_in_step (Client_new (MirrorSession_new sid codec seq cols rows false now) s b sent).
Proof.
  intros Hc Hr Hpos Hw. split; cbn.
  - split; [split; [by apply TerminalFrame_new_wf|done]|]. split; [done|]. split; [|done].
    left. intros y Hy. by apply lookup_vec.
  - split; [done|]. split; [done|]. split; [done|]. cbn. apply Forall_forall. intros c Hin.
    unfold vec in Hin. apply elem_of_replicate in Hin as [-> _]. apply (bool_decide_unpack _). vm_compute. exact I.
  - done.
  - done.
  - intros x y Hy. cbn in Hy. lia.
  - by left.
Qed.

(** C39. The terminal shows the mirror. Take a client as it starts, on a terminal that shows anything, of
    fewer than 65535 columns and at least one row. Whatever calls its session makes on the mirror (states of
    any sizes with text in every cell, acknowledgements, aborts, telemetry, requests to repaint), and
    whenever the loop repaints in between, every repaint comes to its end, and after one the terminal shows
    the mirror: every glyph that starts in a column has its text, colours and attributes, but for the bottom
    right corner, which is never written, and a blank cell, which may be left as a clear of the whole
    terminal left it; and the cursor is placed and shown as the mirror says. The calls leave out
    predictions, which flag no row for repainting, and the reconnecting banner and the overlay, which are
    drawn over the mirror's cells. *)
Theorem display_shows_mirror sid (codec : C) seq cols rows now (s : Screen) (b : B) sent ops clock :
  u16 cols → u16 rows → 0 < rows → cols < 65535 → Forall shown_op ops →
  ∃ cl', show_run (ops ++ [Repaint clock]) (Client_new (MirrorSession_new sid codec seq cols rows false now) s b sent) =
      (cl', Ok Continue) ∧
    displayed (ti_frame (mirror cl')) (stdout cl') ∧ cursor_displayed (ti_frame (mirror cl')) (stdout cl').
Proof.
  intros Hc Hr Hpos Hw Hops.
  destruct (show_run_in_step ops _ Hops (new_in_step sid codec seq cols rows now s b sent Hc Hr Hpos Hw)) as (cl1 & Hin1 & E1).
  destruct (paint_action_in_step clock cl1 Hin1) as (cl2 & E2 & _ & Hshow). exists cl2. split; [|done].
  rewrite E1. cbn [show_run show_step]. unfold mbind, M_bind. by rewrite E2.
Qed.
End client.

(** ** Witness

    Two states, the second of another size, with a repaint in between. *)
Definition demo_clock : Clock := mkClock (from_millis 2) 0.
Definition demo_show : list (show_op) :=
  [Repaint demo_clock; Call (VApply demo_server_grid 7); Call (VFps 30); Repaint demo_clock; Call VMark;
   Call (VApply (blank_grid 4 3) 8); Call (VApply demo_server_grid 9)].
Definition demo_shown : Client NullCodec Screen FakeLifecycleBackend * outcome Control :=
  show_run (demo_show ++ [Repaint demo_clock])
    (Client_new (MirrorSession_new 12345 (NullCodec_new 12345) 2 5 2 false 0) (mkScreen ∅ 0 0 plain true)
       (FakeLifecycleBackend_new 5 2) []).

Lemma demo_shown_glyph : sc_glyphs (rn_stdout (cl_renderer demo_shown.1)) !! (1, 0) = Some ([104], plain).
Proof. vm_compute. reflexivity. Qed.
Lemma demo_shown_ok : Forall shown_op demo_show.
Proof. apply (bool_decide_unpack _). vm_compute. exact I. Qed.

Lemma display_shows_mirror_witness :
  demo_shown.2 = Ok Continue ∧
  displayed (ti_frame (ms_mirror (cl_session demo_shown.1))) (rn_stdout (cl_renderer demo_shown.1)) ∧
  cursor_displayed (ti_frame (ms_mirror (cl_session demo_shown.1))) (rn_stdout (cl_renderer demo_shown.1)) ∧
  sc_glyphs (rn_stdout (cl_renderer demo_shown.1)) !! (1, 0) = Some ([104], plain).
Proof.
  destruct (display_shows_mirror 12345 (NullCodec_new 12345) 2 5 2 0 (mkScreen ∅ 0 0 plain true)
    (FakeLifecycleBackend_new 5 2) [] demo_show demo_clock) as (cl' & E & Hd & Hc).
  - unfold fits. lia.
  - unfold fits. lia.
  - lia.
  - lia.
  - exact demo_shown_ok.
  - assert (demo_shown = (cl', Ok Continue)) as Es by (unfold demo_shown; exact E).
    pose proof demo_shown_glyph as Hg. rewrite Es in *. split; [reflexivity|]. split; [exact Hd|]. split; [exact Hc|exact Hg].
Defined.
