(* ===== verification/ClientLog.v ===== *)
(** * What the client puts on the network

    A log of the payloads the client's session seals under each of its numbers, kept along any run:
    every datagram the session asks to send, at once, again, or as an acknowledgement or a report,
    opens at the server's codec to a well-formed payload of the session, and a reliable one to the
    payload logged under its number. *)

From Stdlib Require Import Floats.SpecFloat.
From S2P Require Import Prelude Utf8 Grid Protocol Crypto Codec CodecFacts WireFormat CodecProps Escape.
From S2P Require Import ServerSession ServerFacts.
From S2P Require Import Float32 Frame Echo Terminal MirrorSession MirrorFacts MirrorProps.

(** ** Numbers *)

Lemma transient_seq_ok n p : u64 n → u64 (transient_seq n) ∧ is_transient (transient_seq n) p = true.
Proof.
  intros Hn. unfold transient_seq. split.
  { apply fits_lor; [lia| |done]. rewrite Z.shiftl_1_l. split; [done|]. apply Z.pow_lt_mono_r; lia. }
  unfold is_transient. apply orb_true_iff. left. apply negb_true_iff, Z.eqb_neq. intros E.
  assert (Z.testbit (Z.land (Z.lor (Z.shiftl 1 63) n) (Z.shiftl 1 63)) 63 = true) as Hb; [|by rewrite E in Hb].
  by rewrite Z.land_spec, Z.lor_spec.
Qed.

Lemma handle_byte_u8 b i : u8 b →
  match (handle_byte b i).2 with SendBytes bs => Forall u8 bs | _ => True end.
Proof.
  intros Hb. assert (u8 TILDE) by done. unfold handle_byte.
  repeat case_match; simplify_eq/=; try done; repeat (apply Forall_cons; split; [done|]); apply Forall_nil_2.
Qed.

Section log.
Context {C : Type} `{PacketCodecLaws C}.
Abbreviation Session := (MirrorSession C) (only parsing).
Implicit Types (s : Session) (K : gmap Z ClientPayload).

(** ** Sealed datagrams *)

(** [c] is the server's codec; [Acked] holds of the numbers the client acknowledges, [a0] is one of them. *)
Context (c : C) (Acked : Z → Prop) (a0 : Z).

Definition client_sealed K (b : list Z) : Prop :=
  ∃ wire p st, open_client c b = Ok (wire, p, st) ∧ ec_session_id wire = session_of c ∧
    u64 (ec_seq_num wire) ∧ wf p ∧ is_handshake p = false ∧
    (is_transient (ec_seq_num wire) p = false → K !! ec_seq_num wire = Some p) ∧ Acked (ec_ack_seq_num wire).

(** A reliable one, of number [k]. *)
Definition numbered_as (k : Z) (b : list Z) : Prop :=
  match open_client c b with Ok (wire, p, _) => ec_seq_num wire = k ∧ is_transient k p = false | _ => False end.

Lemma client_sealed_mono K K' b : K ⊆ K' → client_sealed K b → client_sealed K' b.
Proof.
  intros HK (wire & p & st & E & ? & ? & ? & ? & Hp & ?). exists wire, p, st. split_and!; try done.
  intros Ht. eapply lookup_weaken; [by apply Hp|done].
Qed.
Lemma all_sealed_mono K K' l : K ⊆ K' → Forall (client_sealed K) l → Forall (client_sealed K') l.
Proof. intros HK Hl. eapply Forall_impl; [exact Hl|]. intros b. by apply client_sealed_mono. Qed.

(** ** The invariant *)

(** [L] is the server's log. *)
Context (L : gmap Z ServerPayload).
Hypothesis Hnum : ∀ k p, L !! k = Some p → u64 k.

Record clog K s : Prop := {
  cg_sid : ms_session_id s = session_of c;
  cg_sid_u64 : u64 (ms_session_id s);
  cg_codec : holds c L (ms_codec s);
  cg_ack : u64 (ms_ack_seq_num s);
  cg_seq : 0 ≤ ms_seq_num s;
  cg_transient : u64 (ms_transient_seq_num s);
  cg_fresh k : ms_seq_num s < k → K !! k = None;
  cg_payloads : map_Forall (λ k p, 0 < k ∧ wf p ∧ is_handshake p = false) K;
  cg_unacked : map_Forall (λ k e, client_sealed K e.1 ∧ numbered_as k e.1) (ms_unacked_packets s);
  cg_acked : Acked (ms_ack_seq_num s);
  cg_since : a0 ≤ ms_ack_seq_num s;
}.

(** A reliable payload of which [W] holds is numbered and logged, or none is. *)
Definition numbers (W : ClientPayload → Prop) (n : Z) K (n' : Z) K' : Prop :=
  (K' = K ∧ n' = n) ∨ ∃ p, W p ∧ K' = <[n + 1 := p]> K ∧ n' = n + 1.
Definition no (p : ClientPayload) : Prop := False.

(** [m] numbers at most one payload, of which [W] holds; it keeps the log, returns values of which [Q]
    holds, and the datagrams [out] of what it returns are sealed when those of [l] were. *)
Definition logs (W : ClientPayload → Prop) (l : list (list Z)) {A} (m : M Session A) (Q : A → Prop)
    (out : A → list (list Z)) : Prop :=
  ∀ K s, clog K s → Forall (client_sealed K) l → ((∃ p, W p) → ms_seq_num s + 1 < 2 ^ 63) →
  ∃ K', K ⊆ K' ∧ clog K' (m s).1 ∧ numbers W (ms_seq_num s) K (ms_seq_num (m s).1) K' ∧
    Forall (client_sealed K') l ∧ ∀ a, (m s).2 = Ok a → Q a ∧ Forall (client_sealed K') (out a).

Lemma numbers_no n K n' K' : numbers no n K n' K' → K' = K ∧ n' = n.
Proof. by intros [?|(p & [] & _)]. Qed.

Lemma logs_bind W l {A B} (m : M Session A) (f : A → M Session B) Q1 Q2 out1 out2 :
  logs no l m Q1 out1 → (∀ a, Q1 a → logs W (l ++ out1 a) (f a) Q2 out2) → logs W l (m ≫= f) Q2 out2.
Proof.
  intros Hm Hf K s Hs Hl Hn. destruct (Hm K s Hs Hl) as (K1 & HK1 & Hs1 & Hn1 & Hl1 & Ho1); [by intros [? []]|].
  apply numbers_no in Hn1 as [-> En]. unfold mbind, M_bind. destruct (m s) as [s1 [a|e|]]; cbn in *.
  2,3: exists K; split; [done|]; split; [done|]; split; [by left|]; split; [done|]; intros ? [=].
  destruct (Ho1 a eq_refl) as [Hq Ho]. destruct (Hf a Hq K s1 Hs1) as (K2 & HK2 & Hs2 & Hn2 & Hl2 & Ho2).
  - by apply Forall_app.
  - by rewrite En.
  - exists K2. split; [done|]. split; [done|]. split; [by rewrite <-En|]. apply Forall_app in Hl2 as [? _]. done.
Qed.

Lemma logs_after W l {A B} (m : M Session A) (f : A → M Session B) Q1 Q2 out1 out2 :
  logs W l m Q1 out1 → (∀ a, Q1 a → logs no (l ++ out1 a) (f a) Q2 out2) → logs W l (m ≫= f) Q2 out2.
Proof.
  intros Hm Hf K s Hs Hl Hn. destruct (Hm K s Hs Hl Hn) as (K1 & HK1 & Hs1 & Hn1 & Hl1 & Ho1).
  unfold mbind, M_bind. destruct (m s) as [s1 [a|e|]]; cbn in *.
  2,3: exists K1; split; [done|]; split; [done|]; split; [done|]; split; [done|]; intros ? [=].
  destruct (Ho1 a eq_refl) as [Hq Ho]. destruct (Hf a Hq K1 s1 Hs1) as (K2 & HK2 & Hs2 & Hn2 & Hl2 & Ho2).
  - by apply Forall_app.
  - by intros [? []].
  - apply numbers_no in Hn2 as [-> En]. exists K1. rewrite En. apply Forall_app in Hl2 as [? _]. done.
Qed.

Lemma logs_weaken (W W' : ClientPayload → Prop) l {A} (m : M Session A) (Q Q' : A → Prop) out :
  (∀ p, W p → W' p) → logs W l m Q out → (∀ a, Q a → Q' a) → logs W' l m Q' out.
Proof.
  intros HW Hm HQ K s Hs Hl Hn. destruct (Hm K s Hs Hl) as (K' & HK & Hs' & Hn' & Hl' & Ho').
  { intros [p Hp]. apply Hn. exists p. by apply HW. }
  exists K'. split; [done|]. split; [done|]. split; [destruct Hn' as [?|(p & ? & ?)]; [by left|right; exists p; auto]|].
  split; [done|]. intros a Ha. destruct (Ho' a Ha). auto.
Qed.

Lemma logs_ret l {A} (a : A) (Q : A → Prop) out : Q a → out a ⊆ l → logs no l (mret a) Q out.
Proof.
  intros Hq Ho K s Hs Hl _. exists K. split; [done|]. split; [done|]. split; [by left|]. split; [done|].
  intros ? [= <-]. split; [done|]. rewrite Forall_forall in *. auto.
Qed.

(** What keeps the log as it is. *)
Lemma logs_keep l {A} (m : M Session A) (Q : A → Prop) out :
  (∀ K s, clog K s → clog K (m s).1 ∧ ms_seq_num (m s).1 = ms_seq_num s ∧
     ∀ a, (m s).2 = Ok a → Q a ∧ (Forall (client_sealed K) l → Forall (client_sealed K) (out a))) →
  logs no l m Q out.
Proof.
  intros Hm K s Hs Hl Hn. destruct (Hm K s Hs) as (Hs' & En & Ho). exists K. split; [done|]. split; [done|].
  split; [by left|]. split; [done|]. intros a Ha. destruct (Ho a Ha). auto.
Qed.

(** The fields the log looks at. *)
Definition logged_same s s' : Prop :=
  ms_session_id s' = ms_session_id s ∧ ms_codec s' = ms_codec s ∧ ms_ack_seq_num s' = ms_ack_seq_num s ∧
  ms_seq_num s' = ms_seq_num s ∧ ms_transient_seq_num s' = ms_transient_seq_num s ∧
  ms_unacked_packets s' = ms_unacked_packets s.

Lemma clog_same K s s' : logged_same s s' → clog K s → clog K s'.
Proof. intros (E1 & E2 & E3 & E4 & E5 & E6) []. split; rewrite ?E1, ?E2, ?E3, ?E4, ?E5, ?E6; done. Qed.

Lemma logs_same l {A} (m : M Session A) (Q : A → Prop) out :
  (∀ s, logged_same s (m s).1) → (∀ s a, (m s).2 = Ok a → Q a ∧ out a ⊆ l) → logs no l m Q out.
Proof.
  intros Hm Ho. apply logs_keep. intros K s Hs. split; [by eapply clog_same|]. split; [apply Hm|].
  intros a Ha. destruct (Ho s a Ha) as [Hq Hl]. split; [done|]. rewrite !Forall_forall. auto.
Qed.

Definition none {A} (_ : A) : list (list Z) := [].
Definition any {A} (_ : A) : Prop := True.

Lemma logs_modify l (f : Session → Session) : (∀ s, logged_same s (f s)) → logs no l (modify f) any none.
Proof. intros Hf. apply logs_same; [done|]. intros s a _. split; [done|]. by intros ? ?%not_elem_of_nil. Qed.
(** The datagrams kept for retransmission. *)
Definition unacked_of (s : Session) : list (list Z) := (λ e, e.2.1) <$> map_to_list (ms_unacked_packets s).

Lemma logs_get l : logs no l get (λ s, holds c L (ms_codec s) ∧ a0 ≤ ms_ack_seq_num s) unacked_of.
Proof.
  apply logs_keep. intros K s Hs. split; [done|]. split; [done|]. intros ? [= <-]. split; [split; apply Hs|]. intros _.
  apply Forall_fmap, Forall_forall. intros [k e] Hin%elem_of_map_to_list. exact (proj1 (cg_unacked _ _ Hs k e Hin)).
Qed.
Lemma logs_with_mirror l {A} (m : M TerminalInner A) : logs no l (with_mirror m) any none.
Proof.
  apply logs_same.
  - intros s. unfold with_mirror. by destruct (m (ms_mirror s)).
  - intros s a _. split; [done|]. by intros ? ?%not_elem_of_nil.
Qed.
Lemma logs_lift l {A} (o : outcome A) : logs no l (lift o) any none.
Proof. apply logs_same; [done|]. intros s a _. split; [done|]. by intros ? ?%not_elem_of_nil. Qed.

Lemma logs_attempt W l {A} (m : M Session A) Q out :
  logs W l m Q out → logs W l (attempt m) (from_option Q True) (from_option out []).
Proof.
  intros Hm K s Hs Hl Hn. destruct (Hm K s Hs Hl Hn) as (K' & HK & Hs' & Hn' & Hl' & Ho).
  exists K'. unfold attempt. destruct (m s) as [s' [a| |]]; cbn in *; (split; [done|]); (split; [done|]);
    (split; [done|]); (split; [done|]); intros ? [= <-]; cbn; [by apply Ho|done].
Qed.

Lemma logs_for_each_m l {A} (k : list A) (f : A → M Session unit) :
  (∀ x, logs no l (f x) any none) → logs no l (for_each_m k f) any none.
Proof.
  intros Hf. induction k as [|x k IH]; cbn.
  { apply logs_ret; [done|]. by intros ? ?%not_elem_of_nil. }
  apply (logs_bind no l (f x) (λ _, for_each_m k f) any any none none); [done|]. intros u _.
  unfold none at 1. by rewrite app_nil_r.
Qed.

(** ** Sealing *)

Lemma session_sealed K s k p b :
  clog K s → u64 k → wf p → is_handshake p = false → (is_transient k p = false → K !! k = Some p) →
  seal_client (ms_codec s) (ms_session_id s) k (ms_ack_seq_num s) p = Ok b →
  client_sealed K b ∧ (is_transient k p = false → numbered_as k b).
Proof.
  intros [] Hk Hw Hh Hp E.
  destruct (client_opened (ms_codec s) c (ms_session_id s) k (ms_ack_seq_num s) p b) as (wire & st & Eo & Hs & <- & Ha);
    [by eapply holds_peers|done|done|done|done|by right|done|].
  split; [|intros Ht; unfold numbered_as; by rewrite Eo].
  exists wire, p, st. split; [done|]. split; [by rewrite Hs|]. rewrite Ha. done.
Qed.

Lemma clog_next K s p :
  clog K s → wf p → is_handshake p = false →
  clog (<[ms_seq_num s + 1 := p]> K) (s <| ms_seq_num := ms_seq_num s + 1 |>).
Proof.
  intros [] Hw Hh. split; try done; cbn.
  - lia.
  - intros k Hk. rewrite lookup_insert_ne by lia. apply cg_fresh0. lia.
  - apply map_Forall_insert_2; [split; [lia|done]|done].
  - eapply map_Forall_impl; [exact cg_unacked0|]. intros k e [He ?]. split; [|done].
    revert He. apply client_sealed_mono, insert_subseteq, cg_fresh0. lia.
Qed.

Lemma clog_keep K s k e :
  clog K s → client_sealed K e.1 → numbered_as k e.1 → clog K (s <| ms_unacked_packets ::= <[k := e]> |>).
Proof. intros [] He Hk. split; try done. cbn. by apply map_Forall_insert_2. Qed.

Lemma prepare_reliable_logs l {A} keepalive p now (ret : list Z → Z → A) (out : A → list (list Z)) :
  wf p → is_handshake p = false → reliable_payload p = true → (∀ b k, out (ret b k) = [b]) →
  logs (eq p) l (seq ← next_seq now;
     (if (keepalive : bool) then modify (λ s : Session, s <| ms_last_keepalive_sent := now |>) else mret tt) ;;
     b ← seal_payload seq p; keep_unacked seq b now ;; mret (ret b seq)) any out.
Proof.
  intros Hw Hh Hr Hout K s Hs Hl Hn. pose proof (cg_seq _ _ Hs) as Hs0. set (n := ms_seq_num s + 1).
  specialize (Hn (ex_intro _ p eq_refl)). assert (u64 n) as Hu by (unfold fits, n; lia).
  set (s1 := s <| ms_seq_num := n |> <| ms_sent_packets ::= <[n := now]> |>).
  set (s2 := if keepalive then s1 <| ms_last_keepalive_sent := now |> else s1).
  assert (∀ o, seal_client (ms_codec s) (ms_session_id s) n (ms_ack_seq_num s) p = o →
    (seq ← next_seq now;
     (if (keepalive : bool) then modify (λ s : Session, s <| ms_last_keepalive_sent := now |>) else mret tt) ;;
     b ← seal_payload seq p; keep_unacked seq b now ;; mret (ret b seq)) s =
    match o with
    | Ok b => (s2 <| ms_unacked_packets ::= <[n := (b, now)]> |>, Ok (ret b n))
    | Err e => (s2, Err e)
    | Panic => (s2, Panic)
    end) as Hgo.
  { intros o <-. unfold next_seq, seal_payload, keep_unacked, mbind, M_bind, modify, gets, get, mret, M_ret, lift. cbn.
    rewrite (wrap_small 64) by (unfold fits in *; lia). fold n. unfold s2, s1.
    destruct keepalive; cbn; by destruct (seal_client _ _ n _ p). }
  assert (clog (<[n := p]> K) s2) as Hs2.
  { eapply clog_same; [|exact (clog_next K s p Hs Hw Hh)]. unfold s2. by destruct keepalive. }
  assert (K ⊆ <[n := p]> K) as HK by (apply insert_subseteq, (cg_fresh _ _ Hs); unfold n; lia).
  assert (ms_seq_num s2 = n) as En by (unfold s2; by destruct keepalive).
  pose proof (all_sealed_mono K (<[n := p]> K) l HK Hl) as Hl'.
  destruct (seal_client (ms_codec s) (ms_session_id s) n (ms_ack_seq_num s) p) as [b|e|] eqn:E;
    rewrite (Hgo _ eq_refl); exists (<[n := p]> K); (split; [done|]).
  2,3: split; [done|]; split; [right; exists p; cbn; by rewrite En|]; split; [done|]; intros ? [=].
  destruct (session_sealed (<[n := p]> K) s2 n p b) as [Hb Hnum']; [done..|intros _; apply lookup_insert_eq| |].
  { unfold s2. by destruct keepalive. }
  specialize (Hnum' (small_reliable n p ltac:(unfold n; lia) Hr)).
  split; [by apply clog_keep|]. split; [right; exists p; cbn; by rewrite En|]. split; [done|].
  intros ? [= <-]. split; [done|]. rewrite Hout. by apply Forall_singleton.
Qed.

(** ** The session's methods *)

(** A step that sends nothing, before the rest. *)
Lemma logs_then W l {A B} (m : M Session A) (f : A → M Session B) Q1 Q out :
  logs no l m Q1 none → (∀ a, Q1 a → logs W l (f a) Q out) → logs W l (m ≫= f) Q out.
Proof.
  intros Hm Hf. apply (logs_bind W l m f Q1 Q none out); [exact Hm|]. intros a Ha.
  unfold none. rewrite app_nil_r. by apply Hf.
Qed.
Lemma logs_get_then W l {B} (f : Session → M Session B) Q out :
  (∀ s, holds c L (ms_codec s) ∧ a0 ≤ ms_ack_seq_num s → logs W (l ++ unacked_of s) (f s) Q out) →
  logs W l (get ≫= f) Q out.
Proof. intros Hf. eapply (logs_bind W l get f); [apply logs_get|exact Hf]. Qed.
(** The result is computed from the last step's. *)
Lemma logs_map W l {A B} (m : M Session A) (g : A → B) Q Q' out out' :
  logs W l m Q out → (∀ a, Q a → Q' (g a) ∧ out' (g a) ⊆ l ++ out a) → logs W l (a ← m; mret (g a)) Q' out'.
Proof.
  intros Hm Hg. apply (logs_after W l m (λ a, mret (g a)) Q Q' out out'); [done|].
  intros a Ha. destruct (Hg a Ha). by apply logs_ret.
Qed.
Lemma logs_pure l {A} (a : A) (out : A → list (list Z)) : out a ⊆ l → logs no l (mret a) any out.
Proof. intros Ho. by apply logs_ret. Qed.

Lemma prepare_keystrokes_logs l keys now :
  Forall u8 keys → logs (eq (ClientPayload.Keystrokes keys)) l (prepare_keystrokes keys now) any (λ r, [r.1]).
Proof.
  intros Hk. exact (prepare_reliable_logs l false (ClientPayload.Keystrokes keys) now pair (λ r, [r.1])
    Hk eq_refl eq_refl (λ _ _, eq_refl)).
Qed.
Lemma prepare_resize_logs l cols rows now :
  u16 cols → u16 rows → logs (eq (ClientPayload.Resize cols rows)) l (prepare_resize cols rows now) any (λ b, [b]).
Proof.
  intros Hc Hr. exact (prepare_reliable_logs l false (ClientPayload.Resize cols rows) now (λ b _, b) (λ b, [b])
    (conj Hc Hr) eq_refl eq_refl (λ _ _, eq_refl)).
Qed.
Lemma prepare_keepalive_logs l now : logs (eq ClientPayload.KeepAlive) l (prepare_keepalive now) any (λ b, [b]).
Proof.
  exact (prepare_reliable_logs l true ClientPayload.KeepAlive now (λ b _, b) (λ b, [b]) I eq_refl eq_refl (λ _ _, eq_refl)).
Qed.

Lemma prepare_transient_logs l (f : Session → Session) p :
  (∀ s, logged_same s (f s)) → wf p → is_handshake p = false →
  logs no l (modify (λ self : Session, self <| ms_transient_seq_num ::= λ n, n +₆₄ 1 |>) ;;
            n ← gets ms_transient_seq_num; modify f ;; seal_payload (transient_seq n) p) any (λ b, [b]).
Proof.
  intros Hf Hw Hh. apply logs_keep. intros K s Hs. set (n := ms_transient_seq_num s +₆₄ 1).
  assert (u64 n) as Hn by by apply wrap_fits.
  set (s1 := s <| ms_transient_seq_num := n |>).
  assert (clog K (f s1)) as Hs1 by (eapply clog_same; [apply Hf|]; destruct Hs; by split).
  unfold seal_payload, mbind, M_bind, modify, gets, get, lift. cbn. fold n. fold s1. split; [done|].
  split. { change (ms_seq_num (f s1) = ms_seq_num s). by destruct (Hf s1) as (_ & _ & _ & -> & _). }
  intros b E. split; [done|]. intros _.
  destruct (transient_seq_ok n p Hn) as [Hu Ht]. apply Forall_singleton.
  destruct (session_sealed K (f s1) (transient_seq n) p b) as [Hb _]; try done. by rewrite Ht.
Qed.

Lemma prepare_ack_logs l now : logs no l (prepare_ack now) any (λ b, [b]).
Proof. by apply (prepare_transient_logs l (λ self, self <| ms_last_ack_sent := now |>) ClientPayload.Ack). Qed.
Lemma prepare_nack_logs l k mask :
  u64 k → Forall u64 mask → logs no l (prepare_fragment_nack k mask) any (λ b, [b]).
Proof. intros Hk Hm. by apply (prepare_transient_logs l id (ClientPayload.FragmentNack k mask)). Qed.

Lemma try_ack_logs l now : logs no l (try_ack now) any sends.
Proof.
  unfold try_ack. eapply logs_map; [apply logs_attempt, prepare_ack_logs|].
  intros [b|] _; (split; [done|]); cbn; set_solver.
Qed.

(** *** Standard input *)

Lemma interpret_byte_logs l b : u8 b →
  logs no l (interpret_byte b) (λ r, match r with SendBytes bs => Forall u8 bs | _ => True end) none.
Proof.
  intros Hb. apply logs_same.
  - intros s. unfold interpret_byte. by destruct (handle_byte b (ms_interpreter s)).
  - intros s a. unfold interpret_byte. pose proof (handle_byte_u8 b (ms_interpreter s) Hb) as Hu.
    destruct (handle_byte b (ms_interpreter s)). intros [= <-]. split; [done|apply list_subseteq_nil].
Qed.

Lemma read_stdin_logs l buf to_send acts :
  Forall u8 buf → Forall u8 to_send → sends acts = [] →
  logs no l (read_stdin buf to_send acts) (λ r, Forall u8 r.1.2 ∧ sends r.2 = []) none.
Proof.
  revert to_send acts. induction buf as [|b buf IH]; intros to_send acts Hb Ht Ha; cbn [read_stdin].
  { apply logs_ret; [done|apply list_subseteq_nil]. }
  apply Forall_cons in Hb as [Hb Hbuf].
  eapply logs_then; [by apply interpret_byte_logs|]. intros [bs|[]|] Hr.
  - apply IH; [done|by apply Forall_app|done].
  - apply logs_ret; [|apply list_subseteq_nil]. cbn. by rewrite sends_app, Ha.
  - eapply logs_then; [apply logs_with_mirror|]. intros _ _. apply IH; [done|done|by rewrite sends_app, Ha].
  - eapply logs_then; [apply logs_with_mirror|]. intros _ _. apply IH; [done|done|by rewrite sends_app, Ha].
  - eapply logs_then; [apply logs_with_mirror|]. intros _ _. apply IH; [done|done|by rewrite sends_app, Ha].
  - by apply IH.
Qed.

(** A computation that sends nothing new may be said to use a number. *)
Lemma logs_spare W l {A} (m : M Session A) Q out : logs no l m Q out → logs W l m Q out.
Proof. intros Hm. eapply logs_weaken; [|exact Hm|done]. by intros ? []. Qed.

(** [feed_stdin] after the bytes are read. *)
Definition stdin_rest (now : Instant) (r : bool * list Z * list ClientAction) : M Session (list ClientAction) :=
  let '(returned, bytes_to_send, actions) := r in
  if (returned : bool) then mret actions
  else if decide (bytes_to_send = []) then mret actions
  else
    '(packet_bytes, seq) ← prepare_keystrokes bytes_to_send now;
    let is_printable := forallb (λ b, negb (is_ascii_control b)) bytes_to_send in
    self ← get;
    painted ← (if ms_is_echo_enabled self && is_printable
               then with_mirror (predict_input bytes_to_send seq) ;; mret [ClientAction.Paint]
               else mret []);
    mret (actions ++ painted ++ [ClientAction.SendPacket packet_bytes]).

Lemma feed_stdin_rest buf now : feed_stdin (C:=C) buf now = (r ← read_stdin buf [] []; stdin_rest now r).
Proof. reflexivity. Qed.

Lemma stdin_rest_logs now (returned : bool) to_send acts :
  Forall u8 to_send → sends acts = [] →
  logs (eq (ClientPayload.Keystrokes to_send)) [] (stdin_rest now (returned, to_send, acts)) any sends.
Proof.
  intros Ht Ha. unfold stdin_rest. destruct returned; [apply logs_spare, logs_pure; rewrite Ha; apply list_subseteq_nil|].
  destruct (decide (to_send = [])); [apply logs_spare, logs_pure; rewrite Ha; apply list_subseteq_nil|].
  eapply logs_after; [by apply prepare_keystrokes_logs|].
  intros [b seq] _. cbn [app fst]. cbv zeta. apply logs_get_then. intros s _.
  assert (∀ l, logs no l (if ms_is_echo_enabled s && forallb (λ b, negb (is_ascii_control b)) to_send
    then with_mirror (predict_input to_send seq) ;; mret [ClientAction.Paint] else mret [])
    (λ a, sends a = []) none) as Hp.
  { intros l. destruct (_ && _); [|apply logs_ret; [done|apply list_subseteq_nil]].
    eapply logs_then; [apply logs_with_mirror|]. intros _ _. apply logs_ret; [done|apply list_subseteq_nil]. }
  eapply logs_then; [apply Hp|]. intros painted Ep. apply logs_pure. rewrite !sends_app, Ha, Ep. cbn. set_solver.
Qed.

(** What a read of standard input leaves to send. *)
Definition stdin_bytes (buf : list Z) (s : Session) : list Z := Escape.sent (interpret buf (ms_interpreter s)).2.

Lemma read_stdin_bytes buf s s' to_send acts :
  runs (read_stdin buf [] []) s s' (false, to_send, acts) → to_send = stdin_bytes buf s.
Proof.
  intros E. unfold stdin_bytes. pose proof (read_stdin_run buf [] [] s) as Hr.
  destruct (interpret buf (ms_interpreter s)) as [i rs]. destruct Hr as [Hno Hin].
  destruct (decide (Escape.Disconnect ∈ commands rs)) as [H1'|H1'].
  - destruct (Hin H1') as (? & ? & ? & E2 & _). unfold runs in *. congruence.
  - destruct (Hno H1') as (? & E2 & _). unfold runs in *. rewrite E in E2. by injection E2 as _ -> _.
Qed.

Lemma feed_stdin_logs buf now K s (m := feed_stdin buf now) :
  Forall u8 buf → clog K s → ms_seq_num s + 1 < 2 ^ 63 →
  ∃ K', K ⊆ K' ∧ clog K' (m s).1 ∧
    numbers (eq (ClientPayload.Keystrokes (stdin_bytes buf s))) (ms_seq_num s) K (ms_seq_num (m s).1) K' ∧
    ∀ a, (m s).2 = Ok a → Forall (client_sealed K') (sends a).
Proof.
  intros Hb Hs Hn.
  destruct (read_stdin_logs [] buf [] [] Hb ltac:(done) eq_refl K s Hs) as (K1 & _ & Hs1 & Hn1 & _ & Ho);
    [done|by intros [? []]|].
  apply numbers_no in Hn1 as [-> En]. unfold m. rewrite feed_stdin_rest. unfold mbind, M_bind.
  destruct (read_stdin buf [] [] s) as [s1 [[[returned to_send] acts]|e|]] eqn:E; cbn [fst snd] in *.
  2,3: exists K; split; [done|]; split; [done|]; split; [by left|]; by intros ? [=].
  destruct (Ho _ eq_refl) as [[Ht Ha] _].
  destruct (stdin_rest_logs now returned to_send acts Ht Ha K s1 Hs1 (Forall_nil_2 _)) as (K2 & HK2 & Hs2 & Hn2 & _ & Ho2).
  { intros _. by rewrite En. }
  exists K2. split; [done|]. split; [done|]. split; [|intros a Ha'; by apply Ho2].
  rewrite <-En. destruct returned.
  - left. destruct Hn2 as [?|(p & _ & _ & Hx)]; [done|]. cbn in Hx. lia.
  - by rewrite <-(read_stdin_bytes buf s s1 to_send acts E).
Qed.

Lemma on_winch_logs cols rows now :
  u16 cols → u16 rows → logs (eq (ClientPayload.Resize cols rows)) [] (on_winch cols rows now) any sends.
Proof.
  intros Hc Hr. unfold on_winch. eapply logs_after; [by apply prepare_resize_logs|]. intros b _.
  eapply logs_then; [apply logs_with_mirror|]. intros _ _.
  eapply logs_then; [apply logs_with_mirror|]. intros _ _. apply logs_pure. done.
Qed.

(** *** The timer *)

Lemma tick_keepalive_logs l now : logs (eq ClientPayload.KeepAlive) l (tick_keepalive now) any sends.
Proof.
  unfold tick_keepalive. apply logs_get_then. intros s _. case_decide.
  - eapply logs_map; [apply prepare_keepalive_logs|]. intros b _. split; [done|]. cbn. set_solver.
  - apply logs_spare. apply logs_pure. apply list_subseteq_nil.
Qed.

Lemma overdue_unacked now limit order s (u := ms_unacked_packets s) :
  (fst <$> overdue now limit order u) ⊆ unacked_of s.
Proof.
  intros b. rewrite list_elem_of_fmap. intros ([b' k] & -> & Hin). unfold overdue in Hin.
  apply list_elem_of_omap in Hin as (k' & _ & Hk). destruct (u !! k') as [[pb t]|] eqn:E; [|done].
  case_decide; [|done]. injection Hk as -> ->. apply list_elem_of_fmap. exists (k, (b', t)).
  split; [done|]. by apply elem_of_map_to_list.
Qed.

Lemma sends_packets (l : list (list Z * Z)) : sends ((λ e, ClientAction.SendPacket e.1) <$> l) = fst <$> l.
Proof. induction l as [|e l IH]; [done|]. cbn. by f_equal. Qed.

Lemma tick_arq_logs l order now : logs no l (tick_arq order now) any sends.
Proof.
  unfold tick_arq. apply logs_get_then. intros s _.
  case_decide; [|apply logs_pure, list_subseteq_nil].
  eapply logs_then; [by apply logs_modify|]. intros _ _. cbv zeta.
  eapply logs_then; [apply logs_for_each_m|].
  - intros [b k]. apply logs_keep. intros K s' Hs'. split; [|split; [done|by intros]].
    destruct Hs'. split; try done. cbn. intros k' e He. destruct (decide (k' = k)) as [->|Hne].
    + rewrite lookup_alter_eq in He. apply fmap_Some in He as (e' & He & ->). exact (cg_unacked0 _ _ He).
    + rewrite lookup_alter_ne in He by done. exact (cg_unacked0 _ _ He).
  - intros _ _. apply logs_pure. rewrite sends_packets. etransitivity; [apply overdue_unacked|]. set_solver.
Qed.

Lemma tick_reconnect_logs l now : logs no l (tick_reconnect now) any sends.
Proof.
  unfold tick_reconnect. apply logs_get_then. intros s _. cbv zeta.
  case_decide; [|apply logs_pure, list_subseteq_nil].
  eapply logs_then; [by apply logs_modify|]. intros _ _.
  eapply logs_then; [apply logs_with_mirror|]. intros _ _.
  eapply logs_then; [by apply logs_modify|]. intros _ _. apply logs_pure, list_subseteq_nil.
Qed.

Lemma tick_telemetry_logs l now : logs no l (tick_telemetry now) any sends.
Proof.
  unfold tick_telemetry. apply logs_get_then. intros s _. cbv zeta.
  case_decide; [|apply logs_pure, list_subseteq_nil].
  eapply logs_then; [apply logs_with_mirror|]. intros _ _.
  eapply logs_then; [apply logs_with_mirror|]. intros _ _.
  eapply logs_then; [by apply logs_modify|]. intros _ _. apply logs_pure, list_subseteq_nil.
Qed.

Lemma nack_all_logs l incomplete now :
  Forall (λ e, u64 e.1 ∧ Forall u64 e.2) incomplete → logs no l (nack_all incomplete now) any sends.
Proof.
  intros Hi. revert l. induction Hi as [|[k mask] incomplete [Hk Hm] Hi IH]; intros l; cbn [nack_all].
  { apply logs_pure, list_subseteq_nil. }
  apply logs_get_then. intros s _. cbv zeta.
  eapply (logs_bind no _ _ _ any _ sends).
  - destruct (match ms_nacked_frames s !! k with Some _ => _ | None => _ end); [|apply logs_pure, list_subseteq_nil].
    eapply logs_then; [by apply logs_modify|]. intros _ _.
    eapply logs_map; [by apply prepare_nack_logs|]. intros b _. split; [done|]. cbn. set_solver.
  - intros sent _. eapply logs_map; [apply IH|]. intros more _. split; [done|]. rewrite sends_app. set_solver.
Qed.

Lemma tick_nack_logs l now : logs no l (tick_nack now) any sends.
Proof.
  unfold tick_nack. apply logs_get_then. intros s [Hs _].
  case_decide; [|apply logs_pure, list_subseteq_nil].
  eapply logs_then; [by apply logs_modify|]. intros _ _.
  eapply (logs_bind no _ _ _ any); [apply nack_all_logs|].
  - apply Forall_forall. intros [k mask] Hin. destruct (incomplete_logged c L (ms_codec s) k mask Hs Hin) as [[p Hp] Hm].
    split; [by eapply Hnum|done].
  - intros acts _. eapply logs_then; [by apply logs_modify|]. intros _ _. apply logs_pure. set_solver.
Qed.

Lemma on_tick_logs order now : logs (eq ClientPayload.KeepAlive) [] (on_tick order now) any sends.
Proof.
  unfold on_tick. eapply logs_after; [apply tick_keepalive_logs|]. intros a1 _.
  eapply logs_bind; [apply tick_arq_logs|]. intros a2 _.
  eapply logs_bind; [apply tick_reconnect_logs|]. intros a3 _.
  eapply logs_bind; [apply tick_telemetry_logs|]. intros a4 _.
  eapply logs_map; [apply tick_nack_logs|]. intros a5 _. split; [done|]. rewrite !sends_app. set_solver.
Qed.

(** *** Datagrams *)

Lemma open_packet_logs l b :
  sealed_by c L b → logs no l (open_packet b) (λ o, match o with Some (pkt, _, _) => u64 (es_seq_num pkt) | None => True end) none.
Proof.
  intros Hb. apply logs_keep. intros K s Hs. unfold open_packet.
  destruct (open_server b (ms_codec s)) as [c' r] eqn:E.
  destruct (server_opened c L (ms_codec s) c' b r (cg_codec _ _ Hs) Hb E) as [Hc' Hr].
  split; [destruct Hs; by split|]. split; [done|]. intros o Ho. split; [|by intros].
  destruct Hr as [->|(pkt & p & st & -> & Hp)]; injection Ho as <-; [done|]. by eapply Hnum.
Qed.

Lemma track_rtt_logs l ack rec now : logs no l (track_rtt ack rec now) any none.
Proof.
  apply logs_keep. intros K s Hs. unfold track_rtt, mbind, M_bind, get, modify, mret, M_ret. cbn.
  split; [|by repeat split]. destruct Hs. split; try done. cbn. intros k e [He _]%map_lookup_filter_Some. exact (cg_unacked0 _ _ He).
Qed.

Lemma note_arrival_logs l k st now : logs no l (note_arrival k st now) any none.
Proof.
  unfold note_arrival. eapply logs_then; [by apply logs_modify|]. intros _ _.
  apply logs_get_then. intros s _. cbv zeta. eapply logs_then; [ |].
  - destruct (bool_decide _); [by apply logs_modify|]. apply logs_pure, list_subseteq_nil.
  - intros _ _. apply logs_pure, list_subseteq_nil.
Qed.

Lemma estimate_loss_logs l k : logs no l (estimate_loss k) any none.
Proof.
  unfold estimate_loss. eapply logs_then; [apply logs_modify|].
  - intros s. by destruct (slide_window _ _ _).
  - intros _ _. apply logs_get_then. intros s _. apply logs_pure, list_subseteq_nil.
Qed.

Lemma accept_packet_logs l k now : u64 k → Acked k → a0 ≤ k → logs no l (accept_packet k now) any none.
Proof.
  intros Hk HA Ha0. unfold accept_packet. eapply (logs_then no _ _ _ any).
  - apply logs_keep. intros K s Hs. split; [destruct Hs; by split|]. split; [done|]. split; [done|]. by intros.
  - intros _ _. apply logs_get_then. intros s _. destruct (ms_is_reconnecting s).
    + eapply logs_then; [by apply logs_modify|]. intros _ _. apply logs_with_mirror.
    + apply logs_pure, list_subseteq_nil.
Qed.

Lemma apply_update_logs l k base u now : logs no l (apply_update k base u now) any sends.
Proof.
  unfold apply_update. destruct (patch u base) as [g applied].
  eapply logs_then; [apply logs_lift|]. intros _ _.
  eapply logs_then; [by apply logs_modify|]. intros _ _.
  eapply logs_then; [apply logs_with_mirror|]. intros _ _.
  eapply (logs_then no _ _ _ any).
  { destruct (fu_is_echo_enabled u); [apply logs_pure, list_subseteq_nil|apply logs_with_mirror]. }
  intros _ _. eapply logs_then; [by apply logs_modify|]. intros _ _.
  apply logs_get_then. intros s _. eapply logs_map; [ |].
  - instantiate (1 := sends). instantiate (1 := any). case_decide; [apply try_ack_logs|apply logs_pure, list_subseteq_nil].
  - intros acts _. split; [done|]. cbn. set_solver.
Qed.

Lemma feed_payload_logs l k p now : logs no l (feed_payload k p now) any sends.
Proof.
  destruct p as [sid|u| |]; cbn [feed_payload]; [apply logs_pure, list_subseteq_nil| |apply logs_pure, list_subseteq_nil..].
  unfold feed_frame. apply logs_get_then. intros s _.
  destruct (find_ref _ _); [apply apply_update_logs|]. case_decide; [apply try_ack_logs|apply apply_update_logs].
Qed.

(** [feed_packet] after the datagram is opened. *)
Definition packet_rest (now : Instant) (opened : option (EncryptedServerPacket * ServerPayload * CodecStats))
    : M Session (list ClientAction) :=
  match opened with
  | None => mret []
  | Some (wire_packet, payload, stats) =>
    let seq := es_seq_num wire_packet in
    let ack := es_ack_seq_num wire_packet in
    is_recovering ← note_arrival seq stats now;
    rtt_updated ← track_rtt ack is_recovering now;
    loss ← estimate_loss seq;
    with_mirror (acknowledge ack) ;;
    with_mirror (record_rtt_loss rtt_updated loss) ;;
    self ← get;
    if decide (seq ≤ ms_ack_seq_num self) then mret []
    else accept_packet seq now ;; feed_payload seq payload now
  end.

Lemma packet_rest_logs now o :
  match o with
  | Some (pkt, _, _) => u64 (es_seq_num pkt) ∧ (a0 < es_seq_num pkt → Acked (es_seq_num pkt))
  | None => True
  end → logs no [] (packet_rest now o) any sends.
Proof.
  destruct o as [[[pkt p] st]|]; [|intros _; apply logs_pure, list_subseteq_nil]. intros [Hk HA]. cbn [packet_rest]. cbv zeta.
  eapply logs_then; [apply note_arrival_logs|]. intros rec _.
  eapply logs_then; [apply track_rtt_logs|]. intros rtt _.
  eapply logs_then; [apply estimate_loss_logs|]. intros loss _.
  eapply logs_then; [apply logs_with_mirror|]. intros _ _.
  eapply logs_then; [apply logs_with_mirror|]. intros _ _.
  apply logs_get_then. intros s [_ Ha0]. case_decide; [apply logs_pure, list_subseteq_nil|].
  eapply logs_then; [apply accept_packet_logs; [done|apply HA; lia|lia]|]. intros _ _. apply feed_payload_logs.
Qed.

(** A packet accepted has been acknowledged. *)
Definition acknowledges (b : list Z) (s : Session) : Prop :=
  match (open_server b (ms_codec s)).2 with
  | Ok (Some (pkt, _, _)) => a0 < es_seq_num pkt → Acked (es_seq_num pkt)
  | _ => True
  end.

Lemma feed_packet_logs b now K s (m := feed_packet b now) :
  sealed_by c L b → acknowledges b s → clog K s →
  ∃ K', K ⊆ K' ∧ clog K' (m s).1 ∧ numbers no (ms_seq_num s) K (ms_seq_num (m s).1) K' ∧
    ∀ a, (m s).2 = Ok a → Forall (client_sealed K') (sends a).
Proof.
  intros Hb Ha Hs. destruct (open_packet_logs [] b Hb K s Hs (Forall_nil_2 _)) as (K1 & _ & Hs1 & Hn1 & _ & Ho);
    [by intros [? []]|].
  apply numbers_no in Hn1 as [-> En].
  change (m s) with ((open_packet b ≫= packet_rest now) s). unfold mbind, M_bind.
  unfold acknowledges in Ha. unfold open_packet in *. destruct (open_server b (ms_codec s)) as [c1 r] eqn:Eo.
  cbn [fst snd] in *.
  assert (∀ o, match r with Ok opened => Ok opened | Err _ => Ok None | Panic => Panic end = Ok o →
    match o with
    | Some (pkt, _, _) => u64 (es_seq_num pkt) ∧ (a0 < es_seq_num pkt → Acked (es_seq_num pkt))
    | None => True
    end) as Hq.
  { intros o Eo'. destruct (Ho o Eo') as [Hu _]. destruct o as [[[pkt p] st]|]; [|done]. split; [done|].
    destruct r as [o|e|]; [|done..]. injection Eo' as ->. exact Ha. }
  destruct (match r with Ok opened => Ok opened | Err _ => Ok None | Panic => Panic end) as [o|e|].
  2,3: exists K; split; [done|]; split; [done|]; split; [by left|]; by intros ? [=].
  destruct (packet_rest_logs now o (Hq o eq_refl) K _ Hs1 (Forall_nil_2 _)) as (K2 & HK2 & Hs2 & Hn2 & _ & Ho2);
    [by intros [? []]|].
  exists K2. split; [done|]. split; [done|]. split; [by rewrite <-En|]. intros a Ha'. by apply Ho2.
Qed.

(** ** Events *)

(** What the operating system may give the client: bytes, sizes and its peer's datagrams. *)
Definition client_input (e : client_event) : Prop :=
  match e with
  | CDatagram b _ => sealed_by c L b
  | CStdin buf _ => Forall u8 buf
  | CWinch cols rows _ => u16 cols ∧ u16 rows
  | CTick _ _ | CPaint _ => True
  end.

(** The payload an event may number. *)
Definition payload_of (e : client_event) (s : Session) : ClientPayload :=
  match e with
  | CStdin buf _ => ClientPayload.Keystrokes (stdin_bytes buf s)
  | CWinch cols rows _ => ClientPayload.Resize cols rows
  | CDatagram _ _ | CTick _ _ | CPaint _ => ClientPayload.KeepAlive
  end.

Lemma paint_logs dest : logs no [] (copy_frame_if_dirty dest ;; mret []) any sends.
Proof.
  eapply (logs_then no [] _ _ any).
  - apply logs_same.
    + intros s. unfold copy_frame_if_dirty. by destruct (consume_updates _) as [[t d] [[]| |]].
    + intros s a _. split; [done|apply list_subseteq_nil].
  - intros _ _. apply logs_pure, list_subseteq_nil.
Qed.

Lemma client_handle_logs e K s (m := client_handle e) :
  client_input e → match e with CDatagram b _ => acknowledges b s | _ => True end →
  clog K s → ms_seq_num s + 1 < 2 ^ 63 →
  ∃ K', K ⊆ K' ∧ clog K' (m s).1 ∧
    numbers (eq (payload_of e s)) (ms_seq_num s) K (ms_seq_num (m s).1) K' ∧
    ∀ a, (m s).2 = Ok a → Forall (client_sealed K') (sends a).
Proof.
  intros He Hack Hs Hn.
  assert (∀ (m : M Session (list ClientAction)), logs (eq (payload_of e s)) [] m any sends →
    ∃ K', K ⊆ K' ∧ clog K' (m s).1 ∧ numbers (eq (payload_of e s)) (ms_seq_num s) K (ms_seq_num (m s).1) K' ∧
      ∀ a, (m s).2 = Ok a → Forall (client_sealed K') (sends a)) as Hgo.
  { intros m' Hm. destruct (Hm K s Hs (Forall_nil_2 _)) as (K' & ? & ? & ? & _ & Ho); [done|].
    exists K'. split_and!; try done. intros a Ha. by apply Ho. }
  destruct e as [b now|buf now|cols rows now|order now|dest]; cbn [client_handle client_input] in *.
  - destruct (feed_packet_logs b now K s He Hack Hs) as (K' & ? & ? & Hno & ?). exists K'. split_and!; try done.
    apply numbers_no in Hno. by left.
  - by apply feed_stdin_logs.
  - destruct He. apply Hgo. by apply on_winch_logs.
  - apply Hgo, on_tick_logs.
  - apply Hgo, logs_spare, paint_logs.
Qed.

(** A new session. *)
Lemma clog_new codec start cols rows overlay now :
  holds c L codec → u64 (session_of c) → Acked 0 → a0 ≤ 0 →
  clog ∅ (MirrorSession_new (session_of c) codec start cols rows overlay now).
Proof.
  intros Hc Hs HA Ha0. by split.
Qed.
End log.

(** More numbers may be acknowledged. *)
Lemma client_sealed_acked {C : Type} `{PacketCodecLaws C} (c : C) (A A' : Z → Prop) K b :
  (∀ r, A r → A' r) → client_sealed c A K b → client_sealed c A' K b.
Proof.
  intros HA (wire & p & st & ? & ? & ? & ? & ? & ? & ?). exists wire, p, st. split_and!; try done. by apply HA.
Qed.
