(* ===== verification/ClientNetworkProps.v ===== *)
(** * What the client's network loop guarantees

    The loop implements a machine whose state is the session alone: the rounds' events in order, the
    actions they are answered with, and repaints and the sizes told after a suspension in between; its timer
    stays within its bounds. *)

From Stdlib Require Import Floats.SpecFloat.
From S2P Require Import Prelude Utf8 Text Grid Protocol Crypto Codec WireFormat.
From S2P Require Import Frame Echo Terminal Render MirrorSession MirrorProps Lifecycle ClientNetwork.

(** ** The machine the loop implements

    Its state is the session alone. Each round hands it one event, performs the actions it answers with
    up to one that ends the loop, and puts the packets among them on the socket; the renderer and the
    terminal are seen through what they return. *)

Section machine.
Context {C W B : Type} `{PacketCodec C, Stdout W, LifecycleBackend B}.
Abbreviation Session := (MirrorSession C) (only parsing).
Abbreviation Round := (loop_event * Instant * (nat → Clock))%type (only parsing).
Implicit Types s : Session.

(** The session's event behind the loop's. *)
Definition session_event (server_addr : SocketAddr) (e : loop_event) (now : Instant) : option client_event :=
  match e with
  | LTick order => Some (CTick order now)
  | LRecv b src => if decide (src = server_addr) then Some (CDatagram b now) else None
  | LStdin bs => Some (CStdin bs now)
  | LResize cols rows => Some (CWinch cols rows now)
  | LRecvError | LClosed => None
  end.

(** What the painting of the session's answer [r] comes to. *)
Definition painted (r : outcome (TerminalFrame * bool)) (o : outcome Control) : Prop :=
  match r with
  | Ok (back, true) => ∃ w : W,
      o = match (paint (mkRenderer w back)).2 with Ok None => Ok Stuck | Panic => Panic | _ => Ok Continue end
  | Ok (_, false) => o = Ok Continue
  | Err e => o = Err e
  | Panic => o = Panic
  end.

(** A repaint: the session gives its screen to some buffer, and what is new is painted. *)
Definition repaints s s' (o : outcome Control) : Prop :=
  ∃ dest, s' = (copy_frame_if_dirty dest s).1 ∧ painted (copy_frame_if_dirty dest s).2 o.

(** The terminal is handed back with [r]: a size it reports is told to the session, whose answer is dropped. *)
Definition resumes (r : outcome (option (Z * Z))) s s' (o : outcome Control) : Prop :=
  match r with
  | Ok None => s' = s ∧ o = Ok Continue
  | Ok (Some (cols, rows)) => ∃ now, s' = (on_winch cols rows now s).1 ∧
      o = match (on_winch cols rows now s).2 with Panic => Panic | _ => Ok Continue end
  | Err e => s' = s ∧ o = Err e
  | Panic => s' = s ∧ o = Panic
  end.

(** The actions other than sending and disconnecting. *)
Definition locally (a : ClientAction) s s' (o : outcome Control) : Prop :=
  match a with
  | ClientAction.Paint => repaints s s' o
  | ClientAction.Suspend => ∃ b : B, resumes (suspend b).2 s s' o
  | ClientAction.ShowHelp => ∃ b : B, resumes (clear_and_resize b).2 s s' o
  | ClientAction.SendPacket _ | ClientAction.Disconnect => False
  end.

(** [performs acts s sent s' o]: performing [acts] puts [sent] on the socket and ends with [o]. *)
Inductive performs : list ClientAction → Session → list (list Z) → Session → outcome Control → Prop :=
  | performs_nil s : performs [] s [] s (Ok Continue)
  | performs_send b acts s sent s' o :
      performs acts s sent s' o → performs (ClientAction.SendPacket b :: acts) s (b :: sent) s' o
  | performs_disconnect acts s : performs (ClientAction.Disconnect :: acts) s [] s (Ok Exit)
  | performs_local a acts s s1 sent s' o :
      locally a s s1 (Ok Continue) → performs acts s1 sent s' o → performs (a :: acts) s sent s' o
  | performs_end a acts s s' o : locally a s s' o → o ≠ Ok Continue → performs (a :: acts) s [] s' o.

(** [follows rounds s sent s' o]: the rounds of the machine. *)
Inductive follows (server_addr : SocketAddr)
    : list Round → Session → list (list Z) → Session → outcome Control → Prop :=
  | follows_nil s : follows server_addr [] s [] s (Ok Continue)
  | follows_closed e now clock rounds s :
      e = LRecvError ∨ e = LClosed → follows server_addr ((e, now, clock) :: rounds) s [] s (Ok Exit)
  | follows_stranger b src now clock rounds s sent s' o :
      src ≠ server_addr → follows server_addr rounds s sent s' o →
      follows server_addr ((LRecv b src, now, clock) :: rounds) s sent s' o
  | follows_error e now clock rounds ev s s' err :
      session_event server_addr e now = Some ev → client_handle ev s = (s', Err err) →
      follows server_addr ((e, now, clock) :: rounds) s [] s' (Err err)
  | follows_panic e now clock rounds ev s s' :
      session_event server_addr e now = Some ev → client_handle ev s = (s', Panic) →
      follows server_addr ((e, now, clock) :: rounds) s [] s' Panic
  | follows_end e now clock rounds ev s s1 acts sent s' o :
      session_event server_addr e now = Some ev → client_handle ev s = (s1, Ok acts) →
      performs acts s1 sent s' o → o ≠ Ok Continue → follows server_addr ((e, now, clock) :: rounds) s sent s' o
  | follows_round e now clock rounds ev s s1 acts sent1 s2 sent2 s' o :
      session_event server_addr e now = Some ev → client_handle ev s = (s1, Ok acts) →
      performs acts s1 sent1 s2 (Ok Continue) → follows server_addr rounds s2 sent2 s' o →
      follows server_addr ((e, now, clock) :: rounds) s (sent1 ++ sent2) s' o.

(** *** What a machine that is still running has done *)

(** The others: a repaint, or a size the terminal reported. *)
Definition local_event (e : client_event) : Prop :=
  match e with CPaint _ | CWinch _ _ _ => True | _ => False end.
Definition session_after (es : list client_event) s : Session := foldl (λ s e, (client_handle e s).1) s es.

(** Each round's event, then the local events [locals] has for it; and the packets the rounds' events ask
    to send. *)
Fixpoint round_trip (server_addr : SocketAddr) (rounds : list Round) (locals : list (list client_event)) s
    : Session * list (list Z) :=
  match rounds, locals with
  | (e, now, _) :: rounds, more :: locals =>
    let own := option_list (session_event server_addr e now) in
    let asked := own ≫= λ ev, sends (default [] (ok (client_handle ev s).2)) in
    let '(s', rest) := round_trip server_addr rounds locals (session_after (own ++ more) s) in (s', asked ++ rest)
  | _, _ => (s, [])
  end.

Lemma locally_events a s s' :
  locally a s s' (Ok Continue) → ∃ es, Forall local_event es ∧ s' = session_after es s ∧ sends [a] = [].
Proof.
  assert (∀ r, resumes r s s' (Ok Continue) → ∃ es, Forall local_event es ∧ s' = session_after es s) as Hr.
  { intros [[[cols rows]|]|e|]; cbn.
    - intros (now & -> & _). exists [CWinch cols rows now]. by split; [constructor|].
    - intros [-> _]. by exists [].
    - by intros [_ ?].
    - by intros [_ ?]. }
  destruct a as [b| | | |]; cbn; [done| | | |done].
  - intros (dest & -> & _). exists [CPaint dest]. split; [by constructor|]. split; [|done]. cbn.
    unfold mbind, M_bind. by destruct (copy_frame_if_dirty dest s) as [? [?| |]].
  - intros (b & (es & ? & ?)%Hr). by exists es.
  - intros (b & (es & ? & ?)%Hr). by exists es.
Qed.

Lemma performs_events acts s sent s' :
  performs acts s sent s' (Ok Continue) → ∃ es, Forall local_event es ∧ s' = session_after es s ∧ sent = sends acts.
Proof.
  intros Hp. remember (Ok Continue) as o eqn:Eo. induction Hp as [s|b acts s sent s' o _ IH|acts s|a acts s s1 sent s' o Ha _ IH|]; subst; try done.
  - by exists [].
  - destruct IH as (es & ? & ? & ->); [done|]. by exists es.
  - destruct (locally_events a s s1 Ha) as (es1 & H1' & -> & Hno). destruct IH as (es2 & H2' & -> & ->); [done|].
    exists (es1 ++ es2). split; [by apply Forall_app|]. split; [unfold session_after; by rewrite foldl_app|].
    unfold sends in *. csimpl. cbn in Hno. by destruct (send_of a).
Qed.

Lemma follows_events server_addr rounds s sent s' :
  follows server_addr rounds s sent s' (Ok Continue) → ∃ locals, length locals = length rounds ∧
    Forall (Forall local_event) locals ∧ round_trip server_addr rounds locals s = (s', sent).
Proof.
  intros Hf. remember (Ok Continue) as o eqn:Eo.
  induction Hf as [s| |b src now clock rounds s sent s' o Hne _ IH| | |
    |e now clock rounds ev s s1 acts sent1 s2 sent2 s' o Hev Hh Hp _ IH]; subst; try done.
  - by exists [].
  - destruct IH as (locals & Hl & Hloc & E); [done|]. exists ([] :: locals). split; [by cbn; f_equal|].
    split; [by constructor|]. cbn. rewrite decide_False by done. cbn. by rewrite E.
  - destruct (performs_events _ _ _ _ Hp) as (es & Hes & -> & ->). destruct IH as (locals & Hl & Hloc & E); [done|].
    exists (es :: locals). split; [by cbn; f_equal|]. split; [by constructor|]. cbn [round_trip]. rewrite Hev.
    assert (session_after (option_list (Some ev) ++ es) s = session_after es s1) as -> by (unfold session_after; cbn; by rewrite Hh).
    rewrite E. cbn. by rewrite Hh, app_nil_r.
Qed.
End machine.

(** ** The loop implements it *)

Section rounds.
Context {C W B : Type} `{PacketCodec C, Stdout W, LifecycleBackend B}.
Abbreviation Client := (Client C W B) (only parsing).
Abbreviation Session := (MirrorSession C) (only parsing).
Abbreviation Round := (loop_event * Instant * (nat → Clock))%type (only parsing).
Implicit Types cl : Client.
Abbreviation locally := (locally (C:=C) (W:=W) (B:=B)) (only parsing).
Abbreviation performs := (performs (C:=C) (W:=W) (B:=B)) (only parsing).
Abbreviation follows := (follows (C:=C) (W:=W) (B:=B)) (only parsing).

Lemma paint_action_locally clock cl cl' o :
  paint_action clock cl = (cl', o) → locally ClientAction.Paint (cl_session cl) (cl_session cl') o ∧ cl_sent cl' = cl_sent cl.
Proof.
  unfold paint_action, mbind, M_bind, get, in_mirror, modify. cbn [ClientNetworkProps.locally]. unfold repaints.
  set (dest := rn_back_buffer (cl_renderer cl)). intros Erun.
  assert (cl_session cl' = (copy_frame_if_dirty dest (cl_session cl)).1 ∧ cl_sent cl' = cl_sent cl ∧
    painted (W:=W) (copy_frame_if_dirty dest (cl_session cl)).2 o) as (Hs & Hl & Hp); [|by split; [exists dest|]].
  destruct (copy_frame_if_dirty dest (cl_session cl)) as [s [[back [|]]|e|]]; cbn in Erun |- *.
  - unfold paint_screen in Erun. cbn in Erun. destruct (paint _) as [rn q] eqn:Ep.
    destruct q as [[b|]|e|]; injection Erun as <- <-; (split; [done|]; split; [done|]);
      (exists (rn_stdout (cl_renderer cl)); by rewrite Ep).
  - injection Erun as <- <-. by case_decide.
  - by injection Erun as <- <-.
  - by injection Erun as <- <-.
Qed.

Lemma tell_size_resumes clock size cl cl' o :
  (tell_size clock size ;; mret Continue) cl = (cl', o) →
  resumes (Ok size) (cl_session cl) (cl_session cl') o ∧ cl_sent cl' = cl_sent cl.
Proof.
  destruct size as [[cols rows]|]; cbn; [|by intros [= <- <-]]. unfold mbind, M_bind, attempt, in_mirror.
  intros E. destruct (on_winch cols rows (ck_resumed clock) (cl_session cl)) as [s r] eqn:Ew.
  assert (cl_session cl' = s ∧ cl_sent cl' = cl_sent cl ∧ o = match r with Panic => Panic | _ => Ok Continue end) as (Es & El & Eo)
    by (destruct r; by injection E as <- <-).
  split; [|done]. exists (ck_resumed clock). by rewrite Ew.
Qed.

Lemma resume_resumes (m : M B (option (Z * Z))) clock cl cl' o :
  (size ← in_terminal m; tell_size clock size ;; mret Continue) cl = (cl', o) →
  resumes (m (cl_terminal cl)).2 (cl_session cl) (cl_session cl') o ∧ cl_sent cl' = cl_sent cl.
Proof.
  unfold mbind at 1, M_bind at 1, in_terminal. destruct (m (cl_terminal cl)) as [b [size|e|]]; [|by intros [= <- <-]..].
  intros [Hr Hl]%tell_size_resumes. by split.
Qed.

Lemma perform_actions_performs clock i acts cl cl' o :
  perform_actions clock i acts cl = (cl', o) →
  ∃ sent, cl_sent cl' = cl_sent cl ++ sent ∧ performs acts (cl_session cl) sent (cl_session cl') o.
Proof.
  revert i cl. induction acts as [|a acts IH]; intros i cl; cbn [perform_actions].
  { intros [= <- <-]. exists []. rewrite app_nil_r. split; [done|constructor]. }
  assert (∀ cl1 o1, perform_action (clock i) a cl = (cl1, o1) →
    locally a (cl_session cl) (cl_session cl1) o1 ∧ cl_sent cl1 = cl_sent cl →
    (c ← perform_action (clock i) a; match c with Continue => perform_actions clock (S i) acts | _ => mret c end) cl = (cl', o) →
    ∃ sent, cl_sent cl' = cl_sent cl ++ sent ∧ performs (a :: acts) (cl_session cl) sent (cl_session cl') o) as Hlocal.
  { intros cl1 o1 E1 [Ha Hl]. unfold mbind, M_bind. rewrite E1. destruct o1 as [[]|e|].
    - intros (sent & Hs & Hp)%IH. exists sent. rewrite <-Hl. split; [done|]. by eapply performs_local.
    - intros [= <- <-]. exists []. rewrite app_nil_r. split; [done|]. by apply performs_end.
    - intros [= <- <-]. exists []. rewrite app_nil_r. split; [done|]. by apply performs_end.
    - intros [= <- <-]. exists []. rewrite app_nil_r. split; [done|]. by apply performs_end.
    - intros [= <- <-]. exists []. rewrite app_nil_r. split; [done|]. by apply performs_end. }
  destruct a as [b| | | |].
  - intros (sent & Hs & Hp)%IH. exists (b :: sent). cbn in Hs. rewrite Hs, <-(assoc_L (++)). split; [done|].
    by apply performs_send.
  - destruct (perform_action (clock i) ClientAction.Paint cl) as [cl1 o1] eqn:E1. apply (Hlocal cl1 o1); [done|].
    by eapply paint_action_locally.
  - destruct (perform_action (clock i) ClientAction.Suspend cl) as [cl1 o1] eqn:E1. apply (Hlocal cl1 o1); [done|].
    destruct (resume_resumes suspend (clock i) cl cl1 o1 E1). split; [by exists (cl_terminal cl)|done].
  - destruct (perform_action (clock i) ClientAction.ShowHelp cl) as [cl1 o1] eqn:E1. apply (Hlocal cl1 o1); [done|].
    destruct (resume_resumes clear_and_resize (clock i) cl cl1 o1 E1). split; [by exists (cl_terminal cl)|done].
  - intros [= <- <-]. exists []. rewrite app_nil_r. split; [done|]. apply performs_disconnect.
Qed.

(** One round: alone when it ends the loop, and before any others when it does not. *)
Lemma loop_round_follows server_addr rounds e now clock cl cl' o :
  loop_round server_addr e now clock cl = (cl', o) →
  ∃ sent, cl_sent cl' = cl_sent cl ++ sent ∧
    (o ≠ Ok Continue → follows server_addr ((e, now, clock) :: rounds) (cl_session cl) sent (cl_session cl') o) ∧
    (o = Ok Continue → ∀ sent' s' o', follows server_addr rounds (cl_session cl') sent' s' o' →
       follows server_addr ((e, now, clock) :: rounds) (cl_session cl) (sent ++ sent') s' o').
Proof.
  assert (∀ ev, session_event server_addr e now = Some ev →
    (actions ← (actions ← in_mirror (client_handle ev); mret (Some actions));
     match actions with Some actions => perform_actions clock 0 actions | None => mret Exit end) cl = (cl', o) →
    ∃ sent, cl_sent cl' = cl_sent cl ++ sent ∧
      (o ≠ Ok Continue → follows server_addr ((e, now, clock) :: rounds) (cl_session cl) sent (cl_session cl') o) ∧
      (o = Ok Continue → ∀ sent' s' o', follows server_addr rounds (cl_session cl') sent' s' o' →
         follows server_addr ((e, now, clock) :: rounds) (cl_session cl) (sent ++ sent') s' o')) as Hev.
  { intros ev Hev. unfold mbind, M_bind, in_mirror. destruct (client_handle ev (cl_session cl)) as [s [acts|x|]] eqn:Eh; cbn.
    - intros (sent & Hs & Hp)%perform_actions_performs. exists sent. split; [exact Hs|]. split.
      + intros Hne. by eapply follows_end.
      + intros -> sent' s' o' Hf. by eapply follows_round.
    - intros [= <- <-]. exists []. rewrite app_nil_r. split; [done|]. split; [intros _; by eapply follows_error|done].
    - intros [= <- <-]. exists []. rewrite app_nil_r. split; [done|]. split; [intros _; by eapply follows_panic|done]. }
  unfold loop_round. destruct e as [order|b src| |bs|cols rows|]; cbn [loop_actions]; try exact (Hev _ eq_refl).
  - case_decide as Hsrc; [apply (Hev (CDatagram b now)); cbn; by rewrite decide_True|]. intros E. cbn in E. injection E as <- <-.
    exists []. rewrite app_nil_r. split; [done|]. split; [done|]. intros _ sent' s' o'. by apply follows_stranger.
  - intros E. cbn in E. injection E as <- <-. exists []. rewrite app_nil_r. split; [done|]. split; [intros _; apply follows_closed; by left|done].
  - intros E. cbn in E. injection E as <- <-. exists []. rewrite app_nil_r. split; [done|]. split; [intros _; apply follows_closed; by right|done].
Qed.

(** C14. The loop implements its machine. Whatever rounds the operating system brings and however the
    loop ends, what it has put on the socket, where it leaves its session and how it ends are those of the
    machine: each round's event is given to the session, in order and once, a datagram only if it comes from the
    server's address; the actions of the answer are performed in order, up to the first that ends the
    loop, and exactly the packets among them are sent, as they come; in between the session sees only
    repaints and the sizes the terminal reports after a suspension or the help; the loop ends exactly at the
    first disconnection, error, panic or painting that does not return, or when its channel is closed. So a loop
    that is still running has put every round's event through the session, each followed by local events only,
    and has sent exactly the packets the session asked to send at them. *)
Theorem loop_follows_session server_addr (rounds : list Round) (cl cl' : Client) o :
  client_loop server_addr rounds cl = (cl', o) →
  ∃ sent, cl_sent cl' = cl_sent cl ++ sent ∧
    follows server_addr rounds (cl_session cl) sent (cl_session cl') o ∧
    (o = Ok Continue → ∃ locals, length locals = length rounds ∧ Forall (Forall local_event) locals ∧
       round_trip server_addr rounds locals (cl_session cl) = (cl_session cl', sent)).
Proof.
  intros E. enough (∃ sent, cl_sent cl' = cl_sent cl ++ sent ∧
    follows server_addr rounds (cl_session cl) sent (cl_session cl') o) as (sent & Hs & Hf).
  { exists sent. split; [done|]. split; [done|]. intros ->. by eapply follows_events. }
  revert cl E. induction rounds as [|[[e now] clock] rounds IH]; intros cl E; cbn [client_loop] in E.
  { injection E as <- <-. exists []. rewrite app_nil_r. split; [done|constructor]. }
  unfold mbind at 1, M_bind at 1 in E. destruct (loop_round server_addr e now clock cl) as [cl1 o1] eqn:E1.
  destruct (loop_round_follows server_addr rounds e now clock cl cl1 o1 E1) as (sent1 & Hs1 & Hend & Hgo).
  assert (o1 = Ok Continue ∨ o1 ≠ Ok Continue ∧ cl1 = cl' ∧ o1 = o) as [->|(Hne & -> & ->)].
  { destruct o1 as [[]|x|]; [by left|..]; right; (split; [done|]); by injection E as <- <-. }
  - destruct (IH cl1 E) as (sent2 & Hs2 & Hf). exists (sent1 ++ sent2).
    split; [by rewrite Hs2, Hs1, <-(assoc_L (++))|]. by apply Hgo.
  - exists sent1. split; [done|]. by apply Hend.
Qed.

(** ** The timer *)

Definition timely (cl : Client) : Prop := from_millis 16 ≤ cl_tick_interval cl ≤ from_millis 100.

Lemma in_mirror_timely {A} (m : M (MirrorSession C) A) : always timely (in_mirror m).
Proof. intros cl Hcl. unfold in_mirror. by destruct (m (cl_session cl)). Qed.
Lemma in_terminal_timely {A} (m : M B A) : always timely (in_terminal m).
Proof. intros cl Hcl. unfold in_terminal. by destruct (m (cl_terminal cl)). Qed.
Hint Resolve in_mirror_timely in_terminal_timely : safe.

Lemma paint_action_timely clock : always timely (paint_action clock).
Proof.
  unfold paint_action. apply always_bind; [apply always_get|].
  intros c0. apply always_bind; [apply in_mirror_timely|]. intros [back dirty].
  apply always_bind; [by apply always_modify|]. intros _. destruct dirty.
  - apply always_bind.
    + intros cl Hcl. unfold paint_screen. by destruct (paint (cl_renderer cl)).
    + intros []; [..|apply always_ret]; cbv zeta; (apply always_bind; [|intros; apply always_ret]);
        apply always_modify; intros cl _; unfold timely; cbn; unfold from_millis; lia.
  - apply always_bind; [|intros; apply always_ret]. apply always_modify. intros cl Hcl.
    case_decide; [|done]. unfold timely, from_millis in *. cbn. lia.
Qed.

Lemma perform_actions_timely clock i actions : always timely (perform_actions clock i actions).
Proof.
  revert i. induction actions as [|a actions IH]; intros i; cbn [perform_actions]; [apply always_ret|].
  apply always_bind.
  - destruct a; cbn [perform_action]; [|apply paint_action_timely| | |apply always_ret];
      (apply always_bind; [|]); try (intros; apply always_ret).
    + by apply always_modify.
    + apply in_terminal_timely.
    + intros size. apply always_bind; [|intros; apply always_ret]. destruct size as [[? ?]|]; [|apply always_ret].
      apply always_bind; [|intros; apply always_ret]. apply always_attempt, in_mirror_timely.
    + apply in_terminal_timely.
    + intros size. apply always_bind; [|intros; apply always_ret]. destruct size as [[? ?]|]; [|apply always_ret].
      apply always_bind; [|intros; apply always_ret]. apply always_attempt, in_mirror_timely.
  - intros []; [apply IH|apply always_ret..].
Qed.

(** The paint throttle stays within its bounds. Whatever the rounds bring and however long painting
    takes, the interval of the loop's timer is between 16 ms and 100 ms. *)
Theorem tick_interval_bounded server_addr (rounds : list Round) s stdout terminal sent :
  let cl := (client_loop server_addr rounds (Client_new s stdout terminal sent : Client)).1 in
  from_millis 16 ≤ cl_tick_interval cl ≤ from_millis 100.
Proof.
  assert (always timely (client_loop (C:=C) (W:=W) (B:=B) server_addr rounds)) as Hall.
  { induction rounds as [|[[e now] clock] rounds IH]; cbn [client_loop]; [apply always_ret|].
    apply always_bind; [|by intros []; [|apply always_ret..]]. unfold loop_round. apply always_bind.
    - destruct e; cbn [loop_actions]; try apply always_ret;
        try (apply always_bind; [apply in_mirror_timely|intros; apply always_ret]).
      case_decide; [|apply always_ret]. apply always_bind; [apply in_mirror_timely|intros; apply always_ret].
    - intros [acts|]; [apply perform_actions_timely|apply always_ret]. }
  apply Hall. unfold timely, from_millis. cbn. unfold from_millis. lia.
Qed.
End rounds.

(** ** Witness

    A key, a datagram of a stranger, the first frame of the server, and a suspension at the start of a line. *)
Definition demo_peer : SocketAddr := SocketAddrV4 2130706433 60001.
Definition demo_stranger : SocketAddr := SocketAddrV4 2130706433 60002.
Definition demo_loop_client : Client NullCodec Screen FakeLifecycleBackend :=
  Client_new mp_session (mkScreen ∅ 0 0 plain true) (FakeLifecycleBackend_new 3 2) [].
Definition demo_clock : nat → Clock := λ _, mkClock (from_millis 2) mp_now.
Definition demo_rounds : list (loop_event * Instant * (nat → Clock)) :=
  (λ e, (e, mp_now, demo_clock)) <$>
  [LStdin [97]; LRecv mp_first demo_stranger; LRecv mp_first demo_peer; LStdin [10; 126; 26]].

Lemma loop_follows_session_witness :
  let r := client_loop demo_peer demo_rounds demo_loop_client in
  r.2 = Ok Continue ∧ length (cl_sent r.1) = 3%nat ∧
  ∃ locals, length locals = 4%nat ∧
    round_trip demo_peer demo_rounds locals mp_session = (cl_session r.1, cl_sent r.1).
Proof.
  intros r. assert (r.2 = Ok Continue ∧ length (cl_sent r.1) = 3%nat) as [Ho Hl] by (vm_compute; split; reflexivity).
  split; [exact Ho|]. split; [exact Hl|].
  destruct (loop_follows_session demo_peer demo_rounds demo_loop_client r.1 r.2) as (sent & Hs & _ & Hrun).
  - apply surjective_pairing.
  - destruct (Hrun Ho) as (locals & Hn & _ & E). exists locals. split; [exact Hn|].
    assert (cl_sent demo_loop_client = []) as Hnone by reflexivity. rewrite Hnone in Hs. cbn [app] in Hs.
    rewrite Hs. exact E.
Defined.
