(* ===== verification/Handshake.v ===== *)
(** * The handshake's two ends

    [wait_for_client_handshake] of the server and the handshake of [run_client], on any serializer and
    cipher with their laws: they agree on the session when the first request that reaches the server is
    that of the client's current attempt and its answer arrives in time. When the answer is lost, what
    the server's session answers the later requests is of no use to the client. *)

From Stdlib Require Import Floats.SpecFloat.
From S2P Require Import Prelude Utf8 Text Grid Protocol Crypto Codec CodecFacts WireFormat CodecProps.
From S2P Require Import TermState Pty ServerSession ServerNetwork.
From S2P Require Import Frame Echo Terminal Render MirrorSession Lifecycle ClientNetwork.

Section handshake.
Context `{Bincode ClientPayload, Bincode ServerPayload, Bincode EncryptedClientPacket,
          Bincode EncryptedServerPacket, Aead}.
Context `{!BincodeLaws ClientPayload, !BincodeLaws ServerPayload, !BincodeLaws EncryptedClientPacket,
          !BincodeLaws EncryptedServerPacket, !AeadLaws}.
(** bincode writes an integer in at most 9 bytes, and the variant of an enum as one. *)
Context (Hrequest : ∀ v cols rows bs, serialize (ClientPayload.Handshake v cols rows) = Ok bs → len bs ≤ 36).
Context (Hreply : ∀ sid bs, serialize (ServerPayload.HandshakeAck sid) = Ok bs → len bs ≤ 18).
Context (cm : CryptoManager).

Lemma handshake_packet_opens h cols rows :
  u64 h → u16 cols → u16 rows → ∃ b wire, handshake_packet cm h cols rows = Ok b ∧
    open_handshake cm b = Some (wire, cols, rows) ∧ ec_seq_num wire = h.
Proof.
  intros Hh Hc Hr. set (p := ClientPayload.Handshake 1 cols rows).
  assert (wf p) as Hp by (split_and!; [unfold fits; lia|done|done]).
  destruct (serialize_total p Hp) as [plain Es]. pose proof (Hrequest _ _ _ _ Es) as Hl.
  destruct (encrypt_total cm h plain) as [ct Ec]; [exact (serialize_bytes p plain Hp Es)|unfold aead_max; lia|].
  set (w := {| ec_session_id := 0; ec_seq_num := h; ec_ack_seq_num := 0; ec_ciphertext := ct |}).
  assert (wf w) as Hw by (pose proof (encrypt_bytes _ _ _ _ Ec); split_and!; cbn; try done; unfold fits; lia).
  destruct (serialize_total w Hw) as [b Eb]. exists b, w.
  unfold handshake_packet, open_handshake. fold p. rewrite Es. cbn [mbind outcome_bind]. rewrite Ec. cbn [mbind outcome_bind].
  rewrite (deserialize_serialize_nil w b Hw Eb). rewrite decide_True by done. cbn [w ec_seq_num ec_ciphertext].
  rewrite (decrypt_encrypt _ _ _ _ Ec), (deserialize_serialize_nil p plain Hp Es). done.
Qed.

Lemma handshake_reply_accepted sid h :
  u64 sid → u64 h → ∃ b, handshake_reply cm sid h = Ok b ∧
    ∀ h', accept_reply cm h' b = if decide (h = h') then Some (sid, 1) else None.
Proof.
  intros Hsid Hh. set (p := ServerPayload.HandshakeAck sid).
  assert (wf p) as Hp by done. destruct (serialize_total p Hp) as [plain Es]. pose proof (Hreply _ _ Es) as Hl.
  destruct (encrypt_total cm 1 plain) as [ct Ec]; [exact (serialize_bytes p plain Hp Es)|unfold aead_max; lia|].
  set (w := {| es_seq_num := 1; es_ack_seq_num := h; es_frag_idx := 0; es_total_frags := 1; es_ciphertext := ct |}).
  assert (wf w) as Hw by (pose proof (encrypt_bytes _ _ _ _ Ec); split_and!; cbn; try done; unfold fits; lia).
  destruct (serialize_total w Hw) as [b Eb]. exists b.
  unfold handshake_reply, accept_reply. fold p. rewrite Es. cbn [unwrap mbind outcome_bind]. rewrite Ec. cbn [unwrap mbind outcome_bind].
  split; [exact Eb|]. intros h'. rewrite (deserialize_serialize_nil w b Hw Eb). cbn [w es_ack_seq_num es_seq_num es_ciphertext].
  case_decide; [|done]. by rewrite (decrypt_encrypt _ _ _ _ Ec), (deserialize_serialize_nil p plain Hp Es).
Qed.

(** The attempt the client is at after these receptions, when none was the reply it waits for. *)
Fixpoint attempt_after (h : Z) (waits : list Reception) : option Z :=
  match waits with
  | [] => Some h
  | Arrived b _ :: waits => if accept_reply cm h b is Some _ then None else attempt_after h waits
  | (RecvFailed | TimedOut) :: waits => attempt_after (h +₆₄ 1) waits
  end.

Lemma attempt_after_u64 h waits h' : u64 h → attempt_after h waits = Some h' → u64 h'.
Proof.
  revert h. induction waits as [|[b src| |] waits IH]; intros h Hh; cbn.
  - by intros [= <-].
  - destruct (accept_reply cm h b); [done|by apply IH].
  - apply IH. by apply wrap_fits.
  - apply IH. by apply wrap_fits.
Qed.

Lemma client_handshake_attempts cols rows h0 waits h reply src accepted rest sent :
  u64 h0 → u16 cols → u16 rows → attempt_after h0 waits = Some h → accept_reply cm h reply = Some accepted →
  ∃ sent', client_handshake cm cols rows h0 (waits ++ Arrived reply src :: rest) sent = (sent', Ok (Some accepted)) ∧
    ∃ b, handshake_packet cm h cols rows = Ok b ∧ b ∈ sent'.
Proof.
  intros Hh0 Hc Hr Hw Ha. revert h0 sent Hh0 Hw. induction waits as [|r waits IH]; intros h0 sent Hh0 Hw; cbn in Hw;
    cbn [app client_handshake]; destruct (handshake_packet_opens h0 cols rows Hh0 Hc Hr) as (b & _ & E & _);
    rewrite E; unfold mbind, M_bind; cbn [lift outcome_bind modify].
  - injection Hw as ->. rewrite Ha. eexists. split; [done|]. exists b. split; [done|]. set_solver.
  - destruct r as [b' src'| |].
    + destruct (accept_reply cm h0 b') eqn:E'; [done|]. by apply IH.
    + apply IH; [|done]. apply wrap_fits. lia.
    + apply IH; [|done]. apply wrap_fits. lia.
Qed.

Lemma handshake_ignores (sid : Z) (junk inbox : list Received) :
  Forall (λ r, ∃ b src, r = Some (b, src) ∧ open_handshake cm b = None) junk →
  wait_for_client_handshake cm sid (junk ++ inbox) = wait_for_client_handshake cm sid inbox.
Proof.
  induction 1 as [|r junk (b & src & -> & Hb) _ IH]; [done|]. cbn [app wait_for_client_handshake]. by rewrite Hb.
Qed.

(** C13. The handshake succeeds if its first answer gets through. The client may have seen any timeouts,
    errors and datagrams that are no answer to its attempts, and the server, which waits for its first
    handshake, any datagrams that are no handshake. When the first handshake to reach the
    server is the request of the client's current attempt, it ends the server's wait; and when the answer
    reaches the client during that attempt, it ends the client's. Both have then the same session id, the
    server knows the client's address, size and the number of that attempt, and the client that the
    server starts from 1. During any other attempt the answer is refused. *)
Theorem handshake_agrees sid cols rows waits h junk addr inbox :
  u64 sid → u16 cols → u16 rows →
  attempt_after 1 waits = Some h →
  Forall (λ r, ∃ b src, r = Some (b, src) ∧ open_handshake cm b = None) junk →
  ∃ request reply,
    handshake_packet cm h cols rows = Ok request ∧
    wait_for_client_handshake cm sid (junk ++ Some (request, addr) :: inbox) =
      Ok ({| hr_client_addr := addr; hr_session_id := sid; hr_client_start_seq := h;
             hr_cols := cols; hr_rows := rows |}, [(reply, addr)]) ∧
    (∀ src rest sent, ∃ sent', request ∈ sent' ∧
       client_handshake cm cols rows 1 (waits ++ Arrived reply src :: rest) sent = (sent', Ok (Some (sid, 1)))) ∧
    ∀ h', h' ≠ h → accept_reply cm h' reply = None.
Proof.
  intros Hsid Hc Hr Hw Hjunk. assert (u64 h) as Hh by (eapply attempt_after_u64, Hw; unfold fits; lia).
  destruct (handshake_packet_opens h cols rows Hh Hc Hr) as (request & wire & Eq & Eo & Es).
  destruct (handshake_reply_accepted sid h Hsid Hh) as (reply & Er & Ha).
  exists request, reply. split; [done|]. split; [|split].
  - rewrite handshake_ignores by done. cbn [wait_for_client_handshake]. by rewrite Eo, Es, Er.
  - intros src rest sent.
    destruct (client_handshake_attempts cols rows 1 waits h reply src (sid, 1) rest sent) as (sent' & E & b & Eb & Hin);
      [unfold fits; lia|done|done|done|by rewrite Ha, decide_True|].
    exists sent'. split; [congruence|done].
  - intros h' Hn. by rewrite Ha, decide_False by done.
Qed.
End handshake.

(** ** A lost reply *)

Section lost.
Context `{Bincode ClientPayload, Bincode ServerPayload, Bincode EncryptedClientPacket,
          Bincode EncryptedServerPacket, Aead, Lz4}.
Context `{!BincodeLaws ClientPayload, !BincodeLaws ServerPayload, !BincodeLaws EncryptedClientPacket,
          !BincodeLaws EncryptedServerPacket, !AeadLaws}.
Context (Hreply : ∀ sid bs, serialize (ServerPayload.HandshakeAck sid) = Ok bs → len bs ≤ 18).
Context {P T R : Type} `{PtyBackend P, Vt T R}.
Abbreviation Session := (AuthoritativeSession P ChaChaCodec T R) (only parsing).
Abbreviation Action := (SessionAction ChaChaCodec) (only parsing).

(** A check sends nothing itself. *)
Definition returns {S A} (m : M S A) (Q : A → Prop) : Prop := ∀ s s' a, runs m s s' a → Q a.
Lemma returns_bind {S A B} (m : M S A) (f : A → M S B) Q : (∀ a, returns (f a) Q) → returns (m ≫= f) Q.
Proof.
  intros Hf s s' b. unfold runs, mbind, M_bind. destruct (m s) as [s1 [a|e|]]; [|done..]. apply Hf.
Qed.
Lemma returns_ret {S A} (a : A) (Q : A → Prop) : Q a → returns (S:=S) (mret a) Q.
Proof. by intros Ha s s' a' [= _ <-]. Qed.

Definition quiet (acts : list Action) : Prop := ∀ b addr, SendPacket b addr ∉ acts.

Lemma check_sync_quiet now : returns (check_sync now : M Session _) quiet.
Proof.
  assert (quiet []) as Hnil by (intros b addr; apply not_elem_of_nil).
  unfold check_sync. apply returns_bind. intros self. case_decide; [by apply returns_ret|].
  apply returns_bind. intros _. destruct (_ && _); [by apply returns_ret|].
  apply returns_bind. intros [g|]; [|by apply returns_ret]. cbv zeta. destruct (_ && _).
  - apply returns_bind. intros _. by apply returns_ret.
  - unfold queue_frame. do 2 (apply returns_bind; intros ?). destruct (choose_ref _).
    do 5 (apply returns_bind; intros ?). apply returns_ret. intros b addr. by rewrite list_elem_of_singleton.
Qed.

Lemma salts_differ key sid :
  2 ^ 32 ≤ sid → u64 sid → cm_salt (CryptoManager_new key sid) ≠ cm_salt (CryptoManager_new key 0).
Proof.
  unfold fits. intros Hl Hs E. unfold CryptoManager_new in E. rewrite !to_be_bytes_8 in E. cbn [take cm_salt] in E.
  injection E as E1 E2 E3 E4. rewrite !Z.div_0_l in * by lia.
  change (256 ^ 7) with (256 ^ 4 * 256 * 256 * 256) in E1. change (256 ^ 6) with (256 ^ 4 * 256 * 256) in E2.
  change (256 ^ 5) with (256 ^ 4 * 256) in E3. rewrite <-!Z.div_div in * by lia.
  assert (0 < sid / 256 ^ 4 < 2 ^ 32) by (split; [apply Z.div_str_pos; lia|apply Z.div_lt_upper_bound; lia]).
  set (q := sid / 256 ^ 4) in *. clearbody q. cbn in *. Z.to_euclidean_division_equations. lia.
Qed.

(** The datagram of the answer. *)
Lemma chacha_answer_opens (c : ChaChaCodec) seq ack sid bss b :
  u64 sid → u64 seq → u64 ack →
  seal_server c seq ack (ServerPayload.HandshakeAck sid) = Ok bss → b ∈ bss →
  ∃ plain ct, encrypt (cc_crypto c) seq plain = Ok ct ∧
    deserialize b = Ok {| es_seq_num := seq; es_ack_seq_num := ack; es_frag_idx := 0; es_total_frags := 1;
                          es_ciphertext := ct |}.
Proof.
  intros Hw Hseq Hack E Hb. set (p := ServerPayload.HandshakeAck sid) in *.
  cbn [seal_server ChaCha_PacketCodec] in E. unfold ChaCha_seal_server, serialize_compressed in E.
  destruct (serialize p) as [form| |] eqn:Es; cbn [mbind outcome_bind] in E; [|done..].
  pose proof (Hreply _ _ Es) as Hl. rewrite decide_True in E by lia. cbn [mbind outcome_bind] in E.
  destruct (encrypt (cc_crypto c) seq (0 :: form)) as [ct| |] eqn:Ec; cbn [mbind outcome_bind] in E; [|done..].
  exists (0 :: form), ct. split; [done|]. pose proof (encrypt_bytes _ _ _ _ Ec) as Hct.
  pose proof (encrypt_length _ _ _ _ Ec) as El. unfold len in El, Hl. cbn [length] in El.
  unfold packets_of in E. rewrite decide_True in E by (unfold FRAGMENT_PAYLOAD_SIZE, len; lia).
  set (w := {| es_seq_num := seq; es_ack_seq_num := ack; es_frag_idx := 0; es_total_frags := 1; es_ciphertext := ct |}) in *.
  unfold serialize_all in E. destruct (serialize w) as [b'| |] eqn:Ew; cbn in E; [|done..].
  injection E as <-. apply list_elem_of_singleton in Hb as ->.
  apply deserialize_serialize_nil; [|done]. split_and!; cbn; try done; unfold fits; lia.
Qed.

(** C40. A reply that is lost is lost for good. When the server's session is up and answers a handshake,
    the answer is sealed with the session's key, while the client opens it with the handshake's: unless
    the cipher produces one ciphertext under two nonces, the client ignores it, in every attempt. The
    session id, drawn at random, is taken to be at least 2^32. *)
Theorem lost_reply_unusable key (s s' : Session) wire src now acts b target h :
  cc_crypto (as_codec s) = CryptoManager_new key (as_session_id s) →
  u64 (as_session_id s) → 2 ^ 32 ≤ as_session_id s → wf wire →
  feed_handshake wire src now s = (s', Ok acts) → SendPacket b target ∈ acts →
  accept_reply (CryptoManager_new key 0) h b = None ∨
  ∃ nonce nonce' p p' ct, nonce ≠ nonce' ∧
    aead_encrypt key nonce p = Some ct ∧ aead_encrypt key nonce' p' = Some ct.
Proof.
  intros Hk Hsid Hbig Hw Hrun Hin. change (runs (feed_handshake wire src now) s s' acts) in Hrun.
  apply runs_bind_inv in Hrun as (s0 & self & [= <- <-] & Hrun). cbv zeta in Hrun. case_decide as Hactive.
  { injection Hrun as _ <-. by apply not_elem_of_nil in Hin. }
  apply runs_bind_inv in Hrun as (s1 & [] & [= <-] & Hrun). apply runs_bind_inv in Hrun as (s2 & bss & Hseal & Hrun).
  apply runs_bind_inv in Hrun as (s3 & more & Hmore & [= _ <-]).
  apply runs_bind_inv in Hseal as (s4 & [] & [= <-] & Hseal). apply runs_bind_inv in Hseal as (s5 & self & [= <- <-] & Hseal).
  assert (∃ seq, u64 seq ∧ seal_server (as_codec s) seq (ec_seq_num wire) (ServerPayload.HandshakeAck (as_session_id s)) = Ok bss)
    as (seq & Hseq & Es) by (injection Hseal as _ Hseal; eexists; split; [|exact Hseal]; by apply wrap_fits).
  assert (b ∈ bss) as Hb.
  { apply elem_of_app in Hin as [Hin|Hin]; [|by apply check_sync_quiet in Hmore; apply Hmore in Hin].
    apply list_elem_of_fmap in Hin as (b' & [= <- _] & Hb). done. }
  destruct (chacha_answer_opens (as_codec s) seq (ec_seq_num wire) (as_session_id s) bss b)
    as (plain & ct & Ec & Ed); [done|done|by apply Hw|done|done|].
  unfold accept_reply. rewrite Ed. case_decide; [|by left]. cbn [es_seq_num es_ciphertext].
  destruct (decrypt (CryptoManager_new key 0) seq ct) as [p'|e|] eqn:Edec; [|by left..].
  apply decrypt_authentic in Edec. right. rewrite Hk in Ec.
  exists (make_nonce (CryptoManager_new key (as_session_id s)) seq), (make_nonce (CryptoManager_new key 0) seq), plain, p', ct.
  unfold encrypt in Ec, Edec. split.
  - intros En. apply make_nonce_inj in En as [En _]; [|done..]. by eapply salts_differ.
  - split; [destruct (aead_encrypt _ _ plain) eqn:E1 in Ec; [injection Ec as <-; exact E1|done]
           |destruct (aead_encrypt _ _ p') eqn:E1 in Edec; [injection Edec as <-; exact E1|done]].
Qed.
End lost.

(** ** Witnesses *)

Lemma request_short v cols rows bs : serialize (ClientPayload.Handshake v cols rows) = Ok bs → len bs ≤ 36.
Proof. intros [= <-]. transitivity 28; [apply (handshake_length v cols rows)|lia]. Qed.
Lemma reply_short sid bs : serialize (ServerPayload.HandshakeAck sid) = Ok bs → len bs ≤ 18.
Proof. intros [= <-]. transitivity 10; [by apply (answer_length (ServerPayload.HandshakeAck sid))|lia]. Qed.

Definition demo_crypto : CryptoManager := CryptoManager_new demo_key 0.
Definition demo_server_addr : SocketAddr := SocketAddrV4 2130706433 60001.

(** Two attempts without an answer, a stray datagram at the client, another at the server. *)
Definition demo_waits : list Reception := [TimedOut; Arrived [1; 2; 3] demo_server_addr; RecvFailed].
Lemma handshake_agrees_witness :
  attempt_after demo_crypto 1 demo_waits = Some 3 ∧
  ∃ request reply,
    handshake_packet demo_crypto 3 80 24 = Ok request ∧
    wait_for_client_handshake demo_crypto 12345 ([Some ([9], demo_server_addr)] ++ Some (request, SocketAddrV4 1 2) :: []) =
      Ok ({| hr_client_addr := SocketAddrV4 1 2; hr_session_id := 12345; hr_client_start_seq := 3;
             hr_cols := 80; hr_rows := 24 |}, [(reply, SocketAddrV4 1 2)]) ∧
    (∀ src rest sent, ∃ sent', request ∈ sent' ∧
       client_handshake demo_crypto 80 24 1 (demo_waits ++ Arrived reply src :: rest) sent =
         (sent', Ok (Some (12345, 1)))) ∧
    ∀ h', h' ≠ 3 → accept_reply demo_crypto h' reply = None.
Proof.
  assert (attempt_after demo_crypto 1 demo_waits = Some 3) as Hw by (vm_compute; reflexivity). split; [exact Hw|].
  apply (handshake_agrees request_short reply_short demo_crypto 12345 80 24 demo_waits 3 [Some ([9], demo_server_addr)]).
  - evaluate.
  - evaluate.
  - evaluate.
  - exact Hw.
  - apply Forall_singleton. exists [9], demo_server_addr. split; [reflexivity|vm_compute; reflexivity].
Defined.

(** A session that has been up for six seconds without a word from its client, whose second attempt now
    arrives. *)
Abbreviation LostSession := (AuthoritativeSession FakePty ChaChaCodec Toy.term Toy.render) (only parsing).
Definition demo_lost_session : LostSession :=
  {| as_session_id := 81985529216486895; as_seq_num := 1; as_ack_seq_num := 1; as_expected_client_seq := 2;
     as_out_of_order_packets := ∅; as_client_ack_seq := 0; as_last_sent_ack_seq := 0;
     as_state_history := []; as_codec := demo_codec; as_current_client_addr := demo_server_addr;
     as_last_recv_time := 0; as_last_sync_time := 0;
     as_last_pty_bytes_time := 0; as_pty_bytes_acc := 0; as_dirty := false;
     as_term_state := {| ts_terminal := Toy.mkTerm 3 2 []; ts_render_state := Toy.mkRender 0 0 [];
                         ts_cols := 3; ts_rows := 2; ts_grid_state := blank_grid 3 2; ts_force_full := true |};
     as_pty := FakePty_new |}.
Definition demo_retry : EncryptedClientPacket :=
  {| ec_session_id := 0; ec_seq_num := 2; ec_ack_seq_num := 0; ec_ciphertext := [] |}.
Definition demo_answered : LostSession * outcome (list (SessionAction ChaChaCodec)) :=
  feed_handshake demo_retry (SocketAddrV4 1 2) (from_secs 6) demo_lost_session.
Lemma demo_answered_eq :
  feed_handshake demo_retry (SocketAddrV4 1 2) (from_secs 6) demo_lost_session = demo_answered.
Proof. unfold demo_answered. reflexivity. Qed.
Definition demo_answer : list Z :=
  match demo_answered.2 with Ok (SendPacket b _ :: _) => b | _ => [] end.

Lemma lost_reply_unusable_witness :
  (len demo_answer =? 0) = false ∧
  (accept_reply demo_crypto 2 demo_answer = None ∨
   ∃ nonce nonce' p p' ct, nonce ≠ nonce' ∧
     aead_encrypt demo_key nonce p = Some ct ∧ aead_encrypt demo_key nonce' p' = Some ct).
Proof.
  split; [vm_compute; reflexivity|].
  assert (match demo_answered.2 with Ok (SendPacket _ t :: _) => bool_decide (t = SocketAddrV4 1 2) | _ => false end = true)
    as Hsent by (vm_compute; reflexivity).
  unfold demo_answer. destruct demo_answered as [s' r] eqn:E. cbn [snd] in *.
  destruct r as [[|[b t|job t| |] acts]|e|]; try discriminate Hsent.
  apply (lost_reply_unusable reply_short demo_key demo_lost_session s' demo_retry (SocketAddrV4 1 2) (from_secs 6)
    (SendPacket b t :: acts) b t 2).
  - reflexivity.
  - evaluate.
  - discriminate.
  - evaluate.
  - rewrite <-E. exact demo_answered_eq.
  - by left.
Defined.
