(* ===== verification/ClientRefs.v ===== *)
(** * The references the client keeps

    The client remembers the screens of the last 200 frames it applied. A number it has acknowledged
    is in that history, or carried no frame, or lies 200 behind the newest; only the datagrams of the
    server change what it remembers. *)

From Stdlib Require Import Floats.SpecFloat.
From S2P Require Import Prelude Utf8 Grid Protocol Crypto Codec CodecFacts CodecProps Escape.
From S2P Require Import Float32 Frame Echo Terminal MirrorSession MirrorFacts MirrorProps.

(** ** The history *)

(** The numbers remembered ascend up to the newest number seen. *)
Record recorded (n : Z) (h : list (Z * GridState)) : Prop := {
  rc_sorted : StronglySorted Z.lt h.*1;
  rc_newest : Forall (λ k, k ≤ n) h.*1;
}.

Lemma recorded_nil n : recorded n [].
Proof. split; constructor. Qed.
Lemma recorded_mono n n' h : n ≤ n' → recorded n h → recorded n' h.
Proof. intros Hn []. split; [done|]. eapply Forall_impl; [done|]. intros x Hx. cbn in *. lia. Qed.

(** Ascending numbers are at least as far apart as their places. *)
Lemma sorted_spread (l : list Z) x : StronglySorted Z.lt (x :: l) → ∀ n, Forall (λ k, k ≤ n) (x :: l) → x + len l ≤ n.
Proof.
  revert x. induction l as [|y l IH]; intros x Hs n Hn.
  { apply Forall_cons in Hn as [? _]. unfold len. cbn. lia. }
  apply StronglySorted_inv in Hs as [Hs Hx]. apply Forall_cons in Hn as [_ Hn], Hx as [Hx _].
  specialize (IH y Hs n Hn). unfold len in *. cbn [length]. lia.
Qed.

Lemma recorded_push n k g h :
  recorded n h → n < k → recorded k (push_state (k, g) h) ∧ k ∈ (push_state (k, g) h).*1 ∧
    ∀ r, r ∈ h.*1 → r ∈ (push_state (k, g) h).*1 ∨ r + 200 ≤ k.
Proof.
  intros [Hs Hn] Hk.
  assert (StronglySorted Z.lt (h ++ [(k, g)]).*1 ∧ Forall (λ r, r ≤ k) (h ++ [(k, g)]).*1) as [Hs' Hn'].
  { rewrite fmap_app. cbn. split; [|apply Forall_app; split; [eapply Forall_impl; [exact Hn|]; intros x Hx; cbn in *; lia|by repeat constructor]].
    apply StronglySorted_app_2; [|done|by repeat constructor].
    intros x y Hx Hy%list_elem_of_singleton. rewrite Forall_forall in Hn. specialize (Hn x Hx). cbn in *. subst y. lia. }
  unfold push_state. case_decide as Hl.
  - destruct h as [|[r0 g0] h]; [unfold len in Hl; cbn in Hl; lia|]. cbn [tail app fmap list_fmap fst] in *.
    pose proof (sorted_spread _ _ Hs' k Hn') as Hfar. rewrite fmap_app in *.
    apply StronglySorted_inv in Hs' as [Hs' _]. apply Forall_cons in Hn' as [_ Hn'].
    split; [split; by rewrite fmap_app|]. split; [set_solver|]. intros r [->|Hr]%elem_of_cons; [right|left; set_solver].
    unfold len in *. rewrite length_app, length_fmap in Hfar. cbn in Hfar, Hl. rewrite length_app in Hl. cbn in Hl. lia.
  - split; [done|]. rewrite fmap_app. split; [set_solver|]. intros r Hr. left. set_solver.
Qed.

Lemma find_ref_known r h : r ∈ h.*1 → r ≠ 0 → is_Some (find_ref r h).
Proof.
  intros (e & -> & He)%list_elem_of_fmap Hne. unfold find_ref. rewrite decide_False by done.
  destruct (filter (λ e0 : Z * GridState, e0.1 = e.1) h) as [|x l] eqn:E; [|by eexists].
  assert (e ∈ filter (λ e0 : Z * GridState, e0.1 = e.1) h) as Hin by (by apply list_elem_of_filter).
  rewrite E in Hin. by apply not_elem_of_nil in Hin.
Qed.

Section refs.
Context {C : Type} `{PacketCodecLaws C}.
Abbreviation Session := (MirrorSession C) (only parsing).
Implicit Types (s : Session) (L : gmap Z ServerPayload) (grids : gmap Z GridState).

(** ** What does not touch it *)

Definition remembers (a : Z) (h : list (Z * GridState)) s : Prop :=
  ms_ack_seq_num s = a ∧ ms_state_history s = h.

Section keep.
Context (a : Z) (h : list (Z * GridState)).
Abbreviation keeps := (always (remembers a h)) (only parsing).

Lemma remembers_modify (f : Session → Session) :
  (∀ s, ms_ack_seq_num (f s) = ms_ack_seq_num s ∧ ms_state_history (f s) = ms_state_history s) → keeps (modify f).
Proof. intros Hf. apply always_modify. intros s [??]. destruct (Hf s). split; congruence. Qed.
Lemma remembers_lift {A} (o : outcome A) : keeps (lift o).
Proof. by intros s. Qed.
Lemma remembers_mirror {A} (m : M TerminalInner A) : keeps (with_mirror m).
Proof. intros s Hs. unfold with_mirror. by destruct (m (ms_mirror s)). Qed.
Hint Resolve remembers_lift remembers_mirror : safe.
Hint Extern 1 (always _ (modify _)) => apply remembers_modify; by intros [] : safe.
Hint Extern 1 (always _ (gets _)) => intros ? ?; assumption : safe.
Hint Extern 2 (always _ (_ ≫= _)) => apply always_bind; [|intros ?] : safe.
Hint Extern 2 (always _ (if decide _ then _ else _)) => case_decide : safe.
Hint Extern 3 (always _ (let '_ := ?x in _)) => destruct x : safe.

Lemma seal_payload_remembers k p : keeps (seal_payload k p).
Proof. unfold seal_payload. auto with safe. Qed.
Hint Resolve seal_payload_remembers : safe.
Lemma next_seq_remembers now : keeps (next_seq now).
Proof. unfold next_seq. auto 10 with safe. Qed.
Lemma keep_unacked_remembers k b now : keeps (keep_unacked k b now).
Proof. unfold keep_unacked. auto with safe. Qed.
Hint Resolve next_seq_remembers keep_unacked_remembers : safe.

Lemma read_stdin_remembers buf to_send acts : keeps (read_stdin buf to_send acts).
Proof.
  revert to_send acts. induction buf as [|b buf IH]; intros; cbn [read_stdin]; [auto with safe|].
  apply always_bind; [intros s Hs; unfold interpret_byte; by destruct (handle_byte b (ms_interpreter s))|].
  intros [bs|[]|]; auto with safe.
Qed.
Lemma feed_stdin_remembers buf now : keeps (feed_stdin buf now).
Proof.
  unfold feed_stdin, prepare_keystrokes. apply always_bind; [apply read_stdin_remembers|]. intros [[ret to_send] acts].
  destruct ret; auto 20 with safe.
Qed.
Lemma on_winch_remembers cols rows now : keeps (on_winch cols rows now).
Proof. unfold on_winch, prepare_resize. auto 20 with safe. Qed.

Lemma nack_all_remembers l now : keeps (nack_all l now).
Proof.
  induction l as [|[k mask] l IH]; cbn [nack_all]; [auto with safe|]. unfold prepare_fragment_nack.
  apply always_bind; [auto with safe|]. intros s. cbv zeta. apply always_bind; [|auto with safe].
  apply always_if; auto 20 with safe.
Qed.
Hint Resolve nack_all_remembers : safe.
Lemma on_tick_remembers order now : keeps (on_tick order now).
Proof.
  unfold on_tick, tick_keepalive, tick_arq, tick_reconnect, tick_telemetry, tick_nack, prepare_keepalive. cbv zeta.
  auto 60 with safe.
Qed.

Lemma client_handle_remembers e : match e with CDatagram _ _ => False | _ => True end → keeps (client_handle e).
Proof.
  destruct e as [b now|buf now|cols rows now|order now|dest]; intros He; cbn [client_handle]; [done|..].
  - apply feed_stdin_remembers.
  - apply on_winch_remembers.
  - apply on_tick_remembers.
  - apply always_bind; [|auto with safe]. intros s Hs. unfold copy_frame_if_dirty.
    by destruct (consume_updates _) as [[t d] [[]| |]].
Qed.
End keep.

(** ** What a datagram does to it *)

(** What has become of a number the client has acknowledged. *)
Definition reached L grids s (r : Z) : Prop :=
  r = 0 ∨ (is_Some (L !! r) ∧ r ≤ ms_ack_seq_num s ∧
    (is_Some (grids !! r) → r ∈ (ms_state_history s).*1 ∨ r + 200 ≤ ms_ack_seq_num s)).

(** Frames refer to numbers of which [K] holds, at most six before their own. *)
Definition referring L (K : Z → Prop) : Prop := ∀ k u, L !! k = Some (ServerPayload.Frame u) →
  fu_ref_seq u = 0 ∨ (K (fu_ref_seq u) ∧ k ≤ fu_ref_seq u + 6).
Definition screens_framed L grids : Prop :=
  ∀ k g, grids !! k = Some g → ∃ u, L !! k = Some (ServerPayload.Frame u).

(** The reference of a frame newer than all before is at hand. *)
Lemma referred_at_hand L grids s k u :
  coherent L grids → referring L (reached L grids s) → L !! k = Some (ServerPayload.Frame u) →
  ms_ack_seq_num s < k → at_hand u (ms_state_history s).
Proof.
  intros Hcoh Href Hu Hk. destruct (decide (fu_ref_seq u = 0)) as [?|Hne]; [by left|right].
  destruct (Href k u Hu) as [?|[[?|(_ & Hle & Hh)] Hlag]]; [done..|].
  destruct (Hcoh k u Hu) as (g & base & _ & _ & Hb & _). unfold base_of in Hb. rewrite decide_False in Hb by done.
  destruct Hh as [Hin|Hfar]; [by eexists|by apply find_ref_known|lia].
Qed.

Lemma reached_grows L grids L' grids' s r :
  coherent L grids → screens_framed L' grids' → L ⊆ L' → reached L grids s r → reached L' grids' s r.
Proof.
  intros Hcoh Hfr HL [?|([p Hp] & Hle & Hh)]; [by left|right].
  pose proof (lookup_weaken _ _ _ _ Hp HL) as Hp'. split; [by eexists|]. split; [done|]. intros [g Hg].
  destruct (Hfr r g Hg) as [u Hu]. assert (p = ServerPayload.Frame u) as -> by congruence.
  destruct (Hcoh r u Hp) as (g' & base & Hg' & _). apply Hh. by eexists.
Qed.

Lemma reached_same L grids s s' r :
  remembers (ms_ack_seq_num s) (ms_state_history s) s' → reached L grids s r → reached L grids s' r.
Proof. intros [E1 E2]. unfold reached. by rewrite E1, E2. Qed.

(** A packet newer than all before. *)
Lemma accepted_reached L grids s s' k p acts (h := ms_state_history s) (h' := ms_state_history s') :
  coherent L grids → screens_framed L grids → referring L (reached L grids s) → recorded (ms_ack_seq_num s) h →
  L !! k = Some p → ms_ack_seq_num s < k → ms_ack_seq_num s' = k → remembered k p h h' acts →
  recorded k h' ∧ (∀ r, reached L grids s r → reached L grids s' r) ∧ reached L grids s' k ∧
    (is_Some (grids !! k) → ClientAction.Paint ∈ acts ∧ k ∈ h'.*1).
Proof.
  intros Hcoh Hfr Href Hrec Hp Hk Hack Hrem.
  assert ((∃ u g, p = ServerPayload.Frame u ∧ ClientAction.Paint ∈ acts ∧ h' = push_state (k, g) h) ∨
    (grids !! k = None ∧ h' = h)) as [(u & g & -> & Hpaint & Eh)|[Hno Eh]].
  { destruct p as [sid|u| |]; cbn [remembered] in Hrem.
    2: { destruct Hrem as [Hrem _]. destruct Hrem as (? & g & ?); [by eapply referred_at_hand|]. left. by exists u, g. }
    all: right; split; [|done]; destruct (grids !! k) as [g|] eqn:Eg; [|done]; destruct (Hfr k g Eg); congruence. }
  - destruct (recorded_push _ k g h Hrec Hk) as (Hrec' & Hin & Hkeep). rewrite <-Eh in *.
    split; [done|]. split; [|split; [|done]].
    + intros r [?|(Hr & Hle & Hh)]; [by left|right]. rewrite Hack. split; [done|]. split; [lia|]. intros Hg.
      fold h'. destruct (Hh Hg) as [Hrin|?]; [by apply Hkeep|right; lia].
    + right. rewrite Hack. split; [by eexists|]. split; [lia|]. intros _. by left.
  - split; [rewrite Eh; eapply recorded_mono; [|done]; lia|]. split; [|split].
    + intros r [?|(Hr & Hle & Hh)]; [by left|right]. rewrite Hack. split; [done|]. split; [lia|]. intros Hg.
      fold h'. rewrite Eh. destruct (Hh Hg) as [?|?]; [by left|right; lia].
    + right. rewrite Hack. split; [by eexists|]. split; [lia|]. intros [g Hg]. congruence.
    + intros [g Hg]. congruence.
Qed.

Lemma digested_reached L grids o s s' acts :
  coherent L grids → screens_framed L grids → referring L (reached L grids s) →
  recorded (ms_ack_seq_num s) (ms_state_history s) → digested o s s' → recalled L o s s' acts →
  recorded (ms_ack_seq_num s') (ms_state_history s') ∧ (∀ r, reached L grids s r → reached L grids s' r) ∧
  (match o with
   | Some (pkt, _, _) => ms_ack_seq_num s < es_seq_num pkt → reached L grids s' (es_seq_num pkt)
   | None => True
   end) ∧
  (ms_ack_seq_num s < ms_ack_seq_num s' → is_Some (grids !! ms_ack_seq_num s') →
     ClientAction.Paint ∈ acts ∧ ms_ack_seq_num s' ∈ (ms_state_history s').*1).
Proof.
  intros Hcoh Hfr Href Hrec Hd Hr.
  assert (remembers (ms_ack_seq_num s) (ms_state_history s) s' →
    recorded (ms_ack_seq_num s') (ms_state_history s') ∧ ∀ r, reached L grids s r → reached L grids s' r) as Hsame.
  { intros Hs. split; [by destruct Hs as [-> ->]|]. intros r. by apply reached_same. }
  destruct o as [[[pkt p] st]|]; cbn in *.
  - destruct Hd as [_ Hack], Hr as (Hp & Hold & Hnew).
    destruct (decide (ms_ack_seq_num s < es_seq_num pkt)) as [Hlt|Hge].
    + rewrite Z.max_r in Hack by lia. destruct (accepted_reached L grids s s' (es_seq_num pkt) p acts)
        as (? & ? & ? & ?); [done..|by apply Hnew|]. by rewrite Hack.
    + rewrite Z.max_l in Hack by lia. destruct Hsame; [split; [done|apply Hold; lia]|]. split_and!; [done..|lia|lia].
  - destruct Hd as [_ Hack]. destruct Hsame; [done|]. split_and!; [done..|lia].
Qed.
End refs.
