(* ===== verification/Yields.v ===== *)
(** * A logic of the server's session

    What a property of the session's state says of the actions its methods ask for. The property sees
    the codec and the numbers of the session only, [O] is what is promised of each action; the
    methods that do not read the client's datagrams, and the network loop around them, keep the one and
    ask for actions of the other. [ServerRefs] and [Acks] are two uses of it. *)

From S2P Require Import Prelude Utf8 Grid Protocol Crypto Codec.
From S2P Require Import CodecProps TermState Pty ServerSession ServerFacts ServerLog ServerNetwork ServerNetworkProps.

Section logic.
Context {P C T R : Type} `{PtyBackend P, PacketCodecLaws C, VtLaws T R}.
Abbreviation Session := (AuthoritativeSession P C T R) (only parsing).
Abbreviation Server := (Server P C T R) (only parsing).
Abbreviation Action := (SessionAction C) (only parsing).
Implicit Types (s : Session) (sv : Server).

(** The part of the state in sight. *)
Definition vital s : C * Z * Z * Z * Z :=
  (as_codec s, as_ack_seq_num s, as_expected_client_seq s, as_client_ack_seq s, as_seq_num s).

(** [I] is kept by what does not touch that part and by the next number, and [O] holds of the packets
    that answer, of the frames queued and of the fragments repeated. *)
Record promises (I : Session → Prop) (O : Action → Prop) : Prop := {
  pr_same s s' : vital s' = vital s → I s → I s';
  pr_next s : I s → I (s <| as_seq_num := as_seq_num s +₆₄ 1 |>);
  pr_answer s bss target :
    I s → seal_server (as_codec s) (as_seq_num s +₆₄ 1) (as_ack_seq_num s) ServerPayload.KeepAlive = Ok bss →
    Forall O (send_all bss target);
  pr_shutdown s bss target :
    I s → seal_server (as_codec s) (as_seq_num s +₆₄ 1) 0 ServerPayload.Shutdown = Ok bss →
    O (SendPacket (default [] (last bss)) target);
  pr_frame s r o job target :
    I s → choose_ref s = (r, o) → uj_seq job = as_seq_num s +₆₄ 1 → uj_ack_seq job = as_ack_seq_num s →
    uj_ref_seq job = r → O (OffloadDiffJob job target);
  pr_resend k mask target : O (ResendFragments k mask target);
}.

Context (I : Session → Prop) (O : Action → Prop).

(** [m] leads from [s] to a state of which [I] holds, and asks for actions of which [O] does. *)
Definition yields_at {A} (m : M Session A) (out : A → list Action) s : Prop :=
  I (m s).1 ∧ ∀ a, (m s).2 = Ok a → Forall O (out a).
Definition yields {A} (m : M Session A) (out : A → list Action) : Prop := ∀ s, I s → yields_at m out s.
Definition nothing {A} (_ : A) : list Action := [].

Lemma yields_at_step {A} (m m' : M Session A) out s s' : m s = m' s' → yields_at m' out s' → yields_at m out s.
Proof. unfold yields_at. by intros ->. Qed.
Lemma yields_bind {A B} (m : M Session A) (f : A → M Session B) out1 out2 :
  yields m out1 → (∀ a, Forall O (out1 a) → yields (f a) out2) → yields (m ≫= f) out2.
Proof.
  intros Hm Hf s Hs. destruct (Hm s Hs) as [Hs1 Ho]. unfold yields_at, mbind, M_bind.
  destruct (m s) as [s1 [a|e|]]; [|by split..]. by apply Hf; [apply Ho|].
Qed.
Lemma yields_then {A B} (m : M Session A) (f : A → M Session B) out :
  yields m nothing → (∀ a, yields (f a) out) → yields (m ≫= f) out.
Proof. intros Hm Hf. eapply yields_bind; [exact Hm|]. auto. Qed.
Lemma yields_ret {A} (a : A) out : Forall O (out a) → yields (mret a) out.
Proof. intros Ha s Hs. split; [done|]. by intros ? [= <-]. Qed.
Lemma yields_none {A} (a : A) out : out a = [] → yields (mret a) out.
Proof. intros Ha. apply yields_ret. rewrite Ha. constructor. Qed.
Lemma yields_get : yields (get : M Session _) nothing.
Proof. intros s Hs. split; [done|constructor]. Qed.
Lemma yields_modify (f : Session → Session) : (∀ s, I s → I (f s)) → yields (modify f) nothing.
Proof. intros Hf s Hs. split; [by apply Hf|constructor]. Qed.
Lemma yields_lift {A} (o : outcome A) : yields (lift o : M Session A) nothing.
Proof. intros s Hs. split; [done|constructor]. Qed.
Lemma yields_for_each_m {A} (l : list A) (f : A → M Session unit) :
  (∀ x, yields (f x) nothing) → yields (for_each_m l f) nothing.
Proof. intros Hf. induction l as [|x l IH]; [by apply yields_none|]. apply yields_then; [done|]. by intros _. Qed.

Context (HI : promises I O).

Lemma yields_same {A} (m : M Session A) : (∀ s, vital (m s).1 = vital s) → yields m nothing.
Proof. intros Hm s Hs. split; [by apply (pr_same _ _ HI s)|intros a _; constructor]. Qed.
Lemma yields_update (f : Session → Session) : (∀ s, vital (f s) = vital s) → yields (modify f) nothing.
Proof. intros Hf. by apply yields_same. Qed.

(** ** The session's methods *)

Lemma on_pty_yields {A} (m : M P A) : yields (on_pty m) nothing.
Proof. apply yields_same. intros s. unfold on_pty. by destruct (m (as_pty s)). Qed.
Lemma pty_callback_yields out : yields (pty_callback out) nothing.
Proof. apply yields_for_each_m. intros x. apply yields_then; [apply on_pty_yields|]. intros _. by apply yields_none. Qed.
Lemma term_write_yields data : yields (term_write data) nothing.
Proof.
  unfold term_write. apply yields_then; [apply yields_get|]. intros s. destruct (TermState_write _ _) as [t out].
  apply yields_then; [by apply yields_update|]. intros _. apply pty_callback_yields.
Qed.
Lemma term_resize_yields cols rows : yields (term_resize cols rows) nothing.
Proof.
  unfold term_resize. apply yields_then; [apply yields_get|]. intros s. destruct (TermState_resize _ _ _) as [[t out] r].
  apply yields_then; [by apply yields_update|]. intros _. apply yields_then; [apply pty_callback_yields|]. intros _.
  apply yields_then; [apply yields_lift|]. intros _. by apply yields_none.
Qed.
Lemma term_update_yields : yields term_update nothing.
Proof. apply yields_same. intros s. unfold term_update. by destruct (update_and_get_state _). Qed.
Lemma on_pty_bytes_yields data now : yields (on_pty_bytes data now) nothing.
Proof. unfold on_pty_bytes. apply yields_then; [apply term_write_yields|]. intros _. by apply yields_update. Qed.

Lemma queue_frame_yields g now : yields (queue_frame g now) id.
Proof.
  intros s Hs. unfold yields_at. destruct (queue_frame g now s) as [s' acts] eqn:E. cbn [fst snd]. revert E. unfold queue_frame.
  set (s1 := s <| as_last_sent_ack_seq := as_ack_seq_num s |> <| as_dirty := false |> <| as_last_sync_time := now |>
               <| as_state_history ::= prune_history (as_client_ack_seq s) |>).
  assert (I s1) as Hs1 by (by apply (pr_same _ _ HI s)).
  unfold mbind at 1 2, M_bind at 1 2, modify at 1, get at 1. cbn beta iota. fold s1.
  destruct (choose_ref s1) as [r o] eqn:Er. unfold mbind, M_bind, modify, get, on_pty, mret, M_ret. cbn beta iota.
  destruct (pty_is_echo_recommended _) as [p e]. cbn [fst snd].
  assert (∀ e', I (s1 <| as_seq_num := as_seq_num s1 +₆₄ 1 |> <| as_state_history := e' |> <| as_pty := p |>)) as Hs2.
  { intros e'. by apply (pr_same _ _ HI (s1 <| as_seq_num := as_seq_num s1 +₆₄ 1 |>)), (pr_next _ _ HI). }
  destruct e as [echo|x|]; cbn [try]; intros [= <- <-]; (split; [exact (Hs2 _)|]); [..|done].
  all: intros a [= <-]; constructor; [by eapply (pr_frame _ _ HI s1)|constructor].
Qed.

Lemma check_sync_yields now : yields (check_sync now) id.
Proof.
  unfold check_sync. apply yields_then; [apply yields_get|]. intros s. cbv zeta. case_decide; [by apply yields_none|].
  apply yields_then; [case_decide; [by apply yields_update|by apply yields_none]|].
  intros _. destruct (_ && _); [by apply yields_none|].
  apply yields_then; [apply term_update_yields|]. intros [g|]; [|by apply yields_none].
  destruct (_ && _); [|apply queue_frame_yields].
  apply yields_then; [by apply yields_update|]. intros _. by apply yields_none.
Qed.

(** A check after other actions. *)
Lemma then_check_yields now acts : Forall O acts → yields (more ← check_sync now; mret (acts ++ more)) id.
Proof.
  intros Ha. eapply yields_bind; [apply check_sync_yields|]. intros more Hm. apply yields_ret. by apply Forall_app.
Qed.

Lemma process_payload_yields p : yields (process_payload p) id.
Proof.
  destruct p; cbn [process_payload].
  - intros s Hs. split; [done|by intros ?].
  - apply yields_then; [apply on_pty_yields|]. intros _. by apply yields_none.
  - apply yields_then; [apply on_pty_yields|]. intros _. apply yields_then; [apply term_resize_yields|]. intros _.
    apply yields_then; [by apply yields_update|]. intros _. by apply yields_none.
  - intros s Hs. pose proof (pr_next _ _ HI s Hs) as Hs'. pose proof (pr_answer _ _ HI s) as Ho.
    unfold yields_at, seal, mbind, M_bind, modify, get, lift. cbn.
    destruct (seal_server _ _ _ _) as [bss| |]; cbn; (split; [done|]); [|done..]. intros ? [= <-]. by apply Ho.
  - by apply yields_none.
  - apply yields_then; [apply yields_get|]. intros s. apply yields_ret. repeat constructor. apply HI.
Qed.
Lemma process_all_yields l : yields (process_all l) id.
Proof.
  induction l as [|[k p] l IH]; cbn [process_all]; [by apply yields_none|].
  eapply yields_bind; [apply process_payload_yields|]. intros a Ha.
  eapply yields_bind; [apply IH|]. intros b Hb. apply yields_ret. by apply Forall_app.
Qed.
Lemma prepare_shutdown_yields : yields prepare_shutdown (λ a, [a]).
Proof.
  intros s Hs. pose proof (pr_next _ _ HI s Hs) as Hs'. pose proof (pr_shutdown _ _ HI s) as Ho.
  unfold yields_at, prepare_shutdown, seal, mbind, M_bind, modify, get, lift. cbn.
  destruct (seal_server _ _ _ _) as [bss| |]; cbn; (split; [done|]); [|done..]. intros ? [= <-].
  constructor; [by apply Ho|constructor].
Qed.

(** ** The network loop *)

(** The same of what the loop does to its session. *)
Definition serves_at {A} (m : M Server A) (out : A → list Action) sv : Prop :=
  I (sv_session (m sv).1) ∧ ∀ a, (m sv).2 = Ok a → Forall O (out a).
Definition serves {A} (m : M Server A) (out : A → list Action) : Prop :=
  ∀ sv, I (sv_session sv) → serves_at m out sv.

Lemma serves_at_bind {A B} (m : M Server A) (f : A → M Server B) out1 out2 sv :
  serves_at m out1 sv → (∀ a, Forall O (out1 a) → serves (f a) out2) → serves_at (m ≫= f) out2 sv.
Proof.
  intros [Hs Ho] Hf. unfold serves_at, mbind, M_bind. destruct (m sv) as [sv1 [a|e|]]; [|by split..].
  by apply Hf; [apply Ho|].
Qed.
Lemma serves_bind {A B} (m : M Server A) (f : A → M Server B) out1 out2 :
  serves m out1 → (∀ a, Forall O (out1 a) → serves (f a) out2) → serves (m ≫= f) out2.
Proof. intros Hm Hf sv Hs. eapply serves_at_bind; [by apply Hm|exact Hf]. Qed.
Lemma serves_then {A B} (m : M Server A) (f : A → M Server B) out :
  serves m nothing → (∀ a, serves (f a) out) → serves (m ≫= f) out.
Proof. intros Hm Hf. eapply serves_bind; [exact Hm|]. auto. Qed.
Lemma serves_ret {A} (a : A) out : Forall O (out a) → serves (mret a) out.
Proof. intros Ha sv Hs. split; [done|]. by intros ? [= <-]. Qed.
Lemma serves_none {A} (a : A) out : out a = [] → serves (mret a) out.
Proof. intros Ha. apply serves_ret. rewrite Ha. constructor. Qed.
Lemma serves_get : serves (get : M Server _) nothing.
Proof. intros sv Hs. split; [done|constructor]. Qed.
Lemma serves_update (f : Server → Server) : (∀ sv, sv_session (f sv) = sv_session sv) → serves (modify f) nothing.
Proof. intros Hf sv Hs. split; [cbn; by rewrite Hf|constructor]. Qed.
(** What leaves the session alone. *)
Lemma serves_runs {A} (m : M Server A) :
  (∀ sv, ∃ sv' a, runs m sv sv' a ∧ sv_session sv' = sv_session sv) → serves m nothing.
Proof. intros Hm sv Hs. destruct (Hm sv) as (sv' & a & E & Es). unfold serves_at. rewrite E. cbn. by rewrite Es. Qed.
Lemma in_session_serves {A} (m : M Session A) out sv : yields_at m out (sv_session sv) → serves_at (in_session m) out sv.
Proof. intros Hm. unfold serves_at, in_session, yields_at in *. by destruct (m (sv_session sv)). Qed.
Lemma attempt_serves {A} (m : M Session A) out sv :
  yields_at m out (sv_session sv) → serves_at (attempt (in_session m)) (from_option out []) sv.
Proof.
  intros [Hs Ho]. unfold serves_at, attempt, in_session. destruct (m (sv_session sv)) as [s [a|e|]]; cbn in *;
    (split; [done|]); intros ? [= <-]; cbn; auto.
Qed.

Lemma execute_actions_serves acts : serves (execute_actions acts) nothing.
Proof.
  apply serves_runs. intros sv. destruct (execute_actions_runs acts sv) as (sv' & E & Es). by exists sv', tt.
Qed.
Lemma run_task_serves i : serves (run_task i) nothing.
Proof. apply serves_runs. intros sv. destruct (run_task_runs i sv) as (sv' & E & Es). by exists sv', tt. Qed.

Lemma shutdown_serves : serves shutdown_signal id.
Proof.
  unfold shutdown_signal. apply serves_then; [apply serves_get|]. intros self.
  assert (∀ f, (∀ sv, sv_session (f sv) = sv_session sv) → serves (modify f ;; mret []) id) as Hquiet.
  { intros f Hf. apply serves_then; [by apply serves_update|]. intros _. by apply serves_none. }
  destruct (sv_phase self) as [|[|copies] b t|]; [|by apply Hquiet| |by apply serves_none].
  - destruct (sv_shutdown self); [|by apply serves_none].
    apply serves_then; [by apply serves_update|]. intros _.
    eapply serves_bind.
    { intros sv Hs. apply attempt_serves. revert Hs. generalize (sv_session sv).
      eapply yields_bind; [apply prepare_shutdown_yields|]. intros a Ha. by apply (yields_ret [a] id). }
    intros [acts|] Ha; [|by apply Hquiet]. destruct acts as [|[b t|d t|k u t|] [|]]; try by apply Hquiet.
    apply serves_then; [by apply serves_update|]. intros _. by apply serves_ret.
  - apply serves_then; [|intros _; by apply Hquiet]. by apply serves_update.
Qed.

(** An event of the loop, when a datagram is fed as promised. *)
Lemma serve_serves e sv :
  match e with NRecv b src now => yields_at (feed_packet b src now) id (sv_session sv) | _ => I (sv_session sv) end →
  serves_at (serve e) id sv.
Proof.
  assert (∀ (m : M Session (list Action)) sv, yields_at m id (sv_session sv) →
    serves_at (actions ← in_session m; execute_actions actions ;; mret actions) id sv) as Hrun.
  { intros m sv' Hm. eapply serves_at_bind; [by apply in_session_serves|]. intros acts Ha.
    apply serves_then; [apply execute_actions_serves|]. intros _. by apply serves_ret. }
  intros Hs. destruct e as [data now| |now|b src now| |i| |]; cbn [serve].
  - revert sv Hs. apply serves_then; [apply serves_get|]. intros self. destruct (sv_pty_open self); [|by apply serves_none].
    intros sv Hs. apply in_session_serves. revert Hs. generalize (sv_session sv).
    apply yields_then; [apply on_pty_bytes_yields|]. intros _. by apply yields_none.
  - revert sv Hs. apply serves_then; [by apply serves_update|]. intros _. by apply serves_none.
  - revert sv Hs. apply serves_then; [apply serves_get|]. intros self. destruct (sv_diff_in_flight self); [by apply serves_none|].
    intros sv Hs. apply Hrun. by apply check_sync_yields.
  - eapply serves_at_bind; [by apply attempt_serves|]. intros acts Ha. cbv zeta.
    apply serves_then; [apply execute_actions_serves|]. intros _. apply serves_ret. by destruct acts.
  - by apply serves_none.
  - revert sv Hs. apply serves_then; [apply run_task_serves|]. intros _. by apply serves_none.
  - by apply shutdown_serves.
  - revert sv Hs. apply serves_then; [by apply serves_update|]. intros _. by apply serves_none.
Qed.
End logic.
