(* ===== verification/ServerRefs.v ===== *)
(** * The references the server names

    A frame is a difference to a screen the client has acknowledged, not more than six numbers before
    it, or to none: along any run of the server's network loop, for whatever set [K] of numbers its
    client acknowledges. *)

From S2P Require Import Prelude Utf8 Grid Protocol Crypto Codec.
From S2P Require Import CodecProps TermState Pty ServerSession ServerFacts ServerLog ServerNetwork ServerNetworkProps Yields.

Section refs.
Context {P C T R : Type} `{PtyBackend P, PacketCodecLaws C, VtLaws T R}.
Abbreviation Session := (AuthoritativeSession P C T R) (only parsing).
Abbreviation Server := (Server P C T R) (only parsing).
Abbreviation Action := (SessionAction C) (only parsing).
Implicit Types (s : Session) (sv : Server).
Context (c : C) (K : Z → Prop).

Definition refers (job : UpdateJob C) : Prop :=
  uj_ref_seq job = 0 ∨ (K (uj_ref_seq job) ∧ uj_seq job ≤ uj_ref_seq job + 6).
Definition all_refer (acts : list Action) : Prop := Forall refers (jobs acts).

Record heeds s : Prop := {
  hd_codec : as_codec s = c;
  hd_ack : K (as_client_ack_seq s);
  hd_seq : 0 ≤ as_seq_num s;
}.

Definition act_refers (a : Action) : Prop := match a with OffloadDiffJob job _ => refers job | _ => True end.

Lemma all_refer_acts acts : Forall act_refers acts ↔ all_refer acts.
Proof.
  unfold all_refer. induction acts as [|a acts IH]; [split; constructor|]. rewrite Forall_cons, IH.
  destruct a as [b t|job t|k mask t|]; cbn; [tauto| |tauto..]. by rewrite Forall_cons.
Qed.
Lemma all_refer_app a b : all_refer a → all_refer b → all_refer (a ++ b).
Proof. intros ??. unfold all_refer. rewrite jobs_app. by apply Forall_app. Qed.

(** The reference chosen. *)
Lemma choose_ref_refers s r o :
  heeds s → choose_ref s = (r, o) → r = 0 ∨ (K r ∧ as_seq_num s +₆₄ 1 ≤ r + 6).
Proof.
  intros [_ Hk Hs]. unfold choose_ref, saturating_sub. case_decide as Hlag; [intros [= <- _]; by left|].
  destruct (find_state _ _); intros [= <- _]; [right|by left]. split; [done|].
  assert (as_seq_num s +₆₄ 1 ≤ as_seq_num s + 1) by (unfold wrap; apply Z.mod_le; lia). lia.
Qed.

(** The session keeps to what it has heard of the client. *)
Lemma heeds_promises : promises heeds act_refers.
Proof.
  split.
  - intros s s' [= E1 _ _ E2 E3] []. split; by rewrite ?E1, ?E2, ?E3.
  - intros s []. split; try done. cbn. by apply wrap_fits.
  - intros s bss target _ _. by apply Forall_fmap, Forall_true.
  - done.
  - intros s r o job target Hs Er Ek _ Ej. cbn. unfold refers. rewrite Ej, Ek. by eapply choose_ref_refers.
  - done.
Qed.
Abbreviation heeding := (yields heeds act_refers) (only parsing).
#[local] Hint Resolve heeds_promises : core.

(** ** Datagrams *)

Lemma feed_handshake_heeding wire src now : K 0 → heeding (feed_handshake wire src now) id.
Proof.
  intros K0. unfold feed_handshake. apply yields_then; [apply yields_get|]. intros s. cbv zeta.
  case_decide; [by apply yields_none|].
  apply yields_then; [apply yields_modify; by intros s' []|]. intros _.
  apply yields_then.
  { intros s' []. unfold yields_at, seal, mbind, M_bind, modify, get, lift. cbn. split; [|constructor].
    split; try done. cbn. by apply wrap_fits. }
  intros bss. apply then_check_yields; [done|]. by apply Forall_fmap, Forall_true.
Qed.
Lemma feed_transient_heeding ack p now : K ack → heeding (feed_transient ack p now) id.
Proof.
  intros Hk. unfold feed_transient. apply yields_then; [apply yields_modify; intros s' []; case_decide; by split|].
  intros _. apply yields_then; [apply yields_get|]. intros s. apply then_check_yields; [done|].
  destruct p; repeat constructor.
Qed.
Lemma order_packet_heeding k p : heeding (order_packet k p) nothing.
Proof.
  intros s Hs. unfold yields_at, order_packet, mbind, M_bind, get. cbn beta iota.
  case_decide; [split; [done|constructor]|]. case_decide; [split; [by destruct Hs|constructor]|].
  destruct (recover _ _ _) as [[l e] b]. split; [by destruct Hs|constructor].
Qed.
Lemma feed_reliable_heeding k ack p now : K ack → heeding (feed_reliable k ack p now) id.
Proof.
  intros Hk. unfold feed_reliable. apply yields_then; [apply order_packet_heeding|]. intros l.
  case_decide; [by apply yields_none|]. apply yields_then; [apply yields_modify; by intros s' []|]. intros _.
  eapply yields_bind; [by apply process_all_yields|]. intros a Ha. by apply then_check_yields.
Qed.

(** What the client acknowledges with a datagram. *)
Definition acks_with (b : list Z) : Prop :=
  match open_client c b with Ok (wire, _, _) => K (ec_ack_seq_num wire) | _ => True end.

Lemma feed_packet_heeding b src now : K 0 → acks_with b → heeding (feed_packet b src now) id.
Proof.
  intros K0 Hb s Hs. unfold acks_with in Hb. unfold yields_at.
  set (m sid := match open_client c b with
    | Ok (wire, p, _) =>
      if decide (ec_session_id wire = 0) then feed_handshake wire src now
      else if decide (ec_session_id wire ≠ sid) then mret []
      else modify (λ self : Session, self <| as_last_recv_time := now |> <| as_current_client_addr := src |>) ;;
        if is_transient (ec_seq_num wire) p then feed_transient (ec_ack_seq_num wire) p now
        else feed_reliable (ec_seq_num wire) (ec_ack_seq_num wire) p now
    | Err _ => mret []
    | Panic => lift Panic
    end : M Session (list Action)).
  assert (feed_packet b src now s = m (as_session_id s) s) as ->.
  { unfold feed_packet, m, mbind, M_bind, get, lift. cbn beta iota. rewrite (hd_codec _ Hs).
    by destruct (open_client c b) as [[[wire p] st]| |]. }
  revert s Hs. assert (∀ sid, heeding (m sid) id) as Hm; [|intros s Hs; by apply Hm]. intros sid. unfold m.
  destruct (open_client c b) as [[[wire p] st]|e|]; [|by apply yields_none|intros s Hs; by split].
  case_decide; [by apply feed_handshake_heeding|]. case_decide; [by apply yields_none|].
  apply yields_then; [apply yields_modify; by intros s' []|]. intros _.
  destruct (is_transient _ _); [by apply feed_transient_heeding|by apply feed_reliable_heeding].
Qed.

(** ** The network loop *)

Definition event_acks (e : net_event) : Prop := match e with NRecv b _ _ => acks_with b | _ => True end.

Lemma serve_serving e sv : K 0 → event_acks e → heeds (sv_session sv) →
  heeds (sv_session (serve e sv).1) ∧ ∀ acts, (serve e sv).2 = Ok acts → all_refer acts.
Proof.
  intros K0 He Hs. setoid_rewrite <-all_refer_acts. apply (serve_serves heeds act_refers); [done|].
  destruct e; try done. by apply feed_packet_heeding.
Qed.

(** A new session. *)
Lemma new_heeds sid start addr cols rows (p : P) now s :
  K 0 → AuthoritativeSession_new sid c start addr cols rows p now = Ok s → heeds s.
Proof.
  intros K0. unfold AuthoritativeSession_new. destruct (ServerTerminalState_new cols rows) as [ts| |]; cbn; [|done..].
  destruct (TermState.on_pty_write (ts_terminal ts)); cbn; [|done..]. by intros [= <-].
Qed.
End refs.
