(* ===== verification/Acks.v ===== *)
(** * What the server acknowledges

    Every datagram of the server names a number below the one it expects next from the client: all the
    packets it acknowledges it has taken. *)

From S2P Require Import Prelude Utf8 Grid Protocol Crypto Codec.
From S2P Require Import CodecProps TermState Pty ServerSession ServerFacts ServerProps ServerLog ServerNetwork ServerNetworkProps.
From S2P Require Import Yields ServerStream.

Section acks.
Context {P C T R : Type} `{PtyBackend P, PacketCodecLaws C, VtLaws T R}.
Abbreviation Session := (AuthoritativeSession P C T R) (only parsing).
Abbreviation Server := (Server P C T R) (only parsing).
Abbreviation Action := (SessionAction C) (only parsing).
Implicit Types (s : Session) (sv : Server).
Context (c : C).
Hypothesis Hshort : short c.

(** A datagram that acknowledges a number below [e]. *)
Definition truthful (e : Z) (b : list Z) : Prop :=
  ∃ seq ack p bss, wf p ∧ u64 seq ∧ u64 ack ∧ ack < e ∧
    seal_server c seq ack p = Ok bss ∧ len bss < 2 ^ 16 ∧ b ∈ bss.
Definition act_truthful (e : Z) (a : Action) : Prop :=
  match a with
  | SendPacket b _ => truthful e b
  | OffloadDiffJob job _ => uj_ack_seq job < e
  | _ => True
  end.

Lemma truthful_mono e e' b : e ≤ e' → truthful e b → truthful e' b.
Proof.
  intros He (seq & ack & p & bss & ? & ? & ? & ? & ?). exists seq, ack, p, bss.
  repeat (split; [done || lia|]). done.
Qed.

(** What the client's codec reads off it. *)
Lemma truthful_opened e b c' c'' pkt p st :
  truthful e b → open_server b c' = (c'', Ok (Some (pkt, p, st))) → es_ack_seq_num pkt < e.
Proof. intros (seq & ack & q & bss & ? & ? & ? & ? & ? & ? & ?) E. by rewrite (opened_ack c c' c'' seq ack q bss b pkt p st). Qed.

(** ** The session *)

(** The session expects [e], and acknowledges less. *)
Record ready (e : Z) s : Prop := {
  rd_codec : as_codec s = c;
  rd_expected : as_expected_client_seq s = e;
  rd_ack : 0 ≤ as_ack_seq_num s < e;
}.

Lemma answers_truthful e seq ack p bss :
  0 < e ≤ 2 ^ 63 → 0 ≤ ack < e → p = ServerPayload.KeepAlive ∨ p = ServerPayload.Shutdown →
  seal_server c (seq +₆₄ 1) ack p = Ok bss → 0 < len bss ∧ Forall (truthful e) bss.
Proof.
  intros He Ha Hp E. assert (wf p) as Hw by by destruct Hp as [-> | ->].
  assert (0 < len bss < 2 ^ 16) as Hl.
  { pose proof (Hshort (seq +₆₄ 1) ack p bss Hw) as Hs. destruct Hp as [-> | ->]; by apply Hs. }
  split; [lia|]. apply Forall_forall. intros b Hb. exists (seq +₆₄ 1), ack, p, bss.
  split; [done|]. split; [by apply wrap_fits|]. split; [unfold fits; lia|]. split; [lia|]. split; [done|]. split; [lia|done].
Qed.

Lemma ready_promises e : 0 < e ≤ 2 ^ 63 → promises (ready e) (act_truthful e).
Proof.
  intros He. split.
  - intros s s' [= E1 E2 E3 _ _] []. split; by rewrite ?E1, ?E2, ?E3.
  - by intros s [].
  - intros s bss target [Hc _ Ha] E. rewrite Hc in E. apply Forall_fmap.
    by destruct (answers_truthful e _ _ _ bss He Ha (or_introl eq_refl) E).
  - intros s bss target [Hc _ _] E. rewrite Hc in E. cbn.
    destruct (answers_truthful e _ 0 _ bss He ltac:(lia) (or_intror eq_refl) E) as [Hl Hall].
    destruct (last bss) as [b|] eqn:El.
    + rewrite Forall_forall in Hall. by apply Hall, last_Some_elem_of.
    + apply last_None in El as ->. done.
  - intros s r o job target [_ _ Ha] _ _ Ej _. cbn. lia.
  - done.
Qed.

(** A datagram of the client, or one that does not open. *)
Lemma feed_reliable_ready h stream fed k ack now s :
  in_order h stream fed s → 0 ≤ k < 2 ^ 63 → as_codec s = c → 0 ≤ as_ack_seq_num s < as_expected_client_seq s →
  ∃ e, 0 < e ≤ 2 ^ 63 ∧ yields_at (ready e) (act_truthful e) (feed_reliable k ack (stream k) now) id s.
Proof.
  intros Hio Hk Hc Ha. destruct (order_packet_run h stream fed k s Hio Hk) as (e & b & E & Hle & Hio').
  pose proof (in_order_bound h stream _ _ Hio') as Hb. cbn in Hb. pose proof (io_start _ _ _ _ Hio).
  set (s1 := s <| as_expected_client_seq := e |> <| as_out_of_order_packets := b |>) in *.
  assert (0 < e ≤ 2 ^ 63) as He by lia.
  exists e. split; [done|]. assert (yields (ready e) (act_truthful e)
    (actions ← process_all (segment stream (as_expected_client_seq s) e); more ← check_sync now; mret (actions ++ more)) id) as Hrest.
  { eapply yields_bind; [by apply process_all_yields, ready_promises|]. intros a Hacts.
    by apply then_check_yields; [apply ready_promises|]. }
  eapply yields_at_step; [unfold feed_reliable, mbind at 1, M_bind at 1; unfold runs in E; rewrite E; reflexivity|].
  destruct (decide (segment _ _ _ = [])); [apply yields_none; [done|]; split; cbn; [done|done|lia]|].
  eapply yields_at_step; [reflexivity|]. apply Hrest. split; cbn; [done|done|].
  rewrite wrap_small by (unfold fits; lia). lia.
Qed.

Lemma feed_packet_ready h stream fed b src now s :
  in_order h stream fed s → as_codec s = c → 0 ≤ as_ack_seq_num s < as_expected_client_seq s →
  genuine_event c (as_session_id s) stream (Datagram b src now) →
  ∃ e, 0 < e ≤ 2 ^ 63 ∧ yields_at (ready e) (act_truthful e) (feed_packet b src now) id s.
Proof.
  intros Hio Hc Ha Hg. assert (ready (as_expected_client_seq s) s) as Hs by done. cbn in Hg.
  pose proof (in_order_bound h stream _ _ Hio). pose proof (io_start _ _ _ _ Hio). pose proof (io_low _ _ _ _ Hio).
  destruct (open_client c b) as [[[wire p] st]|x|] eqn:Eo; [| |done].
  2: { exists (as_expected_client_seq s). split; [lia|].
       eapply yields_at_step; [unfold feed_packet, mbind, M_bind, get, lift; rewrite Hc, Eo; reflexivity|].
       by apply (yields_none _ _ []). }
  destruct Hg as (Hsid & Hne & Hu & Hp).
  set (s1 := s <| as_last_recv_time := now |> <| as_current_client_addr := src |>).
  assert (∀ e, yields_at (ready e) (act_truthful e) (if is_transient (ec_seq_num wire) p
    then feed_transient (ec_ack_seq_num wire) p now
    else feed_reliable (ec_seq_num wire) (ec_ack_seq_num wire) p now) id s1 →
    yields_at (ready e) (act_truthful e) (feed_packet b src now) id s) as Hgo.
  { intros e. apply yields_at_step. unfold feed_packet, mbind, M_bind, get, modify, lift. rewrite Hc, Eo. cbn [try].
    rewrite decide_False by congruence. by rewrite decide_False by (intros Hx; by apply Hx). }
  destruct (is_transient (ec_seq_num wire) p) eqn:Et.
  - exists (as_expected_client_seq s). split; [lia|]. apply Hgo.
    pose proof (ready_promises (as_expected_client_seq s) ltac:(lia)) as HI. unfold feed_transient.
    apply yields_then; [apply yields_modify; intros s' []; case_decide; by split|intros _|by apply (pr_same _ _ HI s)].
    apply yields_then; [apply yields_get|]. intros s2. apply then_check_yields; [done|]. destruct p; repeat constructor.
  - rewrite Hp in Hgo by done.
    destruct (feed_reliable_ready h stream fed (ec_seq_num wire) (ec_ack_seq_num wire) now s1) as (e & Hb & He);
      [by eapply in_order_same; [..|exact Hio]|by eapply transient_high_bit|done|done|]. exists e. auto.
Qed.

(** ** The network loop *)

(** An event of the loop: whatever it asks for acknowledges less than is expected after it. *)
Lemma serve_truthful h stream fed e sv sv' acts (n := as_expected_client_seq (sv_session sv')) :
  in_order h stream fed (sv_session sv) → ready (as_expected_client_seq (sv_session sv)) (sv_session sv) →
  from_option (genuine_event c (as_session_id (sv_session sv)) stream) True (event_of sv e) →
  runs (serve e) sv sv' acts → ready n (sv_session sv') ∧ Forall (act_truthful n) acts.
Proof.
  intros Hio Hs Hg E.
  assert (∃ n, serves_at (ready n) (act_truthful n) (serve e) id sv) as (k & Hk & Ho).
  { pose proof (in_order_bound h stream _ _ Hio). pose proof (io_start _ _ _ _ Hio). pose proof (io_low _ _ _ _ Hio).
    assert (∀ n, 0 < n ≤ 2 ^ 63 → match e with
      | NRecv b src now => yields_at (ready n) (act_truthful n) (feed_packet b src now) id (sv_session sv)
      | _ => ready n (sv_session sv)
      end → serves_at (ready n) (act_truthful n) (serve e) id sv) as Hgo.
    { intros k Hn. apply serve_serves. by apply ready_promises. }
    destruct e as [data now| |now|b src now| |i| |];
      try (exists (as_expected_client_seq (sv_session sv)); apply Hgo; [lia|exact Hs]).
    destruct (feed_packet_ready h stream fed b src now (sv_session sv)) as (k & Hb & Hk); [done|apply Hs..|done|].
    exists k. by apply Hgo. }
  unfold runs in E. rewrite E in Hk, Ho. cbn [fst snd] in *.
  assert (n = k) as -> by apply Hk. split; [done|by apply Ho].
Qed.
End acks.
