(* ===== verification/Keyboard.v ===== *)
(** * What is typed

    The escape interpreter reads the keyboard through any splitting into reads: what the client numbers
    as keystrokes is, put together, what the interpreter leaves to send of all that was typed. Only the
    reads of standard input move the interpreter. *)

From Stdlib Require Import Floats.SpecFloat.
From S2P Require Import Prelude Utf8 Grid Protocol Crypto Codec CodecFacts CodecProps Escape.
From S2P Require Import Float32 Frame Echo Terminal MirrorSession MirrorFacts MirrorProps ClientLog.

(** ** The keystrokes of a stream of payloads *)

Definition keys_of (p : ClientPayload) : option (list Z) :=
  match p with ClientPayload.Keystrokes keys => Some keys | _ => None end.
Definition keystrokes (ps : list ClientPayload) : list Z := concat (omap keys_of ps).

Lemma keystrokes_app ps ps' : keystrokes (ps ++ ps') = keystrokes ps ++ keystrokes ps'.
Proof. unfold keystrokes. by rewrite omap_app, concat_app. Qed.

Lemma keystrokes_prefix ps ps' : ps `prefix_of` ps' → keystrokes ps `prefix_of` keystrokes ps'.
Proof. intros [l ->]. rewrite keystrokes_app. by apply prefix_app_r. Qed.

(** What an event reads of the keyboard. *)
Definition typed_by (e : client_event) : list Z :=
  match e with CStdin buf _ => buf | _ => [] end.

(** What a typed text leaves to send, and the commands in it. *)
Definition text_of (typed : list Z) : list Z := Escape.sent (interpret typed EscapeInterpreter_new).2.
Definition stays (typed : list Z) : Prop := Escape.Disconnect ∉ commands (interpret typed EscapeInterpreter_new).2.

Lemma interpret_split typed buf :
  text_of (typed ++ buf) = text_of typed ++ Escape.sent (interpret buf (after typed)).2 ∧
  commands (interpret (typed ++ buf) EscapeInterpreter_new).2 =
    commands (interpret typed EscapeInterpreter_new).2 ++ commands (interpret buf (after typed)).2 ∧
  after (typed ++ buf) = (interpret buf (after typed)).1.
Proof.
  unfold text_of, after. rewrite interpret_app. destruct (interpret typed EscapeInterpreter_new) as [i rs]. cbn [fst].
  destruct (interpret buf i) as [i' rs']. cbn. unfold Escape.sent, commands. by rewrite bind_app, omap_app.
Qed.

Lemma stays_prefix typed typed' : typed `prefix_of` typed' → stays typed' → stays typed.
Proof.
  intros [buf ->]. unfold stays. destruct (interpret_split typed buf) as (_ & -> & _). rewrite elem_of_app. tauto.
Qed.

Lemma text_prefix typed typed' : typed `prefix_of` typed' → text_of typed `prefix_of` text_of typed'.
Proof. intros [buf ->]. destruct (interpret_split typed buf) as (-> & _). by apply prefix_app_r. Qed.

Section keyboard.
Context {C : Type} `{PacketCodec C}.
Abbreviation Session := (MirrorSession C) (only parsing).
Implicit Types s : Session.

(** ** What leaves the interpreter alone *)

Section steady.
Context (i : EscapeInterpreter).
Definition steady s : Prop := ms_interpreter s = i.
Abbreviation keeps := (always steady) (only parsing).

Lemma steady_modify (f : Session → Session) : (∀ s, ms_interpreter (f s) = ms_interpreter s) → keeps (modify f).
Proof. intros Hf. apply always_modify. intros s Hs. unfold steady. by rewrite Hf. Qed.
Lemma steady_lift {A} (o : outcome A) : keeps (lift o).
Proof. by intros s. Qed.
Lemma steady_mirror {A} (m : M TerminalInner A) : keeps (with_mirror m).
Proof. intros s Hs. unfold with_mirror. by destruct (m (ms_mirror s)). Qed.
Lemma steady_open b : keeps (open_packet b).
Proof. intros s Hs. unfold open_packet. by destruct (open_server b (ms_codec s)). Qed.
Hint Resolve steady_lift steady_mirror steady_open : safe.
Hint Extern 1 (always _ (modify _)) => apply steady_modify; by intros [] : safe.
Hint Extern 1 (always _ (gets _)) => intros ? ?; assumption : safe.

(** Peels a computation down to its elementary steps. *)
Ltac steady_steps :=
  repeat first
    [ progress intros
    | solve [auto with safe]
    | apply always_bind
    | apply always_if
    | apply always_for_each_m
    | case_decide
    | progress cbn beta iota zeta
    | match goal with |- always _ (match ?x with _ => _ end) => destruct x end ].

Lemma prepare_keystrokes_steady keys now : keeps (prepare_keystrokes keys now).
Proof. unfold prepare_keystrokes, next_seq, seal_payload, keep_unacked. steady_steps. Qed.
Lemma try_ack_steady now : keeps (try_ack now).
Proof. unfold try_ack, prepare_ack, seal_payload. apply always_bind; [apply always_attempt|]; steady_steps. Qed.
Hint Resolve prepare_keystrokes_steady try_ack_steady : safe.

Lemma estimate_loss_steady seq : keeps (estimate_loss seq).
Proof.
  unfold estimate_loss. apply always_bind; [|steady_steps]. apply steady_modify. intros s.
  by destruct (slide_window _ _ _).
Qed.
Lemma apply_update_steady seq base u now : keeps (apply_update seq base u now).
Proof. unfold apply_update. steady_steps. Qed.
Hint Resolve estimate_loss_steady apply_update_steady : safe.
Lemma feed_packet_steady b now : keeps (feed_packet b now).
Proof. unfold feed_packet, note_arrival, track_rtt, accept_packet, feed_payload, feed_frame. steady_steps. Qed.
Lemma on_winch_steady cols rows now : keeps (on_winch cols rows now).
Proof. unfold on_winch, prepare_resize, next_seq, seal_payload, keep_unacked. steady_steps. Qed.
Lemma nack_all_steady l now : keeps (nack_all l now).
Proof.
  induction l as [|[k mask] l IH]; cbn [nack_all]; [auto with safe|]. unfold prepare_fragment_nack, seal_payload. steady_steps.
Qed.
Hint Resolve nack_all_steady : safe.
Lemma on_tick_steady order now : keeps (on_tick order now).
Proof.
  unfold on_tick, tick_keepalive, tick_arq, tick_reconnect, tick_telemetry, tick_nack, prepare_keepalive, next_seq, seal_payload, keep_unacked.
  steady_steps.
Qed.
Lemma client_handle_steady e : match e with CStdin _ _ => False | _ => True end → keeps (client_handle e).
Proof.
  intros He. destruct e as [b now|buf now|cols rows now|order now|dest]; cbn [client_handle]; [apply feed_packet_steady|done|..].
  - apply on_winch_steady.
  - apply on_tick_steady.
  - apply always_bind; [|auto with safe]. intros s Hs. unfold copy_frame_if_dirty.
    by destruct (consume_updates _) as [[t d] [[]| |]].
Qed.
End steady.

(** ** What a read of the keyboard numbers *)

(** The keystrokes numbered so far are what all that was typed leaves to send, and the interpreter has
    read it. *)
Definition forwarded (typed : list Z) (ps : list ClientPayload) s : Prop :=
  stays typed → ms_interpreter s = after typed ∧ keystrokes ps = text_of typed.

(** Keystrokes take a number. *)
Lemma prepare_keystrokes_seq keys now s :
  ms_seq_num (prepare_keystrokes keys now s).1 = ms_seq_num s +₆₄ 1.
Proof.
  unfold prepare_keystrokes, next_seq, seal_payload, keep_unacked, mbind, M_bind, modify, gets, get, lift. cbn.
  by destruct (seal_client _ _ _ _ _).
Qed.

(** After the keystrokes are numbered nothing else is. *)
Lemma feed_stdin_seq buf now s :
  Escape.Disconnect ∉ commands (interpret buf (ms_interpreter s)).2 → stdin_bytes buf s ≠ [] →
  ms_seq_num (feed_stdin buf now s).1 = ms_seq_num s +₆₄ 1.
Proof.
  intros Hno Hbs. pose proof (read_stdin_run buf [] [] s) as Hr. unfold stdin_bytes in Hbs.
  destruct (interpret buf (ms_interpreter s)) as [i rs]. destruct Hr as [Hr _]. destruct (Hr Hno) as (t & E & _).
  set (s1 := s <| ms_interpreter := i |> <| ms_mirror := t |>) in *. unfold runs in E. cbn [snd app] in *.
  unfold feed_stdin. unfold mbind at 1, M_bind at 1. rewrite E. cbn beta iota.
  rewrite decide_False by done. unfold mbind at 1, M_bind at 1.
  pose proof (prepare_keystrokes_seq (Escape.sent rs) now s1) as Hseq.
  destruct (prepare_keystrokes (Escape.sent rs) now s1) as [s2 [[b k]| |]]; [|exact Hseq..]. cbn beta iota.
  rewrite <-(Hseq : _ = ms_seq_num s +₆₄ 1). cbn [fst] in *. clear.
  unfold mbind, M_bind, get, mret, M_ret. cbn beta iota.
  destruct (_ && _); [|done]. unfold with_mirror. by destruct (predict_input _ _ _) as [t1 [[]| |]].
Qed.

Lemma feed_stdin_interpreter buf now s :
  Escape.Disconnect ∉ commands (interpret buf (ms_interpreter s)).2 →
  ms_interpreter (feed_stdin buf now s).1 = (interpret buf (ms_interpreter s)).1.
Proof.
  intros Hno. pose proof (read_stdin_run buf [] [] s) as Hr.
  destruct (interpret buf (ms_interpreter s)) as [i rs]. destruct Hr as [Hr _]. destruct (Hr Hno) as (t & E & _).
  unfold runs in E. cbn [fst app] in *. unfold feed_stdin. unfold mbind at 1, M_bind at 1. rewrite E. cbn beta iota.
  set (s1 := s <| ms_interpreter := i |> <| ms_mirror := t |>). assert (steady i s1) as Hs1 by done. revert Hs1.
  generalize s1. clear. case_decide; [by intros s Hs|].
  apply (always_bind (steady i)); [apply prepare_keystrokes_steady|]. intros [b k].
  apply always_bind; [auto with safe|]. intros s. cbv zeta. apply always_bind; [|auto with safe].
  apply always_if; [|auto with safe]. apply always_bind; [apply steady_mirror|auto with safe].
Qed.

(** An event of the client's: what it numbers, if anything, is the keystrokes that its input adds. *)
Lemma client_handle_forwards e typed ps s (s' := (client_handle e s).1) :
  0 ≤ ms_seq_num s < 2 ^ 63 → forwarded typed ps s →
  forwarded (typed ++ typed_by e) (if decide (ms_seq_num s' = ms_seq_num s) then ps else ps ++ [payload_of e s]) s'.
Proof.
  intros Hseq Hf Hstay. destruct Hf as [Hi Hk]; [by eapply stays_prefix; [by apply prefix_app_r|]|].
  destruct (interpret_split typed (typed_by e)) as (Ht & Hc & Ha). rewrite Ht, Ha. unfold stays in Hstay.
  rewrite Hc, <-Hi in Hstay. rewrite <-Hi.
  assert ((∀ buf now, e ≠ CStdin buf now) ∨ ∃ buf now, e = CStdin buf now) as [Hno|(buf & now & ->)]
    by (destruct e; naive_solver).
  - assert (typed_by e = [] ∧ keystrokes [payload_of e s] = []) as [-> Hp] by (destruct e; naive_solver).
    cbn [interpret fst]. split.
    + apply (client_handle_steady (ms_interpreter s)); [by destruct e; naive_solver|done].
    + cbn. rewrite app_nil_r. case_decide; [done|]. by rewrite keystrokes_app, Hp, app_nil_r.
  - cbn [typed_by] in *. rewrite elem_of_app in Hstay. split; [apply feed_stdin_interpreter; tauto|].
    assert (keystrokes [payload_of (CStdin buf now) s] = stdin_bytes buf s) as Hp by (cbn; by rewrite app_nil_r).
    unfold stdin_bytes in *. case_decide as Hd.
    + rewrite Hk. destruct (decide (stdin_bytes buf s = [])) as [En|Hne]; [unfold stdin_bytes in En; by rewrite En, app_nil_r|].
      exfalso. unfold s' in Hd. cbn [client_handle] in Hd. rewrite feed_stdin_seq in Hd by (tauto || done).
      rewrite wrap_small in Hd by (unfold fits; lia). lia.
    + by rewrite keystrokes_app, Hp, Hk.
Qed.
End keyboard.
