(* ===== verification/UnitTests.v ===== *)
(** * The unit tests of the components

    The tests beside the components' code (the modules [tests] of grid.rs, codec.rs, escape.rs,
    echo.rs, terminal.rs, bootstrap.rs and lifecycle.rs), as programs over the definitions that model
    them. A test returns [Ok] when it passes and panics when an assertion does not hold.
    [test_fragmentation_roundtrip] of codec.rs is not here: [fragments_delivered] is its claim, for every
    payload and order. *)

From S2P Require Import Prelude Utf8 Grid Protocol Crypto Codec WireFormat.
From S2P Require Import Escape Frame Echo Terminal Text Bind ServerNetwork Bootstrap Lifecycle.

(** [assert!], [Result::is_err], [Option::unwrap] *)
Definition assert (b : bool) : outcome unit := if b then Ok tt else Panic.
Definition is_err {A} (o : outcome A) : bool := match o with Err _ => true | _ => false end.
Definition some {A} (o : option A) : outcome A := match o with Some a => Ok a | None => Panic end.
Notation "'assert!' P" := (assert (bool_decide P)) (at level 10, P at level 9).
Abbreviation test := (outcome unit) (only parsing).

(** The grids the tests build: one cell everywhere. *)
Definition text_cell (s : str) : LocalCellData :=
  {| graphemes := CompactGrapheme_new s; fg := None; bg := None; style_flags := 0 |}.
Definition filled (cols rows cursor_x cursor_y : Z) (cursor_visible : bool) (s : str) : GridState :=
  {| gs_cols := cols; gs_rows := rows; gs_cursor_x := cursor_x; gs_cursor_y := cursor_y;
     gs_cursor_visible := cursor_visible; gs_cells := vec (text_cell s) (cols * rows);
     gs_row_wrapped := vec false rows |}.
(** [cells[i].graphemes = CompactGrapheme::new(s)] *)
Definition set_text (i : Z) (s : str) (cells : list LocalCellData) : outcome (list LocalCellData) :=
  cell ← vec_get cells i; vec_set cells i (cell <| graphemes := CompactGrapheme_new s |>).

(** ** grid.rs *)

Module GridTests.
Definition test_grid_diff_and_patch_roundtrip : test :=
  let grid1 := filled 80 24 0 0 true (txt "a") in
  cells ← set_text 10 (txt "z") (gs_cells grid1);
  cell ← vec_get cells 10;
  cells ← vec_set cells 10 (cell <| style_flags := STYLE_BOLD |>);
  let grid2 := grid1 <| gs_cursor_x := 5 |> <| gs_cells := cells |> in
  diff ← diff_from grid2 (Some grid1) 1 true;
  assert! (len (fu_row_updates diff) = 1) ;;
  row ← vec_get (fu_row_updates diff) 0;
  assert! (len (ru_cells row) = 1) ;;
  let '(patched, r) := patch diff grid1 in
  unwrap r ;;
  assert! (patched = grid2).

Definition test_grid_diff_from_none : test :=
  let grid := filled 80 24 10 5 true (txt " ") in
  cells ← set_text 0 (txt "X") (gs_cells grid);
  let grid := grid <| gs_cells := cells |> in
  diff ← diff_from grid None 0 false;
  assert! (fu_ref_seq diff = 0) ;;
  assert! (len (fu_row_updates diff) = 1) ;;
  row ← vec_get (fu_row_updates diff) 0;
  update ← vec_get (ru_cells row) 0;
  s ← as_str (graphemes (cu_cell update));
  assert! (s = txt "X").

Definition test_grid_diff_dimension_mismatch : test :=
  let grid1 := filled 80 24 0 0 false (txt " ") in
  let grid2 := filled 100 30 5 5 true (txt "y") in
  diff ← diff_from grid2 (Some grid1) 5 true;
  assert! (fu_cols diff = 100) ;;
  assert! (fu_rows diff = 30) ;;
  assert! (len (fu_row_updates diff) = 30) ;;
  let '(patched, r) := patch diff grid1 in
  unwrap r ;;
  assert! (patched = grid2).

Definition test_grid_patch_out_of_bounds_rejection : test :=
  let grid := filled 80 24 0 0 false (txt " ") in
  let malformed_diff :=
    {| fu_ref_seq := 1; fu_cols := 80; fu_rows := 24; fu_cursor_x := 0; fu_cursor_y := 0;
       fu_cursor_visible := false;
       fu_row_updates := [{| ru_y := 50; ru_cells := []; ru_is_wrapped := false |}];
       fu_is_echo_enabled := true |} in
  assert (is_err (patch malformed_diff grid).2).
End GridTests.

(** ** codec.rs *)

Module CodecTests.
Definition hello : ClientPayload := ClientPayload.Keystrokes (txt "hello").

(** What both round trips ask of a codec, up to the statistics ([ok_stats]). *)
Definition roundtrip {C : Type} `{PacketCodec C} (codec : C) (ok_stats : CodecStats → bool) : test :=
  sealed_client ← unwrap (seal_client codec 12345 1 0 hello);
  '(pkt, opened_client, stats) ← unwrap (open_client codec sealed_client);
  assert! (ec_seq_num pkt = 1) ;;
  assert! (opened_client = hello) ;;
  assert (ok_stats stats) ;;
  sealed_server ← unwrap (seal_server codec 1 1 ServerPayload.KeepAlive);
  assert! (len sealed_server = 1) ;;
  b ← vec_get sealed_server 0;
  opened ← unwrap (open_server b codec).2;
  '(pkt_srv, opened_server, stats_srv) ← some opened;
  assert! (es_seq_num pkt_srv = 1) ;;
  assert (match opened_server with ServerPayload.KeepAlive => true | _ => false end) ;;
  assert (ok_stats stats_srv).

Definition test_chacha_codec_roundtrip : test :=
  roundtrip (ChaChaCodec_new (vec 1 32) 12345) (λ stats, 0 <? wire_len stats).
Definition test_null_codec_roundtrip : test :=
  roundtrip (NullCodec_new 12345) (λ stats, comp_len stats =? decomp_len stats).

Definition test_chacha_codec_tamper_rejection : test :=
  let codec := ChaChaCodec_new (vec 1 32) 12345 in
  sealed_client ← unwrap (seal_client codec 12345 1 0 hello);
  let last := len sealed_client - 1 in
  b ← vec_get sealed_client last;
  tampered ← vec_set sealed_client last (Z.lxor b 255);
  assert (is_err (open_client codec tampered)).
End CodecTests.

(** ** escape.rs *)

Module EscapeTests.
Definition press (b : char) : M EscapeInterpreter InterpreterResult := λ self,
  let '(self, r) := handle_byte b self in (self, Ok r).
(** A byte typed, and the [matches!] on its result. *)
Definition sends (key : string) (bs : string) : M EscapeInterpreter unit :=
  r ← press (List.nth 0 (txt key) 0);
  lift (assert (match r with SendBytes b => bool_decide (b = txt bs) | _ => false end)).
Definition consumed (key : string) : M EscapeInterpreter unit :=
  r ← press (List.nth 0 (txt key) 0);
  lift (assert (match r with Consume => true | _ => false end)).
Definition commands (key : string) (c : EscapeCommand) : M EscapeInterpreter unit :=
  r ← press (List.nth 0 (txt key) 0);
  lift (assert (match r with Command c' => bool_decide (c' = c) | _ => false end)).
Definition with_interpreter (m : M EscapeInterpreter unit) : test := (m EscapeInterpreter_new).2.

Definition test_normal_typing : test := with_interpreter (
  sends "a" "a" ;; sends "b" "b" ;; sends "~" "~" ;; sends "a" "a").
Definition test_escape_trigger_and_disconnect : test := with_interpreter (
  consumed "~" ;; commands "." Escape.Disconnect).
Definition test_escape_after_newline : test := with_interpreter (
  press 97 ;; sends "~" "~" ;; press 10 ;; consumed "~" ;; commands "o" Escape.ToggleOverlay).
Definition test_double_tilde : test := with_interpreter (
  consumed "~" ;; sends "~" "~" ;; sends "~" "~").
Definition test_aborted_escape_sequence : test := with_interpreter (
  consumed "~" ;; sends "a" "~a").
End EscapeTests.

(** ** echo.rs *)

Module EchoTests.
Abbreviation Drawing := (M (LocalEchoEngine * TerminalFrame)) (only parsing).
(** [assert_eq!(frame.cell_cache[i].graphemes.as_str(), s)] *)
Definition cell_is (i : Z) (s : string) : Drawing unit :=
  '(_, frame) ← get;
  cell ← lift (vec_get (tf_cell_cache frame) i);
  g ← lift (as_str (graphemes cell));
  lift (assert! (g = txt s)).
Definition cursor_x_is (x : Z) : Drawing unit := '(_, frame) ← get; lift (assert! (tf_cursor_x frame = x)).
Definition cursor_y_is (y : Z) : Drawing unit := '(_, frame) ← get; lift (assert! (tf_cursor_y frame = y)).
Definition pending (n : Z) : Drawing unit := '(engine, _) ← get; lift (assert! (len (le_unconfirmed_inputs engine) = n)).
Definition with_engine (m : Drawing unit) : test := (m (LocalEchoEngine_new, TerminalFrame_new 80 24)).2.

Definition test_echo_engine_apply_and_reconcile : test := with_engine (
  apply_keystrokes (txt "abc") 1 ;;
  cursor_x_is 3 ;; cell_is 0 "a" ;; cell_is 1 "b" ;; cell_is 2 "c" ;; pending 1 ;;
  apply_keystrokes (txt "d") 2 ;;
  cursor_x_is 4 ;; pending 2 ;;
  cells ← lift (set_text 0 (txt "a") (tf_cell_cache (TerminalFrame_new 80 24)));
  cells ← lift (set_text 1 (txt "b") cells);
  cells ← lift (set_text 2 (txt "c") cells);
  let server_frame := (TerminalFrame_new 80 24) <| tf_cursor_x := 3 |> <| tf_cell_cache := cells |> in
  modify (λ '(engine, _), (engine, server_frame)) ;;
  reconcile_frame 1 ;;
  cursor_x_is 4 ;; cell_is 3 "d" ;; pending 1 ;;
  '(engine, _) ← get;
  entry ← lift (vec_get (le_unconfirmed_inputs engine) 0);
  lift (assert! (pe_seq_num entry = 2))).

Definition test_echo_engine_abort_rollback : test := with_engine (
  apply_keystrokes (txt "xyz") 1 ;;
  cursor_x_is 3 ;; cell_is 0 "x" ;; pending 1 ;;
  abort ;;
  cursor_x_is 0 ;; cell_is 0 " " ;; pending 0 ;;
  '(engine, _) ← get;
  lift (assert! (le_current_epoch engine = 1))).

Definition test_echo_engine_backspace_and_newline : test := with_engine (
  apply_keystrokes [97; 10; 98; 8] 1 ;;
  cursor_x_is 0 ;; cursor_y_is 1 ;; cell_is 0 "a" ;; cell_is 80 " ").
End EchoTests.

(** ** terminal.rs *)

Module TerminalTests.
Abbreviation Mirror := (M TerminalInner) (only parsing).
(** [assert!] on [terminal.read_inner()] *)
Definition expect (P : TerminalInner → bool) : Mirror unit := inner ← get; lift (assert (P inner)).
Definition cell_is (i : Z) (s : string) : Mirror unit :=
  inner ← get;
  cell ← lift (vec_get (tf_cell_cache (ti_frame inner)) i);
  g ← lift (as_str (graphemes cell));
  lift (assert! (g = txt s)).
Definition unwrapped {A} (m : Mirror A) : Mirror A := λ t, let '(t, r) := m t in (t, unwrap r).
Definition with_terminal (m : Mirror unit) : test := (m (ClientTerminal_new 80 24)).2.

Definition test_initialization : test := with_terminal (
  expect (λ inner, tf_cols (ti_frame inner) =? 80) ;;
  expect (λ inner, tf_rows (ti_frame inner) =? 24) ;;
  expect (λ inner, len (tf_cell_cache (ti_frame inner)) =? 80 * 24) ;;
  expect (λ inner, tf_dirty (ti_frame inner)) ;;
  expect (λ inner, forallb id (tf_row_dirty (ti_frame inner)))).

Definition test_apply_frame_and_resize : test := with_terminal (
  resized ← unwrapped (apply_frame (filled 80 24 10 5 true (txt "a")) 1);
  lift (assert (negb resized)) ;;
  expect (λ inner, tf_cursor_x (ti_frame inner) =? 10) ;;
  expect (λ inner, tf_cursor_y (ti_frame inner) =? 5) ;;
  expect (λ inner, tf_cursor_visible (ti_frame inner)) ;;
  expect (λ inner, tf_last_seq (ti_frame inner) =? 1) ;;
  cell_is 0 "a" ;;
  resized ← unwrapped (apply_frame (filled 90 30 10 5 true (txt "b")) 2);
  lift (assert resized) ;;
  expect (λ inner, tf_cols (ti_frame inner) =? 90) ;;
  expect (λ inner, tf_rows (ti_frame inner) =? 30) ;;
  expect (λ inner, len (tf_cell_cache (ti_frame inner)) =? 90 * 30) ;;
  cell_is 0 "b" ;;
  expect (λ inner, tf_clear_requested (ti_frame inner))).

Definition test_local_echo_and_pruning : test := with_terminal (
  predict_input (txt "abc") 10 ;;
  expect (λ inner, tf_cursor_x (ti_frame inner) =? 3) ;;
  expect (λ inner, tf_cursor_y (ti_frame inner) =? 0) ;;
  expect (λ inner, len (le_unconfirmed_inputs (ti_echo_engine inner)) =? 1) ;;
  cell_is 0 "a" ;; cell_is 1 "b" ;; cell_is 2 "c" ;;
  inner ← get;
  flag ← lift (vec_get (tf_row_dirty (ti_frame inner)) 0);
  lift (assert flag) ;;
  let grid := filled 80 24 0 0 true (txt ".") in
  unwrapped (apply_frame grid 1) ;;
  cell_is 0 "a" ;; cell_is 1 "b" ;; cell_is 2 "c" ;; cell_is 3 "." ;;
  acknowledge 10 ;;
  expect (λ inner, len (le_unconfirmed_inputs (ti_echo_engine inner)) =? 0) ;;
  cells ← lift (set_text 0 (txt "x") (gs_cells grid));
  cells ← lift (set_text 1 (txt "y") cells);
  cells ← lift (set_text 2 (txt "z") cells);
  unwrapped (apply_frame (grid <| gs_cells := cells |>) 2) ;;
  cell_is 0 "x" ;; cell_is 1 "y" ;; cell_is 2 "z").

(** [terminal.consume_updates(&mut dest)] *)
Definition consumes (b : bool) : M (TerminalInner * TerminalFrame) unit :=
  consumed ← consume_updates; lift (assert! (consumed = b)).
Definition expect_dest (P : TerminalFrame → bool) : M (TerminalInner * TerminalFrame) unit :=
  '(_, dest) ← get; lift (assert (P dest)).
Definition test_double_buffer_consumption : test :=
  snd ((consumes true ;;
   expect_dest (λ dest, tf_cols dest =? 80) ;; expect_dest (λ dest, tf_rows dest =? 24) ;;
   consumes false ;;
   on_mirror (set_reconnecting true) ;;
   consumes true ;; expect_dest tf_reconnecting ;;
   consumes false) (ClientTerminal_new 80 24, TerminalFrame_new 80 24)).
End TerminalTests.

(** ** bootstrap.rs *)

Module BootstrapTests.
Definition hex_key : list char := txt "0102030405060708090a0b0c0d0e0f101112131415161718191a1b1c1d1e1f20".
(** [BufRead::lines] on a [Cursor] *)
Definition lines (input : list char) : list Line := Some <$> split 10 input.

Definition test_parse_token_success : test :=
  let input := txt "noise" ++ [10] ++ txt "RUMSH CONNECT 60001 " ++ hex_key ++ [10] ++ txt "more noise" in
  '(port, key) ← unwrap (parse_token (lines input));
  assert! (port = 60001) ;;
  assert! (key = hex_key).
Definition test_parse_token_missing : test :=
  let input := txt "noise" ++ [10] ++ txt "some other connection message" ++ [10] ++ txt "more noise" in
  let res := parse_token (lines input) in
  assert (is_err res) ;;
  assert! (res = Err (Msg "Failed to parse token from bootstrap stream")).
Definition test_parse_token_malformed : test :=
  let input := txt "RUMSH CONNECT not_a_port " ++ hex_key in
  assert (is_err (parse_token (lines input))).
Definition test_parse_hex_key : test :=
  key ← unwrap (parse_hex_key hex_key);
  first ← vec_get key 0;
  assert! (first = 1) ;;
  last ← vec_get key 31;
  assert! (last = 32) ;;
  assert (is_err (parse_hex_key (txt "0102"))) ;;
  assert (is_err (parse_hex_key (txt "z102030405060708090a0b0c0d0e0f101112131415161718191a1b1c1d1e1f20"))).
Definition test_extract_host : test :=
  assert! (extract_host_from_ssh_target (txt "user@myhost.com") = txt "myhost.com") ;;
  assert! (extract_host_from_ssh_target (txt "myhost.com") = txt "myhost.com").
End BootstrapTests.

(** ** lifecycle.rs *)

Module LifecycleTests.
Definition expect (P : FakeLifecycleBackend → bool) : M FakeLifecycleBackend unit := b ← get; lift (assert (P b)).
Definition with_fake (m : M FakeLifecycleBackend unit) : test := (m (FakeLifecycleBackend_new 80 24)).2.

Definition test_lifecycle_raii_guard : test := with_fake (
  '(cols, rows) ← with_backend;
  lift (assert! (cols = 80)) ;;
  lift (assert! (rows = 24)) ;;
  expect fl_raw_mode ;;
  expect fl_alt_screen ;;
  lifecycle_drop ;;
  expect (λ b, negb (fl_raw_mode b)) ;;
  expect (λ b, negb (fl_alt_screen b))).
Definition test_lifecycle_suspend_resumption : test := with_fake (
  with_backend ;;
  resumed_size ← suspend;
  expect (λ b, fl_sigtstp_count b =? 1) ;;
  expect fl_raw_mode ;;
  expect fl_alt_screen ;;
  lift (assert! (default (0, 0) resumed_size = (80, 24)))).
End LifecycleTests.

(** ** All of them *)

Definition component_tests : list test :=
  [GridTests.test_grid_diff_and_patch_roundtrip; GridTests.test_grid_diff_from_none;
   GridTests.test_grid_diff_dimension_mismatch; GridTests.test_grid_patch_out_of_bounds_rejection;
   CodecTests.test_chacha_codec_roundtrip; CodecTests.test_null_codec_roundtrip;
   CodecTests.test_chacha_codec_tamper_rejection; EscapeTests.test_normal_typing;
   EscapeTests.test_escape_trigger_and_disconnect; EscapeTests.test_escape_after_newline;
   EscapeTests.test_double_tilde; EscapeTests.test_aborted_escape_sequence;
   EchoTests.test_echo_engine_apply_and_reconcile; EchoTests.test_echo_engine_abort_rollback;
   EchoTests.test_echo_engine_backspace_and_newline; TerminalTests.test_initialization;
   TerminalTests.test_apply_frame_and_resize; TerminalTests.test_local_echo_and_pruning;
   TerminalTests.test_double_buffer_consumption; BootstrapTests.test_parse_token_success;
   BootstrapTests.test_parse_token_missing; BootstrapTests.test_parse_token_malformed;
   BootstrapTests.test_parse_hex_key; BootstrapTests.test_extract_host;
   LifecycleTests.test_lifecycle_raii_guard; LifecycleTests.test_lifecycle_suspend_resumption].

Lemma filled_wf cols rows x y v t :
  u16 cols → u16 rows → grid_wf (filled cols rows x y v t).
Proof.
  intros Hc Hr. unfold grid_wf, filled. cbn. split_and!; try done; rewrite len_vec; unfold fits in *; nia.
Qed.

Lemma diff_patch_known g1 g2 ref_seq echo :
  grid_wf g1 → grid_wf g2 → addressable g2 →
  let d := frame_of (base_of g2 (Some g1)) g2 ref_seq echo in
  diff_from g2 (Some g1) ref_seq echo = Ok d ∧ patch d g1 = (g2, Ok tt).
Proof.
  intros H1 H2 Ha d. assert (diff_from g2 (Some g1) ref_seq echo = Ok d) as E.
  { apply diff_from_ok; [done|by intros ? [= <-]|done]. }
  destruct (diff_patch g2 (Some g1) ref_seq echo g1) as (d' & E' & Ep); [done..|by left|]. split; [done|]. congruence.
Qed.

(** The update of a whole screen. *)
Lemma mismatch_rows :
  len (fu_row_updates (frame_of (base_of (filled 100 30 5 5 true (txt "y")) (Some (filled 80 24 0 0 false (txt " "))))
    (filled 100 30 5 5 true (txt "y")) 5 true)) = 30.
Proof. vm_compute. reflexivity. Qed.
Lemma mismatch_test : GridTests.test_grid_diff_dimension_mismatch = Ok tt.
Proof.
  unfold GridTests.test_grid_diff_dimension_mismatch. cbv zeta.
  destruct (diff_patch_known (filled 80 24 0 0 false (txt " ")) (filled 100 30 5 5 true (txt "y")) 5 true) as [-> Hp];
    [by apply filled_wf|by apply filled_wf|done|].
  unfold mbind at 1, outcome_bind at 1. rewrite Hp, (bool_decide_eq_true_2 _ mismatch_rows).
  rewrite !bool_decide_eq_true_2; done.
Qed.

Lemma component_tests_pass : Forall (λ t, t = Ok tt) component_tests.
Proof.
  unfold component_tests. repeat apply Forall_cons_2; [..|apply Forall_nil_2].
  all: lazymatch goal with
  | |- GridTests.test_grid_diff_dimension_mismatch = _ => exact mismatch_test
  | |- _ => vm_compute; reflexivity
  end.
Qed.
