(* ===== verification/SessionTests.v ===== *)
(** * The unit tests of the two sessions

    The tests beside server/session.rs and client/session.rs, over the definitions that model the sessions. The
    server's run on the recording pseudo-terminal and an emulator that prints; a reading of the clock is a
    microsecond after the one before. *)

From Stdlib Require Import Floats.SpecFloat.
From S2P Require Import Prelude Utf8 Grid Protocol Crypto Codec CodecFacts WireFormat CodecProps.
From S2P Require Import Escape Float32 Frame Echo Terminal MirrorSession.
From S2P Require Import TermState Pty ServerSession Text Bind ServerNetwork Bootstrap UnitTests.

(** The [n]-th reading of [Instant::now()] in a test. *)
Definition now (n : Z) : Instant := from_secs 10 + n * 1000.
(** A panic of the test when a method fails. *)
Definition unwrapped {S A} (m : M S A) : M S A := λ s, let '(s, r) := m s in (s, unwrap r).
Definition expect {S} (P : S → bool) : M S unit := s ← get; lift (assert (P s)).

(** ** The emulator

    A printer: its screen is the text it was given, line by line, and a line has the cells of its text
    only. It has every row repainted when the text has changed. *)

Module Printer.
Record term := mkTerm { t_cols : Z; t_rows : Z; t_text : list Z }.
Record render := mkRender { r_cols : Z; r_rows : Z; r_text : list Z; r_dirty : bool }.

Definition row (r : render) (y : Z) : VtRow :=
  {| vr_dirty := Ok (r_dirty r); vr_is_wrapped := Ok false;
     vr_cells := Ok (Toy.cell <$> take (Z.to_nat (r_cols r)) (drop (Z.to_nat (y * r_cols r)) (r_text r))) |}.

#[global] Instance vt : Vt term render := {|
  Terminal_new cols rows := Ok (mkTerm cols rows []);
  RenderState_new := Ok (mkRender 0 0 [] true);
  iterators_new := Ok tt;
  on_pty_write _ := Ok tt;
  vt_write data t := (mkTerm (t_cols t) (t_rows t) (t_text t ++ data), []);
  vt_resize cols rows t := ((mkTerm cols rows (t_text t), []), Ok tt);
  render_update t r := (mkRender (t_cols t) (t_rows t) (t_text t)
    (r_dirty r || negb (bool_decide (t_text t = r_text r))), Ok tt);
  snapshot_cols r := Ok (r_cols r);
  snapshot_rows r := Ok (r_rows r);
  snapshot_cursor_visible r := Ok true;
  snapshot_cursor_viewport r := Ok None;
  rows_iter_update r := Ok (row r <$> range (r_rows r));
  row_set_clean y r := (r, Ok tt);
  snapshot_set_clean r := (mkRender (r_cols r) (r_rows r) (r_text r) false, Ok tt) |}.
End Printer.

(** ** server/session.rs *)

Module ServerSessionTests.
Abbreviation Session := (AuthoritativeSession FakePty NullCodec Printer.term Printer.render) (only parsing).
Abbreviation Action := (SessionAction NullCodec) (only parsing).

Definition addr : SocketAddr := SocketAddrV4 2130706433 12345.
Definition make_client_packet (session : Session) (seq : Z) (payload : ClientPayload) : outcome (list Z) :=
  unwrap (seal_client (as_codec session) (as_session_id session) seq 0 payload).
(** [AuthoritativeSession::new(12345, codec, 0, addr, 80, 24, fake_pty).unwrap()] *)
Definition with_session (m : M Session unit) : test :=
  session ← unwrap (AuthoritativeSession_new 12345 (NullCodec_new 12345) 0 addr 80 24 FakePty_new (now 0));
  (m session).2.
Definition feed (seq : Z) (payload : ClientPayload) (at_ : Instant) : M Session (list Action) :=
  session ← get;
  pkt ← lift (make_client_packet session seq payload);
  unwrapped (ServerSession.feed_packet pkt addr at_).
Definition keys (s : string) : ClientPayload := ClientPayload.Keystrokes (txt s).
Definition is_job (a : Action) : bool := match a with OffloadDiffJob _ _ => true | _ => false end.

Definition test_sliding_window_ordering : test := with_session (
  feed 1 (keys "a") (now 1) ;;
  expect (λ s, as_ack_seq_num s =? 1) ;;
  expect (λ s, bool_decide (fp_written (as_pty s) = [txt "a"])) ;;
  feed 3 (keys "c") (now 2) ;;
  expect (λ s, as_ack_seq_num s =? 1) ;;
  expect (λ s, Z.of_nat (size (as_out_of_order_packets s)) =? 1) ;;
  feed 2 (keys "b") (now 3) ;;
  expect (λ s, as_ack_seq_num s =? 3) ;;
  expect (λ s, bool_decide (as_out_of_order_packets s = ∅)) ;;
  expect (λ s, bool_decide (fp_written (as_pty s) = [txt "a"; txt "b"; txt "c"]))).

Definition test_multiple_dropped_packets_recovery : test := with_session (
  feed 1 (keys "1") (now 1) ;;
  actions ← feed 4 (keys "4") (now 2);
  lift (assert! (length actions = 0%nat)) ;;
  actions ← feed 5 (keys "5") (now 3);
  lift (assert! (length actions = 0%nat)) ;;
  expect (λ s, as_ack_seq_num s =? 1) ;;
  expect (λ s, Z.of_nat (size (as_out_of_order_packets s)) =? 2) ;;
  feed 2 (keys "2") (now 4) ;;
  expect (λ s, as_ack_seq_num s =? 2) ;;
  expect (λ s, Z.of_nat (size (as_out_of_order_packets s)) =? 2) ;;
  feed 3 (keys "3") (now 5) ;;
  expect (λ s, as_ack_seq_num s =? 5) ;;
  expect (λ s, bool_decide (as_out_of_order_packets s = ∅)) ;;
  expect (λ s, bool_decide (fp_written (as_pty s) = [txt "1"; txt "2"; txt "3"; txt "4"; txt "5"]))).

Definition test_duplicate_packet_handling : test := with_session (
  feed 1 (keys "a") (now 1) ;;
  term_write (txt "x") ;;
  modify (λ s, s <| as_dirty := true |>) ;;
  actions ← feed 1 (keys "a") (now 2 + from_millis 20);
  lift (assert! (length actions = 0%nat))).

Definition test_resize_action : test := with_session (
  actions ← feed 1 (ClientPayload.Resize 100 40) (now 1);
  expect (λ s, bool_decide (fp_resized (as_pty s) = [(100, 40)])) ;;
  lift (assert! (length actions = 1%nat)) ;;
  action ← lift (vec_get actions 0);
  lift (assert (is_job action))).

Definition test_keepalive_action : test := with_session (
  actions ← feed 1 ClientPayload.KeepAlive (now 1);
  lift (assert! (length actions = 1%nat)) ;;
  action ← lift (vec_get actions 0);
  match action with
  | SendPacket b target =>
    lift (assert! (target = addr)) ;;
    session ← get;
    opened ← lift (unwrap (open_server b (as_codec session)).2);
    '(server_packet, payload, _stats) ← lift (some opened);
    lift (assert! (es_seq_num server_packet = 1)) ;;
    lift (assert! (es_ack_seq_num server_packet = 1)) ;;
    lift (assert! (payload = ServerPayload.KeepAlive))
  | _ => lift Panic
  end).

Definition test_update_job_compilation_and_pruning : test := with_session (
  modify (λ s, s <| as_dirty := true |>) ;;
  actions1 ← ServerSession.on_tick (now 1);
  lift (assert! (length actions1 = 1%nat)) ;;
  expect (λ s, len (as_state_history s) =? 1) ;;
  modify (λ s, s <| as_dirty := true |>) ;;
  actions2 ← ServerSession.on_tick (now 2);
  lift (assert! (length actions2 = 0%nat)) ;;
  on_pty_bytes (txt "x") (now 3 + from_millis 20) ;;
  actions3 ← ServerSession.on_tick (now 4 + from_millis 20);
  lift (assert! (length actions3 = 1%nat)) ;;
  expect (λ s, len (as_state_history s) =? 2)).

Definition test_flood_mode_throttling : test := with_session (
  let start := now 1 in
  modify (λ s, s <| as_dirty := true |>) ;;
  actions ← ServerSession.on_tick start;
  lift (assert! (length actions = 1%nat)) ;;
  on_pty_bytes (vec 97 4096) (start + from_millis 10) ;;
  actions_throttled ← ServerSession.on_tick (start + from_millis 25);
  lift (assert! (length actions_throttled = 0%nat)) ;;
  actions_flooded ← ServerSession.on_tick (start + from_millis 165);
  lift (assert! (length actions_flooded = 1%nat))).

Definition test_transient_packet_does_not_stall_reliable_packets : test := with_session (
  feed 1 (keys "hello") (now 1) ;;
  expect (λ s, as_ack_seq_num s =? 1) ;;
  expect (λ s, as_expected_client_seq s =? 2) ;;
  let transient_seq := Z.lor (Z.shiftl 1 63) 1 in
  actions ← feed transient_seq (ClientPayload.FragmentNack 10 [1]) (now 2);
  lift (assert! (length actions = 1%nat)) ;;
  action ← lift (vec_get actions 0);
  lift (assert (match action with ResendFragments _ _ _ => true | _ => false end)) ;;
  expect (λ s, as_expected_client_seq s =? 2) ;;
  expect (λ s, bool_decide (as_out_of_order_packets s = ∅)) ;;
  feed 2 (keys "world") (now 3) ;;
  expect (λ s, as_ack_seq_num s =? 2) ;;
  expect (λ s, as_expected_client_seq s =? 3) ;;
  expect (λ s, bool_decide (as_out_of_order_packets s = ∅)) ;;
  expect (λ s, bool_decide (fp_written (as_pty s) = [txt "hello"; txt "world"]))).
End ServerSessionTests.

(** ** client/session.rs *)

Module ClientSessionTests.
Abbreviation Session := (MirrorSession NullCodec) (only parsing).

(** [MirrorSession::new(12345, codec, 1, 80, 24, false, now)] *)
Definition with_session (m : M Session unit) : test :=
  (m (MirrorSession_new 12345 (NullCodec_new 12345) 1 80 24 false (now 0))).2.
Definition make_packet (session : Session) (seq : Z) : outcome (list Z) :=
  pkts ← unwrap (seal_server (ms_codec session) seq 0 ServerPayload.KeepAlive);
  some (last pkts).
(** A packet of the server: [seq] alone, or the first datagram of an acknowledgement of [ack]. *)
Definition feed (seq : Z) (at_ : Instant) : M Session (list ClientAction) :=
  session ← get;
  b ← lift (make_packet session seq);
  unwrapped (MirrorSession.feed_packet b at_).
Definition feed_ack (seq ack : Z) (at_ : Instant) : M Session (list ClientAction) :=
  session ← get;
  ack_bytes ← lift (unwrap (seal_server (ms_codec session) seq ack ServerPayload.KeepAlive));
  b ← lift (vec_get ack_bytes 0);
  unwrapped (MirrorSession.feed_packet b at_).
Definition is_send (a : ClientAction) : bool := match a with ClientAction.SendPacket _ => true | _ => false end.
(** The map of unacknowledged packets, walked in ascending order. *)
Definition tick (at_ : Instant) : M Session (list ClientAction) :=
  session ← get;
  unwrapped (MirrorSession.on_tick (BTree.keys (ms_unacked_packets session)) at_).
(** [session.loss_window[i]] *)
Definition arrived (i : Z) (b : bool) : M Session unit :=
  session ← get;
  r ← lift (vec_get (ms_loss_window session) i);
  lift (assert! (r = b)).

Definition test_rtt_calculation : test := with_session (
  actions ← unwrapped (feed_stdin (txt "a") (now 0));
  lift (assert (existsb is_send actions)) ;;
  expect (λ s, Z.of_nat (size (ms_sent_packets s)) =? 1) ;;
  let later := now 0 + from_millis 50 in
  feed_ack 1 1 later ;;
  session ← get;
  let rtt := rtt_ms (ms_mirror session) in
  lift (assert (45 <=? rtt)) ;;
  lift (assert (rtt <? 150)) ;;
  expect (λ s, bool_decide (ms_sent_packets s = ∅)) ;;
  expect (λ s, bool_decide (ms_unacked_packets s = ∅))).

Definition test_packet_loss_and_late_correction : test := with_session (
  feed 1 (now 0) ;;
  expect (λ s, ms_expected_server_seq s =? 2) ;;
  expect (λ s, len (ms_loss_window s) =? 1) ;;
  arrived 0 true ;;
  feed 3 (now 0) ;;
  expect (λ s, ms_expected_server_seq s =? 4) ;;
  expect (λ s, len (ms_loss_window s) =? 3) ;;
  arrived 1 false ;; arrived 2 true ;;
  feed 2 (now 0) ;;
  expect (λ s, len (ms_loss_window s) =? 3) ;;
  arrived 1 true).

Definition test_arq_retransmission_and_pruning : test := with_session (
  unwrapped (feed_stdin (txt "a") (now 0)) ;;
  expect (λ s, Z.of_nat (size (ms_unacked_packets s)) =? 1) ;;
  actions ← tick (now 0 + from_millis 50);
  lift (assert (negb (existsb is_send actions))) ;;
  actions ← tick (now 0 + from_millis 300);
  lift (assert! (length (List.filter is_send actions) = 1%nat)) ;;
  feed_ack 1 1 (now 0 + from_millis 350) ;;
  expect (λ s, bool_decide (ms_unacked_packets s = ∅))).

Definition test_escape_disconnect_action : test := with_session (
  actions ← unwrapped (feed_stdin (txt "~.") (now 0));
  lift (assert! (ClientAction.Disconnect ∈ actions))).

Definition test_escape_overlay_action : test := with_session (
  actions ← unwrapped (feed_stdin (txt "~o") (now 0));
  lift (assert! (ClientAction.Paint ∈ actions)) ;;
  expect (λ s, tf_overlay_enabled (ti_frame (ms_mirror s)))).
End ClientSessionTests.

(** ** All of them *)

Definition session_tests : list test :=
  [ServerSessionTests.test_sliding_window_ordering;
   ServerSessionTests.test_multiple_dropped_packets_recovery;
   ServerSessionTests.test_duplicate_packet_handling;
   ServerSessionTests.test_resize_action;
   ServerSessionTests.test_keepalive_action;
   ServerSessionTests.test_update_job_compilation_and_pruning;
   ServerSessionTests.test_flood_mode_throttling;
   ServerSessionTests.test_transient_packet_does_not_stall_reliable_packets;
   ClientSessionTests.test_rtt_calculation;
   ClientSessionTests.test_packet_loss_and_late_correction;
   ClientSessionTests.test_arq_retransmission_and_pruning;
   ClientSessionTests.test_escape_disconnect_action;
   ClientSessionTests.test_escape_overlay_action].

(** The model agrees with the program's own tests. The unit tests of the components and of the two
    sessions, all but [test_fragmentation_roundtrip], read as programs over the definitions here, pass: no assertion in them fails and no
    call they unwrap returns an error. The server's session runs on the recording
    pseudo-terminal and an emulator that shows the text it is given. *)
Theorem unit_tests_pass : Forall (λ t, t = Ok tt) (component_tests ++ session_tests).
Proof.
  apply Forall_app. split; [exact component_tests_pass|].
  unfold session_tests. repeat apply Forall_cons_2; [..|apply Forall_nil_2]; vm_compute; reflexivity.
Qed.
