(* ===== verification/System.v ===== *)
(** * The whole system

    The server's network loop and the client's session, joined by a network that loses, reorders and
    repeats datagrams, and may add ones that do not open under the session's key. A run is any
    sequence of events at either side; a datagram can only be delivered if the other side has
    sent it. What both sides have requested and numbered is recorded along the run. *)

From Stdlib Require Import Floats.SpecFloat.
From S2P Require Import Prelude Utf8 Grid Protocol Crypto Codec CodecFacts WireFormat CodecProps.
From S2P Require Import TermState Pty ServerSession ServerFacts ServerProps ServerLog.
From S2P Require Import ServerNetwork ServerNetworkProps ServerStream.
From S2P Require Import Escape Float32 Frame Echo Terminal MirrorSession MirrorFacts MirrorProps ClientLog.
From S2P Require Import ClientRefs ServerRefs Keyboard.

Section system.
Context {P C T R : Type} `{PtyBackend P, PacketCodec C, Vt T R}.

Record System := mkSystem {
  sy_server : Server P C T R;
  sy_client : MirrorSession C;
  sy_client_sent : list (list Z); (* what the client's session has asked to send *)
  sy_requested : list (SessionAction C); (* what the server's session has asked for *)
  sy_numbered : list ClientPayload; (* the client's reliable payloads, in the order of their numbers *)
  sy_received : list Z; (* the numbers of the reliable packets delivered to the server *)
  sy_failed : bool; (* a method of a session has failed *)
}.
#[export] Instance System_eta : Eta System := λ s,
  mkSystem (sy_server s) (sy_client s) (sy_client_sent s) (sy_requested s) (sy_numbered s) (sy_received s) (sy_failed s).

Inductive system_event := AtServer (e : net_event) | AtClient (e : client_event).

(** What can happen at the server: nothing once it has stopped; a datagram was sent by the client, or
    does not open. *)
Definition server_may (e : net_event) (sys : System) : Prop :=
  match sv_phase (sy_server sys) with
  | Stopped => False
  | _ =>
    match e with
    | NRecv b _ _ =>
      b ∈ sy_client_sent sys ∨ is_ok (open_client (as_codec (sv_session (sy_server sys))) b) = false
    | _ => True
    end
  end.
#[export] Instance server_may_dec e sys : Decision (server_may e sys).
Proof. unfold server_may. destruct (sv_phase _), e; apply _. Defined.

(** At the client: bytes, sizes, and the datagrams the server has put on its socket. *)
Definition client_may (e : client_event) (sys : System) : Prop :=
  match e with
  | CDatagram b _ => b ∈ (sv_sent (sy_server sys)).*1
  | CStdin buf _ => Forall u8 buf
  | CWinch cols rows _ => u16 cols ∧ u16 rows
  | CTick _ _ | CPaint _ => True
  end.
#[export] Instance client_may_dec e sys : Decision (client_may e sys).
Proof. unfold client_may. destruct e; apply _. Defined.

Definition server_step (e : net_event) (sys : System) : System :=
  let '(sv, r) := serve e (sy_server sys) in
  match r with
  | Ok acts =>
    sys <| sy_server := sv |> <| sy_requested ::= λ l, l ++ acts |>
        <| sy_received ::= λ l, l ++ option_list (event_of (sy_server sys) e ≫=
             reliable (as_codec (sv_session (sy_server sys)))) |>
  | _ => sys <| sy_server := sv |> <| sy_failed := true |>
  end.

Definition client_step (e : client_event) (sys : System) : System :=
  let s := sy_client sys in
  let '(s', r) := client_handle e s in
  sys <| sy_client := s' |>
      <| sy_numbered ::= λ l, if decide (ms_seq_num s' = ms_seq_num s) then l else l ++ [payload_of e s] |>
      <| sy_client_sent ::= λ l, l ++ sends (default [] (ok r)) |>
      <| sy_failed ::= λ b, b || match r with Panic => true | _ => false end |>.

Definition system_step (sys : System) (ev : system_event) : System :=
  match ev with
  | AtServer e => if decide (server_may e sys) then server_step e sys else sys
  | AtClient e => if decide (client_may e sys) then client_step e sys else sys
  end.
Definition system_run (evs : list system_event) (sys : System) : System := foldl system_step sys evs.

Definition System_new (s : AuthoritativeSession P C T R) (m : MirrorSession C) : System :=
  {| sy_server := Server_new s []; sy_client := m; sy_client_sent := []; sy_requested := [];
     sy_numbered := []; sy_received := []; sy_failed := false |}.

Lemma system_run_prefix evs sys :
  sy_requested sys `prefix_of` sy_requested (system_run evs sys) ∧
  sy_numbered sys `prefix_of` sy_numbered (system_run evs sys).
Proof.
  revert sys. induction evs as [|ev evs IH]; intros sys; [done|]. destruct (IH (system_step sys ev)) as [H3 H4].
  assert (sy_requested sys `prefix_of` sy_requested (system_step sys ev) ∧
    sy_numbered sys `prefix_of` sy_numbered (system_step sys ev)) as [? ?]; [|by split; etransitivity].
  destruct ev as [e|e]; cbn [system_step]; (case_decide; [|done]).
  - unfold server_step. destruct (serve e (sy_server sys)) as [sv [acts| |]]; [|done..].
    split; [by apply prefix_app_r|done].
  - unfold client_step. destruct (client_handle e (sy_client sys)) as [s' r]. split; [done|]. cbn.
    case_decide; [done|by apply prefix_app_r].
Qed.

(** A client's event numbers one payload at most. *)
Lemma system_run_numbers evs sys :
  len (sy_numbered (system_run evs sys)) ≤ len (sy_numbered sys) + len evs.
Proof.
  revert sys. induction evs as [|ev evs IH]; intros sys; [unfold len; cbn; lia|].
  assert (len (sy_numbered (system_step sys ev)) ≤ len (sy_numbered sys) + 1) as Hs.
  { destruct ev as [e|e]; cbn [system_step]; (case_decide; [|lia]).
    - unfold server_step. destruct (serve e (sy_server sys)) as [sv [acts| |]]; cbn; lia.
    - unfold client_step. destruct (client_handle e (sy_client sys)) as [s' r]. cbn.
      case_decide; [lia|]. unfold len. rewrite length_app. cbn. lia. }
  specialize (IH (system_step sys ev)). change (system_run (ev :: evs) sys) with (system_run evs (system_step sys ev)).
  unfold len in *. cbn [length]. lia.
Qed.
End system.
Arguments System P C T R : clear implicits.

(** The client's log: its payloads under their numbers. *)
Definition log_of (ps : list ClientPayload) : gmap Z ClientPayload := map_seqZ 1 ps.
#[global] Arguments log_of : simpl never.

Lemma log_of_snoc ps p : log_of (ps ++ [p]) = <[len ps + 1 := p]> (log_of ps).
Proof. unfold log_of. rewrite map_seqZ_snoc. f_equal. unfold len. lia. Qed.
Lemma log_of_lookup ps k p : log_of ps !! k = Some p ↔ 1 ≤ k ∧ ps !! Z.to_nat (k - 1) = Some p.
Proof. apply lookup_map_seqZ_Some. Qed.
Lemma log_of_prefix ps ps' : ps `prefix_of` ps' → log_of ps ⊆ log_of ps'.
Proof.
  intros Hp. apply map_subseteq_spec. intros k p. rewrite !log_of_lookup. intros [Hk Hlk]. split; [done|].
  by eapply prefix_lookup_Some.
Qed.

(** ** The invariant *)

Section invariant.
Context {P C T R : Type} `{PtyBackend P, PacketCodecLaws C, VtLaws T R}.
Abbreviation System := (System P C T R) (only parsing).
Implicit Types (sys : System) (L : gmap Z ServerPayload) (grids : gmap Z GridState).
Context (c : C).
Context (Hcalm : calm (P:=P) (C:=C)) (Hanswers : answers c) (Hshort : short c) (Hseals : seals (C:=C)).

Abbreviation session sys := (sv_session (sy_server sys)) (only parsing).
(** The numbers the client has acknowledged. *)
Abbreviation acked L grids sys := (reached L grids (sy_client sys)) (only parsing).

Record system_ok L grids sys : Prop := {
  so_healthy : healthy c (session sys);
  so_load : load (session sys) < 2 ^ 64;
  so_logged : logged L grids (session sys);
  so_traffic : traffic_ok c L (sy_server sys);
  so_client : in_sync c L grids (sy_client sys);
  so_clog : clog c (acked L grids sys) 0 L (log_of (sy_numbered sys)) (sy_client sys);
  so_seq : ms_seq_num (sy_client sys) = len (sy_numbered sys);
  so_sent : Forall (client_sealed c (acked L grids sys) (log_of (sy_numbered sys))) (sy_client_sent sys);
  so_received : Forall (λ k, is_Some (log_of (sy_numbered sys) !! k)) (sy_received sys);
  so_screens k g : grids !! k = Some g →
    ∃ job, job ∈ jobs (sy_requested sys) ∧ uj_seq job = k ∧ uj_current_state job = g;
  so_failed : sy_failed sys = false;
  so_jobs : Forall (job_logged L grids) (jobs (sy_requested sys));
  so_refs : all_refer (acked L grids sys) (sy_requested sys);
  so_heeds : heeds c (acked L grids sys) (session sys);
  so_recorded : recorded (ms_ack_seq_num (sy_client sys)) (ms_state_history (sy_client sys));
}.

Lemma in_sync_mono L L' grids grids' (s : MirrorSession C) :
  L ⊆ L' → grids ⊆ grids' → in_sync c L grids s → in_sync c L' grids' s.
Proof.
  intros HL Hg [[Hc Hh Hm] Hl]. split; [|done]. split; [by eapply holds_mono| |done].
  eapply Forall_impl; [exact Hh|]. intros e He. exact (lookup_weaken _ _ _ _ He Hg).
Qed.

(** The numbers acknowledged only become more. *)
Lemma clog_mono (A A' : Z → Prop) a a' L L' K (s : MirrorSession C) :
  (∀ r, A r → A' r) → L ⊆ L' → a' ≤ ms_ack_seq_num s → clog c A a L K s → clog c A' a' L' K s.
Proof.
  intros HA HL Ha []. split; try done; [by eapply holds_mono| |by apply HA].
  eapply map_Forall_impl; [done|]. intros k e [He ?]. split; [|done]. revert He. by apply client_sealed_acked.
Qed.
Lemma system_refs_mono (A A' : Z → Prop) sys (acts : list (SessionAction C)) (s : AuthoritativeSession P C T R) :
  (∀ r, A r → A' r) → all_refer A acts → heeds c A s → all_refer A' acts ∧ heeds c A' s.
Proof.
  intros HA Hr []. split; [|split; [done|by apply HA|done]].
  eapply Forall_impl; [exact Hr|]. intros job [?|[? ?]]; [by left|right]. split; [by apply HA|done].
Qed.

(** What the frames logged refer to. *)
Lemma system_referring L grids sys : system_ok L grids sys → referring L (acked L grids sys).
Proof.
  intros [] k u Hu. destruct (lg_coherent _ _ _ so_logged0 k u Hu) as (g & base & Hg & _).
  destruct (so_screens0 k g Hg) as (job & Hj & <- & _). unfold all_refer in so_refs0. rewrite Forall_forall in so_jobs0, so_refs0.
  destruct (so_jobs0 job Hj) as [_ (u' & Hu' & Er)]. assert (u' = u) as -> by congruence. rewrite Er.
  by apply so_refs0.
Qed.

(** A datagram the client has sealed. *)
Lemma client_sealed_digestible A K b src now : client_sealed c A K b → net_digestible c (NRecv b src now).
Proof. intros (wire & p & st & E & _ & Hu & Hw & Hh & _ & _). cbn. rewrite E. by split_and!. Qed.

Lemma server_may_recv sys b src now :
  as_codec (session sys) = c → server_may (NRecv b src now) sys →
  b ∈ sy_client_sent sys ∨ is_ok (open_client c b) = false.
Proof.
  intros Hc He. unfold server_may in He. rewrite Hc in He.
  destruct (sv_phase (sy_server sys)); [exact He|exact He|destruct He].
Qed.

Lemma server_may_digestible L grids sys e : system_ok L grids sys → server_may e sys → net_digestible c e.
Proof.
  intros [] He. destruct e as [data now| |now|b src now| |i| |]; try done.
  destruct (server_may_recv sys b src now (he_codec _ _ so_healthy0) He) as [Hin|Hno].
  - rewrite Forall_forall in so_sent0. by eapply client_sealed_digestible, so_sent0.
  - cbn. pose proof (calm_open Hcalm c b). by destruct (open_client c b).
Qed.

(** A reliable packet received was numbered by the client. *)
Lemma received_numbered L grids sys e :
  system_ok L grids sys → server_may e sys →
  Forall (λ k, is_Some (log_of (sy_numbered sys) !! k))
    (option_list (event_of (sy_server sys) e ≫= reliable (as_codec (session sys)))).
Proof.
  intros [] He. rewrite (he_codec _ _ so_healthy0).
  destruct e as [data now| |now|b src now| |i| |]; cbn [event_of]; try (by constructor); [by destruct (sv_pty_open _); constructor|by destruct (sv_diff_in_flight _); constructor|].
  cbn. destruct (server_may_recv sys b src now (he_codec _ _ so_healthy0) He) as [Hin|Hno].
  - rewrite Forall_forall in so_sent0. destruct (so_sent0 b Hin) as (wire & p & st & E & _ & _ & _ & _ & Hp & _).
    rewrite E. destruct (is_transient _ p); [constructor|]. constructor; [|constructor]. rewrite Hp by done. by eexists.
  - destruct (open_client c b); [done|constructor..].
Qed.

(** What the client acknowledges with a datagram, it has reached. *)
Lemma server_may_acks L grids sys e : system_ok L grids sys → server_may e sys → event_acks c (acked L grids sys) e.
Proof.
  intros [] He. destruct e as [data now| |now|b src now| |i| |]; try done. cbn. unfold acks_with.
  destruct (server_may_recv sys b src now (he_codec _ _ so_healthy0) He) as [Hin|Hno].
  - rewrite Forall_forall in so_sent0. destruct (so_sent0 b Hin) as (wire & p & st & E & _ & _ & _ & _ & _ & Ha).
    by rewrite E.
  - by destruct (open_client c b).
Qed.

Lemma server_step_ok L grids sys e :
  system_ok L grids sys → server_may e sys → load (session sys) + 2 < 2 ^ 64 →
  carried (sy_requested (server_step e sys)) →
  ∃ L' grids', system_ok L' grids' (server_step e sys) ∧
    load (session (server_step e sys)) ≤ load (session sys) + 2 ∧
    ∃ sv acts, runs (serve e) (sy_server sys) sv acts ∧ Forall (act_logged c L') acts.
Proof.
  intros Hok He Hload Hc. pose proof Hok as [].
  destruct (serve_relays c Hcalm Hanswers Hshort e (server_may_digestible L grids sys e Hok He) (sy_server sys)
    so_healthy0 Hload) as (sv' & acts & E & Hs' & Hl' & Hlog).
  pose proof (received_numbered L grids sys e Hok He) as Hrec.
  destruct (serve_serving c (acked L grids sys) e (sy_server sys) (or_introl eq_refl) (server_may_acks L grids sys e Hok He)
    so_heeds0) as [Hheeds Hrefs].
  unfold server_step in *. rewrite E in *. specialize (Hrefs acts eq_refl). cbn [fst] in Hheeds.
  change (carried (sy_requested sys ++ acts)) in Hc.
  unfold carried in Hc. rewrite jobs_app in Hc. apply Forall_app in Hc as [_ Hc].
  destruct (Hlog L grids so_logged0 Hc) as (L' & grids' & [HL Hg Hnew Hjobs] & Hlogged & Hacts).
  assert (traffic_ok c L' sv') as Htraffic by (by eapply serve_traffic, traffic_ok_mono).
  assert (∀ r, acked L grids sys r → acked L' grids' sys r) as Hacked.
  { intros r. apply reached_grows; [apply (lg_coherent _ _ _ so_logged0)|exact (lg_frames _ _ _ Hlogged)|done]. }
  destruct (system_refs_mono _ _ sys (sy_requested sys ++ acts) (sv_session sv') Hacked) as [Hrefs' Hheeds'];
    [by apply all_refer_app|done|].
  assert (Forall (job_logged L' grids') (jobs (sy_requested sys ++ acts))) as Hjobs'.
  { rewrite jobs_app. apply Forall_app. split; [|done].
    eapply Forall_impl; [exact so_jobs0|]. intros job. by apply job_logged_mono. }
  exists L', grids'. cbn. split; [|split; [done|by exists sv', acts]]. split; cbn; try done.
  - lia.
  - by eapply in_sync_mono.
  - eapply clog_mono; [done|done| |done]. apply so_clog0.
  - eapply Forall_impl; [exact so_sent0|]. intros b. by apply client_sealed_acked.
  - by apply Forall_app.
  - intros k g Hk. setoid_rewrite jobs_app. setoid_rewrite elem_of_app.
    destruct (Hnew k g Hk) as [Hk'|(job & ? & ?)]; [|by exists job; auto].
    destruct (so_screens0 k g Hk') as (job & ? & ?). exists job. auto.
Qed.

Lemma sent_sealed L sys b :
  traffic_ok c L (sy_server sys) → b ∈ (sv_sent (sy_server sys)).*1 → sealed_by c L b.
Proof.
  intros Ht ([b' t] & -> & Hb)%list_elem_of_fmap. pose proof (tr_sent _ _ _ Ht) as Hs.
  rewrite Forall_forall in Hs. by apply (Hs (b', t)).
Qed.

(** What a client's event does to its history. *)
Lemma client_handle_reached L grids sys e (s := sy_client sys) (s' := (client_handle e s).1) :
  system_ok L grids sys → client_may e sys →
  recorded (ms_ack_seq_num s') (ms_state_history s') ∧ (∀ r, acked L grids sys r → reached L grids s' r) ∧
  match e with CDatagram b _ => acknowledges (reached L grids s') (ms_ack_seq_num s) b s | _ => True end.
Proof.
  intros Hok He. pose proof (system_referring L grids sys Hok) as Href. destruct Hok.
  destruct (decide (datagram_of e = None)) as [Hno|Hd].
  { assert (remembers (ms_ack_seq_num s) (ms_state_history s) s') as Hsame.
    { apply client_handle_remembers; [by destruct e|done]. }
    split; [by destruct Hsame as [-> ->]|]. split; [intros r; by apply reached_same|by destruct e]. }
  destruct e as [b now|buf now|cols rows now|order now|dest]; [|done..]. clear Hd.
  destruct (feed_packet_run Hseals c L grids b now s) as (s1 & acts & o & Eo & E & _ & Hdig & _ & _ & _ & _ & _ & Hrec & _);
    [apply so_logged0|apply so_client0|by eapply sent_sealed|].
  assert (s' = s1) as -> by (unfold s'; cbn [client_handle]; unfold runs in E; by rewrite E).
  destruct (digested_reached L grids o s s1 acts) as (? & ? & Hnew & _); try done; [apply so_logged0|exact (lg_frames _ _ _ so_logged0)|].
  split; [done|]. split; [done|]. unfold acknowledges. rewrite Eo. by destruct o as [[[pkt p] st]|].
Qed.

Lemma client_step_ok L grids sys e :
  system_ok L grids sys → client_may e sys → len (sy_numbered sys) + 1 < 2 ^ 63 →
  system_ok L grids (client_step e sys) ∧ len (sy_numbered (client_step e sys)) ≤ len (sy_numbered sys) + 1.
Proof.
  intros Hok He Hlen. pose proof Hok as []. pose proof (lg_coherent _ _ _ so_logged0) as Hcoh.
  assert (client_input c L e) as Hin.
  { destruct e as [b now|buf now|cols rows now|order now|dest]; try done. by apply (sent_sealed L sys). }
  assert (from_option (sealed_by c L) True (datagram_of e)) as Hd by by destruct e.
  destruct (client_handle_safe Hseals c L grids Hcoh e Hd (sy_client sys) so_client0) as [Hs' Hp].
  destruct (client_handle_reached L grids sys e Hok He) as (Hrec & Hacked & Hnew).
  destruct (client_handle_logs c (reached L grids (client_handle e (sy_client sys)).1) (ms_ack_seq_num (sy_client sys)) L)
    with (e := e) (K := log_of (sy_numbered sys)) (s := sy_client sys)
    as (K' & HK & Hclog & Hn & Hsent); [|done|done| |by rewrite so_seq0|].
  { intros k p. eapply logged_u64; [done|]. pose proof (he_seq _ _ so_healthy0). unfold load in *. lia. }
  { by eapply clog_mono. }
  unfold client_step. destruct (client_handle e (sy_client sys)) as [s' r] eqn:E. cbn [fst snd] in *.
  assert (log_of (if decide (ms_seq_num s' = ms_seq_num (sy_client sys)) then sy_numbered sys
      else sy_numbered sys ++ [payload_of e (sy_client sys)]) = K' ∧
    ms_seq_num s' = len (if decide (ms_seq_num s' = ms_seq_num (sy_client sys)) then sy_numbered sys
      else sy_numbered sys ++ [payload_of e (sy_client sys)]) ∧ ms_seq_num s' ≤ len (sy_numbered sys) + 1)
    as (EK & En & Hle).
  { destruct Hn as [[-> En]|(p & <- & -> & En)].
    - rewrite decide_True by done. split; [done|]. lia.
    - rewrite decide_False by lia. rewrite log_of_snoc, <-so_seq0. split; [done|]. unfold len. rewrite length_app.
      unfold len in *. cbn. lia. }
  destruct (system_refs_mono _ _ sys (sy_requested sys) (session sys) Hacked so_refs0 so_heeds0) as [Hrefs' Hheeds'].
  cbn. split; [|lia]. split; cbn; try done; rewrite ?EK; try done.
  - eapply clog_mono; [by intros|reflexivity| |exact Hclog]. apply (cg_ack _ _ _ _ _ _ Hclog).
  - apply Forall_app. split; [|destruct r as [acts| |]; [by apply Hsent|constructor..]].
    eapply Forall_impl; [by eapply all_sealed_mono|]. intros b. by apply client_sealed_acked.
  - eapply Forall_impl; [exact so_received0|]. intros k [p Hk]. exists p. by eapply lookup_weaken.
  - rewrite so_failed0. by destruct r.
Qed.

Lemma carried_prefix (l l' : list (SessionAction C)) : l `prefix_of` l' → carried l' → carried l.
Proof. intros [k ->] Hc. unfold carried in *. rewrite jobs_app in Hc. by apply Forall_app in Hc as [? _]. Qed.

(** The room left for numbers. *)
Definition room (n : Z) sys : Prop :=
  load (session sys) + 2 * n < 2 ^ 64 ∧ len (sy_numbered sys) + n < 2 ^ 63.

Lemma system_step_ok L grids sys ev n :
  system_ok L grids sys → room (1 + n) sys → 0 ≤ n → carried (sy_requested (system_step sys ev)) →
  ∃ L' grids', system_ok L' grids' (system_step sys ev) ∧ room n (system_step sys ev).
Proof.
  intros Hok [Hl Hn] H0n Hc. destruct ev as [e|e]; cbn [system_step] in *; (case_decide as He;
    [|exists L, grids; split; [done|]; split; lia]).
  - destruct (server_step_ok L grids sys e Hok He ltac:(lia) Hc) as (L' & grids' & Hok' & Hl' & _).
    exists L', grids'. split; [done|]. split; [lia|]. unfold server_step.
    destruct (serve e (sy_server sys)) as [sv [acts| |]]; cbn; lia.
  - destruct (client_step_ok L grids sys e Hok He ltac:(lia)) as [Hok' Hn']. exists L, grids. split; [done|].
    split; [|lia]. unfold client_step. destruct (client_handle e (sy_client sys)). cbn. lia.
Qed.

Lemma system_run_room evs L grids sys n :
  system_ok L grids sys → room (len evs + n) sys → 0 ≤ n → carried (sy_requested (system_run evs sys)) →
  ∃ L' grids', system_ok L' grids' (system_run evs sys) ∧ room n (system_run evs sys).
Proof.
  revert L grids sys. induction evs as [|ev evs IH]; intros L grids sys Hok Hr Hn Hc; [by exists L, grids|].
  replace (len (ev :: evs) + n) with (1 + (len evs + n)) in Hr by (unfold len; cbn; lia). pose proof (len_nonneg evs).
  destruct (system_step_ok L grids sys ev (len evs + n) Hok Hr ltac:(lia)) as (L1 & grids1 & Hok1 & Hr1).
  { eapply carried_prefix; [|exact Hc]. apply (system_run_prefix evs). }
  by apply (IH L1 grids1).
Qed.

Lemma system_run_ok evs L grids sys :
  system_ok L grids sys → room (len evs) sys → carried (sy_requested (system_run evs sys)) →
  ∃ L' grids', system_ok L' grids' (system_run evs sys).
Proof.
  intros Hok Hr Hc. destruct (system_run_room evs L grids sys 0 Hok) as (L' & grids' & ? & _);
    [by rewrite Z.add_0_r|done|done|by exists L', grids'].
Qed.

Lemma system_new_ok start addr cols rows (p : P) now s codec server_seq cols' rows' overlay t0 :
  u64 (session_of c) → u64 start → u16 cols → u16 rows → u16 cols' → u16 rows' → 0 < rows' → holds c ∅ codec →
  AuthoritativeSession_new (session_of c) c start addr cols rows p now = Ok s →
  system_ok ∅ ∅ (System_new s (MirrorSession_new (session_of c) codec server_seq cols' rows' overlay t0)) ∧
  load s = 0.
Proof.
  intros Hsid Hst Hc Hr Hc' Hr' Hpos Hcod E.
  destruct (new_healthy c (session_of c) start addr cols rows p now s Hsid Hst Hc Hr E) as (Hh & Hl & H0l).
  split; [|done]. split; cbn; try done.
  - lia.
  - by apply new_in_sync.
  - apply (clog_new c _ 0 ∅ codec server_seq cols' rows' overlay t0); [done|done|by left|done].
  - constructor.
  - eapply new_heeds; [by left|exact E].
  - apply recorded_nil.
Qed.

(** ** The stream *)

(** The packets of a system are the client's, whatever becomes of its numbering later. *)
Lemma event_genuine L grids sys e stream :
  system_ok L grids sys → server_may e sys → session_of c ≠ 0 → as_session_id (session sys) = session_of c →
  (∀ k p, log_of (sy_numbered sys) !! k = Some p → stream k = p) →
  from_option (genuine_event c (as_session_id (session sys)) stream) True (event_of (sy_server sys) e).
Proof.
  intros [] He Hne Hsid Hst. rewrite Hsid.
  destruct e as [data now| |now|b src now| |i| |]; cbn [event_of]; try done;
    [by destruct (sv_pty_open _)|by destruct (sv_diff_in_flight _)|].
  cbn. destruct (server_may_recv sys b src now (he_codec _ _ so_healthy0) He) as [Hin|Hno].
  - rewrite Forall_forall in so_sent0. destruct (so_sent0 b Hin) as (wire & p & st & E & Hs & Hu & _ & _ & Hp & _).
    rewrite E. split; [done|]. split; [done|]. split; [done|]. intros Ht. symmetry. by apply Hst, Hp.
  - pose proof (calm_open Hcalm c b). by destruct (open_client c b).
Qed.

(** The shell's output that a run gives the server's session. *)
Fixpoint printed (evs : list system_event) sys : list (list Z) :=
  match evs with
  | [] => []
  | ev :: evs =>
    match ev with
    | AtServer e => if decide (server_may e sys) then option_list (event_of (sy_server sys) e ≫= output_of) else []
    | AtClient _ => []
    end ++ printed evs (system_step sys ev)
  end.

(** An event makes the progress of the session's event. *)
Lemma system_step_progress h stream ev L grids sys fed :
  (∀ k, wf (stream k) ∧ is_handshake (stream k) = false) → session_of c ≠ 0 →
  system_ok L grids sys → as_session_id (session sys) = session_of c →
  (∀ k p, log_of (sy_numbered (system_step sys ev)) !! k = Some p → stream k = p) →
  in_order h stream fed (session sys) → (∀ k, k ∈ fed ↔ k ∈ sy_received sys) →
  ∃ fed' effs, progress h stream (session sys) (session (system_step sys ev)) fed' effs ∧
    (∀ k, k ∈ fed' ↔ k ∈ sy_received (system_step sys ev)) ∧
    ∀ evs, printed (ev :: evs) sys = omap shell_output effs ++ printed evs (system_step sys ev).
Proof.
  intros Hstream Hne Hok Hsid Hst Hio Hfed.
  pose proof (he_mirrors _ _ (so_healthy _ _ _ Hok)) as Hm. pose proof (he_codec _ _ (so_healthy _ _ _ Hok)) as Hcod.
  assert (progress h stream (session sys) (session sys) fed []) as Hidle by by apply progress_idle.
  destruct ev as [e|e]; cbn [system_step printed] in *; (case_decide as He; [|by exists fed, []]).
  - destruct (serve_progress c Hcalm Hanswers h stream Hstream e (sy_server sys) fed Hcod Hm Hio) as (sv' & acts & effs & E & Hp & Ho).
    { eapply event_genuine; try done. intros k p Hk. apply Hst.
      eapply lookup_weaken; [exact Hk|]. apply log_of_prefix. unfold server_step.
      by destruct (serve e (sy_server sys)) as [sv [acts| |]]. }
    unfold server_step. rewrite E. eexists _, effs. split; [exact Hp|]. split; [|by rewrite Ho].
    intros k. cbn. rewrite elem_of_app, <-Hfed, Hcod.
    unfold received. destruct (event_of (sy_server sys) e ≫= reliable c); cbn; set_solver.
  - exists fed, []. unfold client_step. by destruct (client_handle e (sy_client sys)).
Qed.

Lemma system_run_progress h stream evs L grids sys fed :
  (∀ k, wf (stream k) ∧ is_handshake (stream k) = false) → session_of c ≠ 0 →
  system_ok L grids sys → room (len evs) sys → carried (sy_requested (system_run evs sys)) →
  as_session_id (session sys) = session_of c →
  (∀ k p, log_of (sy_numbered (system_run evs sys)) !! k = Some p → stream k = p) →
  in_order h stream fed (session sys) → (∀ k, k ∈ fed ↔ k ∈ sy_received sys) →
  ∃ fed' effs, progress h stream (session sys) (session (system_run evs sys)) fed' effs ∧
    (∀ k, k ∈ fed' ↔ k ∈ sy_received (system_run evs sys)) ∧ omap shell_output effs = printed evs sys.
Proof.
  intros Hstream Hne. revert L grids sys fed. induction evs as [|ev evs IH]; intros L grids sys fed Hok Hr Hc Hsid Hst Hio Hfed.
  { exists fed, []. split; [|done]. pose proof (he_mirrors _ _ (so_healthy _ _ _ Hok)). by apply progress_idle. }
  replace (len (ev :: evs)) with (1 + len evs) in Hr by (unfold len; cbn; lia).
  assert (carried (sy_requested (system_step sys ev))) as Hc1.
  { eapply carried_prefix; [|exact Hc]. apply (system_run_prefix evs). }
  destruct (system_step_ok L grids sys ev (len evs) Hok Hr (len_nonneg evs) Hc1) as (L1 & grids1 & Hok1 & Hr1).
  destruct (system_step_progress h stream ev L grids sys fed) as (fed1 & effs1 & Hp1 & Hfed1 & Ho1); [done..| |done|done|].
  { intros k p Hk. apply Hst. eapply lookup_weaken; [exact Hk|]. apply log_of_prefix, (system_run_prefix evs). }
  destruct (IH L1 grids1 (system_step sys ev) fed1) as (fed' & effs & Hp & Hfed' & Ho); [done..| | | |done|].
  - by rewrite (pg_sid _ _ _ _ _ _ Hp1).
  - done.
  - apply (pg_order _ _ _ _ _ _ Hp1).
  - exists fed', (effs1 ++ effs). split; [by eapply progress_trans|]. split; [done|].
    by rewrite omap_app, Ho, Ho1.
Qed.

(** ** The keyboard *)

(** The bytes an event reads of the keyboard. *)
Definition typed_at (ev : system_event) : list Z :=
  match ev with AtClient (CStdin buf _) => if decide (Forall u8 buf) then buf else [] | _ => [] end.

Lemma system_step_forwards sys ev typed :
  0 ≤ ms_seq_num (sy_client sys) < 2 ^ 63 → forwarded typed (sy_numbered sys) (sy_client sys) →
  forwarded (typed ++ typed_at ev) (sy_numbered (system_step sys ev)) (sy_client (system_step sys ev)).
Proof.
  intros Hseq Hf. destruct ev as [e|e]; cbn [system_step].
  - rewrite app_nil_r. case_decide; [|done]. unfold server_step. by destruct (serve e (sy_server sys)) as [sv [acts| |]].
  - case_decide as He.
    + pose proof (client_handle_forwards e typed (sy_numbered sys) (sy_client sys) Hseq Hf) as Hstep.
      assert (typed_at (AtClient e) = typed_by e) as -> by (destruct e; try done; cbn; by rewrite decide_True).
      unfold client_step. destruct (client_handle e (sy_client sys)) as [s' r]. exact Hstep.
    + assert (typed_at (AtClient e) = []) as ->; [|by rewrite app_nil_r].
      destruct e as [b now|buf now|cols rows now|order now|dest]; try done. cbn. rewrite decide_False; [done|exact He].
Qed.

Lemma system_run_forwards evs L grids sys typed :
  system_ok L grids sys → room (len evs) sys → carried (sy_requested (system_run evs sys)) →
  forwarded typed (sy_numbered sys) (sy_client sys) →
  forwarded (typed ++ concat (typed_at <$> evs)) (sy_numbered (system_run evs sys)) (sy_client (system_run evs sys)).
Proof.
  revert L grids sys typed. induction evs as [|ev evs IH]; intros L grids sys typed Hok Hr Hc Hf; [by rewrite app_nil_r|].
  replace (len (ev :: evs)) with (1 + len evs) in Hr by (unfold len; cbn; lia). pose proof (len_nonneg evs).
  destruct (system_step_ok L grids sys ev (len evs) Hok Hr ltac:(lia)) as (L1 & grids1 & Hok1 & Hr1).
  { eapply carried_prefix; [|exact Hc]. apply (system_run_prefix evs). }
  cbn [fmap list_fmap concat]. rewrite (assoc_L (++)). apply (IH L1 grids1); [done..|].
  apply system_step_forwards; [|done]. rewrite (so_seq _ _ _ Hok). pose proof (len_nonneg (sy_numbered sys)).
  destruct Hr. lia.
Qed.
End invariant.

(** ** The shell's output *)

Section output.
Context {P C T R : Type} `{PtyBackend P, PacketCodec C, Vt T R}.
Abbreviation System := (System P C T R) (only parsing).
Abbreviation Server := (Server P C T R) (only parsing).
Implicit Types (sys : System) (sv : Server).

(** The output channel stays closed. *)
Definition closed sv : Prop := sv_pty_open sv = false.
Lemma closed_session {A} (m : M (AuthoritativeSession P C T R) A) : always closed (in_session m).
Proof. intros sv Hs. unfold in_session. by destruct (m (sv_session sv)). Qed.
#[local] Hint Extern 1 (always closed (modify _)) => apply always_modify; by intros ? ? : safe.
#[local] Hint Resolve closed_session : safe.
#[local] Hint Extern 2 (always closed (_ ≫= _)) => apply always_bind; [|intros ?] : safe.
Lemma closed_action a : always closed (execute_action a).
Proof.
  destruct a as [b t|job t|k mask t|]; cbn [execute_action]; unfold spawn; auto 10 with safe.
  apply always_get_bind. intros sv Hs. by destruct (find_packets k (sv_fragment_cache sv)).
Qed.
#[local] Hint Resolve closed_action : safe.
Lemma closed_task i : always closed (run_task i).
Proof.
  apply always_get_bind. intros sv Hs. destruct (sv_tasks sv !! i) as [t|]; [|done]. revert sv Hs.
  apply (always_bind closed); [auto with safe|]. intros _. apply (always_bind closed).
  - destruct t as [b t|job t|[|b ps] t|[|b ps] t]; cbn [task_step]; unfold send_to, cache_frame; auto 10 with safe.
    destruct (UpdateJob_run job); [|auto 10 with safe..]. apply (always_bind closed); [|auto with safe].
    case_decide; auto with safe.
  - intros rest. apply always_for_each_m. intros x. unfold spawn. auto with safe.
Qed.
#[local] Hint Resolve closed_task : safe.

Lemma serve_closed e : always closed (serve e).
Proof.
  destruct e; cbn [serve]; unfold execute_actions; auto 20 with safe.
  unfold shutdown_signal. apply always_bind; [auto with safe|]. intros sv.
  destruct (sv_phase sv) as [|[|n] b t|]; unfold send_to; auto 10 with safe.
  destruct (sv_shutdown sv); [|auto with safe]. apply always_bind; [auto with safe|]. intros _.
  apply always_bind; [auto with safe|]. intros [[|[| | |] [|]]|]; auto with safe.
Qed.

(** What the events hold of the shell's output. *)
Definition printed_at (ev : system_event) : option (list Z) :=
  match ev with AtServer (NPty data _) => Some data | _ => None end.

(** The server takes no more of it. *)
Definition deaf sys : Prop := closed (sy_server sys) ∨ sv_phase (sy_server sys) = Stopped.
Lemma deaf_step sys ev : deaf sys → deaf (system_step sys ev).
Proof.
  intros Hd. destruct ev as [e|e]; cbn [system_step]; (case_decide as He; [|done]).
  - destruct Hd as [Hcl|Es]; [left|by unfold server_may in He; rewrite Es in He].
    pose proof (serve_closed e (sy_server sys) Hcl) as Hcl'. unfold server_step.
    by destruct (serve e (sy_server sys)) as [sv [acts| |]].
  - unfold client_step. by destruct (client_handle e (sy_client sys)).
Qed.
Lemma deaf_run evs sys : deaf sys → deaf (system_run evs sys).
Proof. revert sys. induction evs as [|ev evs IH]; intros sys Hd; [done|]. by apply IH, deaf_step. Qed.
Lemma deaf_printed evs sys : deaf sys → printed evs sys = [].
Proof.
  revert sys. induction evs as [|ev evs IH]; intros sys Hd; [done|]. cbn [printed].
  rewrite (IH _ (deaf_step sys ev Hd)), app_nil_r. destruct ev as [e|e]; [|done]. case_decide as He; [|done].
  destruct Hd as [Hcl|Es]; [|by unfold server_may in He; rewrite Es in He].
  destruct e; try done; cbn; [by rewrite Hcl|by destruct (sv_diff_in_flight _)].
Qed.

(** It takes a first part of it, and all of it as long as it listens. *)
Lemma printed_events evs sys :
  printed evs sys `prefix_of` omap printed_at evs ∧
  (¬ deaf (system_run evs sys) → printed evs sys = omap printed_at evs).
Proof.
  revert sys. induction evs as [|ev evs IH]; intros sys; [done|]. destruct (IH (system_step sys ev)) as [IH1 IH2].
  assert (sv_pty_open (sy_server sys) = false ∨ sv_pty_open (sy_server sys) = true) as Hopen by (destruct (sv_pty_open _); auto).
  assert (deaf sys ∨ printed (ev :: evs) sys = option_list (printed_at ev) ++ printed evs (system_step sys ev)) as [Hd|Hp].
  { destruct Hopen as [Hcl|Ho]; [by left; left|]. destruct ev as [e|e]; [|by right]. cbn [printed].
    destruct (decide (server_may e sys)) as [He|He].
    - right. destruct e; try done; cbn; [by rewrite Ho|by destruct (sv_diff_in_flight _)].
    - destruct e; try (right; done); left; right; unfold server_may in He; by destruct (sv_phase (sy_server sys)). }
  - rewrite (deaf_printed _ _ Hd). split; [apply prefix_nil|]. intros []. by apply deaf_run.
  - rewrite Hp. assert (omap printed_at (ev :: evs) = option_list (printed_at ev) ++ omap printed_at evs) as ->
      by (csimpl; by destruct (printed_at ev)).
    change (system_run (ev :: evs) sys) with (system_run evs (system_step sys ev)).
    split; [by apply prefix_app|]. intros Hn. by rewrite IH2.
Qed.
End output.
