(* ===== verification/SystemProps.v ===== *)
(** * What the whole system guarantees

    From a fresh pair of sessions and over any run: what the client shows is what the server showed,
    and what the server's terminal is given is what the client's user typed. *)

From Stdlib Require Import Floats.SpecFloat.
From S2P Require Import Prelude Utf8 Grid Protocol Crypto Codec CodecFacts WireFormat CodecProps.
From S2P Require Import TermState Pty ServerSession ServerFacts ServerProps ServerLog.
From S2P Require Import ServerNetwork ServerNetworkProps ServerStream.
From S2P Require Import Escape Float32 Frame Echo Terminal MirrorSession MirrorFacts MirrorProps ClientLog.
From S2P Require Import ClientRefs ServerRefs Keyboard System.

Section props.
Context {P C T R : Type} `{PtyBackend P, PacketCodecLaws C, VtLaws T R}.

(** Two fresh sessions that have completed their handshake, and their environment. *)
Record fresh (c codec : C) (h : Z) (s : AuthoritativeSession P C T R) (m : MirrorSession C) : Prop := {
  fr_calm : calm (P:=P) (C:=C);
  fr_answers : answers c;
  fr_short : short c;
  fr_seals : seals (C:=C);
  fr_sid : u64 (session_of c) ∧ session_of c ≠ 0;
  fr_start : 0 ≤ h < 2 ^ 63;
  fr_holds : holds c ∅ codec;
  fr_server : ∃ addr cols rows (p : P) now, u16 cols ∧ u16 rows ∧
    AuthoritativeSession_new (session_of c) c h addr cols rows p now = Ok s;
  fr_client : ∃ server_seq cols rows overlay now, u16 cols ∧ u16 rows ∧ 0 < rows ∧
    m = MirrorSession_new (session_of c) codec server_seq cols rows overlay now;
}.

(** A run keeps the invariant, and leaves room for as long a run again. *)
Lemma fresh_run c codec h s m evs :
  fresh c codec h s m → len evs < 2 ^ 62 → carried (sy_requested (system_run evs (System_new s m))) →
  system_ok c ∅ ∅ (System_new s m) ∧ room (len evs) (System_new s m) ∧
  ∃ L grids, system_ok c L grids (system_run evs (System_new s m)) ∧ room (2 ^ 61) (system_run evs (System_new s m)).
Proof.
  intros [] Hlen Hc. destruct fr_server0 as (addr & cols & rows & p & now & Hcols & Hrows & E).
  destruct fr_client0 as (server_seq & cols' & rows' & overlay & now' & Hcols' & Hrows' & Hpos & ->).
  destruct (system_new_ok c h addr cols rows p now s codec server_seq cols' rows' overlay now')
    as [Hok Hl]; [apply fr_sid0|unfold fits; lia|done..|].
  set (sys := System_new s _) in *.
  assert (∀ n, n < 2 ^ 62 + 2 ^ 61 → room n sys) as Hr.
  { intros n Hn. split; [change (load s + 2 * n < 2 ^ 64); lia|change (0 + n < 2 ^ 63); lia]. }
  split; [done|]. split; [apply Hr; lia|].
  eapply (system_run_room c fr_calm0 fr_answers0 fr_short0 fr_seals0 evs ∅ ∅); [done|apply Hr; lia|lia|done].
Qed.
Lemma fresh_ok c codec h s m evs :
  fresh c codec h s m → len evs < 2 ^ 62 → carried (sy_requested (system_run evs (System_new s m))) →
  system_ok c ∅ ∅ (System_new s m) ∧ room (len evs) (System_new s m) ∧
  ∃ L grids, system_ok c L grids (system_run evs (System_new s m)).
Proof.
  intros Hf Hlen Hc. destruct (fresh_run c codec h s m evs Hf Hlen Hc) as (? & ? & L & grids & ? & _).
  split; [done|]. split; [done|]. by exists L, grids.
Qed.

(** C1. The client shows the server's screens. Take the server's network loop and the client's session
    after the handshake, joined by a network that loses, reorders, repeats and adds datagrams that
    do not open. After any run in which the frames queued are ones the protocol can carry (screens of at most
    65536 well-formed cells, fewer than 2^16 fragments), no method of either session has panicked, and
    a further datagram of the server is digested without error: every screen in the client's history
    is one the server's session has queued, under its number; and when the datagram leads to a
    repaint, it completes a frame newer than all before, and the terminal, once predictions are taken
    off, shows exactly the screen the server queued under that number. *)
Theorem client_shows_server c codec h s m evs b now :
  fresh c codec h s m → len evs < 2 ^ 62 →
  let sys := system_run evs (System_new s m) in
  carried (sy_requested sys) → b ∈ (sv_sent (sy_server sys)).*1 →
  sy_failed sys = false ∧
  ∃ m' acts, feed_packet b now (sy_client sys) = (m', Ok acts) ∧
    (∀ k g, (k, g) ∈ ms_state_history m' →
       ∃ job, job ∈ jobs (sy_requested sys) ∧ uj_seq job = k ∧ uj_current_state job = g) ∧
    (ClientAction.Paint ∈ acts → ms_ack_seq_num (sy_client sys) < ms_ack_seq_num m' ∧
       ∃ job t, job ∈ jobs (sy_requested sys) ∧ uj_seq job = ms_ack_seq_num m' ∧
         abort_prediction (ms_mirror m') = (t, Ok tt) ∧ shows (uj_current_state job) (ti_frame t)).
Proof.
  intros Hf Hlen sys Hc Hb. destruct (fresh_ok c codec h s m evs Hf Hlen Hc) as (_ & _ & L & grids & []).
  fold sys in so_healthy, so_failed, so_screens, so_client, so_traffic, so_logged. split; [done|].
  assert (sealed_by c L b) as Hsealed.
  { apply list_elem_of_fmap in Hb as ([b' t] & -> & Hin). pose proof (tr_sent _ _ _ so_traffic) as Hs.
    rewrite Forall_forall in Hs. by apply (Hs (b', t)). }
  destruct so_client as [Hinv _].
  destruct (feed_packet_run (fr_seals _ _ _ _ _ Hf) c L grids b now (sy_client sys)
    (lg_coherent _ _ _ so_logged) Hinv Hsealed) as (m' & acts & o & _ & E & Hinv' & _ & _ & _ & _ & Hnew & Hpaint & _).
  exists m', acts. split; [exact E|]. split.
  - intros k g Hin. apply so_screens. pose proof (ci_history _ _ _ _ Hinv') as Hh. rewrite Forall_forall in Hh.
    exact (Hh (k, g) Hin).
  - intros Hin. split; [by apply Hnew|]. destruct (Hpaint Hin) as (g & base & Hg & Hgok & Hs & Hv & _).
    destruct (so_screens _ _ Hg) as (job & Hj & Hk & <-).
    destruct (abort_run base (ms_mirror m') (shows_cursor _ base Hgok Hs) Hv) as (t & Ea & Hsame & _).
    exists job, t. split; [done|]. split; [done|]. split; [done|]. by rewrite Hsame.
Qed.

(** C5. No frame is refused. The client drops a frame whose reference it does not remember, and it forgets
    all but the last 200 screens; in the system this never happens. After any run as above, every
    frame the server has queued is complete or refers to a number the client has acknowledged, at most six
    before its own; the screen queued under the client's newest number is in its history; and
    when a further datagram of the server raises that number to that of a queued frame, the frame is
    applied: the client repaints, shows the screen the server queued, and remembers it. *)
Theorem no_frame_refused c codec h s m evs b now :
  fresh c codec h s m → len evs < 2 ^ 62 →
  let sys := system_run evs (System_new s m) in
  let client := sy_client sys in
  carried (sy_requested sys) → b ∈ (sv_sent (sy_server sys)).*1 →
  (∀ job, job ∈ jobs (sy_requested sys) →
     (uj_ref_seq job = 0 ∨ uj_ref_seq job ≤ ms_ack_seq_num client ∧ uj_seq job ≤ uj_ref_seq job + 6) ∧
     (uj_seq job = ms_ack_seq_num client → (uj_seq job, uj_current_state job) ∈ ms_state_history client)) ∧
  ∃ m' acts, feed_packet b now client = (m', Ok acts) ∧
    ∀ job, job ∈ jobs (sy_requested sys) →
      ms_ack_seq_num client < ms_ack_seq_num m' → uj_seq job = ms_ack_seq_num m' →
      ClientAction.Paint ∈ acts ∧ (uj_seq job, uj_current_state job) ∈ ms_state_history m' ∧
      ∃ t, abort_prediction (ms_mirror m') = (t, Ok tt) ∧ shows (uj_current_state job) (ti_frame t).
Proof.
  intros Hf Hlen sys client Hc Hb. destruct (fresh_ok c codec h s m evs Hf Hlen Hc) as (_ & _ & L & grids & Hok).
  fold sys in Hok. pose proof (system_referring c L grids sys Hok) as Href. fold client in Href. destruct Hok.
  fold client in so_client, so_clog, so_refs, so_recorded. rewrite Forall_forall in so_jobs.
  unfold all_refer in so_refs. rewrite Forall_forall in so_refs. destruct so_client as [Hinv _].
  assert (∀ m' job, Forall (λ e, grids !! e.1 = Some e.2) (ms_state_history m') → job ∈ jobs (sy_requested sys) →
    uj_seq job ∈ (ms_state_history (C:=C) m').*1 → (uj_seq job, uj_current_state job) ∈ ms_state_history m') as Hscreen.
  { intros m' job Hh Hj ([k g] & Ek & Hin)%list_elem_of_fmap. cbn in Ek. subst k. rewrite Forall_forall in Hh.
    pose proof (Hh _ Hin) as Hg. destruct (so_jobs job Hj) as [Hg' _]. cbn in Hg. by assert (uj_current_state job = g) as -> by congruence. }
  split.
  { intros job Hj. split.
    - destruct (so_refs job Hj) as [?|[[?|(_ & ? & _)] ?]]; [by left..|by right].
    - intros Ek. apply Hscreen; [apply Hinv|done|]. destruct (so_jobs job Hj) as [Hg _].
      destruct (lg_screens _ _ _ so_logged _ _ Hg) as [_ Hpos].
      destruct (cg_acked _ _ _ _ _ _ so_clog) as [?|(_ & _ & Hh)]; [lia|]. rewrite Ek in Hg |- *.
      destruct Hh as [?|?]; [by eexists|done|lia]. }
  destruct (feed_packet_run (fr_seals _ _ _ _ _ Hf) c L grids b now client (lg_coherent _ _ _ so_logged) Hinv
    (sent_sealed c L sys b so_traffic Hb)) as (m' & acts & o & _ & E & Hinv' & Hdig & _ & _ & _ & _ & Hpaint & Hrec & _).
  destruct (digested_reached L grids o client m' acts (lg_coherent _ _ _ so_logged) (lg_frames _ _ _ so_logged)
    Href so_recorded Hdig Hrec) as (_ & _ & _ & Happlied).
  exists m', acts. split; [exact E|]. intros job Hj Hnew Ek. destruct (so_jobs job Hj) as [Hg _]. rewrite Ek in Hg.
  destruct Happlied as [Hp Hin]; [done|by eexists|]. split; [done|]. split.
  { apply Hscreen; [apply Hinv'|done|]. by rewrite Ek. }
  destruct (Hpaint Hp) as (g & base & Hg' & Hgok & Hs & Hv & _). assert (g = uj_current_state job) as -> by congruence.
  destruct (abort_run base (ms_mirror m') (shows_cursor _ base Hgok Hs) Hv) as (t & Ea & Hsame & _).
  exists t. split; [done|]. by rewrite Hsame.
Qed.

(** *** The client's payloads *)

Definition stream_of (ps : list ClientPayload) (k : Z) : ClientPayload :=
  default ClientPayload.KeepAlive (log_of ps !! k).

Lemma stream_of_take ps h n :
  0 ≤ h → 0 ≤ n → (n = 0 ∨ h + n ≤ len ps) →
  stream_of ps <$> seqZ (h + 1) n = take (Z.to_nat n) (drop (Z.to_nat h) ps).
Proof.
  intros Hh Hn Hle. apply list_eq. intros i. rewrite list_lookup_fmap.
  destruct (decide (Z.of_nat i < n)) as [Hi|Hi].
  - rewrite lookup_seqZ_lt by lia. cbn. rewrite lookup_take_lt by lia. rewrite lookup_drop.
    destruct Hle as [->|Hle]; [lia|]. destruct (lookup_lt_is_Some_2 ps (Z.to_nat h + i)) as [p Hp]; [unfold len in *; lia|].
    rewrite Hp. unfold stream_of. assert (log_of ps !! (h + 1 + Z.of_nat i) = Some p) as ->; [|done].
    apply log_of_lookup. split; [lia|]. rewrite <-Hp. f_equal. lia.
  - rewrite lookup_seqZ_ge by lia. cbn. by rewrite lookup_take_ge by lia.
Qed.

(** What the pseudo-terminal is given to read. *)
Definition written (effs : list effect) : list Z :=
  concat (omap (λ f, match f with EKeys keys => Some keys | _ => None end) effs).

Lemma written_client effs : written (filter (λ f, from_client f = true) effs) = written effs.
Proof.
  unfold written. induction effs as [|f effs IH]; [done|]. rewrite filter_cons.
  destruct f; (case_decide; [|done]); csimpl; by rewrite IH.
Qed.
Lemma written_effects ps : written (omap client_effect ps) = keystrokes ps.
Proof. unfold written, keystrokes. induction ps as [|p ps IH]; [done|]. destruct p; csimpl; by rewrite ?IH. Qed.

(** The packets before, among and after those that arrived in order. *)
Lemma keystrokes_parts ps (h e : Z) : 0 ≤ h < e →
  keystrokes ps = keystrokes (take (Z.to_nat h) ps) ++
    keystrokes (take (Z.to_nat (e - 1 - h)) (drop (Z.to_nat h) ps)) ++ keystrokes (drop (Z.to_nat (e - 1)) ps).
Proof.
  intros He. rewrite <-!keystrokes_app. f_equal. rewrite <-(take_drop (Z.to_nat h) ps) at 1. f_equal.
  rewrite <-(take_drop (Z.to_nat (e - 1 - h)) (drop (Z.to_nat h) ps)) at 1. f_equal. rewrite drop_drop. f_equal. lia.
Qed.

(** The session expects the number after the handshake's, and the interpreter starts a line. *)
Lemma fresh_start c codec h s m :
  fresh c codec h s m →
  as_session_id s = session_of c ∧ as_codec s = c ∧ as_ack_seq_num s = h ∧ as_expected_client_seq s = h + 1 ∧
  as_out_of_order_packets s = ∅ ∧ ms_interpreter m = EscapeInterpreter_new.
Proof.
  intros []. destruct fr_client0 as (? & ? & ? & ? & ? & _ & _ & _ & ->).
  destruct fr_server0 as (addr & cols & rows & p & now & _ & _ & E).
  unfold AuthoritativeSession_new in E. destruct (ServerTerminalState_new cols rows) as [ts| |]; cbn in E; [|done..].
  destruct (TermState.on_pty_write _); cbn in E; [|done..]. injection E as <-. cbn.
  rewrite wrap_small by (unfold fits; lia). done.
Qed.

(** The stream starts there. *)
Lemma fresh_in_order c codec h s m stream : fresh c codec h s m → in_order h stream ∅ s.
Proof.
  intros Hf. destruct (fresh_start c codec h s m Hf) as (_ & _ & _ & Ee & Eb & _). destruct Hf.
  split; rewrite ?Ee, ?Eb; [done|lia|lia|apply not_elem_of_empty| |by intros k ?%not_elem_of_empty].
  intros k q. rewrite lookup_empty. split; [done|]. by intros (?%not_elem_of_empty & _).
Qed.
Lemma stream_of_log ps k p : log_of ps !! k = Some p → stream_of ps k = p.
Proof. intros Hk. unfold stream_of. by rewrite Hk. Qed.
Lemma stream_of_payload c L grids (sys : System P C T R) k :
  system_ok c L grids sys → wf (stream_of (sy_numbered sys) k) ∧ is_handshake (stream_of (sy_numbered sys) k) = false.
Proof.
  intros Hok. unfold stream_of. destruct (log_of (sy_numbered sys) !! k) as [q|] eqn:Eq; [|done].
  pose proof (cg_payloads _ _ _ _ _ _ (so_clog _ _ _ _ Hok) k q Eq) as (_ & ? & ?). done.
Qed.

(** What a run gives the pseudo-terminal and the emulator. *)
Lemma run_effects c codec h s m evs :
  fresh c codec h s m → len evs < 2 ^ 62 →
  let sys := system_run evs (System_new s m) in
  carried (sy_requested sys) →
  let e := as_expected_client_seq (sv_session (sy_server sys)) in
  ∃ effs, world (sv_session (sy_server sys)) = foldl apply_effect (world s) effs ∧
    filter (λ f, from_client f = true) effs =
      omap client_effect (take (Z.to_nat (e - 1 - h)) (drop (Z.to_nat h) (sy_numbered sys))) ∧
    0 ≤ h < e ∧ (∀ k, h < k < e → k ∈ sy_received sys) ∧ (e ∉ sy_received sys) ∧
    omap shell_output effs = printed evs (System_new s m).
Proof.
  intros Hf Hlen sys Hc. destruct (fresh_ok c codec h s m evs Hf Hlen Hc) as (Hok0 & Hroom & L & grids & Hok).
  destruct (fresh_start c codec h s m Hf) as (Es & _ & _ & Ee & _). fold sys in Hok.
  pose proof (fresh_in_order c codec h s m (stream_of (sy_numbered sys)) Hf) as Hio. destruct Hf.
  destruct (system_run_progress c fr_calm0 fr_answers0 fr_short0 fr_seals0 h (stream_of (sy_numbered sys)) evs
    ∅ ∅ (System_new s m) ∅) as (fed & effs & Hp & Hfed & Hout); [|apply fr_sid0|done..| |done|set_solver|].
  - intros k. by eapply stream_of_payload.
  - intros k q. apply stream_of_log.
  - fold sys in Hp, Hfed. destruct Hp. destruct pg_order as [_ Hlow Hdone Hnext _ _]. cbn in *.
    set (e := as_expected_client_seq (sv_session (sy_server sys))) in *. exists effs. split; [done|].
    split; [|split; [lia|]; split; [intros k Hk; by apply Hfed, Hdone|by rewrite <-Hfed]].
    rewrite pg_effects, Ee. unfold segment. rewrite <-list_fmap_compose. cbn.
    replace (e - (h + 1)) with (e - 1 - h) by lia. f_equal. apply stream_of_take; [lia|lia|].
    destruct (decide (e - 1 - h = 0)); [by left|right]. assert (e - 1 ∈ fed) as Hin by (apply Hdone; lia).
    apply Hfed in Hin. pose proof (so_received _ _ _ _ Hok) as Hr. rewrite Forall_forall in Hr.
    destruct (Hr _ Hin) as [q Hq]. apply log_of_lookup in Hq as [_ Hq]. apply lookup_lt_Some in Hq. unfold len. lia.
Qed.

(** The client's keystrokes are what all that was typed leaves to send. *)
Lemma run_forwards c codec h s m evs :
  fresh c codec h s m → len evs < 2 ^ 62 →
  let sys := system_run evs (System_new s m) in
  carried (sy_requested sys) → forwarded (concat (typed_at <$> evs)) (sy_numbered sys) (sy_client sys).
Proof.
  intros Hf Hlen sys Hc. destruct (fresh_ok c codec h s m evs Hf Hlen Hc) as (Hok0 & Hroom & _).
  destruct (fresh_start c codec h s m Hf) as (_ & _ & _ & _ & _ & Ei). destruct Hf.
  apply (system_run_forwards c fr_calm0 fr_answers0 fr_short0 fr_seals0 evs ∅ ∅ (System_new s m) [] Hok0 Hroom Hc).
  by intros _.
Qed.

(** C2. What is typed arrives, and what is printed is shown. The client numbers its reliable payloads
    from 1: what it reads from the keyboard, its new sizes and its keepalives; [h] is the number of the
    client's handshake, [e] the first number above it that has not reached the server. In the system,
    after any run as above, the pseudo-terminal and the emulator are in the state the abstract
    machine reaches by applying the payloads numbered [h + 1] up to [e - 1], once each and in the order
    they were numbered, among the shell's output: a first part of what was printed, in order, and all of it
    while the server listens. And however the input is split into reads, what the shell was given to read is
    what the escape interpreter leaves of all that was typed, less the keystrokes
    numbered [h] or below and those numbered [e] or above (unless the user disconnects). *)
Theorem typed_reaches_shell c codec h s m evs :
  fresh c codec h s m → len evs < 2 ^ 62 →
  let sys := system_run evs (System_new s m) in
  carried (sy_requested sys) →
  let e := as_expected_client_seq (sv_session (sy_server sys)) in
  let numbered := sy_numbered sys in
  let typed := concat (typed_at <$> evs) in
  ∃ effs, world (sv_session (sy_server sys)) = foldl apply_effect (world s) effs ∧
    filter (λ f, from_client f = true) effs =
      omap client_effect (take (Z.to_nat (e - 1 - h)) (drop (Z.to_nat h) numbered)) ∧
    h < e ∧ (∀ k, h < k < e → k ∈ sy_received sys) ∧ (e ∉ sy_received sys) ∧
    omap shell_output effs `prefix_of` omap printed_at evs ∧
    (¬ deaf sys → omap shell_output effs = omap printed_at evs) ∧
    (stays typed → text_of typed =
       keystrokes (take (Z.to_nat h) numbered) ++ written effs ++ keystrokes (drop (Z.to_nat (e - 1)) numbered)).
Proof.
  intros Hf Hlen sys Hc. destruct (run_effects c codec h s m evs Hf Hlen Hc) as (effs & Hw & Heffs & He & Hdone & Hnext & Hout).
  fold sys in Hw, Heffs, He, Hdone, Hnext. exists effs. split; [done|]. split; [exact Heffs|].
  split; [apply He|]. split; [exact Hdone|]. split; [exact Hnext|].
  rewrite Hout. destruct (printed_events evs (System_new s m)) as [? ?]. split; [done|]. split; [done|]. intros Hstay.
  destruct (run_forwards c codec h s m evs Hf Hlen Hc Hstay) as [_ <-]. fold sys.
  rewrite <-written_client, Heffs, written_effects. by apply keystrokes_parts.
Qed.

(** C15. The types of a run. After any run as above everything in flight and in memory is within its
    machine type: the session numbers of both sides are 64-bit, and the client's next packets still have
    their top bit, which marks the transient ones, free; every datagram the client has asked to send opens
    at the server, under the session's id, to a 64-bit number and a payload whose fields fit theirs
    and which is no handshake; every
    datagram the server has put on its socket carries such a payload; the packets waiting for their turn are
    such payloads; the server's screen, the client's and all those in its history have consistent
    sizes and 16-bit cursors, and the history is at most 200 long. *)
Theorem run_well_typed c codec h s m evs :
  fresh c codec h s m → len evs < 2 ^ 62 →
  let sys := system_run evs (System_new s m) in
  let server := sv_session (sy_server sys) in
  let client := sy_client sys in
  carried (sy_requested sys) →
  (u64 (as_seq_num server) ∧ u64 (as_ack_seq_num server) ∧
   0 ≤ ms_seq_num client < 2 ^ 63 ∧ u64 (ms_ack_seq_num client)) ∧
  Forall (λ b, ∃ wire p st, open_client c b = Ok (wire, p, st) ∧ ec_session_id wire = session_of c ∧
    u64 (ec_seq_num wire) ∧ wf p ∧ is_handshake p = false) (sy_client_sent sys) ∧
  Forall (λ b, ∃ seq ack p bss, u64 seq ∧ u64 ack ∧ wf p ∧ seal_server c seq ack p = Ok bss ∧ b ∈ bss)
    (sv_sent (sy_server sys)).*1 ∧
  map_Forall (λ _ p, wf p ∧ is_handshake p = false) (as_out_of_order_packets server) ∧
  term_wf (as_term_state server) ∧ mirror_ok (ms_mirror client) ∧
  Forall (λ e, sendable e.2) (ms_state_history client) ∧ len (ms_state_history client) ≤ 200.
Proof.
  intros Hf Hlen sys server client Hc. destruct (fresh_ok c codec h s m evs Hf Hlen Hc) as (_ & Hroom & L & grids & Hok).
  pose proof (system_run_numbers evs (System_new s m)) as Hnum. fold sys in Hok, Hnum. destruct Hok. 
  destruct so_client as [[_ Hhist Hmirror] Hhl]. destruct so_healthy, so_traffic, so_clog, so_logged.
  split; [|split; [|split; [|split_and!]]].
  - unfold load in so_load. destruct Hroom as [_ Hr]. cbn in Hr. change (len ([] : list ClientPayload)) with 0 in *.
    unfold fits in *. subst server client. change (len (sy_numbered (System_new s m))) with 0 in *. lia.
  - eapply Forall_impl; [exact so_sent|]. intros b (wire & p & st & ? & ? & ? & ? & ? & _ & _). by exists wire, p, st.
  - apply Forall_fmap. eapply Forall_impl; [exact tr_sent|].
    intros b (seq & ack & p & bss & _ & ? & ? & ? & ? & _ & ?). by exists seq, ack, p, bss.
  - done.
  - apply he_mirrors.
  - done.
  - eapply Forall_impl; [exact Hhist|]. intros e He. by apply (lg_screens e.1).
  - done.
Qed.
End props.

(** ** The program's codec

    What [fresh] asks of a codec holds of [ChaChaCodec], with any cipher that satisfies its laws. *)

Lemma single_packet seq ack bs bss :
  len bs ≤ FRAGMENT_PAYLOAD_SIZE → serialize_all (packets_of seq ack bs) = Ok bss → len bss = 1.
Proof. intros Hl. unfold packets_of. rewrite decide_True by exact Hl. by intros [= <-]. Qed.

Section deployed.
Context `{Aead, Lz4, !AeadLaws}.
Context (key : list Z) (sid : Z).
Let c : ChaChaCodec := ChaChaCodec_new key sid.

Lemma chacha_answer seq ack (p : ServerPayload) :
  (∀ u, p ≠ ServerPayload.Frame u) → wf p →
  ∃ bss, seal_server c seq ack p = Ok bss ∧ len bss = 1.
Proof.
  intros Hp Hw. pose proof (answer_length p Hp) as Hl. set (plain := fenc f_server p) in *.
  assert (serialize p = Ok plain) as Es by reflexivity.
  assert (len (0 :: plain) = 1 + len plain) as El by (unfold len; cbn [length]; lia).
  destruct (encrypt_total (cc_crypto c) seq (0 :: plain)) as [ct Ect].
  { constructor; [done|]. exact (serialize_bytes p plain Hw Es). }
  { rewrite El. unfold aead_max. lia. }
  assert (is_ok (serialize_all (packets_of seq ack ct)) = true) as Hok by apply serialize_all_ok.
  destruct (serialize_all (packets_of seq ack ct)) as [bss| |] eqn:E; [|discriminate Hok..].
  exists bss. split.
  - cbn [seal_server ChaCha_PacketCodec]. unfold ChaCha_seal_server, serialize_compressed. rewrite Es. cbn [mbind outcome_bind].
    rewrite decide_True by lia. cbn [mbind outcome_bind]. rewrite Ect. exact E.
  - eapply single_packet; [|exact E]. rewrite (encrypt_length _ _ _ _ Ect), El. unfold FRAGMENT_PAYLOAD_SIZE. lia.
Qed.

Lemma chacha_environment :
  answers c ∧ short c ∧ seals (C:=ChaChaCodec) ∧ (∀ b, open_client c b ≠ Panic).
Proof.
  split; [|split; [|split]].
  - intros seq ack p Hw. destruct p as [i|u| |]; [|exact I|..];
      (match goal with |- is_ok (seal_server _ _ _ ?p) = _ => destruct (chacha_answer seq ack p) as (bss & -> & _) end;
       [by intros ?|exact Hw|reflexivity]).
  - intros seq ack p bss Hw. destruct p as [i|u| |]; [|exact I|..]; intros E;
      (match goal with E : seal_server _ _ _ ?p = _ |- _ => destruct (chacha_answer seq ack p) as (bss' & E' & Hl) end;
       [by intros ?|exact Hw|rewrite E in E'; injection E' as <-; lia]).
  - intros c' i seq ack p. cbn [seal_client ChaCha_PacketCodec]. unfold ChaCha_seal_client, serialize.
    unfold encrypt. repeat match goal with |- context [ok_or _ ?o] => destruct o; cbn [ok_or mbind outcome_bind]; try done end.
  - intros b. cbn [open_client ChaCha_PacketCodec]. unfold ChaCha_open_client, deserialize.
    destruct (borrow_decode_from_slice b) as [[w n]|]; cbn -[borrow_decode_from_slice]; [|done].
    repeat case_decide; cbn -[borrow_decode_from_slice]; [..|done];
      (unfold decrypt; destruct (aead_decrypt _ _ _); cbn -[borrow_decode_from_slice]; [|done];
       by destruct (borrow_decode_from_slice _) as [[? ?]|]).
Qed.
End deployed.

(** ** Witnesses

    Two sessions with the plaintext codec, the recording pseudo-terminal and the toy emulator, on 3
    columns and 2 rows; the handshake was number 1. *)

Lemma null_short (c : NullCodec) : short c.
Proof.
  intros seq ack p bss _. assert (∀ bs, fenc f_server p = bs → len bs ≤ FRAGMENT_PAYLOAD_SIZE →
    seal_server c seq ack p = Ok bss → 0 < len bss < 2 ^ 16) as Hgo.
  { intros bs <- Hl E. rewrite (single_packet seq ack (fenc f_server p) bss Hl); [lia|exact E]. }
  destruct p as [sid|u| |]; [|exact I|..]; eapply Hgo; try reflexivity; [|done..].
  unfold FRAGMENT_PAYLOAD_SIZE, len. cbn. repeat case_match; cbn; lia.
Qed.

Abbreviation DemoSystem := (System FakePty NullCodec Toy.term Toy.render) (only parsing).
Definition demo_client : MirrorSession NullCodec :=
  MirrorSession_new 12345 (NullCodec_new 12345) 1 3 2 false demo_start.
Definition demo_system : DemoSystem := System_new demo_session demo_client.

Lemma demo_fresh : fresh (NullCodec_new 12345) (NullCodec_new 12345) 1 demo_session demo_client.
Proof.
  split.
  - exact demo_calm.
  - apply demo_answers.
  - apply null_short.
  - exact mp_seals.
  - split; [evaluate|discriminate].
  - lia.
  - split; [reflexivity|apply buffer_ok_default].
  - exists demo_addr, 3, 2, FakePty_new, demo_start. split; [evaluate|]. split; [evaluate|]. exact demo_session_new.
  - exists 1, 3, 2, false, demo_start. split; [evaluate|]. split; [evaluate|]. split; [lia|reflexivity].
Qed.

Definition at_ms (n : Z) : Instant := demo_start + from_millis n.
(** Three keys are typed; the shell prints a prompt. *)
Definition demo_typed : list system_event :=
  [AtClient (CStdin [97] (at_ms 5)); AtClient (CStdin [98] (at_ms 6)); AtClient (CStdin [99] (at_ms 7));
   AtServer (NPty [36] (at_ms 8))].
Definition demo_client_datagram (i : nat) : list Z :=
  default [] (sy_client_sent (system_run demo_typed demo_system) !! i).
(** The second key arrives twice, the third after it, the first not at all; a frame is sent. *)
Definition demo_run : list system_event :=
  demo_typed ++
  [AtServer (NRecv (demo_client_datagram 1) demo_addr (at_ms 20)); AtServer (NRecv (demo_client_datagram 1) demo_addr (at_ms 21));
   AtServer (NRecv (demo_client_datagram 2) demo_addr (at_ms 30)); AtServer (NTick (at_ms 100));
   AtServer (NTask 0); AtServer (NTask 0); AtServer (NTask 0)].
Definition demo_end : DemoSystem := system_run demo_run (System_new demo_session demo_client).
Definition demo_frame_datagram : list Z := default [] ((sv_sent (sy_server demo_end)).*1 !! 0%nat).

Lemma demo_carried : carried (sy_requested (system_run demo_run (System_new demo_session demo_client))).
Proof. apply (bool_decide_unpack _). vm_compute. exact I. Qed.

Lemma client_shows_server_witness :
  sy_failed demo_end = false ∧
  ∃ m' acts job t, feed_packet demo_frame_datagram (at_ms 200) (sy_client demo_end) = (m', Ok acts) ∧
    ClientAction.Paint ∈ acts ∧ job ∈ jobs (sy_requested demo_end) ∧
    abort_prediction (ms_mirror m') = (t, Ok tt) ∧ shows (uj_current_state job) (ti_frame t).
Proof.
  unfold demo_end. destruct (client_shows_server (NullCodec_new 12345) (NullCodec_new 12345) 1 demo_session demo_client demo_run
    demo_frame_datagram (at_ms 200) demo_fresh) as (Hf & m' & acts & E & _ & Hp).
  - vm_compute. reflexivity.
  - exact demo_carried.
  - apply (bool_decide_unpack _). vm_compute. exact I.
  - split; [exact Hf|].
    assert (bool_decide (ClientAction.Paint ∈ acts) = true) as Hin.
    { assert (match (feed_packet demo_frame_datagram (at_ms 200)
          (sy_client (system_run demo_run (System_new demo_session demo_client)))).2 with
        | Ok acts => bool_decide (ClientAction.Paint ∈ acts) | _ => false end = true) as Hd by (vm_compute; reflexivity).
      rewrite E in Hd. exact Hd. }
    apply bool_decide_eq_true in Hin. destruct (Hp Hin) as (_ & job & t & Hj & _ & Ha & Hs).
    exists m', acts, job, t. split; [exact E|]. split; [exact Hin|]. split; [exact Hj|]. split; [exact Ha|exact Hs].
Defined.

(** The datagram of the first frame queued is new to the client. *)
Lemma demo_frame_new :
  match jobs (sy_requested (system_run demo_run (System_new demo_session demo_client))) with
  | job :: _ =>
    (ms_ack_seq_num (sy_client (system_run demo_run (System_new demo_session demo_client))) <?
       ms_ack_seq_num (feed_packet demo_frame_datagram (at_ms 200) (sy_client (system_run demo_run (System_new demo_session demo_client)))).1) &&
    (uj_seq job =? ms_ack_seq_num (feed_packet demo_frame_datagram (at_ms 200) (sy_client (system_run demo_run (System_new demo_session demo_client)))).1)
  | [] => false
  end = true.
Proof. vm_compute. reflexivity. Qed.

Lemma no_frame_refused_witness :
  ∃ m' acts job, feed_packet demo_frame_datagram (at_ms 200) (sy_client demo_end) = (m', Ok acts) ∧
    job ∈ jobs (sy_requested demo_end) ∧ ClientAction.Paint ∈ acts ∧
    (uj_seq job, uj_current_state job) ∈ ms_state_history m'.
Proof.
  pose proof demo_frame_new as Hnew. unfold demo_end.
  destruct (no_frame_refused (NullCodec_new 12345) (NullCodec_new 12345) 1 demo_session demo_client demo_run
    demo_frame_datagram (at_ms 200) demo_fresh) as (_ & m' & acts & E & Hall).
  - vm_compute. reflexivity.
  - exact demo_carried.
  - apply (bool_decide_unpack _). vm_compute. exact I.
  - rewrite E in Hnew. cbn [fst] in Hnew.
    destruct (jobs (sy_requested (system_run demo_run (System_new demo_session demo_client)))) as [|job l] eqn:Ej;
      [discriminate Hnew|].
    apply andb_true_iff in Hnew as [Hlt%Z.ltb_lt Hk%Z.eqb_eq].
    destruct (Hall job) as (Hp & Hin & _); [left|exact Hlt|exact Hk|].
    exists m', acts, job. split; [exact E|]. split; [left|]. split; [exact Hp|exact Hin].
Defined.

Lemma typed_reaches_shell_witness :
  sy_numbered demo_end = ClientPayload.Keystrokes <$> [[97]; [98]; [99]] ∧
  ∃ effs, world (sv_session (sy_server demo_end)) = foldl apply_effect (world demo_session) effs ∧
    filter (λ f, from_client f = true) effs = [EKeys [98]; EKeys [99]].
Proof.
  split; [vm_compute; reflexivity|]. unfold demo_end.
  destruct (typed_reaches_shell (NullCodec_new 12345) (NullCodec_new 12345) 1 demo_session demo_client demo_run demo_fresh)
    as (effs & Hw & Hc & _).
  - vm_compute. reflexivity.
  - exact demo_carried.
  - exists effs. split; [exact Hw|]. rewrite Hc. vm_compute. reflexivity.
Defined.

Lemma run_well_typed_witness :
  sy_client_sent demo_end ≠ [] ∧
  Forall (λ b, ∃ wire p st, open_client (NullCodec_new 12345) b = Ok (wire, p, st) ∧
    ec_session_id wire = 12345 ∧ u64 (ec_seq_num wire) ∧ wf p ∧ is_handshake p = false) (sy_client_sent demo_end).
Proof.
  split; [apply (bool_decide_unpack _); vm_compute; exact I|]. unfold demo_end.
  destruct (run_well_typed (NullCodec_new 12345) (NullCodec_new 12345) 1 demo_session demo_client demo_run demo_fresh)
    as (_ & Hsent & _).
  - vm_compute. reflexivity.
  - exact demo_carried.
  - exact Hsent.
Defined.
