(* ===== verification/Convergence.v ===== *)
(** * Convergence

    The server's next frame reaches the client: from any state of a run, the tick that asks for a
    frame, the steps of the frame's task and the arrival of its datagrams leave the client with the
    screen of the server's emulator, whatever was lost before. *)

From Stdlib Require Import Floats.SpecFloat.
From S2P Require Import Prelude Utf8 Grid Protocol Crypto Codec CodecFacts WireFormat CodecProps.
From S2P Require Import TermState Pty ServerSession ServerFacts ServerProps ServerLog.
From S2P Require Import ServerNetwork ServerNetworkProps ServerStream Repair.
From S2P Require Import Escape Float32 Frame Echo Terminal MirrorSession MirrorFacts MirrorProps ClientLog.
From S2P Require Import ClientRefs ServerRefs System SystemProps.

Section convergence.
Context {P C T R : Type} `{PtyBackend P, PacketCodecLaws C, VtLaws T R}.
Abbreviation System := (System P C T R) (only parsing).
Abbreviation session sys := (sv_session (sy_server sys)) (only parsing).
Implicit Types (sys : System) (L : gmap Z ServerPayload) (grids : gmap Z GridState).

Lemma system_run_app evs evs' sys : system_run (evs ++ evs') sys = system_run evs' (system_run evs sys).
Proof. apply foldl_app. Qed.

(** ** At the server *)

(** The server has moved to [sv], its session asking for [acts]; the client has not. *)
Record served (acts : list (SessionAction C)) sys (sv : Server P C T R) sys' : Prop := {
  sd_server : sy_server sys' = sv;
  sd_client : sy_client sys' = sy_client sys;
  sd_requested : sy_requested sys' = sy_requested sys ++ acts;
}.

Lemma served_refl sys : served [] sys (sy_server sys) sys.
Proof. split; [done..|]. by rewrite app_nil_r. Qed.
Lemma served_trans acts acts' sys sv sys1 sv' sys2 :
  served acts sys sv sys1 → served acts' sys1 sv' sys2 → served (acts ++ acts') sys sv' sys2.
Proof. intros [] []. split; [done|congruence|]. by rewrite sd_requested1, sd_requested0, (assoc_L (++)). Qed.

Lemma serve_once e acts sv sys :
  match e with NRecv _ _ _ => False | _ => True end → sv_phase (sy_server sys) ≠ Stopped →
  runs (serve e) (sy_server sys) sv acts → served acts sys sv (system_step sys (AtServer e)).
Proof.
  intros He Hp E. cbn [system_step]. rewrite decide_True.
  - unfold server_step. unfold runs in E. rewrite E. by split.
  - unfold server_may. destruct (sv_phase _), e; done.
Qed.

(** Tasks that run. *)
Lemma serve_tasks ids sv sys :
  runs (serve_all (NTask <$> ids)) (sy_server sys) sv [] →
  served [] sys sv (system_run ((λ i, AtServer (NTask i)) <$> ids) sys).
Proof.
  revert sys. induction ids as [|i ids IH]; intros sys E.
  { injection E as <-. apply served_refl. }
  cbn [fmap list_fmap]. change (system_run (?e :: ?l) ?s) with (system_run l (system_step s e)).
  cbn [fmap list_fmap serve_all] in E. apply runs_bind_inv in E as (sv0 & self & [= <- <-] & E).
  assert (sv_phase (sy_server sys) = Stopped ∨ sv_phase (sy_server sys) ≠ Stopped) as [Es|Hp]
    by (destruct (sv_phase (sy_server sys)); auto).
  - assert (∀ l, system_run ((λ i, AtServer (NTask i)) <$> l) sys = sys) as Hstop.
    { intros l. induction l as [|j l IHl]; [done|]. cbn [fmap list_fmap].
      change (system_run (?e :: ?k) ?s) with (system_run k (system_step s e)). cbn [system_step].
      rewrite decide_False by (unfold server_may; rewrite Es; exact id). exact IHl. }
    rewrite Es in E. injection E as <-. cbn [system_step]. rewrite decide_False; [|unfold server_may; rewrite Es; exact id].
    rewrite Hstop. apply served_refl.
  - assert (∃ sv1 a b, runs (serve (NTask i)) (sy_server sys) sv1 a ∧
      runs (serve_all (NTask <$> ids)) sv1 sv b ∧ a ++ b = []) as (sv1 & a & b & E1 & E2 & [-> ->]%app_nil).
    { destruct (sv_phase (sy_server sys)); [..|done];
        (apply runs_bind_inv in E as (sv1 & a1 & E1 & E); apply runs_bind_inv in E as (sv2 & a2 & E2 & E);
         injection E as <- Eab; by exists sv1, a1, a2). }
    pose proof (serve_once (NTask i) [] sv1 sys I Hp E1) as S1. rewrite <-(sd_server _ _ _ _ S1) in E2.
    exact (served_trans [] [] _ _ _ _ _ S1 (IH _ E2)).
Qed.

(** The tick and the frame's task. *)
Definition transmission (now : Instant) (i n : nat) : list system_event :=
  AtServer (NTick now) :: ((λ j, AtServer (NTask j)) <$> replicate (2 + n) i).

Lemma frame_sent sys now s' job target bss :
  sv_phase (sy_server sys) = Running → sv_diff_in_flight (sy_server sys) = false →
  runs (ServerSession.on_tick now) (session sys) s' [OffloadDiffJob job target] → UpdateJob_run job = Ok bss →
  ∃ sv, served [OffloadDiffJob job target] sys sv
      (system_run (transmission now (length (sv_tasks (sy_server sys))) (length bss)) sys) ∧
    sv_session sv = s' ∧ sv_sent sv = sv_sent (sy_server sys) ++ ((λ b, (b, target)) <$> bss) ∧
    sv_tasks sv = sv_tasks (sy_server sys) ∧ sv_diff_in_flight sv = false ∧ sv_phase sv = Running.
Proof.
  intros Hp Hf Etick Hrun. set (sv0 := sy_server sys) in *. set (i := length (sv_tasks sv0)).
  set (sv1 := sv0 <| sv_session := s' |> <| sv_diff_in_flight := true |> <| sv_tasks ::= λ l, l ++ [TDiff job target] |>).
  assert (runs (serve (NTick now)) sv0 sv1 [OffloadDiffJob job target]) as E1.
  { cbn [serve]. mstep. rewrite Hf. eapply (runs_bind _ _ _ (sv0 <| sv_session := s' |>)).
    { unfold runs, in_session. unfold runs in Etick. by rewrite Etick. }
    eapply runs_bind; [|apply runs_ret]. eapply runs_bind; [|apply runs_ret]. cbn [execute_action]. mstep.
    change (sv_diff_in_flight (sv0 <| sv_session := s' |>)) with (sv_diff_in_flight sv0). rewrite Hf.
    mstep. apply runs_modify. }
  pose proof (serve_once (NTick now) _ sv1 sys I ltac:(by fold sv0; rewrite Hp) E1) as S1.
  assert (sv_tasks sv1 !! i = Some (TDiff job target)) as Hi by (apply list_lookup_middle; reflexivity).
  pose proof (frame_transmitted sv1 i job target bss ltac:(cbn; by rewrite Hp) Hi Hrun) as E2.
  assert (pred (length (sv_tasks sv1)) = i) as Ei by (cbn; rewrite length_app; cbn; lia).
  assert (NTask i :: replicate (S (length bss)) (NTask (pred (length (sv_tasks sv1)))) =
    NTask <$> replicate (2 + length bss) i) as El by by rewrite Ei, fmap_replicate.
  rewrite El, <-(sd_server _ _ _ _ S1) in E2. pose proof (serve_tasks _ _ _ E2) as S2.
  eexists. split; [exact (served_trans _ _ _ _ _ _ _ S1 S2)|]. rewrite (sd_server _ _ _ _ S1).
  split; [done|]. split; [done|]. split; [|done]. unfold sv1, i. cbn. by rewrite delete_middle, app_nil_r.
Qed.

(** ** At the client *)

Section arrival.
Context (c : C) (Hseals : seals (C:=C)).
Context (L : gmap Z ServerPayload) (grids : gmap Z GridState).

(** A datagram of the server is delivered. *)
Lemma fed_datagram sys b now (client := sy_client sys) :
  system_ok c L grids sys → b ∈ (sv_sent (sy_server sys)).*1 → len (sy_numbered sys) + 1 < 2 ^ 63 →
  ∃ sys' acts o, system_step sys (AtClient (CDatagram b now)) = sys' ∧ system_ok c L grids sys' ∧
    sy_server sys' = sy_server sys ∧ sy_requested sys' = sy_requested sys ∧ sy_numbered sys' = sy_numbered sys ∧
    open_server b (ms_codec client) = (ms_codec (sy_client sys'), Ok o) ∧ digested o client (sy_client sys') ∧
    painted grids (ms_ack_seq_num (sy_client sys')) (sy_client sys') acts ∧ recalled L o client (sy_client sys') acts.
Proof.
  intros Hok Hb Hlen. destruct (client_step_ok c Hseals L grids sys (CDatagram b now) Hok Hb Hlen) as [Hok' _].
  destruct Hok. destruct (feed_packet_run Hseals c L grids b now client) as
    (s1 & acts & o & Eo & E & _ & Hdig & _ & Hseq & _ & _ & Hpaint & Hrec & Hcodec);
    [apply so_logged|apply so_client|by apply (sent_sealed c L sys)|].
  assert (client_step (CDatagram b now) sys = sys <| sy_client := s1 |> <| sy_client_sent ::= λ l, l ++ sends acts |>
      <| sy_failed ::= λ b, b || false |>) as Estep.
  { unfold client_step. cbn [client_handle]. unfold runs in E. fold client. rewrite E. cbn. by rewrite decide_True by exact Hseq. }
  eexists _, acts, o. cbn [system_step]. rewrite decide_True by exact Hb.
  split; [reflexivity|]. split; [exact Hok'|]. rewrite Estep. split; [done|]. split; [done|]. split; [done|].
  split; [|done]. cbn. rewrite Hcodec. by destruct (open_server b (ms_codec client)); cbn in Eo; subst.
Qed.

(** The datagrams of a frame newer than all before, one after the other. *)
Definition arrival (now : Instant) (bss : list (list Z)) : list system_event :=
  (λ b, AtClient (CDatagram b now)) <$> bss.

Lemma fed_frame sys bss now pkt p st g c'' :
  system_ok c L grids sys → Forall (λ b, b ∈ (sv_sent (sy_server sys)).*1) bss → bss ≠ [] →
  len (sy_numbered sys) + 1 < 2 ^ 63 →
  open_all bss (ms_codec (sy_client sys)) = (c'', Ok (replicate (pred (length bss)) None ++ [Some (pkt, p, st)])) →
  ms_ack_seq_num (sy_client sys) < es_seq_num pkt → grids !! es_seq_num pkt = Some g →
  let sys' := system_run (arrival now bss) sys in
  sy_failed sys' = false ∧ sy_server sys' = sy_server sys ∧ sy_requested sys' = sy_requested sys ∧
  ms_ack_seq_num (sy_client sys') = es_seq_num pkt ∧ (es_seq_num pkt, g) ∈ ms_state_history (sy_client sys') ∧
  ∃ t, abort_prediction (ms_mirror (sy_client sys')) = (t, Ok tt) ∧ shows g (ti_frame t).
Proof.
  revert sys. induction bss as [|b bss IH]; intros sys Hok Hsent Hne Hlen Eall Hack Hg; [done|]. clear Hne.
  apply Forall_cons in Hsent as [Hb Hsent].
  destruct (fed_datagram sys b now Hok Hb Hlen) as
    (sys1 & acts & o & E1 & Hok1 & Es & Er & En & Eo & Hdig & Hpaint & Hrec).
  cbn [arrival fmap list_fmap]. change (system_run (?e :: ?l) ?s) with (system_run l (system_step s e)). rewrite E1.
  cbn [open_all] in Eall. unfold mbind, M_bind in Eall. rewrite Eo in Eall.
  destruct (open_all bss (ms_codec (sy_client sys1))) as [c2 [rs| |]] eqn:Erest; [|done..].
  injection Eall as -> Eall. cbn [length pred] in Eall. destruct bss as [|b' bss].
  - cbn in Erest. injection Erest as _ <-. cbn in Eall. injection Eall as ->. cbn [arrival fmap list_fmap system_run foldl].
    pose proof (system_referring c L grids sys Hok) as Href. destruct Hok, Hok1.
    destruct (digested_reached L grids (Some (pkt, p, st)) (sy_client sys) (sy_client sys1) acts
      (lg_coherent _ _ _ so_logged) (lg_frames _ _ _ so_logged) Href so_recorded Hdig Hrec) as (_ & _ & _ & Happlied).
    destruct Hdig as [_ Ek]. rewrite Z.max_r in Ek by lia. rewrite Ek in *.
    destruct Happlied as [Hp Hin]; [done|by eexists|]. split; [done|]. split; [done|]. split; [done|]. split; [done|].
    destruct (Hpaint Hp) as (g' & base & Hg' & Hgok & Hs & Hv & Hlast). assert (g' = g) as -> by congruence. split.
    + apply last_Some_elem_of in Hlast. exact Hlast.
    + destruct (abort_run base (ms_mirror (sy_client sys1)) (shows_cursor _ base Hgok Hs) Hv) as (t & Ea & Hsame & _).
      exists t. split; [done|]. by rewrite Hsame.
  - cbn [length pred replicate app] in Eall. injection Eall as -> ->. destruct Hdig as [_ Ek].
    rewrite <-Es in Hsent. rewrite <-En in Hlen. rewrite <-Ek in Hack.
    destruct (IH sys1 Hok1 Hsent) as (? & ? & ? & ? & ? & ?); [done|done|exact Erest|done|done|].
    split; [done|]. split; [by rewrite <-Es|]. split; [by rewrite <-Er|]. done.
Qed.
End arrival.

(** ** The theorem *)

(** The number of a frame asked for is newer than all of the log and than what the client has seen. *)
Lemma frame_newer c L grids sys now s' g job :
  system_ok c L grids sys → load (session sys) + 1 < 2 ^ 64 → queued (session sys) s' now g job →
  (∀ k, is_Some (L !! k) → k < uj_seq job) ∧ ms_ack_seq_num (sy_client sys) < uj_seq job.
Proof.
  intros [] Hload Q. pose proof (he_seq _ _ so_healthy) as Hs0. unfold load in Hload.
  assert (uj_seq job = as_seq_num (session sys) + 1) as En.
  { rewrite (qd_job_seq _ _ _ _ _ Q). apply wrap_small. unfold fits. lia. }
  assert (∀ k, is_Some (L !! k) → k < uj_seq job) as Hall.
  { intros k [p Hk]. apply Z.nle_gt. intros Hle. destruct (lg_fresh _ _ _ so_logged k) as [Hno _]; [lia|congruence]. }
  split; [done|]. destruct (cg_acked _ _ _ _ _ _ so_clog) as [->|[Hk _]]; [lia|by apply Hall].
Qed.

(** The client's codec opens the frame's datagrams, and the last of them completes it. *)
Lemma frame_opens c L grids sys now s' g job bss :
  system_ok c L grids sys → load (session sys) + 1 < 2 ^ 64 → queued (session sys) s' now g job →
  sendable g → brief job → UpdateJob_run job = Ok bss →
  ∃ c'' pkt p st, open_all bss (ms_codec (sy_client sys)) =
      (c'', Ok (replicate (pred (length bss)) None ++ [Some (pkt, p, st)])) ∧
    es_seq_num pkt = uj_seq job ∧ ms_ack_seq_num (sy_client sys) < uj_seq job ∧ len bss < 2 ^ 16.
Proof.
  intros Hok Hload Q Hg Hbrief Hrun. destruct (frame_newer c L grids sys now s' g job Hok Hload Q) as [Hall Hnewer].
  pose proof Hok as []. destruct (queued_log c (session sys) s' now g job (as_current_client_addr (session sys))
    so_healthy Hload Q L grids so_logged Hg Hbrief) as (L1 & grids1 & _ & _ & Hcomp).
  apply Forall_cons in Hcomp as [(d & _ & Hwf & Hseq & Hack & _ & Hseal) _].
  unfold brief in Hbrief. rewrite Hrun in *.
  destruct (delivered c L (ms_codec (sy_client sys)) (uj_seq job) (uj_ack_seq job) (ServerPayload.Frame d) bss)
    as (c'' & pkt & st & Eopen & Ek & _); [apply so_clog|done..|].
  by exists c'', pkt, (ServerPayload.Frame d), st.
Qed.

(** C6. The client catches up. Take any state of the system reached by a run as above, whatever the
    network has lost, at which the server's loop runs, no frame of it is in flight, and its tick asks for something.
    Then the tick asks for one frame, and if its job compiles, the tick, the steps of the job's task and
    the arrival of its datagrams, one after the other, fail nowhere, and leave the client with the frame's number
    acknowledged, the screen the server has read off its emulator in its history, and a terminal that
    shows exactly that screen once predictions are taken off; the server is ready for the next frame. *)
Theorem screen_converges c codec h s m evs now now' s' acts :
  fresh c codec h s m → len evs < 2 ^ 61 →
  let sys := system_run evs (System_new s m) in
  let server := sy_server sys in
  carried (sy_requested sys ++ acts) → sv_phase server = Running → sv_diff_in_flight server = false →
  ServerSession.on_tick now (sv_session server) = (s', Ok acts) → acts ≠ [] →
  ∃ job target, acts = [OffloadDiffJob job target] ∧
    ∀ bss, UpdateJob_run job = Ok bss →
      let schedule := transmission now (length (sv_tasks server)) (length bss) ++ arrival now' bss in
      let sys' := system_run schedule sys in
      let screen := ts_grid_state (as_term_state s') in
      sy_failed sys' = false ∧ sv_session (sy_server sys') = s' ∧ as_dirty s' = false ∧
      sv_diff_in_flight (sy_server sys') = false ∧
      ms_ack_seq_num (sy_client sys') = uj_seq job ∧ (uj_seq job, screen) ∈ ms_state_history (sy_client sys') ∧
      ∃ t, abort_prediction (ms_mirror (sy_client sys')) = (t, Ok tt) ∧ shows screen (ti_frame t).
Proof.
  intros Hf Hlen sys server Hc Hphase Hflag Etick Hne. pose proof Hf as [Hcalm Hans Hsh Hseals _ _ _ _ _].
  destruct (fresh_run c codec h s m evs Hf ltac:(lia)) as (_ & _ & L & grids & Hok & [Hload Hnum]).
  { eapply carried_prefix; [|exact Hc]. by apply prefix_app_r. }
  fold sys in Hok, Hload, Hnum.
  destruct (check_sync_run Hcalm now (session sys) (he_mirrors _ _ (so_healthy _ _ _ _ Hok)))
    as (s1 & acts1 & E1 & _ & _ & Hcase).
  assert (s1 = s' ∧ acts1 = acts) as [-> ->].
  { unfold runs in E1. unfold ServerSession.on_tick in Etick. fold server in E1. rewrite E1 in Etick. by injection Etick. }
  destruct Hcase as [[-> _]|(_ & _ & g & job & -> & Q & _)]; [done|].
  exists job, (as_current_client_addr (session sys)). split; [done|]. intros bss Hrun. cbv zeta. rewrite system_run_app.
  set (target := as_current_client_addr (session sys)) in *. set (i := length (sv_tasks server)).
  destruct (frame_sent sys now s' job target bss Hphase Hflag Etick Hrun) as (sv & [S1 S2 S3] & Es & Esent & _ & Eflag & _).
  fold server in S1, S2, S3, Esent. fold i in S1, S2, S3. set (sys1 := system_run _ sys) in *.
  assert (sendable g ∧ brief job) as [Hg Hbrief].
  { unfold carried in Hc. rewrite jobs_app in Hc. apply Forall_app in Hc as [_ Hc]. apply Forall_cons in Hc as [Hc _].
    by rewrite (qd_job_state _ _ _ _ _ Q) in Hc. }
  rewrite <-S3 in Hc. destruct (frame_opens c L grids sys now s' g job bss Hok ltac:(lia) Q Hg Hbrief Hrun)
    as (c'' & pkt & p & st & Eopen & Ek & Hnewer & Hmany).
  assert (len (transmission now i (length bss)) < 2 ^ 17) as Hlt.
  { unfold len in *. unfold transmission. cbn [length]. rewrite length_fmap, length_replicate. lia. }
  destruct (system_run_ok c Hcalm Hans Hsh Hseals (transmission now i (length bss)) L grids sys Hok)
    as (L2 & grids2 & Hok2); [split; lia|exact Hc|]. fold sys1 in Hok2. pose proof (system_run_numbers (transmission now i (length bss)) sys) as Hn.
  fold sys1 in Hn. rewrite <-S2, <-Ek in *. pose proof (so_jobs _ _ _ _ Hok2) as Hj. rewrite Forall_forall in Hj.
  destruct (Hj job) as [Hscreen _].
  { rewrite S3, jobs_app, elem_of_app. right. by left. }
  rewrite (qd_job_state _ _ _ _ _ Q), <-Ek in Hscreen.
  destruct (fed_frame c Hseals L2 grids2 sys1 bss now' pkt p st g c'' Hok2) as (? & Esv & _ & ? & ? & ?); [| |lia|exact Eopen|done..|].
  { rewrite S1, Esent, fmap_app, <-list_fmap_compose. apply Forall_forall. intros b Hb. apply elem_of_app. right.
    apply list_elem_of_fmap. by exists b. }
  { intros ->. discriminate Eopen. }
  rewrite Esv, S1, (qd_grid _ _ _ _ _ Q). split; [done|]. split; [done|]. split; [apply Q|done].
Qed.
End convergence.

(** ** Witness *)

(** The demonstration's run; its frame is lost, and the shell prints again. *)
Definition demo_before : list system_event := demo_run ++ [AtServer (NPty [37] (at_ms 200))].

Lemma demo_before_ticks :
  (let sys := system_run demo_before (System_new demo_session demo_client) in
   match ServerSession.on_tick (at_ms 300) (sv_session (sy_server sys)) with
   | (_, Ok [OffloadDiffJob job t]) =>
     is_ok (UpdateJob_run job) && bool_decide (carried (sy_requested sys ++ [OffloadDiffJob job t]))
   | _ => false
   end) = true.
Proof. vm_compute. reflexivity. Qed.
Lemma demo_before_idle :
  sv_phase (sy_server (system_run demo_before (System_new demo_session demo_client))) = Running ∧
  sv_diff_in_flight (sy_server (system_run demo_before (System_new demo_session demo_client))) = false.
Proof. vm_compute. split; reflexivity. Qed.

Lemma screen_converges_witness :
  ∃ (s' : AuthoritativeSession FakePty NullCodec Toy.term Toy.render) job bss evs t,
    (UpdateJob_run job = Ok bss ∧
     evs = transmission (at_ms 300) 0 (length bss) ++ arrival (at_ms 350) bss) ∧
    abort_prediction (ms_mirror (sy_client (system_run evs
      (system_run demo_before (System_new demo_session demo_client))))) = (t, Ok tt) ∧
    shows (ts_grid_state (as_term_state s')) (ti_frame t).
Proof.
  pose proof demo_before_ticks as Hd. cbv zeta in Hd. destruct demo_before_idle as [Hp Hi].
  assert (sv_tasks (sy_server (system_run demo_before (System_new demo_session demo_client))) = []) as Ht
    by (vm_compute; reflexivity).
  assert (len demo_before < 2 ^ 61) as Hlen by (vm_compute; reflexivity).
  destruct (ServerSession.on_tick (at_ms 300) (sv_session (sy_server (system_run demo_before
    (System_new demo_session demo_client))))) as [s' [acts| |]] eqn:E; [|discriminate Hd..].
  destruct acts as [|[|job target| |] [|]]; try discriminate Hd. apply andb_true_iff in Hd as [Hrun Hc].
  apply bool_decide_eq_true in Hc. destruct (UpdateJob_run job) as [bss| |] eqn:Er; [|discriminate Hrun..].
  destruct (screen_converges (NullCodec_new 12345) (NullCodec_new 12345) 1 demo_session demo_client demo_before
    (at_ms 300) (at_ms 350) s' [OffloadDiffJob job target] demo_fresh Hlen Hc Hp Hi E) as (job' & t' & Ej & Hall);
    [discriminate|]. injection Ej as <- <-. rewrite Ht in Hall.
  destruct (Hall bss Er) as (_ & _ & _ & _ & _ & _ & t & Ha & Hs).
  exists s', job, bss, (transmission (at_ms 300) 0 (length bss) ++ arrival (at_ms 350) bss), t. split; [split; [exact Er|reflexivity]|]. split; [exact Ha|exact Hs].
Defined.
