(* ===== verification/Reliability.v ===== *)
(** * Reliability

    Of the payloads numbered above the handshake none is lost, and one round of retransmission brings all
    of them to the server. The server acknowledges only what it has taken or taken for a duplicate
    ([Acks]), and the client drops from its retransmission map only what is acknowledged, so every one of
    them has been applied or is kept as it was sent. What is numbered like the handshake or below, the
    first size at least, the server drops as a duplicate. *)

From Stdlib Require Import Floats.SpecFloat.
From S2P Require Import Prelude Utf8 Grid Protocol Crypto Codec CodecFacts WireFormat CodecProps.
From S2P Require Import TermState Pty ServerSession ServerFacts ServerProps ServerLog.
From S2P Require Import ServerNetwork ServerNetworkProps ServerStream.
From S2P Require Import Escape Float32 Frame Echo Terminal MirrorSession MirrorFacts MirrorProps ClientLog.
From S2P Require Import ClientRefs Yields ServerRefs Acks Keyboard System SystemProps Convergence.

(** ** The invariant *)

Section invariant.
Context {P C T R : Type} `{PtyBackend P, PacketCodecLaws C, VtLaws T R}.
Abbreviation System := (System P C T R) (only parsing).
Implicit Types (sys : System) (L : gmap Z ServerPayload) (grids : gmap Z GridState).
Context (c : C).
Context (Hcalm : calm (P:=P) (C:=C)) (Hanswers : answers c) (Hshort : short c) (Hseals : seals (C:=C)).

Abbreviation session sys := (sv_session (sy_server sys)) (only parsing).
Abbreviation expected sys := (as_expected_client_seq (sv_session (sy_server sys))) (only parsing).

(** A frame that compiles to truthful datagrams. *)
Definition frame_truthful (e : Z) (job : UpdateJob C) : Prop :=
  ∀ bss, UpdateJob_run job = Ok bss → Forall (truthful c e) bss.

(** The packet numbered [k] has been taken, or is kept as it was sent. *)
Definition safe_at sys (k : Z) : Prop :=
  k < expected sys ∨
  ∃ b, kept (ms_unacked_packets (sy_client sys)) k = Some b ∧ b ∈ sy_client_sent sys.

Record reliable_ok sys : Prop := {
  rl_ready : ready c (expected sys) (session sys);
  rl_traffic : carries (truthful c (expected sys)) (frame_truthful (expected sys)) (sy_server sys);
  rl_kept k : 1 ≤ k ≤ len (sy_numbered sys) → safe_at sys k;
}.

(** ** The server's events *)

Lemma frame_truthful_mono e e' job : e ≤ e' → frame_truthful e job → frame_truthful e' job.
Proof. intros He Hj bss E. eapply Forall_impl; [by apply Hj|]. intros b. by apply truthful_mono. Qed.

Lemma acts_carried L e acts :
  Forall (act_logged c L) acts → Forall (act_truthful c e) acts →
  Forall (act_carried (truthful c e) (frame_truthful e)) acts.
Proof.
  intros HL Ht. apply (Forall_impl (λ a, act_logged c L a ∧ act_truthful c e a)); [by apply Forall_and|].
  intros [b t|job t|k mask t|]; cbn; try tauto. intros [(d & _ & Hw & Hs & Ha & Hb & Hrun) Hlt] bss E.
  unfold brief in Hb. rewrite E in *. apply Forall_forall. intros b Hin.
  by exists (uj_seq job), (uj_ack_seq job), (ServerPayload.Frame d), bss.
Qed.

Lemma server_step_reliable h stream fed L grids e sys :
  in_order h stream fed (session sys) →
  from_option (genuine_event c (as_session_id (session sys)) stream) True (event_of (sy_server sys) e) →
  expected sys ≤ expected (server_step e sys) →
  system_ok c L grids sys → server_may e sys → load (session sys) + 2 < 2 ^ 64 →
  carried (sy_requested (server_step e sys)) → reliable_ok sys → reliable_ok (server_step e sys).
Proof.
  intros Hio Hg Hle Hok He Hload Hc [Hr Ht Hk].
  destruct (server_step_ok c Hcalm Hanswers Hshort L grids sys e Hok He Hload Hc)
    as (L' & _ & _ & _ & sv & acts & E & Hlog).
  destruct (serve_truthful c Hshort h stream fed e (sy_server sys) sv acts Hio Hr Hg E) as [Hr' Ha].
  unfold server_step, runs in *. rewrite E in *. cbn in *. split; cbn; [done| |].
  - eapply (serve_carries _ _ (λ job bss Hj, Hj bss)); [exact E|by eapply acts_carried|].
    eapply carries_mono; [intros b; by apply truthful_mono|intros job; by apply frame_truthful_mono|done].
  - intros k Hkn. destruct (Hk k Hkn) as [?|?]; [left; cbn; lia|by right].
Qed.

(** ** The client's events *)

(** An event that comes to its end. *)
Definition completes (e : client_event) sys : bool := is_ok (client_handle e (sy_client sys)).2.

Lemma client_step_reliable L grids e sys :
  system_ok c L grids sys → client_may e sys → len (sy_numbered sys) + 1 < 2 ^ 63 → completes e sys = true →
  reliable_ok sys → reliable_ok (client_step e sys).
Proof.
  intros Hok He Hlen Hcomp [Hr Ht Hk]. pose proof Hok as [].
  destruct (client_step_ok c Hseals L grids sys e Hok He Hlen) as [[] _].
  unfold completes in Hcomp. unfold client_step in *.
  destruct (client_handle e (sy_client sys)) as [s' [acts| |]] eqn:E; [|done..]. cbn in *.
  assert (from_option (sealed_by c L) True (datagram_of e)) as Hd.
  { destruct e as [b now|buf now|cols rows now|order now|dest]; try done. by apply (sent_sealed c L sys). }
  assert (∀ a, ack_of e (sy_client sys) = Some a → a < expected sys) as Hack.
  { intros a. destruct e as [b now|buf now|cols rows now|order now|dest]; cbn; try done.
    assert (truthful c (expected sys) b) as Hb.
    { pose proof (tr_sent _ _ _ Ht) as Hs. rewrite Forall_forall in Hs.
      apply list_elem_of_fmap in He as ([b' t] & -> & Hin). by apply (Hs (b', t)). }
    destruct (open_server b (ms_codec (sy_client sys))) as [c'' [[[[pkt p] st]|]| |]] eqn:Eo; try done.
    intros [= <-]. by eapply truthful_opened. }
  split; cbn; [done|done|]. intros k Hkn. rewrite <-so_seq0 in Hkn. pose proof (len_nonneg (sy_numbered sys)).
  destruct (client_handle_steps c L grids e (sy_client sys) s' acts Hseals (lg_coherent _ _ _ so_logged) so_client Hd)
    as [[Hseq Hkept]|(_ & b & Hb & Hseq & Hkept)]; [lia|lia|exact E|..]; unfold safe_at; cbn; rewrite Hkept.
  - destruct (Hk k) as [?|(b & Eb & Hin)]; [lia|by left|].
    destruct (ack_of e (sy_client sys)) as [a|] eqn:Ea.
    + specialize (Hack a eq_refl). destruct (decide (below (Some a) k)) as [|Hna]; [|left; cbn in Hna; lia].
      right. exists b. split; [done|]. apply elem_of_app. by left.
    + right. exists b. rewrite decide_True by done. split; [done|]. apply elem_of_app. by left.
  - destruct (decide (k = _)); [right; exists b; split; [done|]; apply elem_of_app; by right|].
    destruct (Hk k) as [?|(b' & Eb & Hin)]; [lia|by left|]. right. exists b'. split; [done|]. apply elem_of_app. by left.
Qed.

(** ** Runs *)

(** No event of the client's session ends with an error, which would end its loop. *)
Fixpoint unbroken (evs : list system_event) sys : bool :=
  match evs with
  | [] => true
  | ev :: evs =>
    match ev with
    | AtClient e => if decide (client_may e sys) then completes e sys else true
    | AtServer _ => true
    end && unbroken evs (system_step sys ev)
  end.

Lemma system_step_reliable h stream fed fed' effs L grids ev sys n :
  session_of c ≠ 0 → as_session_id (session sys) = session_of c →
  (∀ k p, log_of (sy_numbered sys) !! k = Some p → stream k = p) →
  in_order h stream fed (session sys) → progress h stream (session sys) (session (system_step sys ev)) fed' effs →
  system_ok c L grids sys → room (1 + n) sys → 0 ≤ n → carried (sy_requested (system_step sys ev)) →
  match ev with AtClient e => if decide (client_may e sys) then completes e sys else true | AtServer _ => true end = true →
  reliable_ok sys → reliable_ok (system_step sys ev).
Proof.
  intros Hne Hsid Hst Hio Hp Hok [Hl Hn] H0n Hc Hcomp Hr. destruct ev as [e|e]; cbn [system_step] in *; (case_decide as He; [|done]).
  - apply (server_step_reliable h stream fed L grids e sys); try done; [|exact (pg_from _ _ _ _ _ _ Hp)|lia].
    by apply (event_genuine c Hcalm L grids).
  - apply (client_step_reliable L grids); try done. lia.
Qed.

Lemma system_run_reliable h stream evs L grids sys fed :
  (∀ k, wf (stream k) ∧ is_handshake (stream k) = false) → session_of c ≠ 0 →
  system_ok c L grids sys → room (len evs) sys → carried (sy_requested (system_run evs sys)) →
  as_session_id (session sys) = session_of c →
  (∀ k p, log_of (sy_numbered (system_run evs sys)) !! k = Some p → stream k = p) →
  in_order h stream fed (session sys) → (∀ k, k ∈ fed ↔ k ∈ sy_received sys) →
  unbroken evs sys = true → reliable_ok sys → reliable_ok (system_run evs sys).
Proof.
  intros Hstream Hne. revert L grids sys fed.
  induction evs as [|ev evs IH]; intros L grids sys fed Hok Hr Hc Hsid Hst Hio Hfed Hunb Hrel; [done|].
  replace (len (ev :: evs)) with (1 + len evs) in Hr by (unfold len; cbn; lia).
  cbn [unbroken] in Hunb. apply andb_true_iff in Hunb as [Hcomp Hunb].
  assert (carried (sy_requested (system_step sys ev))) as Hc1.
  { eapply carried_prefix; [|exact Hc]. apply (system_run_prefix evs). }
  assert (∀ k p, log_of (sy_numbered (system_step sys ev)) !! k = Some p → stream k = p) as Hst1.
  { intros k p Hk. apply Hst. eapply lookup_weaken; [exact Hk|]. apply log_of_prefix, (system_run_prefix evs). }
  destruct (system_step_ok c Hcalm Hanswers Hshort Hseals L grids sys ev (len evs) Hok Hr (len_nonneg evs) Hc1)
    as (L1 & grids1 & Hok1 & Hr1).
  destruct (system_step_progress c Hcalm Hanswers Hshort Hseals h stream ev L grids sys fed) as (fed1 & effs1 & Hp1 & Hfed1 & _);
    [done..|].
  assert (reliable_ok (system_step sys ev)) as Hrel1.
  { apply (system_step_reliable h stream fed fed1 effs1 L grids ev sys (len evs)); try done; [|apply len_nonneg].
    intros k p Hk. apply Hst1. eapply lookup_weaken; [exact Hk|]. apply log_of_prefix, (system_run_prefix [ev]). }
  apply (IH L1 grids1 _ fed1); try done; [by rewrite (pg_sid _ _ _ _ _ _ Hp1)|apply (pg_order _ _ _ _ _ _ Hp1)].
Qed.

(** What is received and sent stays so. *)
Lemma system_run_grows evs sys :
  sy_received sys `prefix_of` sy_received (system_run evs sys) ∧
  sy_client_sent sys `prefix_of` sy_client_sent (system_run evs sys).
Proof.
  revert sys. induction evs as [|ev evs IH]; intros sys; [done|]. destruct (IH (system_step sys ev)) as [H1' H2'].
  assert (sy_received sys `prefix_of` sy_received (system_step sys ev) ∧
    sy_client_sent sys `prefix_of` sy_client_sent (system_step sys ev)) as [? ?]; [|by split; etransitivity].
  destruct ev as [e|e]; cbn [system_step]; (case_decide; [|done]).
  - unfold server_step. destruct (serve e (sy_server sys)) as [sv [acts| |]]; [|done..].
    split; [by apply prefix_app_r|done].
  - unfold client_step. destruct (client_handle e (sy_client sys)) as [s' r]. split; [done|by apply prefix_app_r].
Qed.

(** The server's loop, not yet stopped, takes the datagram [b] among the events. *)
Fixpoint heard (b : list Z) (evs : list system_event) sys : bool :=
  match evs with
  | [] => false
  | ev :: evs =>
    match ev, sv_phase (sy_server sys) with
    | AtServer (NRecv b' _ _), Stopped => false
    | AtServer (NRecv b' _ _), _ => bool_decide (b' = b)
    | _, _ => false
    end || heard b evs (system_step sys ev)
  end.

Lemma heard_at b evs sys : heard b evs sys = true →
  ∃ i src t, evs !! i = Some (AtServer (NRecv b src t)) ∧ sv_phase (sy_server (system_run (take i evs) sys)) ≠ Stopped.
Proof.
  revert sys. induction evs as [|ev evs IH]; intros sys; cbn [heard]; [done|]. intros [Hnow|Hlater]%orb_true_iff.
  - destruct ev as [[| | |b' src t| | | |]|]; try done. exists 0%nat, src, t.
    destruct (sv_phase (sy_server sys)) eqn:Ep; [| |done]; apply bool_decide_eq_true in Hnow as ->; cbn; by rewrite Ep.
  - destruct (IH _ Hlater) as (i & src & t & Hi & Hp). by exists (S i), src, t.
Qed.

Lemma hear L grids sys k b src t :
  system_ok c L grids sys → load (session sys) + 2 < 2 ^ 64 →
  carried (sy_requested (system_step sys (AtServer (NRecv b src t)))) →
  sv_phase (sy_server sys) ≠ Stopped → b ∈ sy_client_sent sys → numbered_as c k b →
  k ∈ sy_received (system_step sys (AtServer (NRecv b src t))).
Proof.
  intros Hok Hload Hc Hp Hb Hk. assert (server_may (NRecv b src t) sys) as He.
  { unfold server_may. by destruct (sv_phase (sy_server sys)); [left|left|]. }
  cbn [system_step] in *. rewrite decide_True in * by done.
  destruct (server_step_ok c Hcalm Hanswers Hshort L grids sys (NRecv b src t) Hok He Hload Hc)
    as (_ & _ & _ & _ & sv & acts & E & _). unfold server_step, runs in *. rewrite E. cbn.
  rewrite (he_codec _ _ (so_healthy _ _ _ _ Hok)). apply elem_of_app. right. unfold numbered_as in Hk.
  destruct (open_client c b) as [[[wire p] st]| |]; [|done..]. destruct Hk as [<- ->]. by left.
Qed.
End invariant.

(** ** The tick *)

Section tick.
Context {C : Type} `{PacketCodec C}.
Abbreviation Session := (MirrorSession C) (only parsing).
Implicit Types s : Session.

(** A keepalive sent first disturbs no packet kept. *)
Lemma tick_keepalive_lookup now k e l n :
  0 ≤ n → n + 1 < 2 ^ 64 → k ≤ n →
  establishes (λ s, ms_seq_num s = n ∧ ms_unacked_packets s !! k = Some e ∧ ms_last_arq_check s = l)
    (tick_keepalive now) (λ _ s, ms_unacked_packets s !! k = Some e ∧ ms_last_arq_check s = l).
Proof.
  intros H0 Hn Hk s s' a (<- & He & <-). unfold runs, tick_keepalive, mbind at 1, M_bind at 1, get at 1.
  case_decide; [|by intros [= <- _]].
  unfold prepare_keepalive, next_seq, seal_payload, keep_unacked, mbind, M_bind, modify, gets, get, mret, M_ret, lift. cbn.
  rewrite (wrap_small 64) by (unfold fits; lia). destruct (seal_client _ _ _ _ _) as [b| |]; [|done..].
  intros [= <- _]. cbn. by rewrite lookup_insert_ne by lia.
Qed.

Lemma rtt_limit_second rtt : rtt_limit rtt ≤ from_secs 1.
Proof. unfold rtt_limit, from_millis, from_secs. lia. Qed.

(** A check that is due repeats what was sent a second ago. *)
Lemma tick_arq_repeats order now k b t s s' acts :
  runs (tick_arq order now) s s' acts → ms_unacked_packets s !! k = Some (b, t) → k ∈ order →
  from_millis 100 ≤ duration_since now (ms_last_arq_check s) → from_secs 1 ≤ duration_since now t →
  ClientAction.SendPacket b ∈ acts.
Proof.
  intros E Hk Hin Hdue Hold. unfold tick_arq in E. apply runs_bind_inv in E as (s1 & self & [= <- <-] & E).
  rewrite decide_True in E by done. apply runs_bind_inv in E as (s2 & [] & [= <-] & E).
  apply runs_bind_inv in E as (s3 & [] & _ & [= _ <-]).
  apply list_elem_of_fmap. exists (b, k). split; [done|]. apply overdue_elem. split; [done|]. exists t.
  split; [done|]. pose proof (rtt_limit_second (rtt_ms (ms_mirror s))). lia.
Qed.

Lemma tick_repeats order now k b t s s' acts :
  runs (on_tick order now) s s' acts → 0 ≤ ms_seq_num s → ms_seq_num s + 1 < 2 ^ 64 → k ≤ ms_seq_num s →
  ms_unacked_packets s !! k = Some (b, t) → k ∈ order →
  from_millis 100 ≤ duration_since now (ms_last_arq_check s) → from_secs 1 ≤ duration_since now t →
  ClientAction.SendPacket b ∈ acts.
Proof.
  intros E H0 Hn Hkn Hk Hin Hdue Hold. unfold on_tick in E.
  apply runs_bind_inv in E as (s1 & a1 & E1 & E).
  destruct (tick_keepalive_lookup now k (b, t) (ms_last_arq_check s) (ms_seq_num s) H0 Hn Hkn s s1 a1) as [Hk1 Hl1]; [done..|].
  apply runs_bind_inv in E as (s2 & a2 & E2 & E).
  assert (ClientAction.SendPacket b ∈ a2) as Hb by (eapply tick_arq_repeats; [exact E2|exact Hk1|done|by rewrite Hl1|done]).
  apply runs_bind_inv in E as (s3 & a3 & _ & E). apply runs_bind_inv in E as (s4 & a4 & _ & E).
  apply runs_bind_inv in E as (s5 & a5 & _ & [= _ <-]). apply elem_of_app. right. apply elem_of_app. by left.
Qed.
End tick.

(** ** The theorems *)

Section props.
Context {P C T R : Type} `{PtyBackend P, PacketCodecLaws C, VtLaws T R}.
Abbreviation session sys := (sv_session (sy_server sys)) (only parsing).

Lemma run_reliable c codec h s m evs :
  fresh c codec h s m → len evs < 2 ^ 62 →
  let sys := system_run evs (System_new s m) in
  carried (sy_requested sys) → unbroken evs (System_new s m) = true →
  ∃ L grids, system_ok c L grids sys ∧ room (2 ^ 61) sys ∧ reliable_ok c sys.
Proof.
  intros Hf Hlen sys Hc Hunb. destruct (fresh_run c codec h s m evs Hf Hlen Hc) as (Hok0 & Hroom & L & grids & Hok & Hr).
  destruct (fresh_start c codec h s m Hf) as (Es & Ec & Ea & Ee & _).
  pose proof (fresh_in_order c codec h s m (stream_of (sy_numbered sys)) Hf) as Hio. fold sys in Hok, Hr.
  exists L, grids. split; [done|]. split; [done|].
  pose proof Hf as [Hcalm Hans Hsh Hseals [_ Hne] Hstart _ _ _].
  apply (system_run_reliable c Hcalm Hans Hsh Hseals h (stream_of (sy_numbered sys)) evs ∅ ∅ _ ∅);
    try done; [intros k; by eapply stream_of_payload|intros k q; apply stream_of_log|set_solver|].
  split; cbn; [by split; [..|lia]|split; cbn; constructor|]. intros k Hk. exfalso. change (len ([] : list ClientPayload)) with 0 in Hk. lia.
Qed.

(** What is kept opens to the payload of its number. *)
Lemma kept_opens c L grids (sys : System P C T R) k b t :
  system_ok c L grids sys → ms_unacked_packets (sy_client sys) !! k = Some (b, t) →
  numbered_as c k b ∧ ∃ wire p st, open_client c b = Ok (wire, p, st) ∧ ec_seq_num wire = k ∧
    is_transient k p = false ∧ log_of (sy_numbered sys) !! k = Some p.
Proof.
  intros Hok Hk. destruct (cg_unacked _ _ _ _ _ _ (so_clog _ _ _ _ Hok) k _ Hk) as [(wire & p & st & E & _ & _ & _ & _ & Hp & _) Hn].
  split; [done|]. unfold numbered_as in Hn. cbn [fst] in *. rewrite E in Hn. destruct Hn as [<- Ht]. exists wire, p, st. auto.
Qed.

(** C4. Nothing is lost but what the handshake's number hides. Take the system after any run as above in
    which no event of the client's session ends with an error (the client's loop ends with the first
    one); let [h] be the number of the client's handshake and [e] the next one the server expects. Then
    every datagram the server has put on its socket acknowledges a number below [e], whatever codec it is
    opened with. And of the reliable payloads the client has numbered (keystrokes, sizes, keepalives), those
    numbered [h + 1] to [e - 1] have been applied to the pseudo-terminal and the emulator, once each and in
    order, with no other of the client's; and each one numbered [e] or above is still in the client's map of
    packets to repeat, under its number, as a datagram that was sent and that the server's codec opens to
    that payload and that number, as a reliable packet. Those numbered [h] or below are never applied: the
    server takes them for duplicates. *)
Theorem nothing_lost c codec h s m evs :
  fresh c codec h s m → len evs < 2 ^ 62 →
  let sys := system_run evs (System_new s m) in
  let client := sy_client sys in
  let e := as_expected_client_seq (session sys) in
  let numbered := sy_numbered sys in
  carried (sy_requested sys) → unbroken evs (System_new s m) = true →
  (∀ b codec' codec'' pkt p st, b ∈ (sv_sent (sy_server sys)).*1 →
     open_server b codec' = (codec'', Ok (Some (pkt, p, st))) → es_ack_seq_num pkt < e) ∧
  (h < e ∧ ∃ effs, world (session sys) = foldl apply_effect (world s) effs ∧
     filter (λ f, from_client f = true) effs =
       omap client_effect (take (Z.to_nat (e - 1 - h)) (drop (Z.to_nat h) numbered))) ∧
  (∀ i p, numbered !! i = Some p → let k := Z.of_nat i + 1 in e ≤ k →
     ∃ b t wire st, ms_unacked_packets client !! k = Some (b, t) ∧ b ∈ sy_client_sent sys ∧
       open_client c b = Ok (wire, p, st) ∧ ec_seq_num wire = k ∧ is_transient k p = false).
Proof.
  intros Hf Hlen sys client e numbered Hc Hunb.
  destruct (run_reliable c codec h s m evs Hf Hlen Hc Hunb) as (L & grids & Hok & _ & [Hr Ht Hk]).
  destruct (run_effects c codec h s m evs Hf Hlen Hc) as (effs & Hw & Heffs & [_ He] & _).
  fold sys client in Hok, Hr, Ht, Hk, Hw, Heffs, He. split; [|split; [split; [exact He|by exists effs]|]].
  - intros b codec' codec'' pkt p st Hb. apply (truthful_opened c). pose proof (tr_sent _ _ _ Ht) as Hs.
    rewrite Forall_forall in Hs. apply list_elem_of_fmap in Hb as ([b' t] & -> & Hin). by apply (Hs (b', t)).
  - intros i p Hp k Hek. assert (1 ≤ k ≤ len (sy_numbered sys)) as Hkn.
    { apply lookup_lt_Some in Hp. unfold numbered in Hp. unfold len, k. lia. }
    destruct (Hk k Hkn) as [?|(b & Eb & Hin)]; [lia|]. apply fmap_Some in Eb as ([b' t] & Eb & ->).
    destruct (kept_opens c L grids sys k b' t Hok Eb) as (_ & wire & q & st & E & Es & Htr & Hq).
    apply log_of_lookup in Hq as [_ Hq]. unfold numbered in Hp.
    assert (q = p) as -> by (unfold k in Hq; replace (Z.to_nat _) with i in Hq by lia; congruence).
    by exists b', t, wire, st.
Qed.

(** What is heard after a state of a run has been received at its end. *)
Lemma heard_received c codec h s m evs evs' k b :
  fresh c codec h s m → len (evs ++ evs') < 2 ^ 62 →
  carried (sy_requested (system_run (evs ++ evs') (System_new s m))) →
  let sys := system_run evs (System_new s m) in
  b ∈ sy_client_sent sys → numbered_as c k b → heard b evs' sys = true →
  k ∈ sy_received (system_run (evs ++ evs') (System_new s m)).
Proof.
  intros Hf Hlen Hc sys Hb Hk (i & src & t & Hi & Hp)%heard_at.
  rewrite <-(take_drop_middle evs' i _ Hi) in Hlen, Hc |- *. set (pre := take i evs') in *. set (post := drop (S i) evs') in *.
  set (ev := AtServer (NRecv b src t)) in *. set (start := System_new s m) in *.
  set (sys1 := system_run (evs ++ pre) start). set (sys2 := system_step sys1 ev).
  assert (∀ l, system_run (evs ++ pre ++ ev :: l) start = system_run l sys2) as Erun.
  { intros l. rewrite (assoc_L (++)), system_run_app. reflexivity. }
  assert (carried (sy_requested sys2)) as Hc2.
  { rewrite Erun in Hc. eapply carried_prefix; [|exact Hc]. apply (system_run_prefix post). }
  assert (len (evs ++ pre) < 2 ^ 62) as Hlen1.
  { unfold len in *. rewrite !length_app in *. cbn [length] in Hlen. lia. }
  assert (carried (sy_requested sys1)) as Hc1.
  { eapply carried_prefix; [|exact Hc2]. apply (system_run_prefix [ev]). }
  destruct (fresh_run c codec h s m (evs ++ pre) Hf Hlen1 Hc1) as (_ & _ & L & grids & Hok & [Hload _]).
  fold start sys1 in Hok, Hload. pose proof Hf as [Hcalm Hans Hsh _ _ _ _ _ _].
  assert (system_run pre sys = sys1) as Epre by (unfold sys1, sys; by rewrite system_run_app).
  rewrite Erun. eapply elem_of_prefix; [|apply (system_run_grows post sys2)].
  apply (hear c Hcalm Hans Hsh L grids); [done|lia|done|by rewrite <-Epre| |done].
  rewrite <-Epre. eapply elem_of_prefix; [exact Hb|apply (system_run_grows pre sys)].
Qed.

(** C3. One round of retransmission brings everything above the handshake's number. Take any state of the
    system reached by a run as above in which no event of the client's session ended with an error, whatever
    the network has lost. Let the client's timer tick when its check of old packets is due (100 ms after
    the last one), when all packets kept were sent a second ago or more and the map of them is walked
    completely; and let the server, before it stops, hear each datagram the tick asks to send, in any
    order, any number of times and among any further events. Then the server expects a number [e] above
    every payload numbered before the tick; the pseudo-terminal and the emulator have been given the
    payloads numbered [h + 1] to [e - 1], once each, in order and no other of the client's, where [h] is
    the number of the client's handshake; and what the escape interpreter leaves of all that was typed
    until the tick is a beginning of the keystrokes numbered [h] or below, which the server drops,
    followed by those the shell has been given to read, unless the user disconnects. *)
Theorem everything_arrives c codec h s m evs order now m' acts evs' :
  fresh c codec h s m →
  let start := System_new s m in
  let tick := AtClient (CTick order now) in
  let sys := system_run evs start in
  let client := sy_client sys in
  let sys' := system_run (evs ++ tick :: evs') start in
  let e := as_expected_client_seq (session sys') in
  let typed := concat (typed_at <$> evs) in
  len (evs ++ tick :: evs') < 2 ^ 62 → carried (sy_requested sys') → unbroken evs start = true →
  on_tick order now client = (m', Ok acts) → from_millis 100 ≤ duration_since now (ms_last_arq_check client) →
  (∀ k b t, ms_unacked_packets client !! k = Some (b, t) → k ∈ order ∧ from_secs 1 ≤ duration_since now t) →
  (∀ b, ClientAction.SendPacket b ∈ acts → heard b evs' (system_step sys tick) = true) →
  len (sy_numbered sys) < e ∧
  ∃ effs, world (session sys') = foldl apply_effect (world s) effs ∧
    filter (λ f, from_client f = true) effs =
      omap client_effect (take (Z.to_nat (e - 1 - h)) (drop (Z.to_nat h) (sy_numbered sys'))) ∧
    (stays typed → text_of typed `prefix_of` keystrokes (take (Z.to_nat h) (sy_numbered sys')) ++ written effs).
Proof.
  intros Hf start tick sys client sys' e typed Hlen Hc Hunb Etick Hdue Hold Hheard.
  assert (system_run (evs ++ [tick]) start = system_step sys tick) as Estep by by rewrite system_run_app.
  assert (sys' = system_run evs' (system_step sys tick)) as Erun by (unfold sys'; by rewrite system_run_app).
  assert (len evs < 2 ^ 62) as Hlen1.
  { unfold len in *. rewrite length_app in Hlen. cbn [length] in Hlen. lia. }
  assert (carried (sy_requested sys)) as Hc1.
  { eapply carried_prefix; [|exact Hc]. rewrite Erun. apply (system_run_prefix (tick :: evs') sys). }
  destruct (run_reliable c codec h s m evs Hf Hlen1 Hc1 Hunb) as (L & grids & Hok & [_ Hroom] & Hrel).
  destruct (run_effects c codec h s m evs Hf Hlen1 Hc1) as (_ & _ & _ & _ & Hdone1 & _).
  destruct (run_effects c codec h s m _ Hf Hlen Hc) as (effs & Hw & Heffs & He & _ & Hnext & _).
  fold start sys sys' e client in Hok, Hroom, Hrel, Hdone1, Hw, Heffs, He, Hnext.
  assert (len (sy_numbered sys) < e) as Hall.
  { apply Z.nle_gt. intros Hle. apply Hnext. rewrite Erun.
    destruct (rl_kept c sys Hrel e) as [Hlt|(b & Eb & Hb)]; [lia|..].
    - eapply elem_of_prefix; [apply Hdone1; lia|]. apply (system_run_grows (tick :: evs') sys).
    - apply fmap_Some in Eb as ([b' t] & Ek & ->). cbn [fst] in *.
      destruct (kept_opens c L grids sys e b' t Hok Ek) as [Hnum _]. destruct (Hold e b' t Ek) as [Hin Hsec].
      pose proof (so_seq _ _ _ _ Hok) as Hseq. fold client in Hseq. rewrite <-Erun. clear Erun Hnext. unfold sys' in Hc |- *.
      rewrite cons_middle, (assoc_L (++)) in Hlen, Hc |- *.
      apply (heard_received c codec h s m (evs ++ [tick]) evs' e b'); try done; fold start; rewrite Estep.
      + eapply elem_of_prefix; [exact Hb|]. apply (system_run_grows [tick] sys).
      + apply Hheard. apply (tick_repeats order now e b' t client m' acts); try done; lia. }
  split; [done|]. exists effs. split; [done|]. split; [exact Heffs|]. intros Hstay.
  destruct (run_forwards c codec h s m evs Hf Hlen1 Hc1 Hstay) as [_ Etext]. fold start sys typed in Etext. rewrite <-Etext.
  rewrite <-written_client, Heffs, written_effects, <-keystrokes_app, take_take_drop. apply keystrokes_prefix.
  destruct (system_run_prefix (tick :: evs') sys) as [_ [rest Erest]].
  change (system_run (tick :: evs') sys) with (system_run evs' (system_step sys tick)) in Erest. rewrite <-Erun in Erest.
  rewrite Erest, take_app_ge by (unfold len in Hall; lia). by apply prefix_app_r.
Qed.
End props.

(** ** Witnesses *)

(** As the program starts: the handshake was number 1, and so is the layout the client sends first. Of the
    keys typed then, numbered 2 to 4, the first arrives and the last, and number 3 is lost. *)
Definition demo_connected : list system_event := AtClient (CWinch 3 2 (at_ms 4)) :: demo_typed.
Definition demo_packet (i : nat) : list Z :=
  default [] (sy_client_sent (system_run demo_connected demo_system) !! i).
Definition demo_lost : list system_event :=
  demo_connected ++
  ((λ i, AtServer (NRecv (demo_packet i) demo_addr (at_ms 30))) <$> [0%nat; 1%nat; 3%nat]).
Definition demo_tick : client_event := CTick [1; 2; 3; 4] (at_ms 1500).
(** What is repeated arrives in another order. *)
Definition demo_repair : list system_event :=
  (λ i, AtServer (NRecv (demo_packet i) demo_addr (at_ms 1600))) <$> [3%nat; 2%nat; 1%nat; 0%nat].
Abbreviation demo_at_tick := (system_run demo_lost (System_new demo_session demo_client)) (only parsing).

Lemma demo_lost_carried : carried (sy_requested demo_at_tick).
Proof. apply (bool_decide_unpack _). vm_compute. exact I. Qed.

Lemma nothing_lost_witness :
  as_expected_client_seq (sv_session (sy_server demo_at_tick)) = 3 ∧
  (∃ effs, world (sv_session (sy_server demo_at_tick)) = foldl apply_effect (world demo_session) effs ∧
     filter (λ f, from_client f = true) effs = [EKeys [97]]) ∧
  ∃ b t wire st, ms_unacked_packets (sy_client demo_at_tick) !! 3 = Some (b, t) ∧
    open_client (NullCodec_new 12345) b = Ok (wire, ClientPayload.Keystrokes [98], st) ∧ ec_seq_num wire = 3.
Proof.
  assert (as_expected_client_seq (sv_session (sy_server demo_at_tick)) = 3) as He by (vm_compute; reflexivity).
  split; [exact He|].
  destruct (nothing_lost (NullCodec_new 12345) (NullCodec_new 12345) 1 demo_session demo_client demo_lost demo_fresh)
    as (_ & (_ & effs & Hw & Heffs) & Hk).
  - vm_compute. reflexivity.
  - exact demo_lost_carried.
  - vm_compute. reflexivity.
  - split; [exists effs; split; [exact Hw|]; rewrite Heffs; vm_compute; reflexivity|].
    destruct (Hk 2%nat (ClientPayload.Keystrokes [98])) as (b & t & wire & st & Hb & _ & Eo & Es & _).
    + vm_compute. reflexivity.
    + rewrite He. discriminate.
    + exists b, t, wire, st. split; [exact Hb|]. split; [exact Eo|exact Es].
Defined.

Lemma demo_tick_heard :
  match (on_tick [1; 2; 3; 4] (at_ms 1500) (sy_client demo_at_tick)).2 with
  | Ok acts => forallb (λ b, heard b demo_repair (system_step demo_at_tick (AtClient demo_tick))) (sends acts)
  | _ => false
  end = true.
Proof. vm_compute. reflexivity. Qed.
Lemma demo_tick_old :
  bool_decide (map_Forall (λ k (e : list Z * Z), k ∈ [1; 2; 3; 4] ∧ from_secs 1 ≤ duration_since (at_ms 1500) e.2)
    (ms_unacked_packets (sy_client demo_at_tick))) = true.
Proof. vm_compute. reflexivity. Qed.
Lemma demo_repair_carried :
  carried (sy_requested (system_run (demo_lost ++ AtClient demo_tick :: demo_repair) (System_new demo_session demo_client))).
Proof. apply (bool_decide_unpack _). vm_compute. exact I. Qed.

Lemma everything_arrives_witness :
  let sys := system_run (demo_lost ++ AtClient demo_tick :: demo_repair) (System_new demo_session demo_client) in
  4 < as_expected_client_seq (sv_session (sy_server sys)) ∧
  ∃ effs, world (sv_session (sy_server sys)) = foldl apply_effect (world demo_session) effs ∧
    filter (λ f, from_client f = true) effs = EKeys <$> [[97]; [98]; [99]] ∧
    [97; 98; 99] `prefix_of` written effs.
Proof.
  intros sys. pose proof demo_tick_heard as Hheard. pose proof demo_tick_old as Hold. apply bool_decide_eq_true in Hold.
  destruct (on_tick [1; 2; 3; 4] (at_ms 1500) (sy_client demo_at_tick)) as [m' [acts| |]] eqn:E; [|discriminate Hheard..].
  cbn [snd] in Hheard. rewrite forallb_forall in Hheard.
  destruct (everything_arrives (NullCodec_new 12345) (NullCodec_new 12345) 1 demo_session demo_client demo_lost
    [1; 2; 3; 4] (at_ms 1500) m' acts demo_repair demo_fresh) as [Hall (effs & Hw & Heffs & Ht)].
  - vm_compute. reflexivity.
  - exact demo_repair_carried.
  - vm_compute. reflexivity.
  - exact E.
  - apply (bool_decide_unpack _). vm_compute. exact I.
  - intros k b t Hk. exact (Hold k (b, t) Hk).
  - intros b Hb. apply Hheard, list_elem_of_In, list_elem_of_omap. exists (ClientAction.SendPacket b). split; [exact Hb|reflexivity].
  - assert (len (sy_numbered demo_at_tick) = 4) as H4 by (vm_compute; reflexivity). rewrite H4 in Hall. split; [exact Hall|].
    exists effs. split; [exact Hw|]. split; [rewrite Heffs; vm_compute; reflexivity|].
    assert (text_of (concat (typed_at <$> demo_lost)) = [97; 98; 99]) as Etext by (vm_compute; reflexivity).
    assert (keystrokes (take (Z.to_nat 1) (sy_numbered sys)) = []) as Ek by (vm_compute; reflexivity).
    rewrite <-Etext. change (written effs) with ([] ++ written effs). rewrite <-Ek. apply Ht.
    apply (bool_decide_unpack _). vm_compute. exact I.
Defined.
